(* ===== verification/_CoqProject ===== *)
-Q . S2P
Prelude.v
Storage.v
OMap.v
Bloom.v
SSTableBuilder.v
SSTableReader.v
SSTable.v
Crc.v
Files.v
Wal.v
Manifest.v
SkipList.v
SkipListShow.v
Table.v
MemTable.v
DBIterator.v
Compaction.v
Recovery.v
DBImpl.v
DBConc.v
LongRuns.v
Disk.v
DiskSteps.v
Durability.v
Shutdown.v
Faults.v
NetBuffer.v
Resp.v
Command.v
ThreadPool.v
Server.v
ServerDB.v
ServerFrame.v
ServerInv.v
ServerRun.v
ServerLoop.v
ServerErrors.v
ServerStore.v
Process.v
Logger.v
