(* ===== verification/Prelude.v ===== *)
(** * NovaKV: a verification of its storage engine and its server

    NovaKV is a log-structured key-value store in C++ with a network server that
    speaks the RESP protocol.  A write goes to a
    write-ahead log and to a skip list in memory; full memory tables become
    sorted files of level 0 (SSTables), level 0 is merged into level 1, and a
    manifest records which files and logs are alive.  The server runs one event
    loop, which owns the connections, and a pool of workers, which execute the
    requests on the store and hand the replies back.

    ** Files of the development

    - [Prelude]: octets, little-endian integers, the order on strings, reads of
      mapped memory ([outcome]), [std::lower_bound], tactics and the hint
      database [nova].
    - [Storage] models [include/ValueRecord.h], [include/Storage.h] and
      [include/FileFormats.h].
    - [OMap]: sorted association lists, the reference ([std::map]) that tables
      are compared with.
    - [Bloom] models [include/BloomFilter.h].
    - [SSTableBuilder] models [src/BlockBuilder.cpp] and
      [src/SSTableBuilder.cpp]; [SSTableReader] models [src/SSTableReader.cpp];
      [SSTable] holds the theorems about both.
    - [Crc] and [Wal] model [src/WalHandler.cpp].
    - [Files]: the database directory and its file names, decimal numerals.
    - [Manifest] models [src/ManifestManager.cpp].
    - [SkipList] models [include/SkipList.h] at the level of its nodes: a heap of
      nodes with one pointer per level; [SkipListShow] what [display_list] prints.
    - [Table]: the interface ([Class Table]) that a memory table and an SSTable
      promise to the store, and the search through a stack of tables.
    - [MemTable] models [include/MemTable.h]; [DBIterator] models
      [src/DBIterator.cpp].
    - [Compaction] models [src/CompactionEngine.cpp] and
      [DBImpl::CompactL0ToL1]; [Recovery] models [src/RecoveryLoader.cpp].
    - [DBImpl] models [src/DBImpl.cpp]; [DBConc] its background thread: the
      critical sections of the two threads as a step relation, and a proof that
      the sequential turn of [DBImpl] is one of its runs; [LongRuns] follows it
      for as long as it takes to fill its tables.
    - [Disk]: the invariant between the store in memory and its directory (every
      table, log and manifest entry has its file, and no other file counts);
      [DiskSteps]: every step of [DBConc] keeps it; [Durability]: what the next
      start makes of the directory; [Shutdown]: the same after the destructor;
      [Faults]: the sizes of the tables, and flushes that fail.
    - [NetBuffer] models [network/NetworkBuffer.cpp]; [Resp]
      [network/RESPParser.cpp] and [network/RESPEncoder.cpp]; [Command]
      [network/CommandExecutor.cpp]; [ThreadPool] [network/ThreadPool.h].
    - [Server] models [network/TcpServer.cpp] and [network/Connection.h] on the
      interface ([Class Executor]) that it needs of the command executor;
      [ServerDB] is the instance.  [ServerFrame] says what each handler leaves
      alone, [ServerInv] holds the step relation, the invariant and its lemma
      for every handler, [ServerRun] the theorems for any executor,
      [ServerLoop] the event loop as a thread of its own, up to its return,
      [ServerErrors] an early end of file and a second start,
      [ServerStore] the theorems about the server on the store.
    - [Process] models [server_main.cpp]: opening, serving, signals, closing.
    - [Logger] models [src/Logger.cpp]: which messages reach which sink.

    Definitions keep the names of the C++ methods; a method of a class whose
    name would clash is prefixed with the class ([SSTableBuilder_Add]).  Objects
    are records passed through the operations, references to shared objects
    (the manifest, the directory) are threaded explicitly.

    ** Conventions

    Octets are [Byte.byte], unsigned machine words are [Z] with the wrap-around
    written ([u32], [u64]), [std::string] is a list of octets.  A read outside
    the mapping of a file is [Fault] (undefined behaviour of the source).  Loops
    whose bound is not structural take fuel; [NoFuel] is a separate outcome, and
    a termination theorem per loop shows that the fuel that the definitions pass
    (one more than the number of octets left) is enough.  Uninitialised
    variables are arguments, so the theorems hold for every content.

    Files are a map from names to contents with a queue of outcomes for the next
    attempts to open and write, so failing and short writes are part of the
    model ([Files]).  Likewise the answers of the kernel to the server's system
    calls are arguments of its handlers; what the kernel remembers (descriptors,
    registrations, the eventfd) and a log of events that no code reads are part
    of the server's state ([Server]).

    ** Theorems

    - SSTables: build-then-read round trip through index, Bloom filter and
      binary search; no false negative of the filter; termination of the readers
      on every file; the empty table; the overflow of the index bounds check.
    - Write-ahead log: the table-driven CRC-32 is the bit-serial one; round
      trip; detection of a changed octet; torn tails; termination.
    - Manifest: snapshot round trip; files follow memory over any sequence of
      operations; crash atomicity; two defects of the error paths; termination.
    - Skip list: any sequence of operations behaves like a sorted association
      list, without undefined behaviour, whatever the coin flips; what is printed
      shows the heights of its nodes.
    - Memory table and iterator: the table is rebuilt from its log; one failed
      write mutes the log; enumeration from a key onwards.
    - Compaction: the visible value of every key is preserved; each of the three
      phases has its own lemma, so that other steps may come between them.
    - Durability: when the process dies between two critical sections, the next
      start shows the map that the completed writes built, and for the whole
      process the map after all commands executed; so it does when the process
      ends by itself and no flush is pending.  In these theorems SSTables may
      fail to be written and the other file operations succeed (what happens when
      they do not is the subject of the theorems on the log and the manifest), and
      what was written is in the files; a record cut by the crash is the subject of
      the theorem on torn tails.  Two defects: between the removals of the inputs
      of a compaction a crash brings old values back, and so does a shutdown
      that forgets an immutable table.
    - Store: a fresh store behaves like a finite map under any sequence of writes
      and flushes ([DBImpl]) and under any interleaving of the critical sections
      of its two threads ([DBConc]); a flush changes no answer; the
      tables in memory are bounded.  Three defects: old logs are replayed over
      newer data, a wake-up of the background thread can be lost for ever, and a
      flush that fails is never tried again.
    - Protocol: the buffer is a queue; the parser does not depend on how the
      stream is cut, and reads what the encoder writes; one signed overflow.
    - Commands: every request acts on a map and is answered as its specification
      says, errors included; one reply can be forged.
    - Thread pool: tasks are started in order, none is lost, no wake-up is lost,
      shutting down ends.
    - Server: in every reachable state, under any interleaving and any answers of
      the kernel, the replies on each connection are those of its requests in
      their order; requests are executed once; what is to be done is registered
      with the kernel or with a worker; shutting down drains; no descriptor
      leaks; the event loop never gets stuck, and when it returns every request
      has been executed and everything is released, and the
      process ends; the store is linearizable
      across all connections.  Two defects: a connection may not read its own writes, and a
      protocol error holds back replies.

    - Logger: messages are routed by threshold and sink, none is lost while
      nothing fails; after a failed write all are lost.

    The refinement goes through one invariant: [db_inv] relates the objects of
    the store to a stack of row lists, newest first; [stack_view] is what the
    user sees of the stack.  Its bounds (the data fit into 2^60 octets, file
    numbers into 64 bits) are hypotheses of the theorems.

    ** Not modelled

    The calls of the logger and the other output on the standard streams, on
    which no result depends; the locks
    inside the memory table and the manifest, whose critical sections are the
    operations themselves; work outside [state_mu_] is one step per stretch.  In
    the server, a command is one step of its worker, between whose steps the
    background thread and the switch of a full table make theirs ([DBConc]);
    [Stop] comes between handlers, although a signal may interrupt one;
    [epoll_wait] is the choice of the next event; running out of memory.  The reasons are listed in the
    manifest of the development. *)
From stdpp Require Export base gmap list sorting strings.
From Stdlib Require Export ZArith Lia.
From Stdlib Require Export Strings.Byte.

Open Scope Z_scope.

(** ** Bytes *)

(** [char] of the source, one octet. *)
Definition byte_to_Z (b : byte) : Z := Z.of_N (Byte.to_N b).

(** [static_cast<uint8_t>]: reduction modulo 256. *)
Definition Z_to_byte (z : Z) : byte :=
  match Byte.of_N (Z.to_N (z mod 256)) with
  | Some b => b
  | None => x00
  end.

(** A [char] seen as a signed integer (the source is built for targets whose
    [char] is signed). *)
Definition byte_to_sZ (b : byte) : Z :=
  let z := byte_to_Z b in if z <? 128 then z else z - 256.

(** [std::string], a sequence of octets. *)
Abbreviation bytes := (list byte).

(** A string literal of the source. *)
Definition str (s : String.string) : bytes := String.list_byte_of_string s.

#[export] Instance byte_eq_decision : EqDecision byte := Byte.byte_eq_dec.

#[export] Instance byte_countable : Countable byte.
Proof.
  refine (inj_countable Byte.to_N Byte.of_N _).
  intros b. apply Byte.of_to_N.
Defined.

(** ** Machine integers *)

Definition u32 (z : Z) : Z := z mod 2 ^ 32.
Definition u64 (z : Z) : Z := z mod 2 ^ 64.

(** [z] is representable by the unsigned type of [w] bits. *)
Definition fits (w z : Z) : Prop := 0 <= z < 2 ^ w.

(** [append(reinterpret_cast<const char*>(&x), n)]: the [n] octets of a
    little-endian object representation. *)
Fixpoint le_encode (n : nat) (z : Z) : bytes :=
  match n with
  | O => []
  | S n' => Z_to_byte z :: le_encode n' (z / 256)
  end.

(** [memcpy(&x, p, n)] read back as an unsigned integer. *)
Fixpoint le_decode (bs : bytes) : Z :=
  match bs with
  | [] => 0
  | b :: bs' => byte_to_Z b + 256 * le_decode bs'
  end.

(** ** Lexicographic order of [std::string] *)

(** [std::string::compare], through [char_traits<char>::compare], which
    compares octets as [unsigned char]. *)
Fixpoint bytes_compare (a b : bytes) : comparison :=
  match a, b with
  | [], [] => Eq
  | [], _ :: _ => Lt
  | _ :: _, [] => Gt
  | x :: a', y :: b' =>
      match byte_to_Z x ?= byte_to_Z y with
      | Eq => bytes_compare a' b'
      | c => c
      end
  end.

(** [operator<] on [std::string]. *)
Definition bytes_ltb (a b : bytes) : bool :=
  match bytes_compare a b with Lt => true | _ => false end.

Definition bytes_lt (a b : bytes) : Prop := bytes_compare a b = Lt.

#[export] Instance bytes_lt_dec : RelDecision bytes_lt.
Proof. intros a b. unfold bytes_lt. solve_decision. Defined.

(** ** Reads that may leave the file *)

(** Result of code that reads memory at computed addresses: [Fault] stands for
    an access outside the mapped object (undefined behaviour), [NoFuel] for a
    recursion bound that was too small; the termination theorems show that
    [NoFuel] never occurs with the bounds the definitions use. *)
Inductive outcome (A : Type) : Type :=
| Ret (a : A)
| Fault
| NoFuel.
Arguments Ret {A} a.
Arguments Fault {A}.
Arguments NoFuel {A}.

Definition obind {A B} (m : outcome A) (f : A -> outcome B) : outcome B :=
  match m with
  | Ret a => f a
  | Fault => Fault
  | NoFuel => NoFuel
  end.

Declare Scope nova_scope.
Delimit Scope nova_scope with nova.
Notation "'let*' x ':=' m 'in' k" := (obind m (fun x => k))
  (at level 10, x pattern, m at level 200, k at level 200) : nova_scope.
Open Scope nova_scope.

(** Length of a list as a [Z] (a [size_t] of the source). *)
Definition zlen {A} (l : list A) : Z := Z.of_nat (List.length l).

(** The [n] octets at offset [off] of a memory object. *)
Definition mem_read (data : bytes) (off n : Z) : outcome bytes :=
  if (0 <=? off) && (0 <=? n) && (off + n <=? zlen data)
  then Ret (take (Z.to_nat n) (drop (Z.to_nat off) data))
  else Fault.

(** [memcpy(&x, p + off, n)] into an unsigned integer. *)
Definition mem_read_le (data : bytes) (off n : Z) : outcome Z :=
  let* bs := mem_read data off n in Ret (le_decode bs).

(** ** [std::lower_bound] *)

(** The halving search of the C++ library: [len] elements remain, starting at
    index [first]; [lt e] is the comparison of the middle element with the value sought. *)
Fixpoint lower_bound_loop {A} (fuel : nat) (lt : A -> bool) (l : list A)
    (first len : nat) : nat :=
  match fuel with
  | O => first
  | S fuel' =>
      if (len =? 0)%nat then first
      else
        let half := (len / 2)%nat in
        match l !! (first + half)%nat with
        | Some e =>
            if lt e
            then lower_bound_loop fuel' lt l (first + half + 1) (len - half - 1)
            else lower_bound_loop fuel' lt l first half
        | None => first
        end
  end.

Definition lower_bound {A} (lt : A -> bool) (l : list A) : nat :=
  lower_bound_loop (S (List.length l)) lt l 0 (List.length l).

(** * Lemmas *)

(** ** Tactics and hint databases *)

Create HintDb nova.
Create Rewrite HintDb nova.

(** Case analysis on the first [match] or [if] of the goal. *)
Ltac case_goal :=
  match goal with
  | |- context [match ?x with _ => _ end] => destruct x eqn:?
  end.

(** Turn boolean comparisons on [Z] in the hypotheses into propositions. *)
Ltac z_bool :=
  repeat match goal with
  | H : (_ && _) = true |- _ => apply andb_true_iff in H as [? ?]
  | H : (_ <=? _) = true |- _ => apply Z.leb_le in H
  | H : (_ <=? _) = false |- _ => apply Z.leb_gt in H
  | H : (_ <? _) = true |- _ => apply Z.ltb_lt in H
  | H : (_ <? _) = false |- _ => apply Z.ltb_ge in H
  | H : (_ =? _) = true |- _ => apply Z.eqb_eq in H
  | H : (_ =? _) = false |- _ => apply Z.eqb_neq in H
  end.

(** ** Bytes *)

Lemma byte_to_Z_bounds b : 0 <= byte_to_Z b < 256.
Proof.
  unfold byte_to_Z. pose proof (Byte.to_N_bounded b). lia.
Qed.

Lemma byte_to_Z_to_byte z : byte_to_Z (Z_to_byte z) = z mod 256.
Proof.
  unfold Z_to_byte, byte_to_Z.
  pose proof (Z.mod_pos_bound z 256 ltac:(lia)).
  destruct (Byte.of_N (Z.to_N (z mod 256))) eqn:E.
  - apply Byte.to_of_N in E. rewrite E. lia.
  - apply Byte.of_N_None_iff in E. lia.
Qed.

Lemma byte_to_Z_inj a b : byte_to_Z a = byte_to_Z b -> a = b.
Proof.
  unfold byte_to_Z. intros H%N2Z.inj.
  pose proof (Byte.of_to_N a) as Ha. pose proof (Byte.of_to_N b) as Hb.
  congruence.
Qed.

Lemma Z_to_byte_to_Z b : Z_to_byte (byte_to_Z b) = b.
Proof.
  apply byte_to_Z_inj. rewrite byte_to_Z_to_byte.
  apply Z.mod_small, byte_to_Z_bounds.
Qed.

(** A property of all bytes that computes can be checked on the 256 of them. *)
Lemma byte_forall (P : Z -> Prop) :
  (forall n, (n < 256)%nat -> P (Z.of_nat n)) -> forall b, P (byte_to_Z b).
Proof.
  intros H b. pose proof (byte_to_Z_bounds b).
  rewrite <- (Z2Nat.id (byte_to_Z b)) by lia. apply H. lia.
Qed.

(** ** Machine integers *)

Lemma u32_bounds z : 0 <= u32 z < 2 ^ 32.
Proof. unfold u32. apply Z.mod_pos_bound. lia. Qed.

Lemma u64_bounds z : 0 <= u64 z < 2 ^ 64.
Proof. unfold u64. apply Z.mod_pos_bound. lia. Qed.

Lemma u32_small z : 0 <= z < 2 ^ 32 -> u32 z = z.
Proof. apply Z.mod_small. Qed.

Lemma u64_small z : 0 <= z < 2 ^ 64 -> u64 z = z.
Proof. apply Z.mod_small. Qed.

(** ** Lengths *)

Lemma zlen_nil {A} : zlen (@nil A) = 0.
Proof. done. Qed.

Lemma zlen_cons {A} (x : A) l : zlen (x :: l) = 1 + zlen l.
Proof. unfold zlen. simpl. lia. Qed.

Lemma zlen_app {A} (l1 l2 : list A) : zlen (l1 ++ l2) = zlen l1 + zlen l2.
Proof. unfold zlen. rewrite length_app. lia. Qed.

Lemma zlen_nonneg {A} (l : list A) : 0 <= zlen l.
Proof. unfold zlen. lia. Qed.

#[export] Hint Rewrite @zlen_nil @zlen_cons @zlen_app : nova.

(** Positivity of every length in sight, then linear arithmetic. *)
Ltac zlen_lia :=
  autorewrite with nova in *;
  repeat match goal with
  | |- context [zlen ?l] =>
      lazymatch goal with
      | H : 0 <= zlen l |- _ => fail
      | _ => pose proof (zlen_nonneg l)
      end
  | H0 : context [zlen ?l] |- _ =>
      lazymatch goal with
      | H : 0 <= zlen l |- _ => fail
      | _ => pose proof (zlen_nonneg l)
      end
  end; lia.

(** ** Little-endian encodings *)

Lemma pow2_pos n : 0 <= n -> 0 < 2 ^ n.
Proof. intros. by apply Z.pow_pos_nonneg. Qed.

Lemma length_le_encode n z : length (le_encode n z) = n.
Proof. revert z. induction n as [|n IH]; intros z; simpl; [done|]. by rewrite IH. Qed.

Lemma zlen_le_encode n z : zlen (le_encode n z) = Z.of_nat n.
Proof. unfold zlen. by rewrite length_le_encode. Qed.

#[export] Hint Rewrite zlen_le_encode : nova.

Lemma le_decode_encode n z :
  le_decode (le_encode n z) = z mod 2 ^ (8 * Z.of_nat n).
Proof.
  revert z. induction n as [|n IH]; intros z.
  { simpl. by rewrite Z.mod_1_r. }
  cbn [le_encode le_decode]. rewrite IH, byte_to_Z_to_byte.
  replace (8 * Z.of_nat (S n)) with (8 + 8 * Z.of_nat n) by lia.
  rewrite Z.pow_add_r by lia. change (2 ^ 8) with 256.
  pose proof (pow2_pos (8 * Z.of_nat n) ltac:(lia)).
  rewrite Z.rem_mul_r by lia. done.
Qed.

Lemma le_decode_encode_fits n z :
  fits (8 * Z.of_nat n) z -> le_decode (le_encode n z) = z.
Proof. intros H. rewrite le_decode_encode. by apply Z.mod_small. Qed.

Lemma le_decode_bounds bs : 0 <= le_decode bs < 2 ^ (8 * zlen bs).
Proof.
  induction bs as [|b bs IH]; [done|].
  rewrite zlen_cons. cbn [le_decode].
  replace (8 * (1 + zlen bs)) with (8 + 8 * zlen bs) by lia.
  rewrite Z.pow_add_r by zlen_lia. change (2 ^ 8) with 256.
  pose proof (byte_to_Z_bounds b). nia.
Qed.

Lemma le_encode_mod n z : le_encode n (z mod 2 ^ (8 * Z.of_nat n)) = le_encode n z.
Proof.
  revert z. induction n as [|n IH]; intros z; [done|].
  cbn [le_encode].
  replace (8 * Z.of_nat (S n)) with (8 + 8 * Z.of_nat n) by lia.
  rewrite Z.pow_add_r by lia. change (2 ^ 8) with 256.
  pose proof (pow2_pos (8 * Z.of_nat n) ltac:(lia)).
  rewrite Z.rem_mul_r by lia.
  f_equal.
  - apply byte_to_Z_inj. rewrite !byte_to_Z_to_byte.
    rewrite Z.mul_comm, Z.mod_add by lia. apply Z.mod_mod. lia.
  - rewrite Z.add_comm, Z.mul_comm, Z.div_add_l by lia.
    rewrite (Z.div_small (z mod 256)) by (apply Z.mod_pos_bound; lia).
    by rewrite Z.add_0_r, IH.
Qed.

Lemma le_encode_decode bs : le_encode (length bs) (le_decode bs) = bs.
Proof.
  induction bs as [|b bs IH]; [done|].
  cbn [length le_encode le_decode]. pose proof (byte_to_Z_bounds b). f_equal.
  - apply byte_to_Z_inj. rewrite byte_to_Z_to_byte.
    rewrite Z.mul_comm, Z.mod_add, Z.mod_small by lia. done.
  - rewrite Z.mul_comm, Z.div_add, (Z.div_small (byte_to_Z b)), Z.add_0_l by lia.
    done.
Qed.

(** ** The order on strings *)

Lemma bytes_compare_refl a : bytes_compare a a = Eq.
Proof. induction a as [|x a IH]; [done|]. simpl. by rewrite Z.compare_refl. Qed.

Lemma bytes_compare_eq a b : bytes_compare a b = Eq <-> a = b.
Proof.
  split; [|intros ->; apply bytes_compare_refl].
  revert b. induction a as [|x a IH]; intros [|y b]; simpl; try done.
  destruct (byte_to_Z x ?= byte_to_Z y) eqn:E; [|done..].
  apply Z.compare_eq, byte_to_Z_inj in E as ->. intros H. f_equal. by apply IH.
Qed.

Lemma bytes_compare_antisym a b : bytes_compare b a = CompOpp (bytes_compare a b).
Proof.
  revert b. induction a as [|x a IH]; intros [|y b]; simpl; try done.
  rewrite Z.compare_antisym, IH. by destruct (byte_to_Z x ?= byte_to_Z y).
Qed.

#[export] Instance bytes_lt_irrefl : Irreflexive bytes_lt.
Proof. intros a. unfold complement, bytes_lt. by rewrite bytes_compare_refl. Qed.

#[export] Instance bytes_lt_trans : Transitive bytes_lt.
Proof.
  unfold Transitive, bytes_lt.
  induction x as [|x a IH]; intros [|y b] [|z c]; simpl; try done.
  destruct (byte_to_Z x ?= byte_to_Z y) eqn:E1; try done;
  destruct (byte_to_Z y ?= byte_to_Z z) eqn:E2; try done;
  rewrite ?Z.compare_eq_iff, ?Z.compare_lt_iff in *.
  - intros. rewrite (proj2 (Z.compare_eq_iff _ _)) by lia. by apply (IH b).
  - intros. by rewrite (proj2 (Z.compare_lt_iff _ _)) by lia.
  - intros. by rewrite (proj2 (Z.compare_lt_iff _ _)) by lia.
  - intros. by rewrite (proj2 (Z.compare_lt_iff _ _)) by lia.
Qed.

#[export] Instance bytes_lt_strict : StrictOrder bytes_lt.
Proof. split; apply _. Qed.

Lemma bytes_lt_total a b : bytes_lt a b \/ a = b \/ bytes_lt b a.
Proof.
  unfold bytes_lt. rewrite (bytes_compare_antisym a b).
  destruct (bytes_compare a b) eqn:E; [|by left|by right; right].
  apply bytes_compare_eq in E. auto.
Qed.

Lemma bytes_lt_asym a b : bytes_lt a b -> ~ bytes_lt b a.
Proof. intros H1 H2. apply (bytes_lt_irrefl a). by transitivity b. Qed.

Lemma bytes_lt_ne a b : bytes_lt a b -> a <> b.
Proof. intros H ->. by apply bytes_lt_irrefl in H. Qed.

Lemma bytes_ltb_lt a b : bytes_ltb a b = true <-> bytes_lt a b.
Proof. unfold bytes_ltb, bytes_lt. by destruct (bytes_compare a b). Qed.

Lemma bytes_ltb_nlt a b : bytes_ltb a b = false <-> ~ bytes_lt a b.
Proof. rewrite <- bytes_ltb_lt. by destruct (bytes_ltb a b). Qed.

#[export] Hint Resolve bytes_lt_asym bytes_lt_ne : nova.

(** ** Memory reads *)

Lemma mem_read_app pre x post off n :
  off = zlen pre -> n = zlen x ->
  mem_read (pre ++ x ++ post) off n = Ret x.
Proof.
  intros -> ->. unfold mem_read.
  rewrite (proj2 (Z.leb_le 0 (zlen pre))), (proj2 (Z.leb_le 0 (zlen x))) by zlen_lia.
  rewrite (proj2 (Z.leb_le _ _)) by zlen_lia. simpl.
  unfold zlen. rewrite !Nat2Z.id, drop_app_length, take_app_length. done.
Qed.

Lemma mem_read_le_app pre n z post off :
  off = zlen pre -> fits (8 * Z.of_nat n) z ->
  mem_read_le (pre ++ le_encode n z ++ post) off (Z.of_nat n) = Ret z.
Proof.
  intros -> Hz. unfold mem_read_le.
  rewrite mem_read_app by (autorewrite with nova; done).
  simpl. by rewrite le_decode_encode_fits.
Qed.

Lemma mem_read_Ret data off n bs :
  mem_read data off n = Ret bs ->
  0 <= off /\ 0 <= n /\ off + n <= zlen data /\ zlen bs = n.
Proof.
  unfold mem_read. destruct (_ && _) eqn:E; [|done].
  intros [= <-]. z_bool. repeat split; try lia.
  unfold zlen in *. rewrite length_take, length_drop. lia.
Qed.

Lemma mem_read_not_NoFuel data off n : mem_read data off n <> NoFuel.
Proof. unfold mem_read. by destruct (_ && _). Qed.

Lemma mem_read_le_Ret data off n z :
  mem_read_le data off n = Ret z ->
  0 <= off /\ 0 <= n /\ off + n <= zlen data /\ 0 <= z < 2 ^ (8 * n).
Proof.
  unfold mem_read_le. destruct (mem_read data off n) eqn:E; try done.
  apply mem_read_Ret in E as (?&?&?&?). intros [= <-].
  pose proof (le_decode_bounds a). subst n. auto.
Qed.

Lemma mem_read_le_not_NoFuel data off n : mem_read_le data off n <> NoFuel.
Proof.
  unfold mem_read_le. pose proof (mem_read_not_NoFuel data off n).
  by destruct (mem_read data off n).
Qed.

(** ** The binary search *)

(** On a range partitioned by the comparison, [lower_bound] is the partition
    point. *)
Lemma lower_bound_loop_partition {A} (lt : A -> bool) (l1 l2 : list A) fuel first len :
  Forall (fun x => lt x = true) l1 ->
  Forall (fun x => lt x = false) l2 ->
  (first <= length l1 <= first + len)%nat ->
  (first + len <= length (l1 ++ l2))%nat ->
  (len < fuel)%nat ->
  lower_bound_loop fuel lt (l1 ++ l2) first len = length l1.
Proof.
  intros H1 H2. revert first len.
  induction fuel as [|fuel IH]; intros first len Hb Hlen Hf; [lia|].
  cbn [lower_bound_loop]. destruct (Nat.eqb_spec len 0); [lia|].
  set (half := (len / 2)%nat).
  assert (Hhalf : (half < len)%nat) by (apply Nat.div_lt; lia).
  destruct ((l1 ++ l2) !! (first + half)%nat) as [e|] eqn:E.
  2:{ apply lookup_ge_None in E. lia. }
  destruct (decide (first + half < length l1)%nat) as [Hl|Hl].
  - rewrite lookup_app_l in E by lia.
    rewrite (Forall_lookup_1 _ _ _ _ H1 E). apply IH; lia.
  - rewrite lookup_app_r in E by lia.
    rewrite (Forall_lookup_1 _ _ _ _ H2 E). apply IH; lia.
Qed.

Lemma lower_bound_partition {A} (lt : A -> bool) (l1 l2 : list A) :
  Forall (fun x => lt x = true) l1 ->
  Forall (fun x => lt x = false) l2 ->
  lower_bound lt (l1 ++ l2) = length l1.
Proof.
  intros. unfold lower_bound.
  apply lower_bound_loop_partition; rewrite ?length_app; try done; lia.
Qed.

(** ** Walking through a memory object *)

(** [at_off data off s] : the octets of [data] from offset [off] on are [s]. *)
Definition at_off (data : bytes) (off : Z) (s : bytes) : Prop :=
  exists pre, data = pre ++ s /\ zlen pre = off.

Lemma at_off_start data : at_off data 0 data.
Proof. by exists []. Qed.

Lemma at_off_app pre s : at_off (pre ++ s) (zlen pre) s.
Proof. by exists pre. Qed.

Lemma at_off_step data off x s off' :
  at_off data off (x ++ s) -> off' = off + zlen x -> at_off data off' s.
Proof.
  intros (pre & -> & <-) ->. exists (pre ++ x). split; [by rewrite <- app_assoc|zlen_lia].
Qed.

Lemma at_off_read data off x s off' n :
  at_off data off (x ++ s) -> off' = off -> n = zlen x -> mem_read data off' n = Ret x.
Proof. intros (pre & -> & <-) -> ->. by apply mem_read_app. Qed.

Lemma at_off_read_le data off n z s off' n' :
  at_off data off (le_encode n z ++ s) -> off' = off -> n' = Z.of_nat n ->
  fits (8 * Z.of_nat n) z -> mem_read_le data off' n' = Ret z.
Proof. intros (pre & -> & <-) -> -> Hz. by apply mem_read_le_app. Qed.

Lemma at_off_bound data off s : at_off data off s -> 0 <= off /\ off + zlen s = zlen data.
Proof. intros (pre & -> & <-). zlen_lia. Qed.
