(* ===== verification/Storage.v ===== *)
(** Shared data of the storage layer: [include/ValueRecord.h] (value types and
    records), [include/Storage.h] (block handles, index entries and the
    40-octet SSTable footer) and [include/FileFormats.h] (the append-only
    [WritableFile]). *)
From S2P Require Import Prelude.

(** [enum class ValueType : uint8_t].  The enumeration has a fixed underlying
    type and is filled from disk with [static_cast], so every octet is a value
    of the type; only two of them are named. *)
Abbreviation ValueType := byte.
Definition kValue : ValueType := x01.
Definition kDeletion : ValueType := x02.

Record ValueRecord := mkRecord {
  vr_type : ValueType;
  vr_value : bytes;
}.

#[export] Instance ValueRecord_eq_decision : EqDecision ValueRecord.
Proof. solve_decision. Defined.

Record BlockHandle := mkHandle {
  bh_offset : Z;
  bh_size : Z;
}.

(** [BlockHandle() : offset(0), size(0)] *)
Definition BlockHandle_default : BlockHandle := mkHandle 0 0.

Record IndexEntry := mkIndexEntry {
  ie_last_key : bytes;
  ie_handle : BlockHandle;
}.

Record Footer := mkFooter {
  index_handle : BlockHandle;
  filter_handle : BlockHandle;
}.

Definition Footer_default : Footer := mkFooter BlockHandle_default BlockHandle_default.

Definition kMagicNumber : Z := 0xDEADC0DEFA112026.
Definition kEncodedLength : Z := 16 + 16 + 8.

(** [Footer::EncodeTo] *)
Definition Footer_EncodeTo (f : Footer) (dst : bytes) : bytes :=
  dst ++ le_encode 8 (bh_offset (index_handle f))
      ++ le_encode 8 (bh_size (index_handle f))
      ++ le_encode 8 (bh_offset (filter_handle f))
      ++ le_encode 8 (bh_size (filter_handle f))
      ++ le_encode 8 kMagicNumber.

(** The [memcpy] of a [uint64_t] at [p + off]; the caller has checked that the
    string is long enough. *)
Definition u64_at (input : bytes) (off : nat) : Z :=
  le_decode (take 8 (drop off input)).

(** [Footer::DecodeFrom]: the fields are overwritten before the magic number is
    checked, so the new state is returned with the verdict. *)
Definition Footer_DecodeFrom (f : Footer) (input : bytes) : Footer * bool :=
  if zlen input <? kEncodedLength then (f, false)
  else
    let f' := mkFooter (mkHandle (u64_at input 0) (u64_at input 8))
                       (mkHandle (u64_at input 16) (u64_at input 24)) in
    (f', u64_at input 32 =? kMagicNumber).

(** [WritableFile]: the file the stream appends to and the count of octets
    appended through this object.  The file is opened with [std::ios::app], so
    an existing content is kept while the count starts at 0. *)
Record WritableFile := mkFile {
  wf_os : bytes;
  wf_size : Z;
}.

Definition WritableFile_open (existing : bytes) : WritableFile :=
  mkFile existing 0.

Definition WritableFile_Append (w : WritableFile) (data : bytes) : WritableFile :=
  mkFile (wf_os w ++ data) (u64 (wf_size w + zlen data)).

Definition WritableFile_Size (w : WritableFile) : Z := wf_size w.

(** Well-formedness of handles and footers: the fields are [uint64_t]. *)
Definition handle_fits (h : BlockHandle) : Prop :=
  fits 64 (bh_offset h) /\ fits 64 (bh_size h).

Definition footer_fits (f : Footer) : Prop :=
  handle_fits (index_handle f) /\ handle_fits (filter_handle f).

(** * Lemmas *)

Lemma u64_at_app pre z post :
  fits 64 z -> u64_at (pre ++ le_encode 8 z ++ post) (length pre) = z.
Proof.
  intros Hz. unfold u64_at. rewrite drop_app_length.
  rewrite take_app_le by (rewrite length_le_encode; lia).
  rewrite take_ge by (rewrite length_le_encode; lia).
  by apply (le_decode_encode_fits 8).
Qed.

Lemma Footer_EncodeTo_length f dst :
  zlen (Footer_EncodeTo f dst) = zlen dst + kEncodedLength.
Proof. unfold Footer_EncodeTo, kEncodedLength. zlen_lia. Qed.

(** Reading word [i] of an encoded footer. *)
Lemma Footer_words a b c d e :
  fits 64 a -> fits 64 b -> fits 64 c -> fits 64 d -> fits 64 e ->
  let s := le_encode 8 a ++ le_encode 8 b ++ le_encode 8 c ++ le_encode 8 d
             ++ le_encode 8 e in
  u64_at s 0 = a /\ u64_at s 8 = b /\ u64_at s 16 = c /\ u64_at s 24 = d /\
  u64_at s 32 = e.
Proof.
  intros Ha Hb Hc Hd He s.
  assert (Hat : forall pre z post, fits 64 z -> s = pre ++ le_encode 8 z ++ post ->
            u64_at s (length pre) = z).
  { intros pre z post Hz ->. by apply u64_at_app. }
  repeat split.
  - by apply (Hat [] a (le_encode 8 b ++ le_encode 8 c ++ le_encode 8 d ++ le_encode 8 e)).
  - by apply (Hat (le_encode 8 a) b (le_encode 8 c ++ le_encode 8 d ++ le_encode 8 e)).
  - apply (Hat (le_encode 8 a ++ le_encode 8 b) c (le_encode 8 d ++ le_encode 8 e)); [done|].
    unfold s. by rewrite <- !app_assoc.
  - apply (Hat (le_encode 8 a ++ le_encode 8 b ++ le_encode 8 c) d (le_encode 8 e)); [done|].
    unfold s. by rewrite <- !app_assoc.
  - apply (Hat (le_encode 8 a ++ le_encode 8 b ++ le_encode 8 c ++ le_encode 8 d) e []); [done|].
    unfold s. by rewrite <- !app_assoc, app_nil_r.
Qed.

Lemma Footer_decode_encode f f0 :
  footer_fits f -> Footer_DecodeFrom f0 (Footer_EncodeTo f []) = (f, true).
Proof.
  destruct f as [[a b] [c d]]. intros [[Ha Hb] [Hc Hd]]; simpl in *.
  unfold Footer_DecodeFrom. rewrite Footer_EncodeTo_length, zlen_nil.
  rewrite (proj2 (Z.ltb_ge _ _)) by lia.
  unfold Footer_EncodeTo; rewrite app_nil_l; cbn [index_handle filter_handle bh_offset bh_size].
  destruct (Footer_words a b c d kMagicNumber) as (->&->&->&->&->); done.
Qed.

Lemma WritableFile_Append_os w data : wf_os (WritableFile_Append w data) = wf_os w ++ data.
Proof. done. Qed.
