(* ===== verification/OMap.v ===== *)
(** Ordered tables: strictly sorted association lists keyed by strings.

    [std::map<std::string, V>] is modelled by such a list (its iteration order
    is ascending), with [find], [try_emplace] and insertion; the same lists are
    the abstract contents of a skip list and of an SSTable. *)
From S2P Require Import Prelude.

Section omap.
Context {V : Type}.
Implicit Types (k : bytes) (v : V) (l m : list (bytes * V)).

(** [std::map::find] *)
Fixpoint om_find k l : option V :=
  match l with
  | [] => None
  | (k', v) :: l' => if decide (k = k') then Some v else om_find k l'
  end.

(** [m[k] = v] : insert or overwrite. *)
Fixpoint om_insert k v l : list (bytes * V) :=
  match l with
  | [] => [(k, v)]
  | (k', v') :: l' =>
      match bytes_compare k k' with
      | Lt => (k, v) :: (k', v') :: l'
      | Eq => (k, v) :: l'
      | Gt => (k', v') :: om_insert k v l'
      end
  end.

(** [std::map::try_emplace] / [emplace] : insert only when the key is absent. *)
Fixpoint om_try_emplace k v l : list (bytes * V) :=
  match l with
  | [] => [(k, v)]
  | (k', v') :: l' =>
      match bytes_compare k k' with
      | Lt => (k, v) :: (k', v') :: l'
      | Eq => (k', v') :: l'
      | Gt => (k', v') :: om_try_emplace k v l'
      end
  end.

(** [erase(k)] *)
Fixpoint om_erase k l : list (bytes * V) :=
  match l with
  | [] => []
  | (k', v') :: l' => if decide (k = k') then l' else (k', v') :: om_erase k l'
  end.

(** [for (auto& [k, rec] : rows) seen.try_emplace(k, rec)] *)
Definition om_emplace_all (rows seen : list (bytes * V)) : list (bytes * V) :=
  fold_left (fun acc row => om_try_emplace row.1 row.2 acc) rows seen.

Definition key_lt (p q : bytes * V) : Prop := bytes_lt p.1 q.1.

(** The representation invariant. *)
Definition om_sorted l : Prop := StronglySorted key_lt l.

End omap.

(** * Lemmas *)

Section lemmas.
Context {V : Type}.
Implicit Types (k : bytes) (v : V) (l m : list (bytes * V)).

Lemma om_sorted_nil : om_sorted (@nil (bytes * V)).
Proof. constructor. Qed.

Lemma om_sorted_cons p l :
  om_sorted (p :: l) <-> Forall (key_lt p) l /\ om_sorted l.
Proof. unfold om_sorted. rewrite StronglySorted_cons. done. Qed.

Lemma om_sorted_app l m :
  om_sorted (l ++ m) <->
  (forall p q, p ∈ l -> q ∈ m -> key_lt p q) /\ om_sorted l /\ om_sorted m.
Proof.
  unfold om_sorted. rewrite StronglySorted_app. done.
Qed.

Lemma om_find_elem k v l : om_find k l = Some v -> (k, v) ∈ l.
Proof.
  induction l as [|[k' v'] l IH]; simpl; [done|].
  case_decide; intros ?; simplify_eq; set_solver.
Qed.

(** A key below every key of the list is absent. *)
Lemma om_find_below k l : Forall (fun q => bytes_lt k q.1) l -> om_find k l = None.
Proof.
  induction 1 as [|[k' v'] l H _ IH]; simpl in *; [done|].
  rewrite decide_False; [done|]. by apply bytes_lt_ne.
Qed.

Lemma om_find_None_notin k l : om_find k l = None -> k ∉ l.*1.
Proof.
  induction l as [|[k' v'] l IH]; simpl; [set_solver|].
  case_decide; [done|]. rewrite not_elem_of_cons. auto.
Qed.

Lemma om_sorted_elem_find k v l : om_sorted l -> (k, v) ∈ l -> om_find k l = Some v.
Proof.
  induction l as [|[k' v'] l IH]; [set_solver|].
  rewrite om_sorted_cons. intros [Hlt Hs] Hin. simpl.
  apply elem_of_cons in Hin as [Heq|Hin]; [inversion Heq; by rewrite decide_True|].
  rewrite decide_False; [by apply IH|].
  rewrite Forall_forall in Hlt. specialize (Hlt _ Hin). unfold key_lt in Hlt; simpl in Hlt.
  intros ->. by apply (bytes_lt_irrefl k').
Qed.

Lemma om_sorted_find_elem k v l : om_sorted l -> om_find k l = Some v <-> (k, v) ∈ l.
Proof. intros. split; [apply om_find_elem|by apply om_sorted_elem_find]. Qed.

Lemma om_find_app k l m :
  om_find k (l ++ m) =
  match om_find k l with Some v => Some v | None => om_find k m end.
Proof.
  induction l as [|[k' v'] l IH]; simpl; [done|]. by case_decide.
Qed.

(** ** Keys of the results *)

Lemma om_insert_Forall (P : bytes * V -> Prop) k v l :
  P (k, v) -> Forall P l -> Forall P (om_insert k v l).
Proof.
  intros Hk. induction 1 as [|[k' v'] l H Hl IH]; simpl; [by constructor|].
  destruct (bytes_compare k k'); repeat constructor; done.
Qed.

Lemma om_try_emplace_Forall (P : bytes * V -> Prop) k v l :
  P (k, v) -> Forall P l -> Forall P (om_try_emplace k v l).
Proof.
  intros Hk. induction 1 as [|[k' v'] l H Hl IH]; simpl; [by constructor|].
  destruct (bytes_compare k k'); repeat constructor; done.
Qed.

Lemma om_erase_Forall (P : bytes * V -> Prop) k l : Forall P l -> Forall P (om_erase k l).
Proof.
  induction 1 as [|[k' v'] l H Hl IH]; simpl; [constructor|].
  case_decide; [done|]. by constructor.
Qed.

Lemma bytes_compare_Gt_lt a b : bytes_compare a b = Gt -> bytes_lt b a.
Proof. intros H. unfold bytes_lt. by rewrite bytes_compare_antisym, H. Qed.

(** ** The invariant is preserved *)

Lemma key_lt_le_all k v (q : bytes * V) l :
  key_lt (k, v) q -> om_sorted (q :: l) -> Forall (key_lt (k, v)) (q :: l).
Proof.
  rewrite om_sorted_cons. intros Hq [Hl _]. constructor; [done|].
  eapply Forall_impl; [exact Hl|]. intros r Hr. unfold key_lt in *. by transitivity (q.1).
Qed.

Lemma om_insert_sorted k v l : om_sorted l -> om_sorted (om_insert k v l).
Proof.
  induction l as [|[k' v'] l IH]; intros Hs; simpl.
  { apply om_sorted_cons. by split. }
  pose proof Hs as [Hlt Hs']%om_sorted_cons.
  destruct (bytes_compare k k') eqn:E.
  - apply bytes_compare_eq in E as ->. by apply om_sorted_cons.
  - apply om_sorted_cons. split; [|done]. by apply key_lt_le_all.
  - apply om_sorted_cons. split; [|by apply IH].
    apply om_insert_Forall; [|done]. by apply bytes_compare_Gt_lt.
Qed.

Lemma om_try_emplace_sorted k v l : om_sorted l -> om_sorted (om_try_emplace k v l).
Proof.
  induction l as [|[k' v'] l IH]; intros Hs; simpl.
  { apply om_sorted_cons. by split. }
  pose proof Hs as [Hlt Hs']%om_sorted_cons.
  destruct (bytes_compare k k') eqn:E; [done|..].
  - apply om_sorted_cons. split; [|done]. by apply key_lt_le_all.
  - apply om_sorted_cons. split; [|by apply IH].
    apply om_try_emplace_Forall; [|done]. by apply bytes_compare_Gt_lt.
Qed.

Lemma om_erase_sorted k l : om_sorted l -> om_sorted (om_erase k l).
Proof.
  induction l as [|[k' v'] l IH]; intros Hs; simpl; [done|].
  apply om_sorted_cons in Hs as [Hlt Hs']. case_decide; [done|].
  apply om_sorted_cons. split; [by apply om_erase_Forall|by apply IH].
Qed.

Lemma om_emplace_all_sorted rows l : om_sorted l -> om_sorted (om_emplace_all rows l).
Proof.
  unfold om_emplace_all. revert l. induction rows as [|r rows IH]; intros l H; simpl; [done|].
  by apply IH, om_try_emplace_sorted.
Qed.

(** ** Lookups of the results *)

Lemma om_find_insert k k' v l :
  om_find k' (om_insert k v l) = if decide (k' = k) then Some v else om_find k' l.
Proof.
  induction l as [|[k0 v0] l IH]; simpl; [done|].
  destruct (bytes_compare k k0) eqn:E; simpl.
  - apply bytes_compare_eq in E as ->. by repeat case_decide.
  - done.
  - rewrite IH. apply bytes_compare_Gt_lt, bytes_lt_ne in E.
    repeat (case_decide; simplify_eq); done.
Qed.

Lemma om_find_try_emplace k k' v l :
  om_sorted l ->
  om_find k' (om_try_emplace k v l) =
  match om_find k' l with
  | Some v' => Some v'
  | None => if decide (k' = k) then Some v else None
  end.
Proof.
  induction l as [|[k0 v0] l IH]; intros Hs; simpl; [done|].
  pose proof Hs as [Hlt Hs']%om_sorted_cons.
  destruct (bytes_compare k k0) eqn:E; simpl.
  - apply bytes_compare_eq in E as ->. repeat case_decide; try done; by case_match.
  - destruct (decide (k' = k)) as [->|Hn].
    + rewrite decide_False by (by apply bytes_lt_ne).
      rewrite om_find_below; [done|].
      pose proof (key_lt_le_all k v (k0, v0) l E Hs) as [_ H]%Forall_cons. done.
    + by destruct (decide (k' = k0)), (om_find k' l).
  - rewrite IH by done. by destruct (decide (k' = k0)).
Qed.

Lemma om_find_erase k k' l :
  om_sorted l ->
  om_find k' (om_erase k l) = if decide (k' = k) then None else om_find k' l.
Proof.
  induction l as [|[k0 v0] l IH]; intros Hs; simpl; [by case_decide|].
  apply om_sorted_cons in Hs as [Hlt Hs']. destruct (decide (k = k0)) as [->|Hn].
  - destruct (decide (k' = k0)) as [->|]; [|done]. by apply om_find_below.
  - simpl. rewrite IH by done. repeat (case_decide; simplify_eq); done.
Qed.

(** Rows already present win over the ones emplaced later. *)
Lemma om_find_emplace_all k rows l :
  om_sorted l ->
  om_find k (om_emplace_all rows l) =
  match om_find k l with Some v => Some v | None => om_find k rows end.
Proof.
  unfold om_emplace_all. revert l.
  induction rows as [|[k' v'] rows IH]; intros l Hs; simpl; [by case_match|].
  rewrite IH by (by apply om_try_emplace_sorted).
  rewrite om_find_try_emplace by done. destruct (om_find k l); [done|].
  by destruct (decide (k = k')).
Qed.

(** Two sorted tables with the same lookups are equal. *)
Lemma om_ext l m :
  om_sorted l -> om_sorted m -> (forall k, om_find k l = om_find k m) -> l = m.
Proof.
  revert m. induction l as [|[k v] l IH]; intros [|[k' v'] m] Hl Hm Heq.
  - done.
  - specialize (Heq k'). simpl in Heq. by rewrite decide_True in Heq.
  - specialize (Heq k). simpl in Heq. by rewrite decide_True in Heq.
  - pose proof Hl as [Hlt Hl']%om_sorted_cons. pose proof Hm as [Hmt Hm']%om_sorted_cons.
    assert (k = k') as <-.
    { destruct (bytes_lt_total k k') as [H|[H|H]]; [|done|].
      - specialize (Heq k). simpl in Heq. rewrite decide_True in Heq by done.
        rewrite decide_False in Heq by (by apply bytes_lt_ne).
        rewrite om_find_below in Heq; [done|].
        pose proof (key_lt_le_all k v (k', v') m H Hm) as [_ ?]%Forall_cons. done.
      - specialize (Heq k'). simpl in Heq. rewrite (decide_True (P := k' = k')) in Heq by done.
        rewrite decide_False in Heq by (by apply bytes_lt_ne).
        rewrite om_find_below in Heq; [done|].
        pose proof (key_lt_le_all k' v' (k, v) l H Hl) as [_ ?]%Forall_cons. done. }
    pose proof (Heq k) as Hk. simpl in Hk. rewrite !decide_True in Hk by done.
    simplify_eq. f_equal. apply IH; try done.
    intros j. specialize (Heq j). simpl in Heq. case_decide; [|done]. subst.
    rewrite !om_find_below; done.
Qed.

(** ** Splitting at a key *)

(** The rows below a key and the others. *)
Lemma om_split k l :
  om_sorted l ->
  exists l1 l2, l = l1 ++ l2 /\ Forall (fun r => bytes_lt r.1 k) l1 /\
    Forall (fun r => ~ bytes_lt r.1 k) l2.
Proof.
  induction l as [|[k' v'] l IH]; intros Hs; [by exists [], []|].
  apply om_sorted_cons in Hs as [Hk Hs].
  destruct (decide (bytes_lt k' k)) as [Hlt|Hge].
  - destruct (IH Hs) as (l1 & l2 & -> & H1 & H2). exists ((k', v') :: l1), l2. auto.
  - exists [], ((k', v') :: l). split; [done|]. split; [done|]. apply Forall_cons. split; [done|].
    eapply Forall_impl; [exact Hk|]. intros [k2 v2] H2 H3. apply Hge. by transitivity k2.
Qed.

(** The first of the others decides whether the key is present. *)
Lemma om_find_split k l1 l2 :
  om_sorted (l1 ++ l2) -> Forall (fun r => bytes_lt r.1 k) l1 ->
  Forall (fun r => ~ bytes_lt r.1 k) l2 ->
  om_find k (l1 ++ l2) =
  match l2 with (k', v) :: _ => if decide (k' = k) then Some v else None | [] => None end.
Proof.
  intros Hs H1 H2. rewrite om_find_app.
  assert (om_find k l1 = None) as ->.
  { destruct (om_find k l1) as [v|] eqn:E; [|done]. apply om_find_elem in E.
    rewrite Forall_forall in H1. apply H1 in E. by apply bytes_lt_irrefl in E. }
  destruct l2 as [|[k' v'] l2]; [done|]. simpl.
  destruct (decide (k' = k)) as [->|Hne]; [by rewrite decide_True|].
  rewrite decide_False by done. apply om_sorted_app in Hs as (_ & _ & [Hl _]%om_sorted_cons).
  apply Forall_cons in H2 as [H2 _]. apply om_find_below.
  eapply Forall_impl; [exact Hl|]. intros [k2 v2] Hk2. cbn in *.
  destruct (bytes_lt_total k' k) as [?|[?|?]]; [done..|]. by transitivity k'.
Qed.

Lemma om_insert_split k v l1 l2 :
  Forall (fun r => bytes_lt r.1 k) l1 -> Forall (fun r => ~ bytes_lt r.1 k) l2 ->
  om_insert k v (l1 ++ l2) =
  l1 ++ match l2 with
        | (k', v') :: r => if decide (k' = k) then (k, v) :: r else (k, v) :: l2
        | [] => [(k, v)]
        end.
Proof.
  intros H1 H2. induction H1 as [|[k1 v1] l1 Hk _ IH]; cbn in *.
  - destruct l2 as [|[k' v'] l2]; [done|]. apply Forall_cons in H2 as [H2 _]. cbn in *.
    destruct (bytes_compare k k') eqn:E.
    + apply bytes_compare_eq in E as ->. by rewrite decide_True.
    + rewrite decide_False; [done|]. intros ->. by rewrite bytes_compare_refl in E.
    + by apply bytes_compare_Gt_lt in E.
  - unfold bytes_lt in Hk. rewrite bytes_compare_antisym, Hk. cbn. by rewrite IH.
Qed.

Lemma om_erase_split k l1 l2 :
  om_sorted (l1 ++ l2) -> Forall (fun r => bytes_lt r.1 k) l1 ->
  Forall (fun r => ~ bytes_lt r.1 k) l2 ->
  om_erase k (l1 ++ l2) =
  l1 ++ match l2 with (k', v') :: r => if decide (k' = k) then r else l2 | [] => [] end.
Proof.
  intros Hs H1 H2. induction H1 as [|[k1 v1] l1 Hk _ IH]; cbn in *.
  - destruct l2 as [|[k' v'] l2]; [done|]. cbn.
    destruct (decide (k' = k)) as [->|Hne]; [by rewrite decide_True|].
    rewrite decide_False by done. f_equal.
    assert (Hf : om_find k ([] ++ (k', v') :: l2) = None).
    { rewrite om_find_split by done. by rewrite decide_False. }
    cbn in Hf. rewrite decide_False in Hf by done.
    clear -Hf. induction l2 as [|[k2 v2] l2 IH]; [done|]. cbn in *.
    case_decide; [done|]. f_equal. by apply IH.
  - rewrite decide_False by (intros ->; by apply bytes_lt_irrefl in Hk). f_equal. apply IH.
    by apply om_sorted_cons in Hs as [_ Hs].
Qed.

End lemmas.

#[export] Hint Resolve om_sorted_nil om_insert_sorted om_try_emplace_sorted
  om_erase_sorted om_emplace_all_sorted : nova.
