(* ===== verification/Bloom.v ===== *)
(** The Bloom filter of [include/BloomFilter.h]: the MurmurHash-style hash, the
    construction of the bit array for the keys of an SSTable and the membership
    test.  Main result: the filter has no false negatives. *)
From S2P Require Import Prelude.
From Stdlib Require Import SpecFloat.

(** [BloomFilter::BloomHash]; [static_cast<uint32_t>(c)] sign-extends a
    [char]. *)
Definition BloomHash_step (h : Z) (c : byte) : Z :=
  let h := Z.lxor h (u32 (byte_to_sZ c)) in
  let h := u32 (h * 0x5bd1e995) in
  Z.lxor h (Z.shiftr h 15).

Definition BloomHash (key : bytes) : Z :=
  let seed := 0xbc9f1d34 in
  fold_left BloomHash_step key (Z.lxor seed (u32 (zlen key))).

(** [(h >> 17) | (h << 15)] *)
Definition probe_delta (h : Z) : Z :=
  Z.lor (Z.shiftr h 17) (u32 (Z.shiftl h 15)).

(** The IEEE double nearest to 0.69, [6214967485771284 * 2^-53]. *)
Definition double_0_69 : spec_float := S754_finite false 6214967485771284 (-53).

(** [static_cast<int>] of a finite double: truncation towards zero. *)
Definition double_to_int (f : spec_float) : Z :=
  match f with
  | S754_finite s m e =>
      let a := if 0 <=? e then Z.pos m * 2 ^ e else Z.pos m / 2 ^ (- e) in
      if s then - a else a
  | _ => 0
  end.

(** The number of probes: [static_cast<int>(bits_per_key_ * 0.69)] clamped to
    [1, 30]. *)
Definition probe_count (bits_per_key : Z) : Z :=
  let k := double_to_int
             (SFmul 53 1024 (binary_normalize 53 1024 bits_per_key 0 false) double_0_69) in
  let k := if k <? 1 then 1 else k in
  if 30 <? k then 30 else k.

(** The size of the bit array: total number of octets for [n] keys. *)
Definition filter_bytes (bits_per_key n : Z) : Z :=
  let bits := u64 (n * u64 bits_per_key) in
  let bits := if bits <? 64 then 64 else bits in
  u64 (bits + 7) / 8.

(** [res[bitpos / 8] |= (1 << (bitpos % 8))] *)
Definition set_bit (res : bytes) (bitpos : Z) : bytes :=
  alter (fun b => Z_to_byte (Z.lor (byte_to_Z b) (Z.shiftl 1 (bitpos mod 8))))
        (Z.to_nat (bitpos / 8)) res.

(** [filter[bitpos / 8] & (1 << (bitpos % 8))] *)
Definition test_bit (filter : bytes) (bitpos : Z) : bool :=
  match filter !! Z.to_nat (bitpos / 8) with
  | Some b => negb (Z.land (byte_to_Z b) (Z.shiftl 1 (bitpos mod 8)) =? 0)
  | None => false
  end.

(** The inner loops over the [k] probes of one key. *)
Fixpoint set_probes (k : nat) (res : bytes) (h delta bits : Z) : bytes :=
  match k with
  | O => res
  | S k' =>
      let bitpos := u32 (h mod bits) in
      set_probes k' (set_bit res bitpos) (u32 (h + delta)) delta bits
  end.

Fixpoint test_probes (k : nat) (filter : bytes) (h delta bits : Z) : bool :=
  match k with
  | O => true
  | S k' =>
      let bitpos := u32 (h mod bits) in
      if negb (test_bit filter bitpos) then false
      else test_probes k' filter (u32 (h + delta)) delta bits
  end.

Definition add_key (k : nat) (bits : Z) (res : bytes) (key : bytes) : bytes :=
  let h := BloomHash key in
  set_probes k res h (probe_delta h) bits.

(** [BloomFilter::CreateFilter] *)
Definition CreateFilter (bits_per_key : Z) (keys : list bytes) : bytes :=
  if (length keys =? 0)%nat then []
  else
    let nbytes := filter_bytes bits_per_key (zlen keys) in
    let bits := u64 (nbytes * 8) in
    let res := replicate (Z.to_nat nbytes) x00 in
    let k := probe_count bits_per_key in
    fold_left (add_key (Z.to_nat k) bits) keys res ++ [Z_to_byte k].

(** [BloomFilter::KeyMayMatch] *)
Definition KeyMayMatch (key filter : bytes) : bool :=
  if zlen filter <? 2 then false
  else
    let len := zlen filter in
    let k := match last filter with Some b => byte_to_sZ b | None => 0 end in
    let bits := u64 ((len - 1) * 8) in
    let h := BloomHash key in
    test_probes (Z.to_nat k) filter h (probe_delta h) bits.

(** * Lemmas *)

Lemma probe_count_bounds bpk : 1 <= probe_count bpk <= 30.
Proof.
  unfold probe_count. cbv zeta. repeat case_match; z_bool; lia.
Qed.

Lemma length_set_bit res p : length (set_bit res p) = length res.
Proof. apply length_alter. Qed.

Lemma length_set_probes k res h delta bits :
  length (set_probes k res h delta bits) = length res.
Proof.
  revert res h. induction k as [|k IH]; intros res h; simpl; [done|].
  by rewrite IH, length_set_bit.
Qed.

Lemma length_add_keys k bits keys res :
  length (fold_left (add_key k bits) keys res) = length res.
Proof.
  revert res. induction keys as [|key keys IH]; intros res; simpl; [done|].
  rewrite IH. apply length_set_probes.
Qed.

Lemma shiftl_one_testbit r : 0 <= r -> Z.testbit (Z.shiftl 1 r) r = true.
Proof. intros. rewrite Z.shiftl_spec by done. by rewrite Z.sub_diag. Qed.

(** Bits are only ever added to an octet. *)
Lemma land_lor_nonzero a b c : Z.land a c <> 0 -> Z.land (Z.lor a b) c <> 0.
Proof.
  intros H H0. apply H. apply Z.bits_inj_iff. intros i.
  apply (f_equal (fun z => Z.testbit z i)) in H0.
  rewrite Z.land_spec, Z.lor_spec in H0. rewrite Z.bits_0 in H0 |- *.
  rewrite Z.land_spec. by destruct (Z.testbit a i), (Z.testbit c i).
Qed.

Lemma land_lor_self a c : c <> 0 -> Z.land (Z.lor a c) c <> 0.
Proof.
  intros H H0. apply H. apply Z.bits_inj_iff. intros i.
  apply (f_equal (fun z => Z.testbit z i)) in H0.
  rewrite Z.land_spec, Z.lor_spec in H0. rewrite Z.bits_0 in H0 |- *.
  by destruct (Z.testbit a i), (Z.testbit c i).
Qed.

Lemma shiftl_one_bounds r : 0 <= r < 8 -> 0 < Z.shiftl 1 r < 256.
Proof.
  intros H. rewrite Z.shiftl_1_l. split; [apply pow2_pos; lia|].
  change 256 with (2 ^ 8). apply Z.pow_lt_mono_r; lia.
Qed.

Lemma lor_byte_bounds b m :
  0 <= m < 256 -> Z.lor (byte_to_Z b) m mod 256 = Z.lor (byte_to_Z b) m.
Proof.
  intros Hm. pose proof (byte_to_Z_bounds b). apply Z.mod_small.
  split; [apply Z.lor_nonneg; lia|].
  change 256 with (2 ^ 8). apply Z.log2_lt_cancel.
  rewrite Z.log2_pow2, Z.log2_lor by lia.
  assert (forall z, 0 <= z < 256 -> Z.log2 z < 8).
  { intros z Hz. destruct (decide (z = 0)) as [->|]; [done|].
    apply Z.log2_lt_pow2; lia. }
  pose proof (H0 (byte_to_Z b) H). pose proof (H0 m Hm). lia.
Qed.

Lemma test_bit_set_bit_mono res p q :
  test_bit res q = true -> test_bit (set_bit res p) q = true.
Proof.
  unfold test_bit, set_bit. rewrite list_lookup_alter. case_decide as E; [|done].
  rewrite E. destruct (res !! _) as [b|]; [|done]. simpl.
  rewrite byte_to_Z_to_byte.
  rewrite lor_byte_bounds
    by (pose proof (shiftl_one_bounds (p mod 8) (Z.mod_pos_bound p 8 ltac:(lia))); lia).
  rewrite !negb_true_iff, !Z.eqb_neq. apply land_lor_nonzero.
Qed.

Lemma test_bit_set_bit res p :
  (Z.to_nat (p / 8) < length res)%nat -> test_bit (set_bit res p) p = true.
Proof.
  intros Hp. unfold test_bit, set_bit. rewrite list_lookup_alter, decide_True by done.
  destruct (lookup_lt_is_Some_2 _ _ Hp) as [b ->]. simpl.
  rewrite byte_to_Z_to_byte.
  pose proof (shiftl_one_bounds (p mod 8) (Z.mod_pos_bound p 8 ltac:(lia))).
  rewrite lor_byte_bounds, negb_true_iff, Z.eqb_neq by lia.
  apply land_lor_self. lia.
Qed.

Lemma test_bit_set_probes_mono k res h delta bits q :
  test_bit res q = true -> test_bit (set_probes k res h delta bits) q = true.
Proof.
  revert res h. induction k as [|k IH]; intros res h Hq; simpl; [done|].
  by apply IH, test_bit_set_bit_mono.
Qed.

Lemma test_probes_mono k res res' h delta bits :
  (forall q, test_bit res q = true -> test_bit res' q = true) ->
  test_probes k res h delta bits = true -> test_probes k res' h delta bits = true.
Proof.
  intros Hm. revert h. induction k as [|k IH]; intros h; simpl; [done|].
  destruct (test_bit res _) eqn:E; simpl; [|done].
  rewrite (Hm _ E). simpl. apply IH.
Qed.

(** The bit positions fall inside the array. *)
Lemma bitpos_in_range h bits (res : bytes) :
  0 < bits -> bits <= 8 * zlen res -> 0 <= h ->
  (Z.to_nat (u32 (h mod bits) / 8) < length res)%nat.
Proof.
  intros Hb Hlen Hh. unfold u32, zlen in *.
  pose proof (Z.mod_pos_bound h bits Hb).
  pose proof (Z.mod_le (h mod bits) (2 ^ 32) ltac:(lia) ltac:(lia)).
  pose proof (Z.mod_pos_bound (h mod bits) (2 ^ 32) ltac:(lia)).
  apply Nat2Z.inj_lt. rewrite Z2Nat.id by (apply Z.div_pos; lia).
  apply Z.div_lt_upper_bound; lia.
Qed.

(** The probes just set all test true. *)
Lemma test_set_probes k res h delta bits :
  0 < bits -> bits <= 8 * zlen res -> 0 <= h ->
  test_probes k (set_probes k res h delta bits) h delta bits = true.
Proof.
  intros Hb. revert res h. induction k as [|k IH]; intros res h Hlen Hh; simpl; [done|].
  rewrite test_bit_set_probes_mono.
  - simpl. apply IH.
    + unfold zlen in *. by rewrite length_set_bit.
    + unfold u32. apply Z.mod_pos_bound. lia.
  - apply test_bit_set_bit. by apply bitpos_in_range.
Qed.

Lemma BloomHash_nonneg key : 0 <= BloomHash key.
Proof.
  unfold BloomHash. cbv zeta.
  assert (Hinit : 0 <= Z.lxor 0xbc9f1d34 (u32 (zlen key))).
  { apply Z.lxor_nonneg. pose proof (u32_bounds (zlen key)). lia. }
  revert Hinit. generalize (Z.lxor 0xbc9f1d34 (u32 (zlen key))).
  induction key as [|c key IH]; intros h Hh; simpl; [done|].
  apply IH. unfold BloomHash_step. cbv zeta. apply Z.lxor_nonneg.
  rewrite Z.shiftr_nonneg.
  pose proof (u32_bounds (Z.lxor h (u32 (byte_to_sZ c)) * 0x5bd1e995)). tauto.
Qed.

Lemma add_keys_mono k bits keys res q :
  test_bit res q = true -> test_bit (fold_left (add_key k bits) keys res) q = true.
Proof.
  revert res. induction keys as [|key keys IH]; intros res H; simpl; [done|].
  by apply IH, test_bit_set_probes_mono.
Qed.

(** Every key of the list passes the test on the array it was added to. *)
Lemma test_add_keys k bits keys res key :
  0 < bits -> bits <= 8 * zlen res -> key ∈ keys ->
  test_probes k (fold_left (add_key k bits) keys res)
    (BloomHash key) (probe_delta (BloomHash key)) bits = true.
Proof.
  intros Hb. revert res. induction keys as [|key' keys IH]; intros res Hlen Hin;
    [by apply elem_of_nil in Hin|].
  apply elem_of_cons in Hin as [<-|Hin]; simpl.
  - eapply test_probes_mono; [intros q; apply add_keys_mono|].
    apply test_set_probes; [done..|apply BloomHash_nonneg].
  - apply IH; [|done]. unfold add_key, zlen in *. by rewrite length_set_probes.
Qed.

Lemma test_bit_app res x q : test_bit res q = true -> test_bit (res ++ x) q = true.
Proof.
  unfold test_bit. destruct (res !! _) eqn:E; [|done].
  by rewrite (lookup_app_l_Some _ _ _ _ E).
Qed.

Lemma byte_to_sZ_small k : 0 <= k < 128 -> byte_to_sZ (Z_to_byte k) = k.
Proof.
  intros Hk. unfold byte_to_sZ. rewrite byte_to_Z_to_byte, Z.mod_small by lia.
  by rewrite (proj2 (Z.ltb_lt _ _)) by lia.
Qed.

Lemma filter_bytes_bounds bpk n :
  u64 (n * u64 bpk) <= 2 ^ 64 - 8 ->
  8 <= filter_bytes bpk n /\ filter_bytes bpk n * 8 < 2 ^ 64.
Proof.
  intros H. unfold filter_bytes. cbv zeta.
  pose proof (u64_bounds (n * u64 bpk)).
  set (bits := if u64 (n * u64 bpk) <? 64 then 64 else u64 (n * u64 bpk)).
  assert (64 <= bits <= 2 ^ 64 - 8) by (unfold bits; case_match; z_bool; lia).
  unfold u64 at 1 2. rewrite Z.mod_small by lia.
  split; [apply Z.div_le_lower_bound; lia|].
  pose proof (Z.mul_div_le (bits + 7) 8 ltac:(lia)). lia.
Qed.

(** No false negatives, in the form the SSTable proofs use. *)
Lemma CreateFilter_complete bpk keys key :
  u64 (zlen keys * u64 bpk) <= 2 ^ 64 - 8 ->
  key ∈ keys -> KeyMayMatch key (CreateFilter bpk keys) = true.
Proof.
  intros Hsz Hin. unfold CreateFilter.
  destruct (Nat.eqb_spec (length keys) 0) as [E|_].
  { apply nil_length_inv in E as ->. by apply elem_of_nil in Hin. }
  cbv zeta. set (nb := filter_bytes bpk (zlen keys)).
  pose proof (filter_bytes_bounds bpk (zlen keys) Hsz) as [Hnb1 Hnb2]. fold nb in Hnb1, Hnb2.
  pose proof (probe_count_bounds bpk) as Hk.
  set (res := fold_left _ keys _).
  assert (Hres : zlen res = nb).
  { unfold res, zlen. rewrite length_add_keys, length_replicate. lia. }
  unfold KeyMayMatch. rewrite zlen_app. change (zlen [_]) with 1. rewrite Hres.
  rewrite (proj2 (Z.ltb_ge _ _)) by lia.
  rewrite last_snoc, byte_to_sZ_small by lia.
  replace (nb + 1 - 1) with nb by lia.
  eapply test_probes_mono; [intros q; apply test_bit_app|].
  unfold res. apply test_add_keys; [..|done];
    unfold u64; rewrite Z.mod_small by lia; [lia|].
  unfold zlen. rewrite length_replicate. lia.
Qed.

Lemma zlen_CreateFilter bpk keys :
  u64 (zlen keys * u64 bpk) <= 2 ^ 64 - 8 -> keys <> [] ->
  zlen (CreateFilter bpk keys) = filter_bytes bpk (zlen keys) + 1.
Proof.
  intros H Hne. unfold CreateFilter.
  destruct (Nat.eqb_spec (length keys) 0) as [E|_]; [by apply nil_length_inv in E|].
  pose proof (filter_bytes_bounds bpk (zlen keys) H).
  cbv zeta. rewrite zlen_app. f_equal. unfold zlen at 1.
  rewrite length_add_keys, length_replicate. lia.
Qed.

(** An empty set of keys gives the empty filter, which matches nothing. *)
Lemma KeyMayMatch_empty key bpk : KeyMayMatch key (CreateFilter bpk []) = false.
Proof. done. Qed.
