(* ===== verification/SSTableBuilder.v ===== *)
(** Writing SSTables: [BlockBuilder] ([include/BlockBuilder.h],
    [src/BlockBuilder.cpp]) and [SSTableBuilder] ([include/SSTableBuilder.h],
    [src/SSTableBuilder.cpp]), with the description of the file that the
    builder produces. *)
From S2P Require Import Prelude Storage OMap Bloom.

(** ** BlockBuilder *)

Record BlockBuilder := mkBlock {
  bb_buffer : bytes;
  bb_counter : Z;
  bb_finished : bool;
}.

Definition BlockBuilder_new : BlockBuilder := mkBlock [] 0 false.

(** The octets one record appends:
    [KeyLen (4B)] [Key] [ValueType (1B)] [ValueLen (4B)] [Value]. *)
Definition encode_record (key value : bytes) (type : ValueType) : bytes :=
  let key_len := u32 (zlen key) in
  let val_len := u32 (zlen value) in
  le_encode 4 key_len ++ key ++ [type] ++ le_encode 4 val_len ++ value.

Definition BlockBuilder_Add (b : BlockBuilder) (key value : bytes) (type : ValueType)
    : BlockBuilder :=
  mkBlock (bb_buffer b ++ encode_record key value type) (bb_counter b + 1) (bb_finished b).

Definition BlockBuilder_Finish (b : BlockBuilder) : BlockBuilder * bytes :=
  (mkBlock (bb_buffer b) (bb_counter b) true, bb_buffer b).

Definition BlockBuilder_Reset (b : BlockBuilder) : BlockBuilder := mkBlock [] 0 false.

Definition BlockBuilder_CurrentSizeEstimate (b : BlockBuilder) : Z := zlen (bb_buffer b).

Definition BlockBuilder_Empty (b : BlockBuilder) : bool :=
  match bb_buffer b with [] => true | _ :: _ => false end.

(** ** SSTableBuilder *)

Record SSTableBuilder := mkBuilder {
  sb_file : WritableFile;
  sb_data_block : BlockBuilder;
  sb_last_key : bytes;
  sb_index_entries : list IndexEntry;
  sb_keys : list bytes;
  sb_filter_handle : BlockHandle;
}.

Definition SSTableBuilder_new (file : WritableFile) : SSTableBuilder :=
  mkBuilder file BlockBuilder_new [] [] [] BlockHandle_default.

(** [SSTableBuilder::WriteDataBlock] *)
Definition WriteDataBlock (s : SSTableBuilder) : SSTableBuilder :=
  let offset := WritableFile_Size (sb_file s) in
  let '(block, content) := BlockBuilder_Finish (sb_data_block s) in
  let handle := mkHandle offset (zlen content) in
  mkBuilder (WritableFile_Append (sb_file s) content)
            (BlockBuilder_Reset block)
            (sb_last_key s)
            (sb_index_entries s ++ [mkIndexEntry (sb_last_key s) handle])
            (sb_keys s) (sb_filter_handle s).

(** [SSTableBuilder::Add] *)
Definition SSTableBuilder_Add (s : SSTableBuilder) (key value : bytes) (type : ValueType)
    : SSTableBuilder :=
  let s := if 4096 <=? BlockBuilder_CurrentSizeEstimate (sb_data_block s)
           then WriteDataBlock s else s in
  mkBuilder (sb_file s)
            (BlockBuilder_Add (sb_data_block s) key value type)
            key
            (sb_index_entries s)
            (sb_keys s ++ [key])
            (sb_filter_handle s).

(** [SSTableBuilder::WriteFilterBlock] *)
Definition WriteFilterBlock (s : SSTableBuilder) : SSTableBuilder :=
  match sb_keys s with
  | [] => s
  | _ :: _ =>
      let filter_data := CreateFilter 10 (sb_keys s) in
      let handle := mkHandle (WritableFile_Size (sb_file s)) (zlen filter_data) in
      mkBuilder (WritableFile_Append (sb_file s) filter_data)
                (sb_data_block s) (sb_last_key s) (sb_index_entries s) (sb_keys s) handle
  end.

(** The value of an index record: offset and size of the block. *)
Definition encode_handle (h : BlockHandle) : bytes :=
  le_encode 8 (bh_offset h) ++ le_encode 8 (bh_size h).

(** [SSTableBuilder::WriteIndexBlock] *)
Definition WriteIndexBlock (s : SSTableBuilder) : SSTableBuilder :=
  let index_builder :=
    fold_left (fun b entry =>
                 BlockBuilder_Add b (ie_last_key entry) (encode_handle (ie_handle entry)) kValue)
              (sb_index_entries s) BlockBuilder_new in
  mkBuilder (WritableFile_Append (sb_file s) (BlockBuilder_Finish index_builder).2)
            (sb_data_block s) (sb_last_key s) (sb_index_entries s) (sb_keys s)
            (sb_filter_handle s).

(** [SSTableBuilder::Finish] *)
Definition SSTableBuilder_Finish (s : SSTableBuilder) : SSTableBuilder :=
  let s := if negb (BlockBuilder_Empty (sb_data_block s)) then WriteDataBlock s else s in
  let s := WriteFilterBlock s in
  let index_offset := WritableFile_Size (sb_file s) in
  let s := WriteIndexBlock s in
  let index_size := u64 (WritableFile_Size (sb_file s) - index_offset) in
  let footer := mkFooter (mkHandle index_offset index_size) (sb_filter_handle s) in
  mkBuilder (WritableFile_Append (sb_file s) (Footer_EncodeTo footer []))
            (sb_data_block s) (sb_last_key s) (sb_index_entries s) (sb_keys s)
            (sb_filter_handle s).

(** ** The file a table of rows becomes *)

(** A row of a table: the key and its record. *)
Abbreviation row := (bytes * ValueRecord)%type.

(** The loop that feeds a builder ([BuildMinorSST], [BuildL0ToL1SST]). *)
Definition add_rows (rows : list row) (s : SSTableBuilder) : SSTableBuilder :=
  fold_left (fun s r => SSTableBuilder_Add s r.1 (vr_value r.2) (vr_type r.2)) rows s.

(** Content of a fresh file after adding [rows] and finishing. *)
Definition build_sst (rows : list row) : bytes :=
  wf_os (sb_file (SSTableBuilder_Finish
                    (add_rows rows (SSTableBuilder_new (WritableFile_open []))))).

Definition encode_row (r : row) : bytes := encode_record r.1 (vr_value r.2) (vr_type r.2).

Definition encode_rows (rows : list row) : bytes := concat (map encode_row rows).

Definition last_row_key (rows : list row) : bytes :=
  match last rows with Some r => r.1 | None => [] end.

(** The index entries of consecutive blocks laid out from offset [off]. *)
Fixpoint index_of (off : Z) (blocks : list (list row)) : list IndexEntry :=
  match blocks with
  | [] => []
  | b :: bs =>
      mkIndexEntry (last_row_key b) (mkHandle off (zlen (encode_rows b)))
        :: index_of (off + zlen (encode_rows b)) bs
  end.

Definition encode_index_entry (e : IndexEntry) : bytes :=
  encode_record (ie_last_key e) (encode_handle (ie_handle e)) kValue.

Definition encode_index (es : list IndexEntry) : bytes := concat (map encode_index_entry es).

(** Rows that the file format can hold: 32-bit lengths, and a total size that
    keeps every 64-bit offset of the file exact. *)
Definition row_ok (r : row) : Prop := zlen r.1 < 2 ^ 32 /\ zlen (vr_value r.2) < 2 ^ 32.

Definition rows_ok (rows : list row) : Prop :=
  Forall row_ok rows /\ zlen (encode_rows rows) < 2 ^ 60.

(** The finished file for rows grouped in [blocks]. *)
Definition sst_image (blocks : list (list row)) : bytes :=
  let rows := concat blocks in
  let data := encode_rows rows in
  let filter := CreateFilter 10 rows.*1 in
  let index := encode_index (index_of 0 blocks) in
  let filter_handle :=
    match rows with [] => BlockHandle_default | _ => mkHandle (zlen data) (zlen filter) end in
  data ++ filter ++ index ++
  Footer_EncodeTo (mkFooter (mkHandle (zlen data + zlen filter) (zlen index)) filter_handle) [].

(** Invariant of a builder on a fresh file, with the blocks written so far and
    the rows of the block under construction. *)
Record builder_inv (blocks : list (list row)) (cur : list row) (s : SSTableBuilder) : Prop := {
  bi_os : wf_os (sb_file s) = encode_rows (concat blocks);
  bi_size : wf_size (sb_file s) = zlen (encode_rows (concat blocks));
  bi_block : bb_buffer (sb_data_block s) = encode_rows cur;
  bi_index : sb_index_entries s = index_of 0 blocks;
  bi_keys : sb_keys s = (concat blocks ++ cur).*1;
  bi_last : cur <> [] -> sb_last_key s = last_row_key cur;
  bi_nonempty : Forall (fun b => b <> []) blocks;
  bi_filter : sb_filter_handle s = BlockHandle_default;
}.

(** * Lemmas *)

Lemma encode_rows_app l m : encode_rows (l ++ m) = encode_rows l ++ encode_rows m.
Proof. unfold encode_rows. by rewrite map_app, concat_app. Qed.

Lemma encode_rows_cons r l : encode_rows (r :: l) = encode_row r ++ encode_rows l.
Proof. done. Qed.

Lemma encode_rows_single r : encode_rows [r] = encode_row r.
Proof. unfold encode_rows. simpl. by rewrite app_nil_r. Qed.

Lemma zlen_encode_record key value t :
  zlen (encode_record key value t) = 9 + zlen key + zlen value.
Proof. unfold encode_record. cbv zeta. zlen_lia. Qed.

#[export] Hint Rewrite zlen_encode_record encode_rows_app : nova.

Lemma zlen_encode_row r : zlen (encode_row r) = 9 + zlen r.1 + zlen (vr_value r.2).
Proof. apply zlen_encode_record. Qed.

Lemma encode_rows_length_ge rows : 9 * zlen rows <= zlen (encode_rows rows).
Proof.
  induction rows as [|r rows IH]; [done|].
  rewrite encode_rows_cons, zlen_cons, zlen_app, zlen_encode_row. zlen_lia.
Qed.

Lemma encode_rows_nil_inv rows : encode_rows rows = [] -> rows = [].
Proof.
  intros H. destruct rows as [|r rows]; [done|].
  pose proof (encode_rows_length_ge (r :: rows)) as Hl.
  rewrite H in Hl. zlen_lia.
Qed.

Lemma index_of_app off bs bs' :
  index_of off (bs ++ bs') = index_of off bs ++ index_of (off + zlen (encode_rows (concat bs))) bs'.
Proof.
  revert off. induction bs as [|b bs IH]; intros off; simpl.
  - by rewrite Z.add_0_r.
  - rewrite IH, encode_rows_app, zlen_app. by rewrite Z.add_assoc.
Qed.

Lemma encode_index_app l m : encode_index (l ++ m) = encode_index l ++ encode_index m.
Proof. unfold encode_index. by rewrite map_app, concat_app. Qed.

Lemma index_builder_buffer es b :
  bb_buffer (fold_left (fun b entry =>
     BlockBuilder_Add b (ie_last_key entry) (encode_handle (ie_handle entry)) kValue) es b)
  = bb_buffer b ++ encode_index es.
Proof.
  revert b. induction es as [|e es IH]; intros b; simpl; [by rewrite app_nil_r|].
  rewrite IH. simpl. by rewrite <- app_assoc.
Qed.

Lemma concat_snoc {A} (ls : list (list A)) (l : list A) : concat (ls ++ [l]) = concat ls ++ l.
Proof. rewrite concat_app. simpl. by rewrite app_nil_r. Qed.

(** ** The builder invariant *)

Lemma builder_inv_init : builder_inv [] [] (SSTableBuilder_new (WritableFile_open [])).
Proof. by constructor. Qed.

Lemma WriteDataBlock_inv blocks cur s :
  builder_inv blocks cur s -> cur <> [] ->
  zlen (encode_rows (concat blocks ++ cur)) < 2 ^ 64 ->
  builder_inv (blocks ++ [cur]) [] (WriteDataBlock s).
Proof.
  intros [] Hcur Hsz.
  constructor; simpl; rewrite ?concat_snoc, ?app_nil_r, ?encode_rows_app.
  - by rewrite bi_os0, bi_block0.
  - rewrite bi_size0, bi_block0, zlen_app. apply u64_small.
    rewrite encode_rows_app in Hsz. zlen_lia.
  - done.
  - unfold WritableFile_Size. rewrite bi_index0, bi_last0, bi_size0, bi_block0 by done.
    by rewrite index_of_app.
  - by rewrite bi_keys0.
  - done.
  - apply Forall_app. by repeat constructor.
  - done.
Qed.

Lemma SSTableBuilder_Add_inv blocks cur s r :
  builder_inv blocks cur s ->
  zlen (encode_rows (concat blocks ++ cur)) < 2 ^ 64 ->
  exists blocks' cur',
    concat blocks' ++ cur' = (concat blocks ++ cur) ++ [r] /\ cur' <> [] /\
    builder_inv blocks' cur' (SSTableBuilder_Add s r.1 (vr_value r.2) (vr_type r.2)).
Proof.
  intros Hi Hsz.
  assert (Hadd : forall blocks cur s, builder_inv blocks cur s ->
    builder_inv blocks (cur ++ [r])
      (mkBuilder (sb_file s)
        (BlockBuilder_Add (sb_data_block s) r.1 (vr_value r.2) (vr_type r.2)) r.1
        (sb_index_entries s) (sb_keys s ++ [r.1]) (sb_filter_handle s))).
  { intros bs c s' []. constructor; simpl; try done.
    - rewrite bi_block0, encode_rows_app. f_equal. by rewrite encode_rows_single.
    - by rewrite bi_keys0, !fmap_app, <- app_assoc.
    - intros _. unfold last_row_key. by rewrite last_snoc. }
  unfold SSTableBuilder_Add.
  destruct (4096 <=? _) eqn:E.
  - assert (cur <> []).
    { intros ->. unfold BlockBuilder_CurrentSizeEstimate in E.
      by rewrite (bi_block _ _ _ Hi) in E. }
    exists (blocks ++ [cur]), [r]. rewrite concat_snoc. split; [done|]. split; [done|].
    apply (Hadd (blocks ++ [cur]) []). by apply WriteDataBlock_inv.
  - exists blocks, (cur ++ [r]). split; [by rewrite app_assoc|].
    split; [by destruct cur|]. by apply Hadd.
Qed.

Lemma add_rows_inv rows blocks cur s :
  builder_inv blocks cur s ->
  zlen (encode_rows ((concat blocks ++ cur) ++ rows)) < 2 ^ 64 ->
  exists blocks' cur',
    concat blocks' ++ cur' = (concat blocks ++ cur) ++ rows /\
    builder_inv blocks' cur' (add_rows rows s).
Proof.
  revert blocks cur s. induction rows as [|r rows IH]; intros blocks cur s Hi Hsz.
  { exists blocks, cur. by rewrite app_nil_r. }
  rewrite encode_rows_app, encode_rows_cons, !zlen_app in Hsz.
  destruct (SSTableBuilder_Add_inv blocks cur s r Hi) as (bs & c & Heq & Hne & Hi').
  { zlen_lia. }
  destruct (IH bs c _ Hi') as (bs' & c' & Heq' & Hi'').
  { rewrite Heq, !encode_rows_app, encode_rows_single, !zlen_app. zlen_lia. }
  exists bs', c'. split; [|done]. rewrite Heq', Heq. by rewrite <- app_assoc.
Qed.

Lemma index_size_bound off blocks :
  Forall (fun b => b <> []) blocks ->
  zlen (encode_index (index_of off blocks)) <= 4 * zlen (encode_rows (concat blocks)).
Proof.
  intros H. revert off. induction H as [|b bs Hb _ IH]; intros off; [done|].
  cbn [index_of concat]. unfold encode_index in *. cbn [map concat].
  rewrite encode_rows_app, !zlen_app. specialize (IH (off + zlen (encode_rows b))).
  unfold encode_index_entry at 1. rewrite zlen_encode_record. cbn [ie_last_key ie_handle].
  assert (Hk : 9 + zlen (last_row_key b) <= zlen (encode_rows b)).
  { destruct b as [|r b _] using rev_ind; [done|].
    unfold last_row_key. rewrite last_snoc, encode_rows_app, encode_rows_single, zlen_app.
    rewrite zlen_encode_row. zlen_lia. }
  unfold encode_handle. rewrite zlen_app, !zlen_le_encode.
  pose proof (zlen_nonneg (last_row_key b)). lia.
Qed.

(** Sizes of the parts of an image stay far below [2^64]. *)
Lemma image_sizes blocks :
  Forall (fun b => b <> []) blocks -> zlen (encode_rows (concat blocks)) < 2 ^ 60 ->
  u64 (zlen (concat blocks).*1 * u64 10) <= 2 ^ 64 - 8 /\
  zlen (CreateFilter 10 (concat blocks).*1) < 2 ^ 61 /\
  zlen (encode_index (index_of 0 blocks)) < 2 ^ 62.
Proof.
  intros Hne Hsz.
  pose proof (index_size_bound 0 blocks Hne).
  pose proof (encode_rows_length_ge (concat blocks)) as Hn.
  assert (Hk : zlen (concat blocks).*1 = zlen (concat blocks)).
  { unfold zlen. by rewrite length_fmap. }
  rewrite Hk in *. set (n := zlen (concat blocks)) in *.
  assert (0 <= n) by apply zlen_nonneg.
  assert (Hn10 : u64 (n * u64 10) = n * 10).
  { change (u64 10) with 10. apply u64_small. lia. }
  split; [lia|]. split; [|lia].
  destruct (concat blocks).*1 as [|k ks] eqn:E; [done|].
  rewrite zlen_CreateFilter; [|rewrite Hk; lia|done].
  rewrite Hk. unfold filter_bytes. rewrite Hn10.
  set (b := if n * 10 <? 64 then 64 else n * 10).
  assert (64 <= b < 2 ^ 60 + 2 ^ 58) by (unfold b; case_match; z_bool; lia).
  rewrite u64_small by lia.
  pose proof (Z.div_le_upper_bound (b + 7) 8 (2 ^ 60) ltac:(lia) ltac:(lia)). lia.
Qed.

(** What [Finish] writes. *)
Lemma WriteFilterBlock_inv blocks s :
  builder_inv blocks [] s -> zlen (encode_rows (concat blocks)) < 2 ^ 60 ->
  let rows := concat blocks in
  let s' := WriteFilterBlock s in
  wf_os (sb_file s') = encode_rows rows ++ CreateFilter 10 rows.*1 /\
  wf_size (sb_file s') = zlen (encode_rows rows) + zlen (CreateFilter 10 rows.*1) /\
  sb_index_entries s' = index_of 0 blocks /\
  sb_filter_handle s' =
    match rows with
    | [] => BlockHandle_default
    | _ => mkHandle (zlen (encode_rows rows)) (zlen (CreateFilter 10 rows.*1))
    end.
Proof.
  intros [] Hsz rows s'. subst s'. unfold WriteFilterBlock.
  rewrite app_nil_r in bi_keys0.
  pose proof (image_sizes blocks bi_nonempty0 Hsz) as (_ & Hf & _).
  fold rows in bi_os0, bi_size0, bi_keys0, Hf, Hsz. rewrite bi_keys0.
  clearbody rows. destruct rows as [|r rows']; cbn [fmap list_fmap].
  - unfold CreateFilter. simpl. rewrite bi_os0, bi_size0. repeat split; try done.
  - cbn [sb_file sb_index_entries sb_filter_handle WritableFile_Append wf_os wf_size].
    unfold WritableFile_Size.
    change (r.1 :: (fst <$> rows')) with ((r :: rows').*1). rewrite bi_os0, bi_size0.
    repeat split; try done. apply u64_small. zlen_lia.
Qed.

Lemma Finish_image blocks cur s :
  builder_inv blocks cur s -> zlen (encode_rows (concat blocks ++ cur)) < 2 ^ 60 ->
  exists blocks',
    concat blocks' = concat blocks ++ cur /\ Forall (fun b => b <> []) blocks' /\
    wf_os (sb_file (SSTableBuilder_Finish s)) = sst_image blocks'.
Proof.
  intros Hi Hsz.
  assert (Hfull : exists blocks',
    concat blocks' = concat blocks ++ cur /\
    builder_inv blocks' []
      (if negb (BlockBuilder_Empty (sb_data_block s)) then WriteDataBlock s else s)).
  { unfold BlockBuilder_Empty. rewrite (bi_block _ _ _ Hi).
    destruct (encode_rows cur) as [|b l] eqn:E.
    - apply encode_rows_nil_inv in E as ->. exists blocks. by rewrite app_nil_r.
    - exists (blocks ++ [cur]). rewrite concat_snoc. split; [done|].
      apply WriteDataBlock_inv; [done|by intros ->|lia]. }
  destruct Hfull as (bs & Hc & Hi'). exists bs. split; [done|].
  split; [apply (bi_nonempty _ _ _ Hi')|].
  rewrite <- Hc in Hsz.
  pose proof (image_sizes bs (bi_nonempty _ _ _ Hi') Hsz) as (_ & Hf & Hidx).
  pose proof (WriteFilterBlock_inv bs _ Hi' Hsz) as (Hos & Hsize & Hie & Hfh).
  unfold SSTableBuilder_Finish. cbv zeta.
  set (s1 := WriteFilterBlock _) in *.
  unfold WriteIndexBlock, sst_image, WritableFile_Size.
  cbn [sb_file sb_filter_handle WritableFile_Append wf_os wf_size BlockBuilder_Finish snd].
  rewrite index_builder_buffer, Hie, Hos, Hsize, Hfh. simpl app at 2.
  rewrite (u64_small (_ + zlen _)) by zlen_lia.
  rewrite Z.add_simpl_l, u64_small by zlen_lia.
  by rewrite <- !app_assoc.
Qed.

Lemma build_sst_image rows :
  zlen (encode_rows rows) < 2 ^ 60 ->
  exists blocks,
    concat blocks = rows /\ Forall (fun b => b <> []) blocks /\
    build_sst rows = sst_image blocks.
Proof.
  intros Hsz.
  destruct (add_rows_inv rows [] [] _ builder_inv_init) as (bs & c & Heq & Hi); [simpl; lia|].
  simpl in Heq. destruct (Finish_image bs c _ Hi) as (bs' & Hc & Hne & Him); [by rewrite Heq|].
  exists bs'. rewrite Hc. done.
Qed.
