(* ===== verification/SSTableReader.v ===== *)
(** Reading SSTables ([include/SSTableReader.h], [src/SSTableReader.cpp]): the
    checks of [Open], the index and filter blocks, point lookup and full scan
    over the memory-mapped file.  Reads at computed addresses return [Fault]
    when they leave the mapping. *)
From S2P Require Import Prelude Storage OMap Bloom SSTableBuilder.

(** The object behind a reader; [file_size_] is the length of [rd_data]. *)
Record SSTableReader := mkReader {
  rd_data : bytes;
  rd_footer : Footer;
  rd_index_entries : list IndexEntry;
  rd_filter_data : bytes;
}.

Definition file_size (r : SSTableReader) : Z := zlen (rd_data r).

(** [SSTableReader::ReadFooter] *)
Definition ReadFooter (r : SSTableReader) : outcome (SSTableReader * bool) :=
  let* footer_buf := mem_read (rd_data r) (file_size r - kEncodedLength) kEncodedLength in
  let '(f, ok) := Footer_DecodeFrom (rd_footer r) footer_buf in
  Ret (mkReader (rd_data r) f (rd_index_entries r) (rd_filter_data r), ok).

(** The parsing loop of [ReadIndexBlock]; [base] is the offset of [index_ptr]. *)
Fixpoint ReadIndexBlock_loop (fuel : nat) (data : bytes) (base size pos : Z)
    (acc : list IndexEntry) : outcome (list IndexEntry) :=
  match fuel with
  | O => NoFuel
  | S fuel' =>
      if negb (pos <? size) then Ret acc
      else
        let* key_len := mem_read_le data (base + pos) 4 in
        let pos := u64 (pos + 4) in
        let* last_key := mem_read data (base + pos) key_len in
        let pos := u64 (pos + key_len) in
        let* type := mem_read data (base + pos) 1 in
        let pos := u64 (pos + 1) in
        let* val_len := mem_read_le data (base + pos) 4 in
        let pos := u64 (pos + 4) in
        let* offset := mem_read_le data (base + pos) 8 in
        let pos := u64 (pos + 8) in
        let* hsize := mem_read_le data (base + pos) 8 in
        let pos := u64 (pos + 8) in
        ReadIndexBlock_loop fuel' data base size pos
          (acc ++ [mkIndexEntry last_key (mkHandle offset hsize)])
  end.

(** Every iteration of the parsing loops consumes octets of the file. *)
Definition scan_fuel (data : bytes) : nat := S (S (length data)).

(** [SSTableReader::ReadIndexBlock] *)
Definition ReadIndexBlock (r : SSTableReader) : outcome (SSTableReader * bool) :=
  let offset := bh_offset (index_handle (rd_footer r)) in
  let size := bh_size (index_handle (rd_footer r)) in
  if file_size r - kEncodedLength <? u64 (offset + size) then Ret (r, false)
  else
    let* es := ReadIndexBlock_loop (scan_fuel (rd_data r)) (rd_data r) offset size 0
                 (rd_index_entries r) in
    Ret (mkReader (rd_data r) (rd_footer r) es (rd_filter_data r),
         match es with [] => false | _ :: _ => true end).

(** [SSTableReader::ReadFilterBlock] *)
Definition ReadFilterBlock (r : SSTableReader) : outcome (SSTableReader * bool) :=
  let offset := bh_offset (filter_handle (rd_footer r)) in
  let size := bh_size (filter_handle (rd_footer r)) in
  if size =? 0 then Ret (r, true)
  else if file_size r <? u64 (offset + size) then Ret (r, false)
  else
    let* d := mem_read (rd_data r) offset size in
    Ret (mkReader (rd_data r) (rd_footer r) (rd_index_entries r) d, true).

(** [SSTableReader::Open].  [file] is what the path names ([None]: [open]
    fails); [mmap_ok] is the success of [fstat] and [mmap].  [Ret None] is
    [nullptr].  A failing [ReadFilterBlock] is only logged. *)
Definition SSTableReader_Open (mmap_ok : bool) (file : option bytes)
    : outcome (option SSTableReader) :=
  match file with
  | None => Ret None
  | Some data =>
      if zlen data <? kEncodedLength then Ret None
      else if negb mmap_ok then Ret None
      else
        let* (r, ok) := ReadFooter (mkReader data Footer_default [] []) in
        if negb ok then Ret None
        else
          let* (r, ok) := ReadIndexBlock r in
          if negb ok then Ret None
          else
            let* (r, _) := ReadFilterBlock r in
            Ret (Some r)
  end.

(** The scan of one data block in [GetRecord]; [base] is the offset of
    [block_ptr].  [Ret (Some rec)] is "found", with the record written. *)
Fixpoint GetRecord_loop (fuel : nat) (data : bytes) (base block_size pos : Z) (key : bytes)
    : outcome (option ValueRecord) :=
  match fuel with
  | O => NoFuel
  | S fuel' =>
      if negb (pos <? block_size) then Ret None
      else
        let* curr_key_len := mem_read_le data (base + pos) 4 in
        let pos := u64 (pos + 4) in
        let* curr_key := mem_read data (base + pos) curr_key_len in
        let pos := u64 (pos + curr_key_len) in
        let* vtype := mem_read data (base + pos) 1 in
        let type := default x00 (head vtype) in
        let pos := u64 (pos + 1) in
        let* val_len := mem_read_le data (base + pos) 4 in
        let pos := u64 (pos + 4) in
        if decide (curr_key = key) then
          if decide (type = kValue) then
            let* v := mem_read data (base + pos) val_len in
            Ret (Some (mkRecord type v))
          else Ret (Some (mkRecord type []))
        else GetRecord_loop fuel' data base block_size (u64 (pos + val_len)) key
  end.

(** [SSTableReader::GetRecord] *)
Definition GetRecord (r : SSTableReader) (key : bytes) : outcome (option ValueRecord) :=
  if negb (match rd_filter_data r with [] => true | _ => false end)
     && negb (KeyMayMatch key (rd_filter_data r))
  then Ret None
  else
    let it := lower_bound (fun e => bytes_ltb (ie_last_key e) key) (rd_index_entries r) in
    match rd_index_entries r !! it with
    | None => Ret None
    | Some e =>
        GetRecord_loop (scan_fuel (rd_data r)) (rd_data r)
          (bh_offset (ie_handle e)) (bh_size (ie_handle e)) 0 key
    end.

(** [SSTableReader::Get]; [Ret None] is [false]. *)
Definition SSTableReader_Get (r : SSTableReader) (key : bytes) : outcome (option bytes) :=
  let* rec := GetRecord r key in
  match rec with
  | None => Ret None
  | Some rec => if decide (vr_type rec = kDeletion) then Ret None else Ret (Some (vr_value rec))
  end.

(** The scan of one block in [ForEach], as the sequence of callback arguments. *)
Fixpoint ForEach_loop (fuel : nat) (data : bytes) (base block_size pos : Z)
    : outcome (list row) :=
  match fuel with
  | O => NoFuel
  | S fuel' =>
      if negb (pos <? block_size) then Ret []
      else if block_size <? u64 (pos + 4) then Ret []
      else
        let* key_len := mem_read_le data (base + pos) 4 in
        let pos := u64 (pos + 4) in
        if block_size <? u64 (pos + key_len) then Ret []
        else
          let* key := mem_read data (base + pos) key_len in
          let pos := u64 (pos + key_len) in
          if block_size <? u64 (pos + 1) then Ret []
          else
            let* vtype := mem_read data (base + pos) 1 in
            let type := default x00 (head vtype) in
            let pos := u64 (pos + 1) in
            if block_size <? u64 (pos + 4) then Ret []
            else
              let* val_len := mem_read_le data (base + pos) 4 in
              let pos := u64 (pos + 4) in
              if block_size <? u64 (pos + val_len) then Ret []
              else
                let* value := mem_read data (base + pos) val_len in
                let pos := u64 (pos + val_len) in
                let* rest := ForEach_loop fuel' data base block_size pos in
                Ret ((key, mkRecord type value) :: rest)
  end.

(** [SSTableReader::ForEach] *)
Fixpoint ForEach_blocks (data : bytes) (es : list IndexEntry) : outcome (list row) :=
  match es with
  | [] => Ret []
  | e :: es' =>
      let* rows := ForEach_loop (scan_fuel data) data
                     (bh_offset (ie_handle e)) (bh_size (ie_handle e)) 0 in
      let* rest := ForEach_blocks data es' in
      Ret (rows ++ rest)
  end.

Definition ForEach (r : SSTableReader) : outcome (list row) :=
  ForEach_blocks (rd_data r) (rd_index_entries r).

(** What a point lookup reports for a stored record: the value of a record
    that is not a [kValue] is cleared. *)
Definition lookup_record (rec : ValueRecord) : ValueRecord :=
  if decide (vr_type rec = kValue) then rec else mkRecord (vr_type rec) [].

(** The reader of a file made of [blocks]. *)
Definition reader_of (blocks : list (list row)) : SSTableReader :=
  let data := encode_rows (concat blocks) in
  let filter := CreateFilter 10 (concat blocks).*1 in
  mkReader (sst_image blocks)
    (mkFooter (mkHandle (zlen data + zlen filter) (zlen (encode_index (index_of 0 blocks))))
              (mkHandle (zlen data) (zlen filter)))
    (index_of 0 blocks) filter.

(** Index entries that [WriteIndexBlock] can represent. *)
Definition index_entry_ok (e : IndexEntry) : Prop :=
  zlen (ie_last_key e) < 2 ^ 32 /\ handle_fits (ie_handle e).

(** * Lemmas *)

(** One record at an offset can be read field by field. *)
Lemma record_fields data off r s :
  at_off data off (encode_row r ++ s) -> row_ok r ->
  mem_read_le data off 4 = Ret (zlen r.1) /\
  mem_read data (off + 4) (zlen r.1) = Ret r.1 /\
  mem_read data (off + 4 + zlen r.1) 1 = Ret [vr_type r.2] /\
  mem_read_le data (off + 4 + zlen r.1 + 1) 4 = Ret (zlen (vr_value r.2)) /\
  mem_read data (off + 4 + zlen r.1 + 1 + 4) (zlen (vr_value r.2)) = Ret (vr_value r.2) /\
  at_off data (off + 4 + zlen r.1 + 1 + 4) (vr_value r.2 ++ s) /\
  at_off data (off + 4 + zlen r.1 + 1 + 4 + zlen (vr_value r.2)) s.
Proof.
  destruct r as [k [t v]]. intros H [Hk Hv]. cbn [fst snd vr_value vr_type] in *.
  unfold encode_row, encode_record in H. cbn [fst snd vr_value vr_type] in H.
  cbv zeta in H. rewrite !u32_small in H by (pose proof (zlen_nonneg k);
    pose proof (zlen_nonneg v); lia).
  rewrite <- !app_assoc in H.
  pose proof (at_off_step _ _ _ _ (off + 4) H ltac:(zlen_lia)) as H1.
  pose proof (at_off_step _ _ _ _ (off + 4 + zlen k) H1 ltac:(zlen_lia)) as H2.
  pose proof (at_off_step _ _ _ _ (off + 4 + zlen k + 1) H2 ltac:(zlen_lia)) as H3.
  pose proof (at_off_step _ _ _ _ (off + 4 + zlen k + 1 + 4) H3 ltac:(zlen_lia)) as H4.
  repeat split.
  - eapply (at_off_read_le _ _ 4); [exact H|done|done|]. split; [zlen_lia|done].
  - eapply at_off_read; [exact H1|done|done].
  - eapply at_off_read; [exact H2|done|done].
  - eapply (at_off_read_le _ _ 4); [exact H3|done|done|]. split; [zlen_lia|done].
  - eapply at_off_read; [exact H4|done|done].
  - done.
  - eapply at_off_step; [exact H4|done].
Qed.

(** Closes the side conditions on 64-bit positions inside a known file. *)
Ltac pos_lia :=
  repeat match goal with H : at_off _ _ _ |- _ => apply at_off_bound in H end;
  zlen_lia.

(** ** Point lookup inside a block *)

Lemma GetRecord_loop_rows data base size pos key rows s fuel :
  at_off data (base + pos) (encode_rows rows ++ s) ->
  0 <= pos -> size = pos + zlen (encode_rows rows) -> size < 2 ^ 64 ->
  Forall row_ok rows -> (length rows < fuel)%nat ->
  GetRecord_loop fuel data base size pos key = Ret (lookup_record <$> om_find key rows).
Proof.
  revert pos fuel. induction rows as [|r rows IH]; intros pos fuel Hat Hpos Hsz H64 Hok Hf;
    (destruct fuel as [|fuel]; [simpl in Hf; lia|]); cbn [GetRecord_loop].
  { rewrite (proj2 (Z.ltb_ge _ _)) by (change (zlen (encode_rows [])) with 0 in Hsz; lia). done. }
  apply Forall_cons in Hok as [Hr Hok].
  rewrite encode_rows_cons, <- app_assoc in Hat.
  rewrite encode_rows_cons, zlen_app, zlen_encode_row in Hsz.
  pose proof (zlen_nonneg r.1). pose proof (zlen_nonneg (vr_value r.2)).
  pose proof (zlen_nonneg (encode_rows rows)).
  rewrite (proj2 (Z.ltb_lt _ _)) by lia. cbn [negb].
  destruct (record_fields _ _ _ _ Hat Hr) as (E1&E2&E3&E4&E5&Hval&Hnext).
  rewrite E1. cbn [obind].
  rewrite (u64_small (pos + 4)) by lia. rewrite Z.add_assoc, E2. cbn [obind].
  rewrite (u64_small (pos + 4 + _)) by lia. rewrite !Z.add_assoc, E3. cbn [obind].
  rewrite (u64_small (pos + 4 + _ + 1)) by lia. rewrite !Z.add_assoc, E4. cbn [obind].
  rewrite (u64_small (pos + 4 + _ + 1 + 4)) by lia. rewrite !Z.add_assoc.
  destruct r as [k rec]. cbn [om_find fst snd head default from_option id] in *.
  destruct (decide (k = key)) as [->|Hne].
  - rewrite (decide_True (P := key = key)) by done. cbn [fmap option_fmap option_map].
    unfold lookup_record. destruct rec as [t v]. cbn [vr_type vr_value] in *.
    destruct (decide (t = kValue)); [|done]. by rewrite E5.
  - rewrite (decide_False (P := key = k)) by congruence.
    rewrite u64_small by lia. apply IH; try done; [|lia|lia|simpl in Hf; lia].
    by rewrite !Z.add_assoc.
Qed.

(** ** Full scan of a block *)

Lemma ForEach_loop_rows data base size pos rows s fuel :
  at_off data (base + pos) (encode_rows rows ++ s) ->
  0 <= pos -> size = pos + zlen (encode_rows rows) -> size < 2 ^ 64 ->
  Forall row_ok rows -> (length rows < fuel)%nat ->
  ForEach_loop fuel data base size pos = Ret rows.
Proof.
  revert pos fuel. induction rows as [|r rows IH]; intros pos fuel Hat Hpos Hsz H64 Hok Hf;
    (destruct fuel as [|fuel]; [simpl in Hf; lia|]); cbn [ForEach_loop].
  { rewrite (proj2 (Z.ltb_ge _ _)) by (change (zlen (encode_rows [])) with 0 in Hsz; lia). done. }
  apply Forall_cons in Hok as [Hr Hok].
  rewrite encode_rows_cons, <- app_assoc in Hat.
  rewrite encode_rows_cons, zlen_app, zlen_encode_row in Hsz.
  pose proof (zlen_nonneg r.1). pose proof (zlen_nonneg (vr_value r.2)).
  pose proof (zlen_nonneg (encode_rows rows)).
  rewrite (proj2 (Z.ltb_lt _ _)) by lia. cbn [negb].
  destruct (record_fields _ _ _ _ Hat Hr) as (E1&E2&E3&E4&E5&Hval&Hnext).
  rewrite (u64_small (pos + 4)), (proj2 (Z.ltb_ge _ _)), E1 by lia. cbn [obind].
  rewrite (u64_small (pos + 4 + _)), (proj2 (Z.ltb_ge _ _)), Z.add_assoc, E2 by lia.
  cbn [obind].
  rewrite (u64_small (pos + 4 + _ + 1)), (proj2 (Z.ltb_ge _ _)), !Z.add_assoc, E3 by lia.
  cbn [obind].
  rewrite (u64_small (pos + 4 + _ + 1 + 4)), (proj2 (Z.ltb_ge _ _)), !Z.add_assoc, E4 by lia.
  cbn [obind].
  rewrite (u64_small (pos + 4 + _ + 1 + 4 + _)), (proj2 (Z.ltb_ge _ _)), E5
    by lia.
  cbn [obind].
  rewrite (IH (pos + 4 + zlen r.1 + 1 + 4 + zlen (vr_value r.2))); try done;
    [|by rewrite !Z.add_assoc|lia|lia|simpl in Hf; lia].
  by destruct r as [k [t v]].
Qed.

(** ** Parsing the index *)

Lemma ReadIndexBlock_loop_entries data base size pos es s acc fuel :
  at_off data (base + pos) (encode_index es ++ s) ->
  0 <= pos -> size = pos + zlen (encode_index es) -> size < 2 ^ 64 ->
  Forall index_entry_ok es -> (length es < fuel)%nat ->
  ReadIndexBlock_loop fuel data base size pos acc = Ret (acc ++ es).
Proof.
  revert pos fuel acc.
  induction es as [|e es IH]; intros pos fuel acc Hat Hpos Hsz H64 Hok Hf;
    (destruct fuel as [|fuel]; [simpl in Hf; lia|]); cbn [ReadIndexBlock_loop].
  { rewrite (proj2 (Z.ltb_ge _ _)) by (change (zlen (encode_index [])) with 0 in Hsz; lia).
    cbn [negb]. by rewrite app_nil_r. }
  apply Forall_cons in Hok as [[Hk [Ho Hs]] Hok].
  destruct e as [k [o hs]]. cbn [ie_last_key ie_handle bh_offset bh_size] in *.
  unfold encode_index in Hat, Hsz. cbn [map concat] in Hat, Hsz.
  fold (encode_index es) in Hat, Hsz. rewrite <- app_assoc in Hat.
  rewrite zlen_app in Hsz. unfold encode_index_entry in Hat, Hsz at 1.
  cbn [ie_last_key ie_handle] in Hat, Hsz.
  set (r := (k, mkRecord kValue (encode_handle (mkHandle o hs))) : row).
  change (encode_record k (encode_handle (mkHandle o hs)) kValue) with (encode_row r)
    in Hat, Hsz.
  assert (Hv : zlen (encode_handle (mkHandle o hs)) = 16).
  { unfold encode_handle. by rewrite zlen_app, !zlen_le_encode. }
  destruct (record_fields _ _ _ _ Hat) as (E1&E2&E3&E4&E5&Hval&Hnext).
  { split; simpl; [done|]. rewrite Hv. lia. }
  rewrite zlen_encode_row in Hsz. unfold r in *. cbn [fst snd vr_value vr_type] in *.
  rewrite Hv in *.
  pose proof (zlen_nonneg k). pose proof (zlen_nonneg (encode_index es)).
  unfold encode_handle in Hval. cbn [bh_offset bh_size] in Hval. rewrite <- app_assoc in Hval.
  pose proof (at_off_step _ _ _ _ (base + pos + 4 + zlen k + 1 + 4 + 8) Hval
    ltac:(zlen_lia)) as Hval2.
  pose proof (at_off_read_le _ _ 8 _ _ _ 8 Hval eq_refl eq_refl Ho) as E5a.
  pose proof (at_off_read_le _ _ 8 _ _ _ 8 Hval2 eq_refl eq_refl Hs) as E5b.
  rewrite (proj2 (Z.ltb_lt _ _)) by lia. cbn [negb].
  rewrite E1. cbn [obind].
  rewrite (u64_small (pos + 4)), Z.add_assoc, E2 by lia. cbn [obind].
  rewrite (u64_small (pos + 4 + _)), !Z.add_assoc, E3 by lia. cbn [obind].
  rewrite (u64_small (pos + 4 + _ + 1)), !Z.add_assoc, E4 by lia. cbn [obind].
  rewrite (u64_small (pos + 4 + _ + 1 + 4)), !Z.add_assoc, E5a by lia. cbn [obind].
  rewrite (u64_small (pos + 4 + _ + 1 + 4 + 8)), !Z.add_assoc, E5b by lia. cbn [obind].
  rewrite (IH (u64 (pos + 4 + zlen k + 1 + 4 + 8 + 8))).
  - by rewrite <- app_assoc.
  - rewrite u64_small by lia. rewrite !Z.add_assoc.
    replace (base + pos + 4 + zlen k + 1 + 4 + 8 + 8)
      with (base + pos + 4 + zlen k + 1 + 4 + 16) by lia. done.
  - rewrite u64_small by lia. lia.
  - rewrite u64_small by lia. lia.
  - done.
  - done.
  - simpl in Hf. lia.
Qed.
