(* ===== verification/SSTable.v ===== *)
(** Correctness of SSTables: what [SSTableBuilder] writes is what
    [SSTableReader] reads.  Opening the finished file succeeds, the full scan
    returns the rows in order, the point lookup agrees with the rows, and on
    arbitrary files every parsing loop terminates. *)
From S2P Require Import Prelude Storage OMap Bloom SSTableBuilder SSTableReader.

(** A file whose footer claims an index block at offset [off] of [size]
    octets, preceded by [body]. *)
Definition crafted_file (body : bytes) (off size : Z) : bytes :=
  body ++ Footer_EncodeTo (mkFooter (mkHandle off size) BlockHandle_default) [].

(** Facts about an index that was parsed from a file. *)
Definition entries_ok (es : list IndexEntry) : Prop :=
  Forall (fun e => handle_fits (ie_handle e)) es.

Definition reader_ok (r : SSTableReader) : Prop :=
  zlen (rd_data r) < 2 ^ 63 /\ entries_ok (rd_index_entries r).

(** * Lemmas *)

(** ** Opening a built file *)

Lemma index_of_ok off blocks :
  0 <= off -> Forall row_ok (concat blocks) ->
  off + zlen (encode_rows (concat blocks)) < 2 ^ 64 ->
  Forall index_entry_ok (index_of off blocks).
Proof.
  revert off. induction blocks as [|b bs IH]; intros off Hoff Hok Hsz; simpl; [constructor|].
  cbn [concat] in Hok, Hsz. apply Forall_app in Hok as [Hb Hbs].
  rewrite encode_rows_app, zlen_app in Hsz.
  pose proof (zlen_nonneg (encode_rows b)). pose proof (zlen_nonneg (encode_rows (concat bs))).
  constructor; [|apply IH; [lia|done|lia]].
  split; [|split; unfold fits; simpl; lia]. simpl. unfold last_row_key.
  destruct (last b) as [r|] eqn:E; [|done].
  apply last_Some_elem_of in E. rewrite Forall_forall in Hb. by destruct (Hb r E).
Qed.

Lemma length_index_of off blocks : length (index_of off blocks) = length blocks.
Proof. revert off. induction blocks; intros off; simpl; [done|]. by rewrite IHblocks. Qed.

Lemma blocks_le_rows (blocks : list (list row)) :
  Forall (fun b => b <> []) blocks -> (length blocks <= length (concat blocks))%nat.
Proof.
  induction 1 as [|b bs Hb _ IH]; simpl; [lia|].
  rewrite length_app. destruct b; [done|]. simpl. lia.
Qed.

Lemma rows_le_bytes (rows : list row) : (length rows <= length (encode_rows rows))%nat.
Proof. pose proof (encode_rows_length_ge rows). unfold zlen in *. lia. Qed.

Lemma concat_nonempty (blocks : list (list row)) :
  Forall (fun b => b <> []) blocks -> blocks <> [] -> concat blocks <> [].
Proof. intros [|b bs Hb _] Hne; [done|]. simpl. by destruct b. Qed.

(** The records of block [b] at its offset in the image. *)
Lemma block_at bs1 b bs2 :
  exists rest,
    at_off (sst_image (bs1 ++ b :: bs2)) (zlen (encode_rows (concat bs1)))
      (encode_rows b ++ rest).
Proof.
  unfold sst_image. cbv zeta. rewrite concat_app. cbn [concat].
  rewrite !encode_rows_app, <- !app_assoc. eexists. apply at_off_app.
Qed.

Lemma open_image blocks :
  blocks <> [] -> Forall (fun b => b <> []) blocks -> rows_ok (concat blocks) ->
  SSTableReader_Open true (Some (sst_image blocks)) = Ret (Some (reader_of blocks)).
Proof.
  intros Hne Hb [Hok Hsz].
  pose proof (image_sizes blocks Hb Hsz) as (Hfit & Hf & Hi).
  pose proof (concat_nonempty blocks Hb Hne) as Hrows.
  assert (Hfb : zlen (CreateFilter 10 (concat blocks).*1) <> 0).
  { rewrite zlen_CreateFilter; [|done|by destruct (concat blocks)].
    pose proof (filter_bytes_bounds 10 _ Hfit). lia. }
  unfold reader_of. unfold SSTableReader_Open.
  assert (Himg : sst_image blocks =
    encode_rows (concat blocks) ++ CreateFilter 10 (concat blocks).*1 ++
    encode_index (index_of 0 blocks) ++
    Footer_EncodeTo (mkFooter
      (mkHandle (zlen (encode_rows (concat blocks)) + zlen (CreateFilter 10 (concat blocks).*1))
                (zlen (encode_index (index_of 0 blocks))))
      (mkHandle (zlen (encode_rows (concat blocks)))
                (zlen (CreateFilter 10 (concat blocks).*1)))) []).
  { unfold sst_image. by destruct (concat blocks). }
  set (img := sst_image blocks) in *.
  set (data := encode_rows (concat blocks)) in *.
  set (filter := CreateFilter 10 (concat blocks).*1) in *.
  set (index := encode_index (index_of 0 blocks)) in *.
  set (footer := mkFooter _ _) in *.
  assert (Hlen : zlen img = zlen data + zlen filter + zlen index + kEncodedLength).
  { rewrite Himg, !zlen_app, Footer_EncodeTo_length. change (zlen []) with 0. lia. }
  pose proof (zlen_nonneg data). pose proof (zlen_nonneg filter).
  pose proof (zlen_nonneg index). unfold kEncodedLength in Hlen.
  rewrite (proj2 (Z.ltb_ge _ _)) by (unfold kEncodedLength; lia). cbn [negb].
  unfold ReadFooter, file_size. cbn [rd_data rd_footer rd_index_entries rd_filter_data].
  assert (Hfooter : mem_read img (zlen img - kEncodedLength) kEncodedLength =
    Ret (Footer_EncodeTo footer [])).
  { assert (Hat : at_off img (zlen data + zlen filter + zlen index)
                    (Footer_EncodeTo footer [] ++ [])).
    { rewrite app_nil_r, Himg.
      eapply at_off_step; [eapply at_off_step; [apply at_off_app|reflexivity]|reflexivity]. }
    eapply at_off_read; [exact Hat|unfold kEncodedLength; lia|].
    by rewrite Footer_EncodeTo_length. }
  rewrite Hfooter. cbn [obind].
  rewrite Footer_decode_encode
    by (repeat split; unfold footer; cbn [index_handle filter_handle bh_offset bh_size]; lia).
  cbn [obind negb]. unfold ReadIndexBlock, file_size.
  cbn [rd_data rd_footer rd_index_entries rd_filter_data footer index_handle bh_offset bh_size].
  rewrite u64_small, (proj2 (Z.ltb_ge _ _)) by (unfold kEncodedLength; lia).
  rewrite (ReadIndexBlock_loop_entries _ _ _ _ (index_of 0 blocks) (Footer_EncodeTo footer [])).
  2:{ rewrite Z.add_0_r, Himg. eapply at_off_step; [apply at_off_app|done]. }
  2:{ lia. } 2:{ done. } 2:{ lia. }
  2:{ apply index_of_ok; [lia|done|]. fold data. lia. }
  2:{ rewrite length_index_of. pose proof (blocks_le_rows blocks Hb).
      pose proof (rows_le_bytes (concat blocks)). fold data in H3.
      unfold scan_fuel, zlen in *. lia. }
  cbn [obind]. rewrite app_nil_l.
  destruct blocks as [|b bs]; [done|]. cbn [index_of negb obind].
  unfold ReadFilterBlock, file_size.
  cbn [rd_data rd_footer rd_index_entries rd_filter_data footer filter_handle bh_offset bh_size].
  rewrite (proj2 (Z.eqb_neq _ _)), u64_small, (proj2 (Z.ltb_ge _ _)) by lia.
  rewrite Himg at 1. rewrite mem_read_app by done. done.
Qed.

(** ** Scanning a built file *)

Lemma Forall_concat_in {A} (P : A -> Prop) (ls : list (list A)) l :
  Forall P (concat ls) -> l ∈ ls -> Forall P l.
Proof.
  rewrite !Forall_forall. intros H Hl x Hx. apply H.
  apply list_elem_of_In, in_concat. exists l. by rewrite <- !list_elem_of_In.
Qed.

Lemma block_fuel bs1 b bs2 :
  (length b < scan_fuel (sst_image (bs1 ++ b :: bs2)))%nat.
Proof.
  destruct (block_at bs1 b bs2) as [rest Hat]. apply at_off_bound in Hat.
  pose proof (encode_rows_length_ge b). pose proof (zlen_nonneg rest).
  pose proof (zlen_nonneg b). rewrite zlen_app in Hat. unfold scan_fuel, zlen in *. lia.
Qed.

Lemma block_size_bound bs1 b bs2 :
  zlen (encode_rows (concat (bs1 ++ b :: bs2))) < 2 ^ 60 -> zlen (encode_rows b) < 2 ^ 64.
Proof.
  rewrite concat_app. cbn [concat]. rewrite !encode_rows_app, !zlen_app.
  pose proof (zlen_nonneg (encode_rows (concat bs1))).
  pose proof (zlen_nonneg (encode_rows (concat bs2))). lia.
Qed.

Lemma ForEach_blocks_image bs1 bs2 :
  rows_ok (concat (bs1 ++ bs2)) ->
  ForEach_blocks (sst_image (bs1 ++ bs2))
    (index_of (zlen (encode_rows (concat bs1))) bs2) = Ret (concat bs2).
Proof.
  revert bs1. induction bs2 as [|b bs2 IH]; intros bs1 Hok; [done|].
  cbn [index_of ForEach_blocks ie_handle bh_offset bh_size].
  destruct (block_at bs1 b bs2) as [rest Hat].
  rewrite (ForEach_loop_rows _ _ _ _ b rest).
  - cbn [obind]. specialize (IH (bs1 ++ [b])).
    rewrite <- app_assoc in IH. cbn [app] in IH.
    rewrite concat_snoc, encode_rows_app, zlen_app in IH. by rewrite IH.
  - by rewrite Z.add_0_r.
  - done.
  - done.
  - by apply (block_size_bound bs1 b bs2), Hok.
  - eapply Forall_concat_in; [apply Hok|]. set_solver.
  - apply block_fuel.
Qed.

Lemma ForEach_image blocks :
  rows_ok (concat blocks) -> ForEach (reader_of blocks) = Ret (concat blocks).
Proof. apply (ForEach_blocks_image [] blocks). Qed.

(** ** Point lookup in a built file *)

(** In a sorted block every key is at most the last one. *)
Lemma last_row_key_max (b : list row) r :
  om_sorted b -> r ∈ b -> r.1 = last_row_key b \/ bytes_lt r.1 (last_row_key b).
Proof.
  destruct b as [|q b _] using rev_ind; [set_solver|].
  intros [Hlt _]%om_sorted_app Hr. unfold last_row_key. rewrite last_snoc.
  apply elem_of_app in Hr as [Hr|Hr%list_elem_of_singleton]; [right|left; by subst].
  apply Hlt; [done|set_solver].
Qed.

Lemma last_row_key_in (b : list row) : b <> [] -> exists r, r ∈ b /\ r.1 = last_row_key b.
Proof.
  destruct b as [|q b _] using rev_ind; [done|]. intros _.
  exists q. unfold last_row_key. rewrite last_snoc. split; [set_solver|done].
Qed.

Lemma om_find_None_all (l : list row) key : (forall r, r ∈ l -> r.1 <> key) -> om_find key l = None.
Proof.
  induction l as [|[k v] l IH]; intros H; [done|]. simpl.
  rewrite decide_False; [apply IH; set_solver|].
  intros ->. by apply (H (k, v)); [set_solver|].
Qed.

(** The blocks split at the first one whose last key is not below [key]. *)
Lemma blocks_partition key (blocks : list (list row)) :
  om_sorted (concat blocks) -> Forall (fun b => b <> []) blocks ->
  exists bs1 bs2, blocks = bs1 ++ bs2 /\
    Forall (fun b => bytes_lt (last_row_key b) key) bs1 /\
    Forall (fun b => ~ bytes_lt (last_row_key b) key) bs2.
Proof.
  induction blocks as [|b bs IH]; intros Hs Hne; [by exists [], []|].
  apply Forall_cons in Hne as [Hb Hne].
  cbn [concat] in Hs. apply om_sorted_app in Hs as (Hlt & Hs1 & Hs2).
  destruct (decide (bytes_lt (last_row_key b) key)) as [Hk|Hk].
  - destruct (IH Hs2 Hne) as (bs1 & bs2 & -> & H1 & H2).
    exists (b :: bs1), bs2. split; [done|]. split; [by constructor|done].
  - exists [], (b :: bs). split; [done|]. split; [constructor|]. constructor; [done|].
    rewrite Forall_forall in Hne |- *. intros b' Hb' Hk'. apply Hk.
    destruct (last_row_key_in b Hb) as (r & Hr & <-).
    destruct (last_row_key_in b' (Hne b' Hb')) as (r' & Hr' & Hr'').
    transitivity (last_row_key b'); [|done]. rewrite <- Hr''. apply Hlt; [done|].
    apply list_elem_of_In, in_concat. exists b'. by rewrite <- !list_elem_of_In.
Qed.

Lemma om_find_below_blocks key (bs : list (list row)) :
  om_sorted (concat bs) -> Forall (fun b => bytes_lt (last_row_key b) key) bs ->
  om_find key (concat bs) = None.
Proof.
  intros Hs Hl. apply om_find_None_all. intros r Hr <-.
  apply list_elem_of_In, in_concat in Hr as (b & Hb & Hr).
  rewrite <- !list_elem_of_In in *. rewrite Forall_forall in Hl. specialize (Hl b Hb).
  assert (om_sorted b).
  { clear -Hs Hb. induction bs as [|b' bs IH]; [set_solver|].
    cbn [concat] in Hs. apply om_sorted_app in Hs as (_ & H1 & H2).
    apply elem_of_cons in Hb as [->|Hb]; auto. }
  destruct (last_row_key_max b r H Hr) as [E|E].
  - rewrite E in Hl. by apply bytes_lt_irrefl in Hl.
  - by apply (bytes_lt_asym _ _ E).
Qed.

Lemma index_of_below off key bs :
  Forall (fun b => bytes_lt (last_row_key b) key) bs ->
  Forall (fun e => bytes_ltb (ie_last_key e) key = true) (index_of off bs).
Proof.
  intros H. revert off. induction H as [|b bs Hb _ IH]; intros off; simpl; [constructor|].
  constructor; [by apply bytes_ltb_lt|apply IH].
Qed.

Lemma index_of_above off key bs :
  Forall (fun b => ~ bytes_lt (last_row_key b) key) bs ->
  Forall (fun e => bytes_ltb (ie_last_key e) key = false) (index_of off bs).
Proof.
  intros H. revert off. induction H as [|b bs Hb _ IH]; intros off; simpl; [constructor|].
  constructor; [by apply bytes_ltb_nlt|apply IH].
Qed.

Lemma GetRecord_image blocks key :
  Forall (fun b => b <> []) blocks -> rows_ok (concat blocks) -> om_sorted (concat blocks) ->
  GetRecord (reader_of blocks) key = Ret (lookup_record <$> om_find key (concat blocks)).
Proof.
  intros Hne [Hok Hsz] Hs.
  pose proof (image_sizes blocks Hne Hsz) as (Hfit & _ & _).
  unfold GetRecord, reader_of. cbn [rd_data rd_index_entries rd_filter_data].
  destruct (_ && _) eqn:Eb.
  { (* the filter blocks only absent keys *)
    apply andb_true_iff in Eb as [_ Eb]. rewrite negb_true_iff in Eb.
    destruct (om_find key (concat blocks)) as [v|] eqn:Ef; [|done].
    apply om_find_elem in Ef.
    rewrite CreateFilter_complete in Eb; [done|done|].
    apply list_elem_of_fmap. by exists (key, v). }
  clear Eb.
  destruct (blocks_partition key blocks Hs Hne) as (bs1 & bs2 & -> & H1 & H2).
  rewrite index_of_app, Z.add_0_l.
  rewrite (lower_bound_partition _ (index_of 0 bs1));
    [|by apply index_of_below|by apply index_of_above].
  rewrite lookup_app_r, Nat.sub_diag by done.
  pose proof Hs as Hs'. rewrite concat_app in Hs'.
  apply om_sorted_app in Hs' as (Hlt & Hs1 & Hs2).
  rewrite concat_app, om_find_app, om_find_below_blocks by done.
  destruct bs2 as [|b bs2]; [done|]. cbn [index_of lookup list_lookup].
  cbn [ie_handle bh_offset bh_size].
  destruct (block_at bs1 b bs2) as [rest Hat].
  rewrite (GetRecord_loop_rows _ _ _ _ _ b rest); try done.
  - cbn [concat]. rewrite om_find_app. destruct (om_find key b); [done|].
    rewrite om_find_None_all; [done|]. intros r Hr <-.
    apply Forall_app in Hne as [_ [Hb _]%Forall_cons].
    apply Forall_cons in H2 as [H2 _]. apply H2.
    destruct (last_row_key_in b Hb) as (q & Hq & <-).
    cbn [concat] in Hs2. apply om_sorted_app in Hs2 as (Hlt2 & _ & _). by apply Hlt2.
  - by rewrite Z.add_0_r.
  - by apply (block_size_bound bs1 b bs2).
  - eapply Forall_concat_in; [apply Hok|]. set_solver.
  - apply block_fuel.
Qed.

(** The builder and the reader composed: the lemma the clients of SSTables
    use. *)
Lemma build_open rows :
  rows <> [] -> rows_ok rows -> om_sorted rows ->
  exists r, SSTableReader_Open true (Some (build_sst rows)) = Ret (Some r) /\
    ForEach r = Ret rows /\
    (forall key, GetRecord r key = Ret (lookup_record <$> om_find key rows)).
Proof.
  intros Hne Hok Hs. pose proof Hok as [_ Hsz].
  destruct (build_sst_image rows Hsz) as (blocks & <- & Hb & ->).
  exists (reader_of blocks). split; [apply open_image; try done; by intros ->|].
  split; [by apply ForEach_image|]. intros key. by apply GetRecord_image.
Qed.

(** ** Termination on arbitrary files *)

(** Case analysis on the next memory read of a parsing loop; a successful read
    leaves its bounds in the context. *)
Ltac step_read :=
  match goal with
  | |- context [obind (mem_read ?d ?o ?n) _] =>
      let E := fresh "Eread" in
      destruct (mem_read d o n) eqn:E;
      [apply mem_read_Ret in E | done | by apply mem_read_not_NoFuel in E]
  | |- context [obind (mem_read_le ?d ?o ?n) _] =>
      let E := fresh "Eread" in
      destruct (mem_read_le d o n) eqn:E;
      [apply mem_read_le_Ret in E | done | by apply mem_read_le_not_NoFuel in E]
  end; cbn [obind].

(** Drops the wrap-around of positions known to lie in the file. *)
Ltac exact_pos := rewrite u64_small by lia.

Lemma GetRecord_loop_terminates data base size pos key fuel :
  zlen data < 2 ^ 63 -> 0 <= base -> 0 <= pos ->
  1 <= Z.of_nat fuel -> zlen data - (base + pos) + 1 < Z.of_nat fuel ->
  GetRecord_loop fuel data base size pos key <> NoFuel.
Proof.
  intros Hd Hb. revert pos.
  induction fuel as [|fuel IH]; intros pos Hp Hf1 Hf; [simpl in Hf1; lia|].
  cbn [GetRecord_loop]. destruct (pos <? size); [|done]. cbn [negb].
  step_read. exact_pos. step_read. exact_pos. step_read. exact_pos. step_read. exact_pos.
  case_decide.
  - case_decide; [|done]. by step_read.
  - rewrite (u64_small (_ + _ + _ + _ + _ + _)) by lia. apply IH; lia.
Qed.

Lemma ForEach_loop_terminates data base size pos fuel :
  zlen data < 2 ^ 63 -> 0 <= base -> 0 <= pos ->
  1 <= Z.of_nat fuel -> zlen data - (base + pos) + 1 < Z.of_nat fuel ->
  ForEach_loop fuel data base size pos <> NoFuel.
Proof.
  intros Hd Hb. revert pos.
  induction fuel as [|fuel IH]; intros pos Hp Hf1 Hf; [simpl in Hf1; lia|].
  cbn [ForEach_loop]. destruct (pos <? size); [|done]. cbn [negb].
  case_match; [done|]. step_read. rewrite (u64_small (pos + 4)) by lia.
  case_match; [done|]. step_read. rewrite (u64_small (_ + _ + _)) by lia.
  case_match; [done|]. step_read. rewrite (u64_small (_ + _ + _ + _)) by lia.
  case_match; [done|]. step_read. rewrite (u64_small (_ + _ + _ + _ + _)) by lia.
  case_match; [done|]. step_read. rewrite (u64_small (_ + _ + _ + _ + _ + _)) by lia.
  assert (ForEach_loop fuel data base size (pos + 4 + a + 1 + 4 + a2) <> NoFuel)
    by (apply IH; lia).
  by destruct (ForEach_loop fuel data base size _).
Qed.

Lemma ReadIndexBlock_loop_terminates data base size pos acc fuel :
  zlen data < 2 ^ 63 -> 0 <= base -> 0 <= pos ->
  1 <= Z.of_nat fuel -> zlen data - (base + pos) + 1 < Z.of_nat fuel -> entries_ok acc ->
  match ReadIndexBlock_loop fuel data base size pos acc with
  | Ret es => entries_ok es
  | Fault => True
  | NoFuel => False
  end.
Proof.
  intros Hd Hb. revert pos acc.
  induction fuel as [|fuel IH]; intros pos acc Hp Hf1 Hf Hacc; [simpl in Hf1; lia|].
  cbn [ReadIndexBlock_loop]. destruct (pos <? size); [|done]. cbn [negb].
  step_read. exact_pos. step_read. exact_pos. step_read. exact_pos. step_read. exact_pos.
  step_read. exact_pos. step_read. exact_pos.
  apply IH; try lia. apply Forall_app. split; [done|]. repeat constructor; simpl; lia.
Qed.

Lemma GetRecord_terminates r key : reader_ok r -> GetRecord r key <> NoFuel.
Proof.
  intros [Hd He]. unfold GetRecord. case_match; [done|].
  destruct (rd_index_entries r !! _) as [e|] eqn:E; [|done].
  apply (Forall_lookup_1 _ _ _ _ He) in E as [[Ho _] [Hs _]].
  apply GetRecord_loop_terminates; unfold scan_fuel, zlen in *; lia.
Qed.

Lemma ForEach_terminates r : reader_ok r -> ForEach r <> NoFuel.
Proof.
  intros [Hd He]. unfold ForEach. induction He as [|e es [[Ho _] [Hs _]] _ IH]; [done|].
  cbn [ForEach_blocks].
  pose proof (ForEach_loop_terminates (rd_data r) (bh_offset (ie_handle e))
    (bh_size (ie_handle e)) 0 (scan_fuel (rd_data r))) as H.
  destruct (ForEach_loop _ _ _ _ _); cbn [obind]; [|done|].
  - by destruct (ForEach_blocks (rd_data r) es).
  - exfalso. apply H; try done; unfold scan_fuel, zlen in *; lia.
Qed.

Lemma Open_terminates mmap_ok file :
  (forall data, file = Some data -> zlen data < 2 ^ 63) ->
  match SSTableReader_Open mmap_ok file with
  | Ret (Some r) => reader_ok r
  | Ret None | Fault => True
  | NoFuel => False
  end.
Proof.
  intros Hsz. unfold SSTableReader_Open. destruct file as [data|]; [|done].
  specialize (Hsz data eq_refl). destruct (zlen data <? kEncodedLength); [done|].
  destruct mmap_ok; [|done]. cbn [negb].
  unfold ReadFooter. cbn [rd_data rd_footer rd_index_entries rd_filter_data].
  step_read. unfold Footer_DecodeFrom.
  destruct (zlen a <? kEncodedLength); [done|]. cbn [obind].
  destruct (u64_at a 32 =? kMagicNumber); [|done]. cbn [negb].
  unfold ReadIndexBlock. cbn [rd_data rd_footer rd_index_entries rd_filter_data].
  destruct (_ <? u64 _); [done|].
  cbn [index_handle bh_offset bh_size].
  pose proof (ReadIndexBlock_loop_terminates data (u64_at a 0) (u64_at a 8) 0 []
    (scan_fuel data) Hsz) as Hloop.
  assert (0 <= u64_at a 0) by apply le_decode_bounds.
  destruct (ReadIndexBlock_loop _ _ _ _ _ _) as [es| |]; cbn [obind]; [|done|].
  - assert (entries_ok es) by (apply Hloop; unfold scan_fuel, zlen in *; lia || constructor).
    destruct es as [|e es]; [done|]. cbn [negb].
    unfold ReadFilterBlock. cbn [rd_data rd_footer rd_index_entries rd_filter_data].
    destruct (_ =? 0); [done|]. destruct (_ <? u64 _); [done|]. by step_read.
  - apply Hloop; unfold scan_fuel, zlen in *; lia || constructor.
Qed.

(** ** A corrupted footer *)

Lemma crafted_open body off size :
  fits 64 off -> fits 64 size -> zlen body < 2 ^ 63 ->
  SSTableReader_Open true (Some (crafted_file body off size)) =
  if zlen body <? u64 (off + size) then Ret None
  else
    let* es := ReadIndexBlock_loop (scan_fuel (crafted_file body off size))
                 (crafted_file body off size) off size 0 [] in
    match es with
    | [] => Ret None
    | _ :: _ =>
        Ret (Some (mkReader (crafted_file body off size)
                     (mkFooter (mkHandle off size) BlockHandle_default) es []))
    end.
Proof.
  intros Ho Hs Hb. unfold SSTableReader_Open.
  set (footer := mkFooter (mkHandle off size) BlockHandle_default).
  assert (Hlen : zlen (crafted_file body off size) = zlen body + kEncodedLength).
  { unfold crafted_file. rewrite zlen_app, Footer_EncodeTo_length. done. }
  pose proof (zlen_nonneg body). unfold kEncodedLength in Hlen.
  rewrite (proj2 (Z.ltb_ge _ _)) by (unfold kEncodedLength; lia). cbn [negb].
  unfold ReadFooter, file_size. cbn [rd_data rd_footer rd_index_entries rd_filter_data].
  assert (Hfooter : mem_read (crafted_file body off size)
      (zlen (crafted_file body off size) - kEncodedLength) kEncodedLength =
    Ret (Footer_EncodeTo footer [])).
  { eapply at_off_read; [|rewrite Hlen; unfold kEncodedLength|];
      [rewrite app_nil_r; apply at_off_app|lia|by rewrite Footer_EncodeTo_length]. }
  rewrite Hfooter. cbn [obind].
  rewrite Footer_decode_encode by (repeat split; simpl; try lia; apply Ho || apply Hs).
  cbn [obind negb]. unfold ReadIndexBlock, file_size.
  cbn [rd_data rd_footer rd_index_entries rd_filter_data footer index_handle bh_offset bh_size].
  rewrite Hlen. change (16 + 16 + 8) with kEncodedLength. rewrite Z.add_simpl_r.
  change (bh_offset (index_handle footer)) with off.
  change (bh_size (index_handle footer)) with size.
  destruct (zlen body <? u64 (off + size)); cbn [obind negb].
  { reflexivity. }
  by destruct (ReadIndexBlock_loop _ _ _ _ _ _) as [[|e es]| |].
Qed.

(** * Properties *)

(** C9: an SSTable built from sorted rows reads back exactly.  Building a file
    from a non-empty, strictly sorted list of rows within the format's bounds
    and opening it succeeds; the full scan [ForEach] delivers exactly the rows
    in order, and [GetRecord] finds a key exactly when a row has it, with the
    row's type and (for [kValue]) its value.  The Bloom filter, the binary
    search in the index and the 4096-octet block splitting are all inside this
    statement. *)
Theorem sstable_roundtrip (rows : list row) :
  rows <> [] -> rows_ok rows -> om_sorted rows ->
  exists r, SSTableReader_Open true (Some (build_sst rows)) = Ret (Some r) /\
    ForEach r = Ret rows /\
    (forall key, GetRecord r key = Ret (lookup_record <$> om_find key rows)).
Proof. apply build_open. Qed.

Lemma sstable_roundtrip_witness :
  let rows := [(str "a", mkRecord kValue (str "1")); (str "b", mkRecord kDeletion []);
               (str "c", mkRecord kValue (str "3"))] in
  exists r, SSTableReader_Open true (Some (build_sst rows)) = Ret (Some r) /\
    ForEach r = Ret rows /\
    (forall key, GetRecord r key = Ret (lookup_record <$> om_find key rows)).
Proof.
  apply sstable_roundtrip.
  - discriminate.
  - split; [repeat constructor|reflexivity].
  - repeat constructor.
Defined.

(** No false negatives.  A key that was given to [CreateFilter] is always
    reported as possibly present by [KeyMayMatch]; the only condition is that
    the number of bits requested does not come within 8 of [2^64]. *)
Theorem bloom_no_false_negative (bits_per_key : Z) (keys : list bytes) (key : bytes) :
  u64 (zlen keys * u64 bits_per_key) <= 2 ^ 64 - 8 ->
  key ∈ keys -> KeyMayMatch key (CreateFilter bits_per_key keys) = true.
Proof. apply CreateFilter_complete. Qed.

Lemma bloom_no_false_negative_witness :
  KeyMayMatch (str "beta") (CreateFilter 10 [str "alpha"; str "beta"]) = true.
Proof.
  apply bloom_no_false_negative.
  - vm_compute. discriminate.
  - apply list_elem_of_In. right. left. reflexivity.
Defined.

(** C34: the parsing loops terminate on every file.  Whatever the octets of a
    file (below [2^63] of them), [Open] returns a reader, returns [nullptr] or
    leaves the mapping; it never runs forever, and neither do [GetRecord] and
    [ForEach] on a reader it returned. *)
Theorem sstable_reader_terminates (mmap_ok : bool) (data : bytes) :
  zlen data < 2 ^ 63 ->
  match SSTableReader_Open mmap_ok (Some data) with
  | Ret (Some r) => ForEach r <> NoFuel /\ forall key, GetRecord r key <> NoFuel
  | Ret None | Fault => True
  | NoFuel => False
  end.
Proof.
  intros Hsz. pose proof (Open_terminates mmap_ok (Some data)) as H.
  destruct (SSTableReader_Open mmap_ok (Some data)) as [[r|]| |]; try done.
  - assert (reader_ok r) by (apply H; congruence).
    split; [by apply ForEach_terminates|]. intros key. by apply GetRecord_terminates.
  - apply H. congruence.
Qed.

Lemma sstable_reader_terminates_witness :
  match SSTableReader_Open true (Some (build_sst [(str "k", mkRecord kValue (str "v"))])) with
  | Ret (Some r) => ForEach r <> NoFuel /\ forall key, GetRecord r key <> NoFuel
  | Ret None | Fault => True
  | NoFuel => False
  end.
Proof. apply (sstable_reader_terminates true). reflexivity. Defined.

(** An SSTable without rows cannot be opened: the index block is empty and
    [ReadIndexBlock] rejects it, so [Open] returns [nullptr] on the file that
    [Finish] writes for a builder that received no row. *)
Theorem empty_sstable_rejected : SSTableReader_Open true (Some (build_sst [])) = Ret None.
Proof. vm_compute. reflexivity. Qed.

(** C39: the bounds check of [ReadIndexBlock] can be bypassed.  The sum
    [offset + size] is computed modulo [2^64], so a footer with
    [offset = 2^64 - 8] and [size = 16] passes the check of any file with at
    least 8 octets before the footer, and the reader then leaves the mapping
    instead of returning [nullptr]. *)
Theorem index_bounds_check_overflow (body : bytes) :
  8 <= zlen body < 2 ^ 63 ->
  SSTableReader_Open true (Some (crafted_file body (2 ^ 64 - 8) 16)) = Fault.
Proof.
  intros Hb. rewrite crafted_open by (unfold fits; lia).
  change (u64 (2 ^ 64 - 8 + 16)) with 8.
  rewrite (proj2 (Z.ltb_ge _ _)) by lia.
  assert (Hlen : zlen (crafted_file body (2 ^ 64 - 8) 16) = zlen body + 40).
  { unfold crafted_file. rewrite zlen_app, Footer_EncodeTo_length. done. }
  cbn [scan_fuel ReadIndexBlock_loop]. change (0 <? 16) with true. cbn [negb].
  unfold mem_read_le at 1, mem_read at 1. rewrite Hlen.
  rewrite (proj2 (Z.leb_gt (2 ^ 64 - 8 + 0 + 4) _)) by lia.
  by rewrite andb_false_r.
Qed.

Lemma index_bounds_check_overflow_witness :
  SSTableReader_Open true (Some (crafted_file (replicate 8 x00) (2 ^ 64 - 8) 16)) = Fault.
Proof. apply index_bounds_check_overflow. split; [discriminate|reflexivity]. Defined.
