(* ===== verification/Crc.v ===== *)
(** The checksum of [src/WalHandler.cpp]: table-driven CRC-32 with the reversed
    polynomial [0xEDB88320].  The table-driven computation is proved equal to
    the bit-serial one, and a change of a single octet is proved to change the
    checksum. *)
From S2P Require Import Prelude.

(** [crc = (crc >> 1) ^ (crc & 1 ? 0xEDB88320 : 0)] *)
Definition crc_bit (crc : Z) : Z :=
  Z.lxor (Z.shiftr crc 1) (if Z.land crc 1 =? 0 then 0 else 0xEDB88320).

(** The inner loop over 8 bits. *)
Definition crc_bits8 (crc : Z) : Z := Nat.iter 8 crc_bit crc.

(** [crc_table] : entry [i] starts from [crc = i]. *)
Definition crc_table : list Z := map (fun i => crc_bits8 (Z.of_nat i)) (seq 0 256).

Definition crc_lookup (i : Z) : Z := nth (Z.to_nat i) crc_table 0.

(** One iteration of the loop over the data. *)
Definition crc_step (crc : Z) (c : byte) : Z :=
  Z.lxor (Z.shiftr crc 8) (crc_lookup (Z.land (Z.lxor crc (byte_to_Z c)) 0xFF)).

(** [WalHandler::CalculateCRC32] *)
Definition CalculateCRC32 (data : bytes) : Z :=
  Z.lxor (fold_left crc_step data 0xFFFFFFFF) 0xFFFFFFFF.

(** The reference: the polynomial division, one bit at a time. *)
Definition crc32_serial (data : bytes) : Z :=
  Z.lxor (fold_left (fun crc c => crc_bits8 (Z.lxor crc (byte_to_Z c))) data 0xFFFFFFFF)
         0xFFFFFFFF.

(** * Lemmas *)

(** ** Bitwise facts on bounded integers *)

Lemma lxor_bounds w a b : 0 <= w -> fits w a -> fits w b -> fits w (Z.lxor a b).
Proof.
  unfold fits. intros Hw [Ha1 Ha2] [Hb1 Hb2].
  assert (H0 : 0 <= Z.lxor a b) by (apply Z.lxor_nonneg; lia).
  split; [done|].
  destruct (decide (Z.lxor a b = 0)) as [E|Hn]; [rewrite E; by apply pow2_pos|].
  apply Z.log2_lt_pow2; [lia|].
  destruct (decide (w = 0)) as [Ew|Hw0].
  { rewrite Ew in *. change (2 ^ 0) with 1 in *.
    replace a with 0 in Hn by lia. by replace b with 0 in Hn by lia. }
  assert (Hlog : forall z, 0 <= z < 2 ^ w -> Z.log2 z < w).
  { intros z Hz. destruct (decide (z = 0)) as [E0|]; [rewrite E0; simpl; lia|].
    apply Z.log2_lt_pow2; lia. }
  pose proof (Z.log2_lxor a b Ha1 Hb1).
  pose proof (Hlog a (conj Ha1 Ha2)). pose proof (Hlog b (conj Hb1 Hb2)). lia.
Qed.

Lemma shiftr_bounds w n a : 0 <= n -> 0 <= w -> fits (w + n) a -> fits w (Z.shiftr a n).
Proof.
  unfold fits. intros Hn Hw [H1 H2]. rewrite Z.shiftr_div_pow2 by done.
  pose proof (pow2_pos n Hn). split; [apply Z.div_pos; lia|].
  apply Z.div_lt_upper_bound; [done|]. by rewrite <- Z.pow_add_r, Z.add_comm by lia.
Qed.

Lemma land_255_mod a : Z.land a 0xFF = a mod 256.
Proof. change 0xFF with (Z.ones 8). by rewrite Z.land_ones by lia. Qed.

Lemma land_255_bounds a : 0 <= Z.land a 0xFF < 256.
Proof. rewrite land_255_mod. apply Z.mod_pos_bound. lia. Qed.

Lemma fits_weaken w w' a : fits w a -> w <= w' -> fits w' a.
Proof.
  unfold fits. intros [H1 H2] Hw. split; [done|].
  eapply Z.lt_le_trans; [done|]. apply Z.pow_le_mono_r; lia.
Qed.

(** ** Linearity of the bit step *)

Lemma crc_bit_spec c :
  crc_bit c = Z.lxor (Z.shiftr c 1) (if Z.odd c then 0xEDB88320 else 0).
Proof.
  unfold crc_bit. change 1 with (Z.ones 1) at 2. rewrite Z.land_ones by lia.
  change (2 ^ 1) with 2. rewrite Zmod_odd. by destruct (Z.odd c).
Qed.

Lemma odd_lxor a b : Z.odd (Z.lxor a b) = xorb (Z.odd a) (Z.odd b).
Proof. by rewrite <- !Z.bit0_odd, Z.lxor_spec. Qed.

Lemma crc_bit_lxor a b : crc_bit (Z.lxor a b) = Z.lxor (crc_bit a) (crc_bit b).
Proof.
  rewrite !crc_bit_spec, odd_lxor, Z.shiftr_lxor.
  apply Z.bits_inj_iff. intros i. rewrite !Z.lxor_spec.
  destruct (Z.odd a), (Z.odd b); cbn [xorb]; rewrite ?Z.bits_0;
    destruct (Z.testbit (Z.shiftr a 1) i), (Z.testbit (Z.shiftr b 1) i),
             (Z.testbit 0xEDB88320 i); done.
Qed.

Lemma crc_iter_lxor n a b :
  Nat.iter n crc_bit (Z.lxor a b) = Z.lxor (Nat.iter n crc_bit a) (Nat.iter n crc_bit b).
Proof. induction n as [|n IH]; simpl; [done|]. by rewrite IH, crc_bit_lxor. Qed.

(** On a multiple of a power of two the steps only shift. *)
Lemma crc_iter_shiftl n y :
  Nat.iter n crc_bit (Z.shiftl y (Z.of_nat n)) = y.
Proof.
  induction n as [|n IH]; [apply Z.shiftl_0_r|].
  rewrite Nat.iter_succ_r.
  replace (crc_bit (Z.shiftl y (Z.of_nat (S n)))) with (Z.shiftl y (Z.of_nat n)); [done|].
  rewrite crc_bit_spec, <- Z.bit0_odd, Z.shiftl_spec_low by lia.
  rewrite Z.lxor_0_r, Z.shiftr_shiftl_l by lia. f_equal. lia.
Qed.

Lemma split_low_byte x :
  x = Z.lxor (Z.land x 0xFF) (Z.shiftl (Z.shiftr x 8) 8).
Proof.
  apply Z.bits_inj_iff'. intros i Hi. change 0xFF with (Z.ones 8).
  rewrite Z.lxor_spec, Z.land_spec, Z.testbit_ones by lia.
  destruct (decide (i < 8)).
  - rewrite Z.shiftl_spec_low by done.
    rewrite (proj2 (Z.leb_le 0 i)), (proj2 (Z.ltb_lt i 8)) by lia.
    by destruct (Z.testbit x i).
  - rewrite Z.shiftl_spec by lia. rewrite Z.shiftr_spec by lia.
    rewrite (proj2 (Z.ltb_ge i 8)) by lia. rewrite andb_false_r, andb_false_r.
    replace (i - 8 + 8) with i by lia. by destruct (Z.testbit x i).
Qed.

Lemma crc_lookup_spec i : 0 <= i < 256 -> crc_lookup i = crc_bits8 i.
Proof.
  intros Hi. unfold crc_lookup, crc_table.
  rewrite (nth_indep _ 0 (crc_bits8 (Z.of_nat 0))) by (rewrite length_map, length_seq; lia).
  rewrite (map_nth (fun i => crc_bits8 (Z.of_nat i))), seq_nth by lia.
  f_equal. lia.
Qed.

(** Eight bit steps are one table step. *)
Lemma crc_step_serial crc c : crc_step crc c = crc_bits8 (Z.lxor crc (byte_to_Z c)).
Proof.
  unfold crc_step. rewrite crc_lookup_spec by apply land_255_bounds.
  rewrite (split_low_byte (Z.lxor crc (byte_to_Z c))) at 2.
  unfold crc_bits8 at 2. rewrite crc_iter_lxor, Z.lxor_comm.
  change 8 with (Z.of_nat 8) at 3. rewrite crc_iter_shiftl. f_equal.
  rewrite Z.shiftr_lxor.
  replace (Z.shiftr (byte_to_Z c) 8) with 0; [by rewrite Z.lxor_0_r|].
  symmetry. rewrite Z.shiftr_div_pow2 by lia. apply Z.div_small, byte_to_Z_bounds.
Qed.

Lemma CalculateCRC32_serial data : CalculateCRC32 data = crc32_serial data.
Proof.
  unfold CalculateCRC32, crc32_serial. f_equal.
  generalize 0xFFFFFFFF. induction data as [|c data IH]; intros z; simpl; [done|].
  by rewrite crc_step_serial, IH.
Qed.

(** ** Bounds *)

Lemma crc_table_bounds : Forall (fun e => 0 <= e < 2 ^ 32) crc_table.
Proof.
  apply Forall_forall. intros e He.
  assert (Hb : forallb (fun e => (0 <=? e) && (e <? 2 ^ 32)) crc_table = true)
    by (vm_compute; reflexivity).
  rewrite forallb_forall in Hb. apply list_elem_of_In in He. specialize (Hb e He). z_bool. lia.
Qed.

Lemma crc_lookup_fits i : fits 32 (crc_lookup i).
Proof.
  unfold crc_lookup, fits. destruct (nth_in_or_default (Z.to_nat i) crc_table 0) as [H|H].
  - pose proof crc_table_bounds as Hb. rewrite Forall_forall in Hb.
    apply Hb. by apply list_elem_of_In.
  - rewrite H. lia.
Qed.

Lemma crc_step_fits crc c : fits 32 crc -> fits 32 (crc_step crc c).
Proof.
  intros H. unfold crc_step. apply lxor_bounds; [lia| |apply crc_lookup_fits].
  apply (fits_weaken 24); [|lia]. by apply (shiftr_bounds 24 8).
Qed.

Lemma crc_fold_fits data crc : fits 32 crc -> fits 32 (fold_left crc_step data crc).
Proof.
  revert crc. induction data as [|c data IH]; intros crc H; simpl; [done|].
  by apply IH, crc_step_fits.
Qed.

Lemma CalculateCRC32_fits data : fits 32 (CalculateCRC32 data).
Proof.
  unfold CalculateCRC32. apply lxor_bounds; [lia| |unfold fits; lia].
  apply crc_fold_fits. unfold fits. lia.
Qed.

(** ** Injectivity of the step *)

(** The most significant octets of the table entries are pairwise distinct. *)
Lemma crc_table_top_inj i j :
  0 <= i < 256 -> 0 <= j < 256 ->
  Z.shiftr (crc_lookup i) 24 = Z.shiftr (crc_lookup j) 24 -> i = j.
Proof.
  intros Hi Hj.
  assert (Hnd : NoDup (map (fun e => Z.shiftr e 24) crc_table)).
  { apply (bool_decide_eq_true_1 _). vm_compute. reflexivity. }
  assert (Hat : forall k, 0 <= k < 256 ->
    map (fun e => Z.shiftr e 24) crc_table !! Z.to_nat k = Some (Z.shiftr (crc_lookup k) 24)).
  { intros k Hk. rewrite list_lookup_fmap. unfold crc_lookup.
    destruct (lookup_lt_is_Some_2 crc_table (Z.to_nat k)) as [x Hx].
    { unfold crc_table. rewrite length_map, length_seq. lia. }
    by rewrite Hx, (nth_lookup_Some _ _ _ _ Hx). }
  intros H. pose proof (Hat i Hi) as H1. pose proof (Hat j Hj) as H2. rewrite H in H1.
  pose proof (NoDup_lookup _ _ _ _ Hnd H1 H2). lia.
Qed.

(** A table step determines the high part of the register and the table
    index. *)
Lemma crc_step_inj crc crc' c c' :
  fits 32 crc -> fits 32 crc' -> crc_step crc c = crc_step crc' c' ->
  Z.shiftr crc 8 = Z.shiftr crc' 8 /\
  Z.land (Z.lxor crc (byte_to_Z c)) 0xFF = Z.land (Z.lxor crc' (byte_to_Z c')) 0xFF.
Proof.
  intros H H' Heq. unfold crc_step in Heq.
  assert (Htop : forall x y, fits 24 x -> Z.shiftr (Z.lxor x y) 24 = Z.shiftr y 24).
  { intros x y Hx. rewrite Z.shiftr_lxor.
    replace (Z.shiftr x 24) with 0; [by rewrite Z.lxor_0_l|].
    symmetry. rewrite Z.shiftr_div_pow2 by lia. by apply Z.div_small. }
  pose proof (f_equal (fun z => Z.shiftr z 24) Heq) as Ht. cbv beta in Ht.
  rewrite !Htop in Ht by (by apply (shiftr_bounds 24 8)).
  apply crc_table_top_inj in Ht; [|apply land_255_bounds..].
  split; [|done]. rewrite Ht in Heq.
  apply (f_equal (fun z => Z.lxor z (crc_lookup
    (Z.land (Z.lxor crc' (byte_to_Z c')) 0xFF)))) in Heq.
  by rewrite !Z.lxor_assoc, Z.lxor_nilpotent, !Z.lxor_0_r in Heq.
Qed.

Lemma lxor_cancel_low a b c :
  Z.land (Z.lxor a c) 0xFF = Z.land (Z.lxor b c) 0xFF -> Z.land a 0xFF = Z.land b 0xFF.
Proof.
  intros H. apply Z.bits_inj_iff. intros i.
  apply (f_equal (fun z => Z.testbit z i)) in H.
  rewrite !Z.land_spec, !Z.lxor_spec in *.
  destruct (Z.testbit a i), (Z.testbit b i), (Z.testbit c i), (Z.testbit 255 i); done.
Qed.

Lemma crc_step_inj_crc crc crc' c :
  fits 32 crc -> fits 32 crc' -> crc_step crc c = crc_step crc' c -> crc = crc'.
Proof.
  intros H H' Heq. destruct (crc_step_inj _ _ _ _ H H' Heq) as [Hs Hl].
  apply lxor_cancel_low in Hl.
  by rewrite (split_low_byte crc), (split_low_byte crc'), Hs, Hl.
Qed.

Lemma crc_step_inj_byte crc c c' :
  fits 32 crc -> crc_step crc c = crc_step crc c' -> c = c'.
Proof.
  intros H Heq. destruct (crc_step_inj _ _ _ _ H H Heq) as [_ Hl].
  rewrite !(Z.lxor_comm crc) in Hl. apply lxor_cancel_low in Hl.
  rewrite !land_255_mod, !Z.mod_small in Hl by apply byte_to_Z_bounds.
  by apply byte_to_Z_inj.
Qed.

Lemma crc_fold_inj data crc crc' :
  fits 32 crc -> fits 32 crc' ->
  fold_left crc_step data crc = fold_left crc_step data crc' -> crc = crc'.
Proof.
  revert crc crc'. induction data as [|c data IH]; intros crc crc' H H' Heq; simpl in *; [done|].
  apply IH in Heq; [|by apply crc_step_fits..]. by apply crc_step_inj_crc in Heq.
Qed.

(** Messages that differ in one octet have different checksums. *)
Lemma CalculateCRC32_one_byte p c c' s :
  CalculateCRC32 (p ++ c :: s) = CalculateCRC32 (p ++ c' :: s) -> c = c'.
Proof.
  unfold CalculateCRC32. rewrite !fold_left_app. cbn [fold_left]. intros H.
  assert (Hp : fits 32 (fold_left crc_step p 0xFFFFFFFF)).
  { apply crc_fold_fits. unfold fits. lia. }
  apply (crc_step_inj_byte (fold_left crc_step p 0xFFFFFFFF)); [done|].
  apply (crc_fold_inj s); [by apply crc_step_fits..|].
  apply (f_equal (fun z => Z.lxor z 0xFFFFFFFF)) in H.
  by rewrite !Z.lxor_assoc, !Z.lxor_nilpotent, !Z.lxor_0_r in H.
Qed.
