(* ===== verification/Files.v ===== *)
(** The environment of the storage layer: decimal numerals ([std::to_string],
    [std::stoull]), file names, and the database directory with its files.

    Opening an existing file for reading always succeeds in this model; opening
    and writing may fail, as decided by a queue of outcomes [fs_io] (an empty
    queue means that every operation succeeds). *)
From S2P Require Import Prelude.

(** ** Decimal numerals *)

Definition digit (d : Z) : byte := Z_to_byte (48 + d).

(** [std::isdigit] *)
Definition is_digit (b : byte) : bool := (48 <=? byte_to_Z b) && (byte_to_Z b <=? 57).

Fixpoint digits_loop (fuel : nat) (z : Z) (acc : bytes) : bytes :=
  match fuel with
  | O => acc
  | S fuel' =>
      let acc := digit (z mod 10) :: acc in
      if z <? 10 then acc else digits_loop fuel' (z / 10) acc
  end.

(** [std::to_string] of a non-negative integer. *)
Definition to_string (z : Z) : bytes := digits_loop (S (Z.to_nat (Z.log2 z))) z [].

(** The number a digit string denotes. *)
Definition parse_digits (s : bytes) : Z :=
  fold_left (fun acc b => acc * 10 + (byte_to_Z b - 48)) s 0.

(** [std::stoull] on a non-empty digit string; [None] is [std::out_of_range]. *)
Definition stoull (s : bytes) : option Z :=
  let z := parse_digits s in if z <? 2 ^ 64 then Some z else None.

(** [std::stoi] on a non-empty digit string. *)
Definition stoi (s : bytes) : option Z :=
  let z := parse_digits s in if z <? 2 ^ 31 then Some z else None.

(** ** File names *)

(** Position of the last dot of a name. *)
Fixpoint last_dot (i : nat) (s : bytes) (found : option nat) : option nat :=
  match s with
  | [] => found
  | b :: s' => last_dot (S i) s' (if decide (b = x2e) then Some i else found)
  end.

(** [path::stem] and [path::extension] of a file name: a leading dot does not
    start an extension. *)
Definition path_split (name : bytes) : bytes * bytes :=
  match last_dot 0 name None with
  | None | Some O => (name, [])
  | Some i => (take i name, drop i name)
  end.

Definition path_stem (name : bytes) : bytes := (path_split name).1.
Definition path_extension (name : bytes) : bytes := (path_split name).2.

(** [db_path_ + "/" + std::to_string(id) + ".wal"], relative to the directory. *)
Definition wal_name (id : Z) : bytes := to_string id ++ str ".wal".
Definition sst_name (id : Z) : bytes := to_string id ++ str ".sst".

(** ** The directory *)

(** What happens to an attempt to open a file for writing and write to it. *)
Inductive io_result : Type :=
| io_ok
| io_open_fails
| io_short (n : nat).  (* only the first [n] octets reach the file *)

Record FS := mkFS {
  fs_is_dir : bool;             (* [db_path_] exists and is a directory *)
  fs_files : gmap bytes bytes;  (* its regular files *)
  fs_io : list io_result;       (* outcomes of the next write attempts *)
}.

Definition fs_read (fs : FS) (name : bytes) : option bytes := fs_files fs !! name.
Definition fs_exists (fs : FS) (name : bytes) : bool :=
  match fs_files fs !! name with Some _ => true | None => false end.

Definition fs_set (fs : FS) (name content : bytes) : FS :=
  mkFS (fs_is_dir fs) (<[name := content]> (fs_files fs)) (fs_io fs).

(** [fs::remove] *)
Definition fs_remove (fs : FS) (name : bytes) : FS :=
  mkFS (fs_is_dir fs) (delete name (fs_files fs)) (fs_io fs).

(** [fs::rename] *)
Definition fs_rename (fs : FS) (from to : bytes) : FS :=
  match fs_files fs !! from with
  | Some c => mkFS (fs_is_dir fs) (<[to := c]> (delete from (fs_files fs))) (fs_io fs)
  | None => fs
  end.

(** The next outcome of the queue. *)
Definition fs_next_io (fs : FS) : io_result * FS :=
  match fs_io fs with
  | [] => (io_ok, fs)
  | r :: q => (r, mkFS (fs_is_dir fs) (fs_files fs) q)
  end.

(** Opening [name] and writing [data] behind the content [base] that the open
    mode leaves (the old content for [app], nothing for [trunc]). *)
Definition fs_write (fs : FS) (name base data : bytes) : FS * bool :=
  let '(r, fs) := fs_next_io fs in
  match r with
  | io_ok => (fs_set fs name (base ++ data), true)
  | io_open_fails => (fs, false)
  | io_short n => (fs_set fs name (base ++ take n data), false)
  end.

(** [std::ios::app] *)
Definition fs_append (fs : FS) (name data : bytes) : FS * bool :=
  fs_write fs name (default [] (fs_read fs name)) data.

(** [std::ios::trunc] *)
Definition fs_overwrite (fs : FS) (name data : bytes) : FS * bool :=
  fs_write fs name [] data.

(** Opening for appending alone: the file is created when missing. *)
Definition fs_open_append (fs : FS) (name : bytes) : FS * bool :=
  let '(r, fs) := fs_next_io fs in
  match r with
  | io_open_fails => (fs, false)
  | _ => (fs_set fs name (default [] (fs_read fs name)), true)
  end.

(** Opening with [std::ios::trunc] alone: the file is emptied. *)
Definition fs_open_trunc (fs : FS) (name : bytes) : FS * bool :=
  let '(r, fs) := fs_next_io fs in
  match r with
  | io_open_fails => (fs, false)
  | _ => (fs_set fs name [], true)
  end.

(** The names [fs::directory_iterator] yields.  The standard leaves their order
    open; here it is the one of the map. *)
Definition fs_entries (fs : FS) : list bytes := (map_to_list (fs_files fs)).*1.

(** A directory in which nothing fails. *)
Definition fs_healthy (fs : FS) : Prop := fs_is_dir fs = true /\ fs_io fs = [].

(** * Lemmas *)

Lemma is_digit_digit d : 0 <= d < 10 -> is_digit (digit d) = true.
Proof.
  intros H. unfold is_digit, digit. rewrite byte_to_Z_to_byte, Z.mod_small by lia.
  apply andb_true_iff. split; apply Z.leb_le; lia.
Qed.

Lemma digits_loop_digits fuel z acc :
  0 <= z -> forallb is_digit acc = true -> forallb is_digit (digits_loop fuel z acc) = true.
Proof.
  revert z acc. induction fuel as [|fuel IH]; intros z acc Hz Ha; [done|].
  cbn [digits_loop].
  assert (forallb is_digit (digit (z mod 10) :: acc) = true).
  { cbn [forallb]. rewrite is_digit_digit, Ha; [done|]. apply Z.mod_pos_bound. lia. }
  destruct (z <? 10); [done|]. apply IH; [apply Z.div_pos; lia|done].
Qed.

Lemma to_string_digits z : 0 <= z -> forallb is_digit (to_string z) = true.
Proof. intros. by apply digits_loop_digits. Qed.

Lemma digits_loop_parse fuel z acc n :
  0 <= z < 2 ^ Z.of_nat fuel -> (0 < fuel)%nat ->
  fold_left (fun acc b => acc * 10 + (byte_to_Z b - 48)) acc z = n ->
  parse_digits (digits_loop fuel z acc) = n.
Proof.
  revert z acc. induction fuel as [|fuel IH]; intros z acc Hz Hf Hn; [lia|].
  cbn [digits_loop].
  pose proof (Z.mod_pos_bound z 10 ltac:(lia)).
  assert (Hd : byte_to_Z (digit (z mod 10)) - 48 = z mod 10).
  { unfold digit. rewrite byte_to_Z_to_byte, Z.mod_small by lia. lia. }
  destruct (z <? 10) eqn:E; z_bool.
  - unfold parse_digits. cbn [fold_left]. rewrite Hd, Z.mod_small by lia. done.
  - rewrite Nat2Z.inj_succ, Z.pow_succ_r in Hz by lia.
    assert (z / 10 < 2 ^ Z.of_nat fuel) by (apply Z.div_lt_upper_bound; lia).
    assert (1 <= z / 10) by (apply Z.div_le_lower_bound; lia).
    apply IH; [lia| |].
    + destruct fuel; [simpl in *; lia|lia].
    + cbn [fold_left]. rewrite Hd.
      replace (z / 10 * 10 + z mod 10) with z; [done|].
      pose proof (Z.div_mod z 10). lia.
Qed.

Lemma parse_to_string z : 0 <= z -> parse_digits (to_string z) = z.
Proof.
  intros Hz. unfold to_string. apply digits_loop_parse; [|lia|done].
  rewrite Nat2Z.inj_succ, Z2Nat.id by apply Z.log2_nonneg.
  split; [done|]. destruct (decide (z = 0)) as [E|]; [by rewrite E|].
  apply Z.log2_spec. lia.
Qed.

Lemma to_string_inj a b : 0 <= a -> 0 <= b -> to_string a = to_string b -> a = b.
Proof. intros Ha Hb H. by rewrite <- (parse_to_string a), <- (parse_to_string b), H. Qed.

Lemma digits_loop_nonempty fuel z acc : (0 < fuel)%nat -> digits_loop fuel z acc <> [].
Proof.
  intros Hf. destruct fuel as [|fuel]; [lia|]. clear Hf. cbn [digits_loop].
  revert z acc. induction fuel as [|fuel IH]; intros z acc; destruct (z <? 10); try done.
  cbn [digits_loop]. apply IH.
Qed.

Lemma to_string_nonempty z : to_string z <> [].
Proof. apply digits_loop_nonempty. lia. Qed.

(** ** Names *)

Lemma last_dot_app i s t found :
  last_dot i (s ++ t) found = last_dot (i + length s) t (last_dot i s found).
Proof.
  revert i found. induction s as [|b s IH]; intros i found; simpl.
  - by rewrite Nat.add_0_r.
  - rewrite IH. f_equal. lia.
Qed.

Lemma last_dot_digits i s found : forallb is_digit s = true -> last_dot i s found = found.
Proof.
  revert i. induction s as [|b s IH]; intros i H; [done|].
  cbn [forallb last_dot] in *. apply andb_true_iff in H as [Hb Hs].
  rewrite decide_False by (intros ->; done). by apply IH.
Qed.

Lemma path_split_id z ext :
  0 <= z -> ext = str ".wal" \/ ext = str ".sst" ->
  path_split (to_string z ++ ext) = (to_string z, ext).
Proof.
  intros Hz He. unfold path_split.
  rewrite last_dot_app, (last_dot_digits _ (to_string z)) by (by apply to_string_digits).
  pose proof (to_string_nonempty z).
  assert (last_dot (0 + length (to_string z)) ext None = Some (length (to_string z))) as ->.
  { by destruct He as [-> | ->]. }
  destruct (length (to_string z)) as [|n] eqn:E; [by apply nil_length_inv in E|].
  rewrite <- E. by rewrite take_app_length, drop_app_length.
Qed.

Lemma wal_name_inj a b : 0 <= a -> 0 <= b -> wal_name a = wal_name b -> a = b.
Proof. intros Ha Hb H%app_inv_tail. by apply to_string_inj. Qed.

Lemma sst_name_inj a b : 0 <= a -> 0 <= b -> sst_name a = sst_name b -> a = b.
Proof. intros Ha Hb H%app_inv_tail. by apply to_string_inj. Qed.

Lemma wal_sst_name_ne a b : wal_name a <> sst_name b.
Proof.
  unfold wal_name, sst_name. intros H.
  apply (f_equal (fun s => last s)) in H. by rewrite !last_app in H.
Qed.

(** ** Writes in a healthy directory *)

Lemma fs_write_healthy fs name base data :
  fs_io fs = [] -> fs_write fs name base data = (fs_set fs name (base ++ data), true).
Proof. intros H. unfold fs_write, fs_next_io. by rewrite H. Qed.

Lemma fs_healthy_set fs name c : fs_healthy fs -> fs_healthy (fs_set fs name c).
Proof. done. Qed.

Lemma fs_healthy_remove fs name : fs_healthy fs -> fs_healthy (fs_remove fs name).
Proof. done. Qed.

Lemma fs_healthy_rename fs a b : fs_healthy fs -> fs_healthy (fs_rename fs a b).
Proof. unfold fs_rename. by destruct (fs_files fs !! a). Qed.

#[export] Hint Resolve fs_healthy_set fs_healthy_remove fs_healthy_rename : nova.
