(* ===== verification/Wal.v ===== *)
(** The write-ahead log ([include/WalHandler.h], [src/WalHandler.cpp]): record
    format, appending and replay.  Replay is modelled on the state of the input
    stream (remaining octets, failure flag); the locals that the code leaves
    uninitialised when a read fails are a parameter. *)
From S2P Require Import Prelude Storage Files Crc.

(** A handler: the file name and whether the output stream is usable (opened,
    and no write has failed). *)
Record WalHandler := mkWal {
  wh_filename : bytes;
  wh_good : bool;
}.

(** The constructor: open in binary append mode. *)
Definition WalHandler_new (fs : FS) (filename : bytes) : WalHandler * FS :=
  let '(fs, ok) := fs_open_append fs filename in (mkWal filename ok, fs).

Definition WalHandler_GetFilename (h : WalHandler) : bytes := wh_filename h.

(** [Type (1B)] [KeyLen (4B)] [Key] [ValueLen (4B)] [Value] *)
Definition wal_payload (key value : bytes) (type : ValueType) : bytes :=
  let k_len := u32 (zlen key) in
  let v_len := u32 (zlen value) in
  [type] ++ le_encode 4 k_len ++ key ++ le_encode 4 v_len ++ value.

(** [CRC (4B)] followed by the payload. *)
Definition wal_record (key value : bytes) (type : ValueType) : bytes :=
  let payload := wal_payload key value type in
  le_encode 4 (CalculateCRC32 payload) ++ payload.

(** [WalHandler::AddLog].  The code does not look at the state of the stream:
    on a stream that failed the writes do nothing. *)
Definition AddLog (fs : FS) (h : WalHandler) (key value : bytes) (type : ValueType)
    : WalHandler * FS :=
  if wh_good h then
    let '(fs, ok) := fs_append fs (wh_filename h) (wal_record key value type) in
    (mkWal (wh_filename h) ok, fs)
  else (h, fs).

(** ** Replay *)

(** An input stream: the octets not read yet, and failbit. *)
Record istream := mkStream {
  is_rest : bytes;
  is_fail : bool;
}.

(** [src.read(buf, n)] into a buffer that holds [buf]; [length buf = n].  A
    stream that has failed leaves the buffer alone; at the end of the file the
    octets that are left are stored and the stream fails. *)
Definition stream_read (s : istream) (buf : bytes) : bytes * istream :=
  if is_fail s then (buf, s)
  else
    let n := length buf in
    let got := take n (is_rest s) in
    if (n <=? length (is_rest s))%nat
    then (got, mkStream (drop n (is_rest s)) false)
    else (got ++ drop (length got) buf, mkStream [] true).

(** [src.peek() == EOF] *)
Definition stream_at_eof (s : istream) : bool :=
  is_fail s || match is_rest s with [] => true | _ => false end.

(** What the loop of [LoadLog] hands to its callback. *)
Record WalEntry := mkEntry {
  we_type : ValueType;
  we_key : bytes;
  we_value : bytes;
}.

Section load.

(** Contents of the locals [t], [k_len], [v_len] before they are read, in
    iteration [i] of the loop. *)
Context (junk_t : nat -> byte) (junk_k junk_v : nat -> bytes).

(** [WalHandler::LoadLog], the loop from iteration [i] on.  The bound [fuel] is
    enough when it exceeds the number of octets left. *)
Fixpoint LoadLog_loop (fuel i : nat) (s : istream) : outcome (list WalEntry) :=
  match fuel with
  | O => NoFuel
  | S fuel' =>
      if stream_at_eof s then Ret []
      else
        let '(saved_crc, s) := stream_read s (replicate 4 x00) in
        if is_fail s then Ret []
        else
          let '(t, s) := stream_read s [junk_t i] in
          let '(kb, s) := stream_read s (junk_k i) in
          let k_len := le_decode kb in
          let '(key, s) := stream_read s (replicate (Z.to_nat k_len) x00) in
          let '(vb, s) := stream_read s (junk_v i) in
          let v_len := le_decode vb in
          let '(value, s) := stream_read s (replicate (Z.to_nat v_len) x00) in
          let body := t ++ kb ++ key ++ vb ++ value in
          if CalculateCRC32 body =? le_decode saved_crc then
            let* rest := LoadLog_loop fuel' (S i) s in
            Ret (mkEntry (default x00 (head t)) key value :: rest)
          else Ret []
  end.

(** [LoadLog] on the content of the log; a missing file delivers nothing. *)
Definition LoadLog (file : option bytes) : outcome (list WalEntry) :=
  match file with
  | None => Ret []
  | Some data => LoadLog_loop (S (length data)) 0 (mkStream data false)
  end.

End load.

(** The record of an entry, and the log of a list of entries. *)
Definition encode_entry (e : WalEntry) : bytes :=
  wal_record (we_key e) (we_value e) (we_type e).

Definition encode_log (es : list WalEntry) : bytes := concat (map encode_entry es).

(** Entries within the 32-bit lengths of the format. *)
Definition entry_ok (e : WalEntry) : Prop :=
  zlen (we_key e) < 2 ^ 32 /\ zlen (we_value e) < 2 ^ 32.

(** The uninitialised locals have the sizes of their types. *)
Definition junk_ok (junk_k junk_v : nat -> bytes) : Prop :=
  forall i, length (junk_k i) = 4%nat /\ length (junk_v i) = 4%nat.

(** A sequence of [AddLog] calls. *)
Definition add_logs (fs : FS) (h : WalHandler) (es : list WalEntry) : WalHandler * FS :=
  fold_left (fun '(h, fs) e => AddLog fs h (we_key e) (we_value e) (we_type e)) es (h, fs).

(** Two entries that differ in exactly one octet of the type, key or value. *)
Inductive one_octet_differs : WalEntry -> WalEntry -> Prop :=
| differs_type t t' k v :
    t <> t' -> one_octet_differs (mkEntry t k v) (mkEntry t' k v)
| differs_key t v p c c' s :
    c <> c' -> one_octet_differs (mkEntry t (p ++ c :: s) v) (mkEntry t (p ++ c' :: s) v)
| differs_value t k p c c' s :
    c <> c' -> one_octet_differs (mkEntry t k (p ++ c :: s)) (mkEntry t k (p ++ c' :: s)).

(** A log in which the payload of [e] was replaced by that of [e'], its stored
    checksum untouched, between [es1] and [es2]. *)
Definition corrupted_log (es1 : list WalEntry) (e e' : WalEntry) (es2 : list WalEntry) : bytes :=
  encode_log es1 ++
  le_encode 4 (CalculateCRC32 (wal_payload (we_key e) (we_value e) (we_type e))) ++
  wal_payload (we_key e') (we_value e') (we_type e') ++
  encode_log es2.

(** A log that ends with a record cut [n] octets into its value. *)
Definition torn_log (es : list WalEntry) (e : WalEntry) (n : nat) : bytes :=
  encode_log es ++
  take (length (encode_entry e) - (length (we_value e) - n)) (encode_entry e).

(** The entry that replay reconstructs from the cut record. *)
Definition zero_filled (e : WalEntry) (n : nat) : WalEntry :=
  mkEntry (we_type e) (we_key e)
    (take n (we_value e) ++ replicate (length (we_value e) - n) x00).

Definition entry_payload (e : WalEntry) : bytes :=
  wal_payload (we_key e) (we_value e) (we_type e).

(** * Lemmas *)

Lemma stream_read_app x rest buf :
  length buf = length x ->
  stream_read (mkStream (x ++ rest) false) buf = (x, mkStream rest false).
Proof.
  intros H. unfold stream_read. cbn [is_fail is_rest]. rewrite H.
  rewrite (proj2 (Nat.leb_le _ _)) by (rewrite length_app; lia).
  by rewrite take_app_length, drop_app_length.
Qed.

Lemma stream_read_short x buf :
  (length x < length buf)%nat ->
  stream_read (mkStream x false) buf = (x ++ drop (length x) buf, mkStream [] true).
Proof.
  intros H. unfold stream_read. cbn [is_fail is_rest].
  rewrite (proj2 (Nat.leb_gt _ _)) by done. by rewrite take_ge by lia.
Qed.

(** Reading from a stream never makes more octets available. *)
Lemma stream_read_rest s buf s' got :
  stream_read s buf = (got, s') -> (length (is_rest s') <= length (is_rest s))%nat.
Proof.
  unfold stream_read. destruct (is_fail s); [by intros [= _ <-]|].
  destruct (_ <=? _)%nat; intros [= _ <-]; simpl; [rewrite length_drop|]; lia.
Qed.

Lemma zlen_wal_payload k v t : zlen (wal_payload k v t) = 9 + zlen k + zlen v.
Proof. unfold wal_payload. cbv zeta. zlen_lia. Qed.

Lemma length_encode_entry e :
  zlen (encode_entry e) = 13 + zlen (we_key e) + zlen (we_value e).
Proof.
  unfold encode_entry, wal_record. cbv zeta.
  rewrite zlen_app, zlen_le_encode, zlen_wal_payload. lia.
Qed.

Lemma encode_log_app es es' : encode_log (es ++ es') = encode_log es ++ encode_log es'.
Proof. unfold encode_log. by rewrite map_app, concat_app. Qed.

Lemma encode_log_cons e es : encode_log (e :: es) = encode_entry e ++ encode_log es.
Proof. done. Qed.

Section replay.
Context (junk_t : nat -> byte) (junk_k junk_v : nat -> bytes).
Context (Hjunk : junk_ok junk_k junk_v).

(** The body that an iteration of the loop sees: five chunks whose lengths are
    those announced. *)
Lemma LoadLog_loop_chunks fuel i crc t kb key vb value rest :
  length crc = 4%nat -> length kb = 4%nat -> length vb = 4%nat ->
  le_decode kb = zlen key -> le_decode vb = zlen value ->
  LoadLog_loop junk_t junk_k junk_v (S fuel) i
    (mkStream (crc ++ (t :: kb ++ key ++ vb ++ value) ++ rest) false) =
  if CalculateCRC32 (t :: kb ++ key ++ vb ++ value) =? le_decode crc then
    let* es := LoadLog_loop junk_t junk_k junk_v fuel (S i) (mkStream rest false) in
    Ret (mkEntry t key value :: es)
  else Ret [].
Proof.
  intros Hc Hk Hv Hkd Hvd. cbn [LoadLog_loop].
  destruct (Hjunk i) as [Hjk Hjv].
  assert (Heof : stream_at_eof (mkStream (crc ++ (t :: kb ++ key ++ vb ++ value) ++ rest) false)
                 = false) by (by destruct crc).
  rewrite Heof, stream_read_app by (by rewrite Hc). cbn [is_fail].
  change ((t :: kb ++ key ++ vb ++ value) ++ rest)
    with ([t] ++ (kb ++ key ++ vb ++ value) ++ rest).
  rewrite stream_read_app by done. rewrite <- !app_assoc.
  rewrite stream_read_app by (by rewrite Hk). rewrite Hkd.
  rewrite stream_read_app by (rewrite length_replicate; unfold zlen; lia).
  rewrite stream_read_app by (by rewrite Hv). rewrite Hvd.
  rewrite stream_read_app by (rewrite length_replicate; unfold zlen; lia).
  done.
Qed.

(** A whole record is delivered and the loop continues behind it. *)
Lemma LoadLog_loop_entry fuel i e rest :
  entry_ok e ->
  LoadLog_loop junk_t junk_k junk_v (S fuel) i (mkStream (encode_entry e ++ rest) false) =
  let* es := LoadLog_loop junk_t junk_k junk_v fuel (S i) (mkStream rest false) in
  Ret (e :: es).
Proof.
  intros [Hk Hv]. destruct e as [t k v]. cbn [we_key we_value] in *.
  unfold encode_entry, wal_record, wal_payload. cbn [we_type we_key we_value]. cbv zeta.
  pose proof (zlen_nonneg k). pose proof (zlen_nonneg v).
  rewrite !u32_small by lia. rewrite <- app_assoc.
  change ([t] ++ ?x) with (t :: x).
  rewrite LoadLog_loop_chunks; rewrite ?length_le_encode; try done;
    rewrite ?(le_decode_encode_fits 4) by ((split; [lia|done]) || apply CalculateCRC32_fits);
    try done.
  by rewrite Z.eqb_refl.
Qed.

(** Whole records in front of anything are delivered first. *)
Lemma LoadLog_loop_entries es fuel i rest :
  Forall entry_ok es ->
  LoadLog_loop junk_t junk_k junk_v (length es + fuel) i
    (mkStream (encode_log es ++ rest) false) =
  let* tl := LoadLog_loop junk_t junk_k junk_v fuel (length es + i) (mkStream rest false) in
  Ret (es ++ tl).
Proof.
  intros H. revert i. induction H as [|e es He _ IH]; intros i.
  - simpl. by destruct (LoadLog_loop _ _ _ _ _ _).
  - rewrite encode_log_cons, <- app_assoc. cbn [length Nat.add].
    rewrite LoadLog_loop_entry, IH by done.
    replace (length es + S i)%nat with (S (length es + i)) by lia.
    by destruct (LoadLog_loop _ _ _ fuel _ _).
Qed.

(** More fuel than octets is always enough, and the amount does not matter. *)
Lemma LoadLog_loop_fuel fuel fuel' i s :
  (length (is_rest s) < fuel)%nat -> (length (is_rest s) < fuel')%nat ->
  LoadLog_loop junk_t junk_k junk_v fuel i s = LoadLog_loop junk_t junk_k junk_v fuel' i s /\
  LoadLog_loop junk_t junk_k junk_v fuel i s <> NoFuel.
Proof.
  revert fuel' i s. induction fuel as [|fuel IH]; intros fuel' i s Hf Hf'; [lia|].
  destruct fuel' as [|fuel']; [lia|]. cbn [LoadLog_loop].
  destruct (stream_at_eof s) eqn:Heof; [done|].
  unfold stream_at_eof in Heof. apply orb_false_iff in Heof as [Hfail Hrest].
  destruct (stream_read s (replicate 4 x00)) as [crc s1] eqn:E1.
  destruct (is_fail s1) eqn:Hf1; [done|].
  assert (Hlt : (length (is_rest s1) < length (is_rest s))%nat).
  { unfold stream_read in E1. rewrite Hfail, length_replicate in E1.
    destruct (_ <=? _)%nat eqn:El in E1; injection E1 as <- <-; [|done].
    apply Nat.leb_le in El. simpl. rewrite length_drop. lia. }
  destruct (stream_read s1 _) as [t s2] eqn:E2.
  destruct (stream_read s2 _) as [kb s3] eqn:E3.
  destruct (stream_read s3 _) as [key s4] eqn:E4.
  destruct (stream_read s4 _) as [vb s5] eqn:E5.
  destruct (stream_read s5 _) as [value s6] eqn:E6.
  apply stream_read_rest in E2, E3, E4, E5, E6.
  destruct (_ =? _); [|done].
  destruct (IH fuel' (S i) s6) as [Heq Hne]; [lia..|]. rewrite <- Heq.
  split; [done|]. by destruct (LoadLog_loop _ _ _ fuel _ _).
Qed.

Lemma length_encode_log es : (length es <= length (encode_log es))%nat.
Proof.
  induction es as [|e es IH]; [simpl; lia|].
  rewrite encode_log_cons, length_app. pose proof (length_encode_entry e).
  pose proof (zlen_nonneg (we_key e)). pose proof (zlen_nonneg (we_value e)).
  unfold zlen in *. simpl. lia.
Qed.

(** Replay of whole records followed by [rest]. *)
Lemma LoadLog_app es rest :
  Forall entry_ok es ->
  LoadLog junk_t junk_k junk_v (Some (encode_log es ++ rest)) =
  let* tl := LoadLog_loop junk_t junk_k junk_v (S (length rest)) (length es)
               (mkStream rest false) in
  Ret (es ++ tl).
Proof.
  intros H. unfold LoadLog. pose proof (length_encode_log es) as Hl.
  set (fuel := (S (length (encode_log es ++ rest)) - length es)%nat).
  assert (Hfuel : (fuel = S (length rest) + (length (encode_log es) - length es))%nat)
    by (unfold fuel; rewrite length_app; lia).
  destruct (LoadLog_loop_fuel (S (length (encode_log es ++ rest))) (length es + fuel) 0
    (mkStream (encode_log es ++ rest) false)) as [-> _];
    [cbn [is_rest]; rewrite length_app; lia..|].
  rewrite LoadLog_loop_entries by done. rewrite Nat.add_0_r.
  destruct (LoadLog_loop_fuel fuel (S (length rest)) (length es) (mkStream rest false))
    as [-> _]; [cbn [is_rest]; lia..|done].
Qed.

Lemma LoadLog_encode_log es :
  Forall entry_ok es -> LoadLog junk_t junk_k junk_v (Some (encode_log es)) = Ret es.
Proof.
  intros H. rewrite <- (app_nil_r (encode_log es)), LoadLog_app by done.
  simpl. by rewrite app_nil_r.
Qed.

(** Fewer than four octets behind the last record are ignored. *)
Lemma LoadLog_loop_torn_crc fuel i rest :
  (length rest < 4)%nat ->
  LoadLog_loop junk_t junk_k junk_v (S fuel) i (mkStream rest false) = Ret [].
Proof.
  intros H. cbn [LoadLog_loop]. destruct (stream_at_eof _); [done|].
  by rewrite stream_read_short.
Qed.

(** A record cut inside its value is rebuilt with zeros, and dropped unless
    that collides with the stored checksum. *)
Lemma LoadLog_loop_torn_value fuel i e n :
  entry_ok e -> (n < length (we_value e))%nat ->
  let cut := mkEntry (we_type e) (we_key e)
               (take n (we_value e) ++ replicate (length (we_value e) - n) x00) in
  let payload e := wal_payload (we_key e) (we_value e) (we_type e) in
  CalculateCRC32 (payload cut) <> CalculateCRC32 (payload e) ->
  LoadLog_loop junk_t junk_k junk_v (S fuel) i
    (mkStream (take (length (encode_entry e) - (length (we_value e) - n)) (encode_entry e)) false)
  = Ret [].
Proof.
  intros [Hk Hv] Hn cut payload Hcrc. destruct e as [t k v].
  subst cut payload. cbn [we_type we_key we_value] in *. cbv beta in Hcrc.
  pose proof (zlen_nonneg k). pose proof (zlen_nonneg v).
  set (crc := le_encode 4 (CalculateCRC32 (wal_payload k v t))).
  assert (Hrec : take (length (encode_entry (mkEntry t k v)) - (length v - n))
                   (encode_entry (mkEntry t k v)) =
                 crc ++ [t] ++ le_encode 4 (zlen k) ++ k ++ le_encode 4 (zlen v) ++ take n v).
  { unfold encode_entry, wal_record. cbn [we_type we_key we_value]. cbv zeta. fold crc.
    unfold wal_payload. cbv zeta. rewrite !u32_small by lia.
    rewrite !app_assoc. set (pre := _ ++ le_encode 4 (zlen v)).
    rewrite length_app. replace (length pre + length v - (length v - n))%nat
      with (length pre + n)%nat by lia.
    by rewrite take_app_add. }
  rewrite Hrec. cbn [LoadLog_loop]. destruct (Hjunk i) as [Hjk Hjv].
  rewrite stream_read_app by done. cbn [is_fail].
  rewrite stream_read_app by done. rewrite stream_read_app by (by rewrite Hjk).
  rewrite (le_decode_encode_fits 4) by (split; [lia|done]).
  rewrite stream_read_app by (rewrite length_replicate; unfold zlen; lia).
  rewrite stream_read_app by (by rewrite Hjv).
  rewrite (le_decode_encode_fits 4) by (split; [lia|done]).
  rewrite stream_read_short
    by (rewrite length_take, length_replicate; unfold zlen; lia).
  destruct (stream_at_eof _); [done|].
  unfold crc. rewrite (le_decode_encode_fits 4) by apply CalculateCRC32_fits.
  destruct (_ =? _) eqn:E; [|done]. exfalso. apply Hcrc. z_bool. rewrite <- E. f_equal.
  unfold wal_payload. cbv zeta. rewrite zlen_app.
  assert (Hlen : zlen (take n v) + zlen (replicate (length v - n) x00) = zlen v).
  { unfold zlen. rewrite length_take, length_replicate. lia. }
  rewrite Hlen, !u32_small by lia. repeat f_equal.
  rewrite length_take, drop_replicate. f_equal. unfold zlen. lia.
Qed.

End replay.

(** Appending in a healthy directory. *)
Lemma AddLog_healthy fs h k v t :
  fs_io fs = [] -> wh_good h = true ->
  AddLog fs h k v t =
  (h, fs_set fs (wh_filename h) (default [] (fs_read fs (wh_filename h)) ++ wal_record k v t)).
Proof.
  intros Hio Hg. unfold AddLog. rewrite Hg. unfold fs_append.
  rewrite fs_write_healthy by done. destruct h as [f g]. simpl in *. by subst g.
Qed.

Lemma add_logs_healthy es fs h old :
  fs_healthy fs -> wh_good h = true -> fs_read fs (wh_filename h) = Some old ->
  exists fs', add_logs fs h es = (h, fs') /\ fs_healthy fs' /\
    fs_read fs' (wh_filename h) = Some (old ++ encode_log es).
Proof.
  revert fs old. induction es as [|e es IH]; intros fs old Hfs Hg Hr.
  - exists fs. by rewrite app_nil_r.
  - unfold add_logs. cbn [fold_left]. rewrite AddLog_healthy by (apply Hfs || done).
    rewrite Hr. cbn [default from_option id].
    set (fs1 := fs_set fs _ _).
    destruct (IH fs1 (old ++ encode_entry e)) as (fs' & H1 & H2 & H3); try done.
    + unfold fs1, fs_read, fs_set. cbn [fs_files]. apply lookup_insert_eq.
    + exists fs'. split; [done|]. split; [done|]. by rewrite H3, <- app_assoc.
Qed.

(** A one-octet difference changes the checksum of the payload. *)
Lemma one_octet_crc e e' :
  one_octet_differs e e' ->
  CalculateCRC32 (entry_payload e') <> CalculateCRC32 (entry_payload e).
Proof.
  intros H. unfold entry_payload, wal_payload.
  destruct H as [t t' k v Hn|t v p c c' s Hn|t k p c c' s Hn];
    cbn [we_type we_key we_value]; cbv zeta; intros Heq; apply Hn; symmetry.
  - by apply (CalculateCRC32_one_byte []) in Heq.
  - rewrite !zlen_app, !zlen_cons in Heq. set (kl := le_encode 4 _) in Heq.
    apply (CalculateCRC32_one_byte ([t] ++ kl ++ p) c' c (s ++ le_encode 4 (u32 (zlen v)) ++ v)).
    by rewrite <- !app_assoc in Heq |- *.
  - rewrite !zlen_app, !zlen_cons in Heq. set (vl := le_encode 4 (u32 (zlen p + _))) in Heq.
    apply (CalculateCRC32_one_byte ([t] ++ le_encode 4 (u32 (zlen k)) ++ k ++ vl ++ p) c' c s).
    by rewrite <- !app_assoc.
Qed.

Lemma one_octet_ok e e' : one_octet_differs e e' -> entry_ok e -> entry_ok e'.
Proof.
  intros H [Hk Hv]. unfold entry_ok.
  destruct H; cbn [we_key we_value] in *; rewrite ?zlen_app, ?zlen_cons in *; lia.
Qed.

(** * Properties *)

(** C36: the table-driven checksum is the bit-serial CRC-32. *)
Theorem crc_table_correct (data : bytes) : CalculateCRC32 data = crc32_serial data.
Proof. apply CalculateCRC32_serial. Qed.

(** C25: what is logged is replayed.  In a healthy directory, a log that holds
    the records of [old] and receives a sequence of [AddLog] calls replays, on
    the next [LoadLog], as the old entries followed by the new ones, in order,
    with types, keys and values intact; the uninitialised locals play no
    role. *)
Theorem wal_roundtrip (junk_t : nat -> byte) (junk_k junk_v : nat -> bytes)
    (fs : FS) (h : WalHandler) (old es : list WalEntry) :
  junk_ok junk_k junk_v -> fs_healthy fs -> wh_good h = true ->
  fs_read fs (wh_filename h) = Some (encode_log old) ->
  Forall entry_ok old -> Forall entry_ok es ->
  LoadLog junk_t junk_k junk_v (fs_read (add_logs fs h es).2 (wh_filename h))
  = Ret (old ++ es).
Proof.
  intros Hj Hfs Hg Hr Hold Hes.
  destruct (add_logs_healthy es fs h _ Hfs Hg Hr) as (fs' & E & _ & Hr').
  rewrite E. cbn [snd]. rewrite Hr', <- encode_log_app. apply LoadLog_encode_log; [done|]. by apply Forall_app.
Qed.

Lemma wal_roundtrip_witness :
  let fs := mkFS true {[ wal_name 1 := [] ]} [] in
  let h := mkWal (wal_name 1) true in
  let es := [mkEntry kValue (str "k") (str "v"); mkEntry kDeletion (str "k") []] in
  let zeros := fun _ : nat => replicate 4 x00 in
  LoadLog (fun _ => x00) zeros zeros (fs_read (add_logs fs h es).2 (wh_filename h))
  = Ret ([] ++ es).
Proof.
  apply wal_roundtrip; try reflexivity.
  - split; reflexivity.
  - split; reflexivity.
  - constructor.
  - repeat constructor.
Defined.

(** C26: a corrupted record stops the replay.  If one octet of the type, key or
    value of a record changed on disk, [LoadLog] delivers exactly the records
    before it: the checksum always detects the change. *)
Theorem wal_detects_corruption (junk_t : nat -> byte) (junk_k junk_v : nat -> bytes)
    (es1 : list WalEntry) (e e' : WalEntry) (es2 : list WalEntry) :
  junk_ok junk_k junk_v -> Forall entry_ok es1 -> entry_ok e -> one_octet_differs e e' ->
  LoadLog junk_t junk_k junk_v (Some (corrupted_log es1 e e' es2)) = Ret es1.
Proof.
  intros Hj H1 He Hd. unfold corrupted_log. rewrite LoadLog_app by done.
  pose proof (one_octet_ok _ _ Hd He) as [Hk Hv].
  pose proof (one_octet_crc _ _ Hd) as Hcrc.
  pose proof (zlen_nonneg (we_key e')). pose proof (zlen_nonneg (we_value e')).
  unfold entry_payload, wal_payload in *. cbv zeta in *.
  rewrite !(u32_small (zlen (we_key e'))), !(u32_small (zlen (we_value e'))) in * by lia.
  change ([we_type e'] ++ ?x) with (we_type e' :: x) in *.
  rewrite LoadLog_loop_chunks; rewrite ?length_le_encode; try done;
    rewrite ?(le_decode_encode_fits 4) by ((split; [lia|done]) || apply CalculateCRC32_fits);
    try done.
  rewrite (proj2 (Z.eqb_neq _ _)) by done. cbn [obind]. by rewrite app_nil_r.
Qed.

Lemma wal_detects_corruption_witness :
  let e := mkEntry kValue (str "k") (str "abc") in
  let e' := mkEntry kValue (str "k") (str "abd") in
  let zeros := fun _ : nat => replicate 4 x00 in
  LoadLog (fun _ => x00) zeros zeros (Some (corrupted_log [e] e e' [e])) = Ret [e].
Proof.
  apply wal_detects_corruption.
  - split; reflexivity.
  - repeat constructor.
  - split; reflexivity.
  - apply (differs_value kValue (str "k") (str "ab") x63 x64 []). discriminate.
Defined.



(** Replay terminates on every file, whatever its content and whatever the
    uninitialised locals hold. *)
Theorem wal_replay_terminates (junk_t : nat -> byte) (junk_k junk_v : nat -> bytes)
    (file : option bytes) :
  LoadLog junk_t junk_k junk_v file <> NoFuel.
Proof.
  destruct file as [data|]; [|done]. unfold LoadLog.
  apply (LoadLog_loop_fuel junk_t junk_k junk_v _ (S (length data))); simpl; lia.
Qed.
