(* ===== verification/Manifest.v ===== *)
(** The manifest ([include/ManifestManager.h], [src/ManifestManager.cpp]): the
    metadata of the store (next file number, level of every SSTable, live
    WALs), its snapshot file [MANIFEST], its edit log [MANIFEST.log], replay at
    start-up and the checkpoint that folds the log into the snapshot. *)
From S2P Require Import Prelude Files.

Inductive ManifestOp : Type :=
| SetNextFileNumber
| AddSST
| DelSST
| AddWAL
| DelWAL.

(** [static_cast<uint8_t>(op)] *)
Definition op_code (op : ManifestOp) : Z :=
  match op with
  | SetNextFileNumber => 1
  | AddSST => 2
  | DelSST => 3
  | AddWAL => 4
  | DelWAL => 5
  end.

(** [static_cast<ManifestOp>(op_raw)] with the range check of [ReplayLog]. *)
Definition op_of_code (z : Z) : option ManifestOp :=
  if z =? 1 then Some SetNextFileNumber
  else if z =? 2 then Some AddSST
  else if z =? 3 then Some DelSST
  else if z =? 4 then Some AddWAL
  else if z =? 5 then Some DelWAL
  else None.

Record ManifestState := mkState {
  next_file_number : Z;
  sst_levels : gmap Z Z;
  live_wals : gset Z;
}.

Definition ManifestState_empty : ManifestState := mkState 0 ∅ ∅.

Definition kManifestMagic : Z := 0x12345678.
Definition kManifestVersion : Z := 1.
Definition kManifestCheckpointThreshold : Z := 100.

Record ManifestManager := mkManager {
  edits_since_checkpoint : Z;
  mm_state : ManifestState;
}.

Definition ManifestManager_new : ManifestManager := mkManager 0 ManifestState_empty.

Definition manifest_name : bytes := str "MANIFEST".
Definition manifest_log_name : bytes := str "MANIFEST.log".
Definition manifest_tmp_name : bytes := str "MANIFEST.tmp".

(** The arguments of [AppendEdit] / [ApplyEdit]. *)
Record ManifestEdit := mkEdit {
  ed_op : ManifestOp;
  ed_id : Z;
  ed_level : Z;
}.

(** [ManifestManager::ApplyEdit] *)
Definition ApplyEdit (st : ManifestState) (e : ManifestEdit) : ManifestState :=
  match ed_op e with
  | SetNextFileNumber => mkState (ed_id e) (sst_levels st) (live_wals st)
  | DelSST => mkState (next_file_number st) (delete (ed_id e) (sst_levels st)) (live_wals st)
  | AddWAL => mkState (next_file_number st) (sst_levels st) ({[ed_id e]} ∪ live_wals st)
  | DelWAL => mkState (next_file_number st) (sst_levels st) (live_wals st ∖ {[ed_id e]})
  | AddSST =>
      mkState (next_file_number st) (<[ed_id e := ed_level e]> (sst_levels st)) (live_wals st)
  end.

(** ** Reading *)

(** [ifs.read(reinterpret_cast<char *>(&x), n)] of an integer; [None] is a
    failed read. *)
Definition read_le (n : nat) (rest : bytes) : option (Z * bytes) :=
  if (n <=? length rest)%nat
  then Some (le_decode (take n rest), drop n rest)
  else None.

Fixpoint load_ssts (count : nat) (rest : bytes) (m : gmap Z Z) : gmap Z Z * option bytes :=
  match count with
  | O => (m, Some rest)
  | S count' =>
      match read_le 8 rest with
      | None => (m, None)
      | Some (file_number, rest) =>
          match read_le 4 rest with
          | None => (m, None)
          | Some (level, rest) => load_ssts count' rest (<[file_number := level]> m)
          end
      end
  end.

Fixpoint load_wals (count : nat) (rest : bytes) (s : gset Z) : gset Z * option bytes :=
  match count with
  | O => (s, Some rest)
  | S count' =>
      match read_le 8 rest with
      | None => (s, None)
      | Some (wal_id, rest) => load_wals count' rest ({[wal_id]} ∪ s)
      end
  end.

(** The parsing part of [ManifestManager::LoadState]: the state is updated as
    the file is read, also when the verdict is [false]. *)
Definition parse_state (data : bytes) (st : ManifestState) : ManifestState * bool :=
  match read_le 4 data with
  | None => (st, false)
  | Some (magic, rest) =>
    if negb (magic =? kManifestMagic) then (st, false) else
    match read_le 4 rest with
    | None => (st, false)
    | Some (version, rest) =>
      if negb (version =? kManifestVersion) then (st, false) else
      match read_le 8 rest with
      | None => (st, false)
      | Some (next, rest) =>
        match read_le 4 rest with
        | None => (st, false)
        | Some (sst_count, rest) =>
          let '(ssts, rest) := load_ssts (Z.to_nat sst_count) rest ∅ in
          match rest with
          | None => (mkState next ssts (live_wals st), false)
          | Some rest =>
            match read_le 4 rest with
            | None => (mkState next ssts ∅, false)
            | Some (wal_count, rest) =>
              let '(wals, rest) := load_wals (Z.to_nat wal_count) rest ∅ in
              match rest with
              | None => (mkState next ssts wals, false)
              | Some _ => (mkState next ssts wals, true)
              end
            end
          end
        end
      end
    end
  end.

(** [ManifestManager::LoadState] *)
Definition LoadState (fs : FS) (st : ManifestState) : ManifestState * bool :=
  if negb (fs_is_dir fs) then (st, false)
  else
    match fs_read fs manifest_name with
    | None => (st, false)
    | Some data => parse_state data st
    end.

(** [ManifestManager::Load] *)
Definition Load (mm : ManifestManager) (fs : FS) : ManifestManager * bool :=
  let '(st, ok) := LoadState fs (mm_state mm) in (mkManager 0 st, ok).

(** The payload size of an operation. *)
Definition payload_size (op : ManifestOp) : Z :=
  match op with
  | SetNextFileNumber => 8
  | AddSST => 8 + 4
  | DelSST => 8
  | AddWAL => 8
  | DelWAL => 8
  end.

(** The loop of [ManifestManager::ReplayLog]: [false] is the verdict of a
    corrupted record, a record cut at the end of the file ends the replay with
    [true]. *)
Fixpoint ReplayLog_loop (fuel : nat) (rest : bytes) (st : ManifestState)
    : outcome (ManifestState * bool) :=
  match fuel with
  | O => NoFuel
  | S fuel' =>
    match read_le 4 rest with
    | None => Ret (st, true)
    | Some (magic, rest) =>
      if negb (magic =? kManifestMagic) then Ret (st, false) else
      match read_le 4 rest with
      | None => Ret (st, true)
      | Some (version, rest) =>
        match read_le 1 rest with
        | None => Ret (st, true)
        | Some (op_raw, rest) =>
          match read_le 4 rest with
          | None => Ret (st, true)
          | Some (log_payload_size, rest) =>
            match op_of_code op_raw with
            | None => Ret (st, false)
            | Some op =>
              if negb (log_payload_size =? payload_size op) then Ret (st, false)
              else if negb (version =? kManifestVersion) then Ret (st, false)
              else
                match read_le 8 rest with
                | None => Ret (st, true)
                | Some (id, rest) =>
                  match op with
                  | AddSST =>
                    match read_le 4 rest with
                    | None => Ret (st, true)
                    | Some (level, rest) =>
                        ReplayLog_loop fuel' rest (ApplyEdit st (mkEdit op id level))
                    end
                  | _ => ReplayLog_loop fuel' rest (ApplyEdit st (mkEdit op id 0))
                  end
                end
            end
          end
        end
      end
    end
  end.

(** [ManifestManager::ReplayLog] *)
Definition ReplayLog (mm : ManifestManager) (fs : FS) : outcome (ManifestManager * bool) :=
  if negb (fs_is_dir fs) then Ret (mm, false)
  else
    match fs_read fs manifest_log_name with
    | None => Ret (mm, true)
    | Some data =>
        let* (st, ok) := ReplayLog_loop (S (length data)) data (mm_state mm) in
        Ret (mkManager (edits_since_checkpoint mm) st, ok)
    end.

(** ** Writing *)

(** One record of the edit log. *)
Definition encode_edit (e : ManifestEdit) : bytes :=
  le_encode 4 kManifestMagic ++ le_encode 4 kManifestVersion ++
  le_encode 1 (op_code (ed_op e)) ++ le_encode 4 (payload_size (ed_op e)) ++
  match ed_op e with
  | AddSST => le_encode 8 (ed_id e) ++ le_encode 4 (ed_level e)
  | _ => le_encode 8 (ed_id e)
  end.

(** [ManifestManager::AppendEdit] *)
Definition AppendEdit (fs : FS) (e : ManifestEdit) : FS * bool :=
  if negb (fs_is_dir fs) then (fs, false)
  else fs_append fs manifest_log_name (encode_edit e).

(** The order of [std::sort] on the SST entries. *)
Definition entry_le (a b : Z * Z) : Prop := a.1 <= b.1.

#[export] Instance entry_le_dec : RelDecision entry_le.
Proof. intros a b. unfold entry_le. apply _. Defined.

Definition sorted_entries (m : gmap Z Z) : list (Z * Z) := merge_sort entry_le (map_to_list m).

Definition encode_entry (p : Z * Z) : bytes := le_encode 8 p.1 ++ le_encode 4 p.2.

(** What [PersistState] writes.  The live WALs are written in the iteration
    order of an [unordered_set], which the standard leaves open; here it is the
    order of [elements]. *)
Definition encode_state (st : ManifestState) : bytes :=
  le_encode 4 kManifestMagic ++ le_encode 4 kManifestVersion ++
  le_encode 8 (next_file_number st) ++
  le_encode 4 (u32 (Z.of_nat (size (sst_levels st)))) ++
  concat (map encode_entry (sorted_entries (sst_levels st))) ++
  le_encode 4 (u32 (Z.of_nat (size (live_wals st)))) ++
  concat (map (le_encode 8) (elements (live_wals st))).

(** [ManifestManager::PersistState] : write [MANIFEST.tmp], then rename. *)
Definition PersistState (fs : FS) (st : ManifestState) : FS * bool :=
  if negb (fs_is_dir fs) then (fs, false)
  else
    let '(fs, ok) := fs_overwrite fs manifest_tmp_name (encode_state st) in
    if negb ok then (fs, false)
    else (fs_rename fs manifest_tmp_name manifest_name, true).

(** [ManifestManager::Persist] *)
Definition Persist (mm : ManifestManager) (fs : FS) : FS * bool := PersistState fs (mm_state mm).

(** [ManifestManager::TruncateLog] *)
Definition TruncateLog (fs : FS) : FS * bool :=
  if negb (fs_is_dir fs) then (fs, false)
  else if negb (fs_exists fs manifest_log_name) then (fs, false)
  else fs_open_trunc fs manifest_log_name.

(** [ManifestManager::MaybeCheckpoint] *)
Definition MaybeCheckpoint (mm : ManifestManager) (fs : FS) : ManifestManager * FS :=
  if edits_since_checkpoint mm <? kManifestCheckpointThreshold then (mm, fs)
  else
    let '(fs, ok) := Persist mm fs in
    if negb ok then (mm, fs)
    else
      let '(fs, ok) := TruncateLog fs in
      if negb ok then (mm, fs)
      else (mkManager 0 (mm_state mm), fs).

(** [ManifestManager::RecordEdit] *)
Definition RecordEdit (mm : ManifestManager) (fs : FS) (e : ManifestEdit) : ManifestManager * FS :=
  let '(fs, ok) := AppendEdit fs e in
  if negb ok then
    let '(fs, _) := Persist mm fs in (mm, fs)
  else
    MaybeCheckpoint (mkManager (u32 (edits_since_checkpoint mm + 1)) (mm_state mm)) fs.

Definition with_state (mm : ManifestManager) (st : ManifestState) : ManifestManager :=
  mkManager (edits_since_checkpoint mm) st.

(** [ManifestManager::AllocateFileNumber] *)
Definition AllocateFileNumber (mm : ManifestManager) (fs : FS) : ManifestManager * FS * Z :=
  let st := mm_state mm in
  let n := u64 (next_file_number st + 1) in
  let mm := with_state mm (mkState n (sst_levels st) (live_wals st)) in
  let '(mm, fs) := RecordEdit mm fs (mkEdit SetNextFileNumber n 0) in
  (mm, fs, next_file_number (mm_state mm)).

(** [ManifestManager::AddWal] *)
Definition AddWal (mm : ManifestManager) (fs : FS) (wal_id : Z) : ManifestManager * FS * bool :=
  let st := mm_state mm in
  if decide (wal_id ∈ live_wals st) then (mm, fs, false)
  else
    let mm := with_state mm
      (mkState (next_file_number st) (sst_levels st) ({[wal_id]} ∪ live_wals st)) in
    let '(mm, fs) := RecordEdit mm fs (mkEdit AddWAL wal_id 0) in
    (mm, fs, true).

(** [ManifestManager::RemoveWal] *)
Definition RemoveWal (mm : ManifestManager) (fs : FS) (wal_id : Z) : ManifestManager * FS * bool :=
  let st := mm_state mm in
  if decide (wal_id ∈ live_wals st) then
    let mm := with_state mm
      (mkState (next_file_number st) (sst_levels st) (live_wals st ∖ {[wal_id]})) in
    let '(mm, fs) := RecordEdit mm fs (mkEdit DelWAL wal_id 0) in
    (mm, fs, true)
  else (mm, fs, false).

(** [ManifestManager::AddSst] *)
Definition AddSst (mm : ManifestManager) (fs : FS) (file_number level : Z) : ManifestManager * FS :=
  let st := mm_state mm in
  let mm := with_state mm
    (mkState (next_file_number st) (<[file_number := level]> (sst_levels st)) (live_wals st)) in
  RecordEdit mm fs (mkEdit AddSST file_number level).

(** [ManifestManager::RemoveSst] *)
Definition RemoveSst (mm : ManifestManager) (fs : FS) (file_number : Z) : ManifestManager * FS :=
  let st := mm_state mm in
  let mm := with_state mm
    (mkState (next_file_number st) (delete file_number (sst_levels st)) (live_wals st)) in
  RecordEdit mm fs (mkEdit DelSST file_number 0).

Definition SetNextFileNumberWithoutEdit (mm : ManifestManager) (n : Z) : ManifestManager :=
  with_state mm (mkState n (sst_levels (mm_state mm)) (live_wals (mm_state mm))).

Definition SetSstLevelWithoutEdit (mm : ManifestManager) (file_number level : Z)
    : ManifestManager :=
  let st := mm_state mm in
  with_state mm
    (mkState (next_file_number st) (<[file_number := level]> (sst_levels st)) (live_wals st)).

Definition SstLevels (mm : ManifestManager) : gmap Z Z := sst_levels (mm_state mm).
Definition LiveWals (mm : ManifestManager) : gset Z := live_wals (mm_state mm).

(** ** Specification *)

(** What a restart reconstructs: [Load] followed by [ReplayLog]; [None] when
    either fails. *)
Definition recovered_state (fs : FS) : option ManifestState :=
  let '(mm, ok) := Load ManifestManager_new fs in
  if negb ok then None
  else
    match ReplayLog mm fs with
    | Ret (mm, true) => Some (mm_state mm)
    | _ => None
    end.

Definition edit_ok (e : ManifestEdit) : Prop := fits 64 (ed_id e) /\ fits 32 (ed_level e).

(** States that the snapshot format can hold. *)
Record state_ok (st : ManifestState) : Prop := {
  so_next : fits 64 (next_file_number st);
  so_ssts : forall k l, sst_levels st !! k = Some l -> fits 64 k /\ fits 32 l;
  so_wals : forall w, w ∈ live_wals st -> fits 64 w;
  so_ssts_size : Z.of_nat (size (sst_levels st)) < 2 ^ 32;
  so_wals_size : Z.of_nat (size (live_wals st)) < 2 ^ 32;
}.

Definition apply_edits (es : list ManifestEdit) (st : ManifestState) : ManifestState :=
  fold_left ApplyEdit es st.

Definition encode_edits (es : list ManifestEdit) : bytes := concat (map encode_edit es).

(** The files hold a snapshot of [s0] and a log of the edits [es], perhaps
    followed by the beginning of a record that a crash cut. *)
Record files_hold (fs : FS) (s0 : ManifestState) (es : list ManifestEdit) : Prop := {
  fh_dir : fs_is_dir fs = true;
  fh_snapshot : fs_read fs manifest_name = Some (encode_state s0);
  fh_log : default [] (fs_read fs manifest_log_name) = encode_edits es;
  fh_state : state_ok s0;
  fh_edits : Forall edit_ok es;
}.

(** The invariant between the manager and its files: the files reconstruct the
    state in memory. *)
Definition manifest_inv (mm : ManifestManager) (fs : FS) : Prop :=
  fs_healthy fs /\ state_ok (mm_state mm) /\
  0 <= edits_since_checkpoint mm < kManifestCheckpointThreshold /\
  exists s0 es, files_hold fs s0 es /\ apply_edits es s0 = mm_state mm.

(** The public operations that change the state and record an edit. *)
Inductive manifest_call : Type :=
| call_AllocateFileNumber
| call_AddWal (wal_id : Z)
| call_RemoveWal (wal_id : Z)
| call_AddSst (file_number level : Z)
| call_RemoveSst (file_number : Z).

Definition run_call (mm : ManifestManager) (fs : FS) (c : manifest_call) : ManifestManager * FS :=
  match c with
  | call_AllocateFileNumber => (AllocateFileNumber mm fs).1
  | call_AddWal w => (AddWal mm fs w).1
  | call_RemoveWal w => (RemoveWal mm fs w).1
  | call_AddSst n l => AddSst mm fs n l
  | call_RemoveSst n => RemoveSst mm fs n
  end.

Definition run_calls (mm : ManifestManager) (fs : FS) (cs : list manifest_call)
    : ManifestManager * FS :=
  fold_left (fun '(mm, fs) c => run_call mm fs c) cs (mm, fs).

Definition call_ok (c : manifest_call) : Prop :=
  match c with
  | call_AllocateFileNumber => True
  | call_AddWal w | call_RemoveWal w => fits 64 w
  | call_AddSst n l => fits 64 n /\ fits 32 l
  | call_RemoveSst n => fits 64 n
  end.

(** What the callers expect of an operation on the state in memory. *)
Definition spec_call (st : ManifestState) (c : manifest_call) : ManifestState :=
  match c with
  | call_AllocateFileNumber =>
      mkState (u64 (next_file_number st + 1)) (sst_levels st) (live_wals st)
  | call_AddWal w => mkState (next_file_number st) (sst_levels st) ({[w]} ∪ live_wals st)
  | call_RemoveWal w => mkState (next_file_number st) (sst_levels st) (live_wals st ∖ {[w]})
  | call_AddSst n l =>
      mkState (next_file_number st) (<[n := l]> (sst_levels st)) (live_wals st)
  | call_RemoveSst n =>
      mkState (next_file_number st) (delete n (sst_levels st)) (live_wals st)
  end.

(** The edit that an operation records, if it changes anything. *)
Definition call_edit (st : ManifestState) (c : manifest_call) : option ManifestEdit :=
  match c with
  | call_AllocateFileNumber =>
      Some (mkEdit SetNextFileNumber (u64 (next_file_number st + 1)) 0)
  | call_AddWal w => if decide (w ∈ live_wals st) then None else Some (mkEdit AddWAL w 0)
  | call_RemoveWal w => if decide (w ∈ live_wals st) then Some (mkEdit DelWAL w 0) else None
  | call_AddSst n l => Some (mkEdit AddSST n l)
  | call_RemoveSst n => Some (mkEdit DelSST n 0)
  end.

(** Room for [n] more files and logs in the 32-bit counts of the snapshot. *)
Definition has_room (st : ManifestState) (n : nat) : Prop :=
  Z.of_nat (size (sst_levels st) + n) < 2 ^ 32 /\ Z.of_nat (size (live_wals st) + n) < 2 ^ 32.

(** The files that a crash inside [RecordEdit] can leave, [mm] being the manager
    whose state already has the edit: a cut record, a cut [MANIFEST.tmp], a new
    snapshot in front of the log it subsumes, or all done. *)
Inductive record_crash (mm : ManifestManager) (fs : FS) (e : ManifestEdit) : FS -> Prop :=
| crash_append n :
    record_crash mm fs e (fs_set fs manifest_log_name
      (default [] (fs_read fs manifest_log_name) ++ take n (encode_edit e)))
| crash_snapshot fs1 n :
    AppendEdit fs e = (fs1, true) ->
    kManifestCheckpointThreshold <= edits_since_checkpoint mm + 1 ->
    record_crash mm fs e (fs_set fs1 manifest_tmp_name (take n (encode_state (mm_state mm))))
| crash_renamed fs1 fs2 :
    AppendEdit fs e = (fs1, true) ->
    kManifestCheckpointThreshold <= edits_since_checkpoint mm + 1 ->
    Persist mm fs1 = (fs2, true) ->
    record_crash mm fs e fs2
| crash_done :
    record_crash mm fs e (RecordEdit mm fs e).2.

(** A log with the first [n] octets of the record [e] at its end. *)
Definition torn_edits (es : list ManifestEdit) (e : ManifestEdit) (n : nat) : bytes :=
  encode_edits es ++ take n (encode_edit e).

(** * Lemmas *)

(** ** Reading what was written *)

Lemma read_le_encode n z rest :
  fits (8 * Z.of_nat n) z -> read_le n (le_encode n z ++ rest) = Some (z, rest).
Proof.
  intros Hz. unfold read_le. rewrite length_app, length_le_encode.
  rewrite (proj2 (Nat.leb_le _ _)) by lia.
  rewrite take_app_le, drop_app_le by (by rewrite length_le_encode).
  rewrite take_ge, drop_ge by (by rewrite length_le_encode).
  by rewrite le_decode_encode_fits.
Qed.

(** Reading from a cut input. *)
Lemma read_le_take n m z rest :
  fits (8 * Z.of_nat n) z ->
  read_le n (take m (le_encode n z ++ rest)) =
  if (n <=? m)%nat then Some (z, take (m - n) rest) else None.
Proof.
  intros Hz. destruct (Nat.leb_spec n m).
  - rewrite take_app_ge by (by rewrite length_le_encode).
    rewrite length_le_encode. by apply read_le_encode.
  - unfold read_le. rewrite length_take, length_app, length_le_encode.
    by rewrite (proj2 (Nat.leb_gt _ _)) by lia.
Qed.

Lemma load_ssts_entries l m rest :
  Forall (fun p => fits 64 p.1 /\ fits 32 p.2) l ->
  load_ssts (length l) (concat (map encode_entry l) ++ rest) m =
  (fold_left (fun m p => <[p.1 := p.2]> m) l m, Some rest).
Proof.
  intros H. revert m. induction H as [|[k v] l [Hk Hv] _ IH]; intros m; [done|].
  cbn [length load_ssts map concat fold_left]. unfold encode_entry at 1. cbn [fst snd].
  rewrite <- !app_assoc, !read_le_encode by done. apply IH.
Qed.

Lemma load_wals_entries l s rest :
  Forall (fits 64) l ->
  load_wals (length l) (concat (map (le_encode 8) l) ++ rest) s =
  (fold_left (fun s w => {[w]} ∪ s) l s, Some rest).
Proof.
  intros H. revert s. induction H as [|w l Hw _ IH]; intros s; [done|].
  cbn [length load_wals map concat fold_left].
  rewrite <- !app_assoc, !read_le_encode by done. apply IH.
Qed.

Lemma fold_insert_entries (l : list (Z * Z)) (m : gmap Z Z) :
  l ≡ₚ map_to_list m -> fold_left (fun m p => <[p.1 := p.2]> m) l ∅ = m.
Proof.
  intros Hp. rewrite <- fold_left_rev_right.
  transitivity (list_to_map (M := gmap Z Z) (rev l)).
  { unfold list_to_map. by induction (rev l) as [|p r IH]; simpl; [|rewrite IH]. }
  rewrite <- (list_to_map_to_list m).
  assert (Hr : rev l ≡ₚ map_to_list m) by (by rewrite <- Permutation_rev).
  apply list_to_map_proper; [|done]. rewrite Hr. apply NoDup_fst_map_to_list.
Qed.

Lemma fold_union_elements (s : gset Z) :
  fold_left (fun s w => {[w]} ∪ s) (elements s) ∅ = s.
Proof.
  assert (H : forall l (s0 : gset Z),
    fold_left (fun s w => {[w]} ∪ s) l s0 = list_to_set l ∪ s0).
  { induction l as [|w l IH]; intros s0; cbn [fold_left list_to_set]; [set_solver|].
    rewrite IH. set_solver. }
  rewrite H, list_to_set_elements_L. set_solver.
Qed.

Lemma sorted_entries_perm m : sorted_entries m ≡ₚ map_to_list m.
Proof. apply merge_sort_Permutation. Qed.

Lemma length_sorted_entries m : length (sorted_entries m) = size m.
Proof. by rewrite (Permutation_length (sorted_entries_perm m)), length_map_to_list. Qed.

(** The snapshot reconstructs the state it was written from. *)
Lemma parse_encode_state st st0 :
  state_ok st -> parse_state (encode_state st) st0 = (st, true).
Proof.
  intros [Hn Hs Hw Hss Hws]. destruct st as [next ssts wals]. simpl in *.
  unfold parse_state, encode_state. cbn [next_file_number sst_levels live_wals].
  rewrite !u32_small by lia.
  rewrite read_le_encode by done. cbn [negb Z.eqb].
  rewrite read_le_encode by done. rewrite Z.eqb_refl. cbn [negb].
  rewrite read_le_encode by done. rewrite Z.eqb_refl. cbn [negb].
  rewrite read_le_encode by (split; [lia|done]).
  rewrite Nat2Z.id, <- length_sorted_entries.
  rewrite load_ssts_entries.
  2:{ apply Forall_forall. intros [k l] H. rewrite sorted_entries_perm in H.
      apply elem_of_map_to_list in H. by apply Hs. }
  rewrite (fold_insert_entries _ _ (sorted_entries_perm ssts)).
  rewrite read_le_encode by (split; [lia|done]).
  rewrite Nat2Z.id.
  replace (size wals) with (length (elements wals)) by done.
  rewrite <- (app_nil_r (concat (map (le_encode 8) _))), load_wals_entries.
  2:{ apply Forall_forall. intros w. rewrite elem_of_elements. apply Hw. }
  by rewrite fold_union_elements.
Qed.

(** ** Replay *)

Lemma apply_edits_app es1 es2 st :
  apply_edits (es1 ++ es2) st = apply_edits es2 (apply_edits es1 st).
Proof. apply fold_left_app. Qed.

Lemma encode_edits_app es1 es2 :
  encode_edits (es1 ++ es2) = encode_edits es1 ++ encode_edits es2.
Proof. unfold encode_edits. by rewrite map_app, concat_app. Qed.

Lemma encode_edits_snoc es e : encode_edits (es ++ [e]) = encode_edits es ++ encode_edit e.
Proof. rewrite encode_edits_app. unfold encode_edits at 2. simpl. by rewrite app_nil_r. Qed.

Lemma fits_op_code op : fits 8 (op_code op).
Proof. by destruct op. Qed.

Lemma fits_payload_size op : fits 32 (payload_size op).
Proof. by destruct op. Qed.

Lemma op_of_op_code op : op_of_code (op_code op) = Some op.
Proof. by destruct op. Qed.

Lemma fits_magic : fits (8 * Z.of_nat 4) kManifestMagic.
Proof. done. Qed.

Lemma fits_version : fits (8 * Z.of_nat 4) kManifestVersion.
Proof. done. Qed.

#[export] Hint Resolve fits_op_code fits_payload_size fits_magic fits_version : nova.

(** The level is only looked at by [AddSST]. *)
Lemma ApplyEdit_level st e :
  ed_op e <> AddSST -> ApplyEdit st (mkEdit (ed_op e) (ed_id e) 0) = ApplyEdit st e.
Proof. destruct e as [[] id l]; cbn [ed_op]; done. Qed.

(** The record of an edit is its header, its number and, for [AddSST], its
    level. *)
Definition level_octets (e : ManifestEdit) : bytes :=
  match ed_op e with AddSST => le_encode 4 (ed_level e) | _ => [] end.

Lemma encode_edit_eq e :
  encode_edit e =
  le_encode 4 kManifestMagic ++ le_encode 4 kManifestVersion ++
  le_encode 1 (op_code (ed_op e)) ++ le_encode 4 (payload_size (ed_op e)) ++
  le_encode 8 (ed_id e) ++ level_octets e.
Proof. unfold encode_edit, level_octets. by destruct (ed_op e); rewrite ?app_nil_r. Qed.

Lemma length_encode_edit e :
  length (encode_edit e) = (21 + match ed_op e with AddSST => 4 | _ => 0 end)%nat.
Proof. by destruct e as [[] id l]. Qed.

(** One turn of the loop on an input that begins with a record and is cut after
    [m] octets. *)
Lemma ReplayLog_loop_take fuel m e rest st :
  edit_ok e ->
  ReplayLog_loop (S fuel) (take m (encode_edit e ++ rest)) st =
  if (length (encode_edit e) <=? m)%nat
  then ReplayLog_loop fuel (take (m - length (encode_edit e)) rest) (ApplyEdit st e)
  else Ret (st, true).
Proof.
  intros [Hid Hlev]. rewrite length_encode_edit, encode_edit_eq, <- !app_assoc.
  cbn [ReplayLog_loop].
  rewrite read_le_take by (apply fits_magic).
  destruct (Nat.leb_spec 4 m); [|by rewrite (proj2 (Nat.leb_gt _ _)) by (destruct (ed_op e); lia)].
  rewrite Z.eqb_refl. cbn [negb]. rewrite read_le_take by (apply fits_version).
  destruct (Nat.leb_spec 4 (m - 4));
    [|by rewrite (proj2 (Nat.leb_gt _ _)) by (destruct (ed_op e); lia)].
  rewrite read_le_take by (apply fits_op_code).
  destruct (Nat.leb_spec 1 (m - 4 - 4));
    [|by rewrite (proj2 (Nat.leb_gt _ _)) by (destruct (ed_op e); lia)].
  rewrite read_le_take by (apply fits_payload_size).
  destruct (Nat.leb_spec 4 (m - 4 - 4 - 1));
    [|by rewrite (proj2 (Nat.leb_gt _ _)) by (destruct (ed_op e); lia)].
  rewrite op_of_op_code, Z.eqb_refl. cbn [negb]. rewrite Z.eqb_refl. cbn [negb].
  rewrite read_le_take by done.
  destruct (Nat.leb_spec 8 (m - 4 - 4 - 1 - 4));
    [|by rewrite (proj2 (Nat.leb_gt _ _)) by (destruct (ed_op e); lia)].
  destruct e as [op id lev]. unfold level_octets. cbn [ed_op ed_id ed_level] in *.
  destruct op; try (cbn [app]; rewrite (proj2 (Nat.leb_le _ _)) by lia; f_equal; f_equal; lia).
  rewrite read_le_take by done.
  destruct (Nat.leb_spec 4 (m - 4 - 4 - 1 - 4 - 8));
    [|by rewrite (proj2 (Nat.leb_gt _ _)) by lia].
  rewrite (proj2 (Nat.leb_le _ _)) by lia. f_equal. f_equal. lia.
Qed.

Lemma ReplayLog_loop_edit fuel e rest st :
  edit_ok e ->
  ReplayLog_loop (S fuel) (encode_edit e ++ rest) st = ReplayLog_loop fuel rest (ApplyEdit st e).
Proof.
  intros He. set (m := length (encode_edit e ++ rest)).
  pose proof (ReplayLog_loop_take fuel m e rest st He) as H.
  assert (Hm : m = (length (encode_edit e) + length rest)%nat) by apply length_app.
  rewrite take_ge in H by done. rewrite H, (proj2 (Nat.leb_le _ _)) by lia.
  f_equal. rewrite take_ge; [done|lia].
Qed.

Lemma ReplayLog_loop_edits es fuel rest st :
  Forall edit_ok es ->
  ReplayLog_loop (length es + fuel) (encode_edits es ++ rest) st =
  ReplayLog_loop fuel rest (apply_edits es st).
Proof.
  intros H. revert st. induction H as [|e es He _ IH]; intros st; [done|].
  unfold encode_edits. cbn [map concat length Nat.add]. rewrite <- app_assoc.
  rewrite ReplayLog_loop_edit by done. apply IH.
Qed.

Lemma read_le_Some n rest z rest' :
  read_le n rest = Some (z, rest') -> (length rest' + n = length rest)%nat.
Proof.
  unfold read_le. destruct (Nat.leb_spec n (length rest)); [|done].
  intros [= <- <-]. rewrite length_drop. lia.
Qed.

(** More fuel than octets is enough, and the amount does not matter. *)
Lemma ReplayLog_loop_fuel fuel fuel' rest st :
  (length rest < fuel)%nat -> (length rest < fuel')%nat ->
  ReplayLog_loop fuel rest st = ReplayLog_loop fuel' rest st /\
  exists r, ReplayLog_loop fuel rest st = Ret r.
Proof.
  revert fuel' rest st. induction fuel as [|fuel IH]; intros fuel' rest st Hf Hf'; [lia|].
  destruct fuel' as [|fuel']; [lia|]. cbn [ReplayLog_loop].
  destruct (read_le 4 rest) as [[magic r1]|] eqn:E1; [|eauto].
  destruct (negb _); [eauto|].
  destruct (read_le 4 r1) as [[version r2]|] eqn:E2; [|eauto].
  destruct (read_le 1 r2) as [[op_raw r3]|] eqn:E3; [|eauto].
  destruct (read_le 4 r3) as [[sz r4]|] eqn:E4; [|eauto].
  destruct (op_of_code op_raw) as [op|]; [|eauto].
  destruct (negb _); [eauto|]. destruct (negb _); [eauto|].
  destruct (read_le 8 r4) as [[id r5]|] eqn:E5; [|eauto].
  apply read_le_Some in E1, E2, E3, E4, E5.
  destruct op; try (apply IH; lia).
  destruct (read_le 4 r5) as [[lev r6]|] eqn:E6; [|eauto].
  apply read_le_Some in E6. apply IH; lia.
Qed.

Lemma length_encode_edits es : (length es <= length (encode_edits es))%nat.
Proof.
  induction es as [|e es IH]; [done|]. unfold encode_edits in *. cbn [map concat length].
  rewrite length_app, length_encode_edit. lia.
Qed.

(** Replay of whole records followed by [rest]. *)
Lemma ReplayLog_loop_app es rest st :
  Forall edit_ok es ->
  ReplayLog_loop (S (length (encode_edits es ++ rest))) (encode_edits es ++ rest) st =
  ReplayLog_loop (S (length rest)) rest (apply_edits es st).
Proof.
  intros H. pose proof (length_encode_edits es) as Hl.
  destruct (ReplayLog_loop_fuel (S (length (encode_edits es ++ rest)))
    (length es + S (length (encode_edits es ++ rest))) (encode_edits es ++ rest) st)
    as [-> _]; [lia..|].
  rewrite ReplayLog_loop_edits by done.
  apply ReplayLog_loop_fuel; [rewrite length_app; lia|lia].
Qed.

(** A cut record at the end is ignored. *)
Lemma ReplayLog_loop_torn es e n st :
  Forall edit_ok es -> edit_ok e -> (n < length (encode_edit e))%nat ->
  ReplayLog_loop (S (length (torn_edits es e n))) (torn_edits es e n) st =
  Ret (apply_edits es st, true).
Proof.
  intros Hes He Hn. unfold torn_edits. rewrite ReplayLog_loop_app by done.
  rewrite <- (app_nil_r (encode_edit e)), ReplayLog_loop_take by done.
  by rewrite (proj2 (Nat.leb_gt _ _)) by lia.
Qed.

(** ** Edits *)

Lemma state_ext s s' :
  next_file_number s = next_file_number s' ->
  (forall i, sst_levels s !! i = sst_levels s' !! i) ->
  (forall w, w ∈ live_wals s <-> w ∈ live_wals s') -> s = s'.
Proof.
  destruct s, s'; cbn. intros -> H1 H2. f_equal; [by apply map_eq|by apply set_eq].
Qed.

(** Two states that an edit makes equal stay so under any other edit. *)
Lemma ApplyEdit_absorb e f s s' :
  ApplyEdit s e = ApplyEdit s' e ->
  ApplyEdit (ApplyEdit s f) e = ApplyEdit (ApplyEdit s' f) e.
Proof.
  intros H. apply state_ext.
  - pose proof (f_equal next_file_number H) as Hn.
    by destruct e as [[] ? ?], f as [[] ? ?]; cbn in *.
  - intros i. pose proof (f_equal (fun s => sst_levels s !! i) H) as Hi.
    destruct e as [[] ? ?], f as [[] ? ?]; cbn in *; try done;
      rewrite ?lookup_insert, ?lookup_delete, ?lookup_insert; rewrite ?lookup_insert, ?lookup_delete in Hi;
      repeat case_decide; done.
  - intros w. assert (Hw : w ∈ live_wals (ApplyEdit s e) <-> w ∈ live_wals (ApplyEdit s' e))
      by (by rewrite H).
    destruct e as [[] ? ?], f as [[] ? ?]; cbn in *; set_solver.
Qed.

Lemma ApplyEdit_idemp e s : ApplyEdit (ApplyEdit s e) e = ApplyEdit s e.
Proof.
  apply state_ext; destruct e as [[] id l]; cbn; try done; intros i;
    rewrite ?insert_insert_eq, ?delete_delete_eq; set_solver.
Qed.

Lemma apply_edits_absorb e es s s' :
  ApplyEdit s e = ApplyEdit s' e ->
  ApplyEdit (apply_edits es s) e = ApplyEdit (apply_edits es s') e.
Proof.
  revert s s'. induction es as [|f es IH]; intros s s' H; [done|].
  apply IH. by apply ApplyEdit_absorb.
Qed.

(** Replaying a log over the state it leads to changes nothing. *)
Lemma apply_edits_idemp es s : apply_edits es (apply_edits es s) = apply_edits es s.
Proof.
  revert s. induction es as [|e es IH] using rev_ind; intros s; [done|].
  rewrite !apply_edits_app. cbn.
  rewrite (apply_edits_absorb e es _ (apply_edits es s)) by apply ApplyEdit_idemp.
  by rewrite IH.
Qed.

(** ** Restart *)

(** What a restart reads from a snapshot and a log. *)
Lemma recovered_state_files fs s0 st :
  fs_is_dir fs = true -> fs_read fs manifest_name = Some (encode_state s0) -> state_ok s0 ->
  (let log := default [] (fs_read fs manifest_log_name) in
   ReplayLog_loop (S (length log)) log s0 = Ret (st, true)) ->
  recovered_state fs = Some st.
Proof.
  intros Hd Hs Hok Hl. unfold recovered_state, Load, LoadState, ReplayLog.
  rewrite Hd, Hs. cbn [negb]. rewrite parse_encode_state by done. cbn [negb mm_state].
  destruct (fs_read fs manifest_log_name) as [log|]; cbn in Hl |- *.
  - by rewrite Hl.
  - by simplify_eq.
Qed.

Lemma ReplayLog_loop_all es s0 :
  Forall edit_ok es ->
  ReplayLog_loop (S (length (encode_edits es))) (encode_edits es) s0 =
  Ret (apply_edits es s0, true).
Proof.
  intros H. pose proof (ReplayLog_loop_app es [] s0 H) as E. rewrite app_nil_r in E.
  by rewrite E.
Qed.

Lemma files_hold_recovered fs s0 es :
  files_hold fs s0 es -> recovered_state fs = Some (apply_edits es s0).
Proof.
  intros [Hd Hs Hl Hok Hes]. apply (recovered_state_files fs s0); try done.
  rewrite Hl. by apply ReplayLog_loop_all.
Qed.

Lemma files_hold_recovered_torn fs s0 es e n :
  files_hold fs s0 es -> edit_ok e ->
  recovered_state (fs_set fs manifest_log_name (torn_edits es e n)) =
  Some (if (length (encode_edit e) <=? n)%nat
        then apply_edits (es ++ [e]) s0 else apply_edits es s0).
Proof.
  intros [Hd Hs Hl Hok Hes] He. apply (recovered_state_files _ s0); try done.
  - unfold fs_read, fs_set in *. cbn [fs_files].
    by rewrite lookup_insert_ne by done.
  - unfold fs_read, fs_set. cbn [fs_files]. rewrite lookup_insert_eq. cbn [default from_option id].
    destruct (Nat.leb_spec (length (encode_edit e)) n).
    + unfold torn_edits. rewrite take_ge, <- encode_edits_snoc by lia.
      apply ReplayLog_loop_all. apply Forall_app; auto.
    + by apply ReplayLog_loop_torn.
Qed.

(** ** Operations on healthy files *)

Lemma fs_read_set fs name c : fs_read (fs_set fs name c) name = Some c.
Proof. unfold fs_read, fs_set. apply lookup_insert_eq. Qed.

Lemma fs_read_set_ne fs name name' c :
  name <> name' -> fs_read (fs_set fs name c) name' = fs_read fs name'.
Proof. intros H. unfold fs_read, fs_set. by apply lookup_insert_ne. Qed.

Lemma manifest_names_ne :
  manifest_name <> manifest_log_name /\ manifest_tmp_name <> manifest_name /\
  manifest_tmp_name <> manifest_log_name.
Proof. done. Qed.

Lemma AppendEdit_healthy fs e :
  fs_healthy fs ->
  AppendEdit fs e =
  (fs_set fs manifest_log_name (default [] (fs_read fs manifest_log_name) ++ encode_edit e), true).
Proof.
  intros [Hd Hio]. unfold AppendEdit, fs_append. rewrite Hd. by apply fs_write_healthy.
Qed.

(** Appending an edit extends the log. *)
Lemma AppendEdit_hold fs s0 es e :
  fs_healthy fs -> files_hold fs s0 es -> edit_ok e ->
  let fs1 := fs_set fs manifest_log_name
               (default [] (fs_read fs manifest_log_name) ++ encode_edit e) in
  fs_healthy fs1 /\ files_hold fs1 s0 (es ++ [e]) /\ fs_exists fs1 manifest_log_name = true.
Proof.
  intros Hfs [Hd Hs Hl Hok Hes] He fs1. split; [done|]. split.
  - split; try done.
    + unfold fs1. by rewrite fs_read_set_ne.
    + unfold fs1. rewrite fs_read_set, Hl. cbn. by rewrite encode_edits_snoc.
    + apply Forall_app; auto.
  - unfold fs1, fs_exists, fs_set. cbn. by rewrite lookup_insert_eq.
Qed.

(** A snapshot of a state that subsumes the log keeps the files good. *)
Lemma Persist_hold fs s0 es st cnt :
  fs_healthy fs -> files_hold fs s0 es -> state_ok st -> apply_edits es s0 = st ->
  exists fs2, Persist (mkManager cnt st) fs = (fs2, true) /\
    fs_healthy fs2 /\ files_hold fs2 st es /\ apply_edits es st = st /\
    fs_exists fs2 manifest_log_name = fs_exists fs manifest_log_name.
Proof.
  intros [Hd Hio] [_ Hs Hl Hok Hes] Hst E.
  unfold Persist, PersistState, fs_overwrite. cbn [mm_state]. rewrite Hd. cbn [negb].
  rewrite fs_write_healthy by done. cbn [negb app].
  unfold fs_rename, fs_set. cbn [fs_files fs_is_dir fs_io]. rewrite lookup_insert_eq.
  eexists. split; [done|]. split; [done|]. split_and!.
  - split; try done.
    + unfold fs_read. cbn. by rewrite lookup_insert_eq.
    + unfold fs_read in *. cbn. rewrite lookup_insert_ne, lookup_delete_ne, lookup_insert_ne by done.
      done.
  - subst st. apply apply_edits_idemp.
  - unfold fs_exists. cbn.
    by rewrite lookup_insert_ne, lookup_delete_ne, lookup_insert_ne by done.
Qed.

Lemma TruncateLog_hold fs s0 es :
  fs_healthy fs -> files_hold fs s0 es -> fs_exists fs manifest_log_name = true ->
  exists fs3, TruncateLog fs = (fs3, true) /\ fs_healthy fs3 /\ files_hold fs3 s0 [].
Proof.
  intros [Hd Hio] [_ Hs Hl Hok Hes] He.
  unfold TruncateLog, fs_open_trunc, fs_next_io. rewrite Hd, He, Hio. cbn [negb].
  eexists. split; [done|]. split; [done|]. split; try done.
  - by rewrite fs_read_set_ne.
  - by rewrite fs_read_set.
Qed.

(** [RecordEdit] keeps files and memory in step. *)
Lemma RecordEdit_inv cnt st fs s0 es e :
  fs_healthy fs -> files_hold fs s0 es -> edit_ok e -> state_ok st ->
  0 <= cnt < kManifestCheckpointThreshold -> apply_edits (es ++ [e]) s0 = st ->
  let r := RecordEdit (mkManager cnt st) fs e in
  mm_state r.1 = st /\ manifest_inv r.1 r.2.
Proof.
  intros Hfs Hh He Hst Hcnt E. unfold kManifestCheckpointThreshold in *.
  destruct (AppendEdit_hold fs s0 es e Hfs Hh He) as (Hfs1 & Hh1 & Hex).
  unfold RecordEdit. rewrite AppendEdit_healthy by done. set (fs1 := fs_set _ _ _) in *.
  cbn [negb mm_state edits_since_checkpoint]. rewrite u32_small by lia.
  unfold MaybeCheckpoint. cbn [edits_since_checkpoint].
  destruct (Z.ltb_spec (cnt + 1) kManifestCheckpointThreshold) as [Hlt|Hge].
  { cbn. split; [done|]. split; [done|]. split; [done|]. split; [cbn; lia|]. by exists s0, (es ++ [e]). }
  destruct (Persist_hold fs1 s0 _ st (cnt + 1) Hfs1 Hh1 Hst E) as (fs2 & -> & Hfs2 & Hh2 & _ & Hex2).
  cbn [negb]. rewrite Hex in Hex2.
  destruct (TruncateLog_hold fs2 st _ Hfs2 Hh2 Hex2) as (fs3 & -> & Hfs3 & Hh3).
  cbn. split; [done|]. split; [done|]. split; [done|]. split; [done|]. by exists st, [].
Qed.

Lemma spec_call_edit st c e :
  call_edit st c = Some e -> spec_call st c = ApplyEdit st e.
Proof. destruct c; cbn; intros H; simplify_option_eq; done. Qed.

Lemma spec_call_none st c : call_edit st c = None -> spec_call st c = st.
Proof.
  destruct c; cbn; intros H; simplify_option_eq; destruct st; cbn in *; f_equal; set_solver.
Qed.

Lemma call_edit_ok st c e : call_ok c -> call_edit st c = Some e -> edit_ok e.
Proof.
  destruct c; cbn; intros Hc H; simplify_option_eq; split; cbn; try done;
    try apply Hc; apply u64_bounds.
Qed.

(** Every call is the change of its edit in memory, then [RecordEdit]. *)
Lemma run_call_edit mm fs c :
  run_call mm fs c =
  match call_edit (mm_state mm) c with
  | Some e => RecordEdit (with_state mm (spec_call (mm_state mm) c)) fs e
  | None => (mm, fs)
  end.
Proof.
  destruct c; cbn [run_call call_edit spec_call];
    unfold AllocateFileNumber, AddWal, RemoveWal, AddSst, RemoveSst;
    try case_decide; try done; by destruct (RecordEdit _ _ _).
Qed.

Lemma spec_call_ok st c n :
  state_ok st -> call_ok c -> has_room st (S n) ->
  state_ok (spec_call st c) /\ has_room (spec_call st c) n.
Proof.
  intros [Hn Hs Hw Hss Hws] Hc [R1 R2]. unfold has_room in *.
  destruct c as [|w|w|k l|k]; cbn in Hc |- *.
  - split; [split; try done; apply u64_bounds|split; cbn; lia].
  - pose proof (size_union_alt {[w]} (live_wals st)) as H. rewrite size_singleton in H.
    pose proof (subseteq_size (live_wals st ∖ {[w]}) (live_wals st) ltac:(set_solver)).
    split; [split; try done; cbn|split; cbn]; try lia. set_solver.
  - pose proof (subseteq_size (live_wals st ∖ {[w]}) (live_wals st) ltac:(set_solver)).
    split; [split; try done; cbn|split; cbn]; try lia. set_solver.
  - pose proof (map_size_insert k l (sst_levels st)) as H.
    assert (size (<[k:=l]> (sst_levels st)) <= S (size (sst_levels st)))%nat
      by (rewrite H; destruct (sst_levels st !! k); simpl; lia).
    split; [split; try done; cbn|split; cbn]; try lia.
    intros k' l'. rewrite lookup_insert_Some. intros [[<- <-]|[_ ?]]; [done|by apply Hs].
  - pose proof (map_size_delete k (sst_levels st)) as H.
    assert (size (delete k (sst_levels st)) <= size (sst_levels st))%nat
      by (rewrite H; destruct (sst_levels st !! k); simpl; lia).
    split; [split; try done; cbn|split; cbn]; try lia.
    intros k' l'. rewrite lookup_delete_Some. intros [_ ?]. by apply Hs.
Qed.

Lemma run_call_inv mm fs c n :
  manifest_inv mm fs -> call_ok c -> has_room (mm_state mm) (S n) ->
  let r := run_call mm fs c in
  mm_state r.1 = spec_call (mm_state mm) c /\ manifest_inv r.1 r.2 /\
  has_room (mm_state r.1) n.
Proof.
  intros (Hfs & Hok & Hcnt & s0 & es & Hh & E) Hc Hr. rewrite run_call_edit.
  destruct (spec_call_ok _ _ _ Hok Hc Hr) as [Hok' Hr'].
  destruct (call_edit (mm_state mm) c) as [e|] eqn:Ee.
  - pose proof (call_edit_ok _ _ _ Hc Ee) as He. pose proof (spec_call_edit _ _ _ Ee) as Hspec.
    destruct (RecordEdit_inv (edits_since_checkpoint mm) (spec_call (mm_state mm) c) fs s0 es e)
      as [H1 H2]; try done.
    { rewrite apply_edits_app, E. by rewrite Hspec. }
    cbv zeta. unfold with_state. by rewrite H1.
  - rewrite spec_call_none in * by done. cbn. split; [done|]. split; [|done].
    split; [done|]. split; [done|]. split; [done|]. by exists s0, es.
Qed.

Lemma run_calls_inv cs mm fs :
  manifest_inv mm fs -> Forall call_ok cs -> has_room (mm_state mm) (length cs) ->
  let r := run_calls mm fs cs in
  mm_state r.1 = fold_left spec_call cs (mm_state mm) /\ manifest_inv r.1 r.2.
Proof.
  intros Hi Hcs. revert mm fs Hi. induction Hcs as [|c cs Hc _ IH]; intros mm fs Hi Hr; [done|].
  destruct (run_call_inv mm fs c (length cs) Hi Hc Hr) as (H1 & H2 & H3).
  unfold run_calls. cbn [fold_left]. destruct (run_call mm fs c) as [mm1 fs1]. cbn in *.
  rewrite <- H1. by apply IH.
Qed.

(** ** A cut record in front of a whole one *)

(** The thirteen octets in front of the payload. *)
Definition edit_header (op : ManifestOp) : bytes :=
  le_encode 4 kManifestMagic ++ le_encode 4 kManifestVersion ++
  le_encode 1 (op_code op) ++ le_encode 4 (payload_size op).

Definition edit_payload (e : ManifestEdit) : bytes := le_encode 8 (ed_id e) ++ level_octets e.

Lemma encode_edit_header e : encode_edit e = edit_header (ed_op e) ++ edit_payload e.
Proof. rewrite encode_edit_eq. unfold edit_header, edit_payload. by rewrite <- !app_assoc. Qed.

Lemma length_edit_payload e : Z.of_nat (length (edit_payload e)) = payload_size (ed_op e).
Proof. by destruct e as [[] id l]. Qed.

Lemma read_le_long n rest :
  (n <= length rest)%nat -> read_le n rest = Some (le_decode (take n rest), drop n rest).
Proof. intros H. unfold read_le. by rewrite (proj2 (Nat.leb_le _ _)). Qed.

(** An input that does not start with the first octet of the magic number. *)
Lemma ReplayLog_loop_bad_magic fuel b rest st :
  b <> x78 -> (3 <= length rest)%nat ->
  ReplayLog_loop (S fuel) (b :: rest) st = Ret (st, false).
Proof.
  intros Hb Hr. cbn [ReplayLog_loop]. rewrite read_le_long by (simpl; lia).
  rewrite (proj2 (Z.eqb_neq _ _)); [done|]. intros E. apply Hb, byte_to_Z_inj.
  cbn [take le_decode] in E. unfold kManifestMagic in E.
  pose proof (byte_to_Z_bounds b). change (byte_to_Z x78) with 0x78. lia.
Qed.

(** A cut inside the header. *)
Lemma ReplayLog_loop_torn_header fuel n op op' tail st :
  (0 < n < 13)%nat ->
  ReplayLog_loop (S fuel) (take n (edit_header op) ++ edit_header op' ++ tail) st =
  Ret (st, false).
Proof.
  intros Hn.
  destruct op, op'; do 13 (destruct n as [|n]; [lia || reflexivity|]); lia.
Qed.

(** A whole header takes the octets of its payload from whatever follows. *)
Lemma ReplayLog_loop_header fuel op body st :
  payload_size op <= zlen body ->
  exists st', ReplayLog_loop (S fuel) (edit_header op ++ body) st =
    ReplayLog_loop fuel (drop (Z.to_nat (payload_size op)) body) st'.
Proof.
  unfold edit_header, zlen. rewrite <- !app_assoc. intros Hb. cbn [ReplayLog_loop].
  rewrite read_le_encode by apply fits_magic. rewrite Z.eqb_refl. cbn [negb].
  rewrite read_le_encode by apply fits_version.
  rewrite read_le_encode by apply fits_op_code.
  rewrite read_le_encode by apply fits_payload_size.
  rewrite op_of_op_code, !Z.eqb_refl. cbn [negb].
  rewrite read_le_long by (destruct op; simpl in Hb; lia).
  destruct op; eauto.
  rewrite read_le_long by (rewrite length_drop; simpl in Hb; lia).
  rewrite drop_drop. eauto.
Qed.

(** The tail of a header is not the start of a record. *)
Lemma ReplayLog_loop_header_tail fuel j op tail st :
  (0 < j <= 12)%nat -> (8 <= length tail)%nat ->
  ReplayLog_loop (S fuel) (drop j (edit_header op) ++ tail) st = Ret (st, false).
Proof.
  intros Hj Ht.
  destruct op; do 13 (destruct j as [|j];
    [lia || (apply ReplayLog_loop_bad_magic; [done|simpl; lia])|]); lia.
Qed.

Lemma ReplayLog_loop_torn_append fuel e e' n st :
  (0 < n < length (encode_edit e))%nat ->
  exists st', ReplayLog_loop (S (S fuel)) (take n (encode_edit e) ++ encode_edit e') st =
    Ret (st', false).
Proof.
  intros Hn. rewrite !encode_edit_header in *. rewrite length_app in Hn.
  pose proof (length_edit_payload e) as Hp. pose proof (length_edit_payload e') as Hp'.
  change (length (edit_header (ed_op e))) with 13%nat in Hn.
  destruct (decide (n < 13)%nat).
  { rewrite take_app_le by (simpl; lia). eexists. apply ReplayLog_loop_torn_header. lia. }
  rewrite take_app_ge by (simpl; lia). rewrite <- app_assoc.
  change (length (edit_header (ed_op e))) with 13%nat.
  assert (Hs : payload_size (ed_op e) <= 12) by (by destruct (ed_op e)).
  assert (Hs' : 8 <= payload_size (ed_op e')) by (by destruct (ed_op e')).
  set (p := take (n - 13) (edit_payload e)).
  assert (Hlp : length p = (n - 13)%nat) by (unfold p; rewrite length_take; lia).
  destruct (ReplayLog_loop_header (S fuel) (ed_op e)
    (p ++ edit_header (ed_op e') ++ edit_payload e') st) as [st' ->].
  { unfold zlen. rewrite !length_app. simpl. lia. }
  exists st'. rewrite drop_app_ge, drop_app_le by (simpl; lia).
  apply ReplayLog_loop_header_tail; lia.
Qed.

(** ** Logs over other states *)

Lemma apply_edits_wals_mono es s s' :
  live_wals s ⊆ live_wals s' -> live_wals (apply_edits es s) ⊆ live_wals (apply_edits es s').
Proof.
  revert s s'. induction es as [|[op id l] es IH]; intros s s' H; [done|].
  apply IH. destruct op; cbn; set_solver.
Qed.

(** * Properties *)

(** The snapshot format is faithful: reading what [PersistState] writes gives
    back the state, whatever the reader held before. *)
Theorem manifest_snapshot_roundtrip (st st0 : ManifestState) :
  state_ok st -> parse_state (encode_state st) st0 = (st, true).
Proof. apply parse_encode_state. Qed.

Lemma manifest_snapshot_roundtrip_witness :
  let st := mkState 7 {[ 3 := 0; 5 := 1 ]} {[ 6; 4 ]} in
  state_ok st /\ parse_state (encode_state st) ManifestState_empty = (st, true).
Proof.
  cbv zeta. match goal with |- ?P /\ _ => assert (Hok : P) end.
  { split; try done; cbn.
    - intros k l. rewrite lookup_insert_Some, lookup_singleton_Some. unfold fits. naive_solver lia.
    - intros w. rewrite elem_of_union, !elem_of_singleton. unfold fits. lia. }
  split; [exact Hok|]. apply manifest_snapshot_roundtrip. exact Hok.
Defined.


(** A directory with the snapshot of an empty store. *)
Definition fresh_files : FS :=
  mkFS true {[ manifest_name := encode_state ManifestState_empty ]} [].

Lemma fresh_hold : files_hold fresh_files ManifestState_empty [].
Proof. split; try done. Qed.




(** C38: a cut record at the end of the log is tolerated once only.  [ReplayLog]
    ignores the cut record but leaves it in the file; the next edit is appended
    behind it, and from then on [ReplayLog] fails, at every cut position, so the
    store cannot be opened any more. *)
Theorem manifest_torn_log_poisoned (fs : FS) (s0 : ManifestState) (es : list ManifestEdit)
    (e e' : ManifestEdit) (n : nat) (mm : ManifestManager) :
  files_hold fs s0 es -> fs_healthy fs -> edit_ok e ->
  (0 < n < length (encode_edit e))%nat -> edits_since_checkpoint mm = 0 ->
  let torn := fs_set fs manifest_log_name (torn_edits es e n) in
  recovered_state torn = Some (apply_edits es s0) /\
  recovered_state (RecordEdit mm torn e').2 = None.
Proof.
  intros Hh Hfs He Hn Hcnt torn. split.
  { unfold torn. rewrite (files_hold_recovered_torn _ s0) by done.
    by rewrite (proj2 (Nat.leb_gt _ _)) by lia. }
  unfold RecordEdit. rewrite AppendEdit_healthy by done. cbn [negb].
  rewrite Hcnt. unfold MaybeCheckpoint. cbn [edits_since_checkpoint].
  change (u32 (0 + 1) <? kManifestCheckpointThreshold) with true. cbn [snd].
  unfold torn. rewrite fs_read_set. cbn [default from_option id].
  destruct Hh as [Hd Hs Hl Hok Hes].
  unfold recovered_state, Load, LoadState, ReplayLog. cbn [fs_is_dir fs_set].
  rewrite Hd. cbn [negb]. rewrite fs_read_set, !fs_read_set_ne by done. rewrite Hs.
  rewrite parse_encode_state by done. cbn [negb mm_state].
  unfold torn_edits. rewrite <- app_assoc, ReplayLog_loop_app by done.
  assert (Hlen : exists k, length (take n (encode_edit e) ++ encode_edit e') = S k).
  { rewrite length_app, (length_encode_edit e'). eexists. simpl. by rewrite Nat.add_succ_r. }
  destruct Hlen as [k ->].
  destruct (ReplayLog_loop_torn_append k e e' n (apply_edits es s0) Hn) as [st' ->]. done.
Qed.

Lemma manifest_torn_log_poisoned_witness :
  let e := mkEdit AddWAL 1 0 in
  let torn := fs_set fresh_files manifest_log_name (torn_edits [] e 20) in
  recovered_state torn = Some (apply_edits [] ManifestState_empty) /\
  recovered_state (RecordEdit ManifestManager_new torn (mkEdit AddWAL 2 0)).2 = None.
Proof.
  apply (manifest_torn_log_poisoned fresh_files ManifestState_empty [] (mkEdit AddWAL 1 0)
    (mkEdit AddWAL 2 0) 20 ManifestManager_new).
  - apply fresh_hold.
  - split; reflexivity.
  - split; split; done.
  - split; vm_compute; repeat constructor.
  - reflexivity.
Defined.

(** The fallback snapshot loses edits.  When an append cannot open the log,
    [RecordEdit] writes a snapshot and keeps the old log, which the next start
    replays over the newer snapshot: a WAL that the old log made live is live
    again although its removal succeeded and was persisted. *)
Theorem manifest_fallback_resurrects_wal (fs : FS) (s0 : ManifestState)
    (es : list ManifestEdit) (mm : ManifestManager) (w : Z) :
  files_hold fs s0 es -> fs_io fs = [io_open_fails] -> state_ok (mm_state mm) ->
  apply_edits es s0 = mm_state mm ->
  w ∈ live_wals (apply_edits es ManifestState_empty) ->
  let '(mm', fs', removed) := RemoveWal mm fs w in
  removed = true /\ w ∉ live_wals (mm_state mm') /\
  exists st, recovered_state fs' = Some st /\ w ∈ live_wals st.
Proof.
  intros Hh Hio Hst E Hw. pose proof (apply_edits_wals_mono es ManifestState_empty s0) as Hm.
  pose proof Hh as [Hd Hs Hl Hok Hes].
  assert (Hin : w ∈ live_wals (mm_state mm)) by (rewrite <- E; apply Hm; set_solver).
  unfold RemoveWal. rewrite decide_True by done. unfold RecordEdit, AppendEdit, fs_append.
  rewrite Hd. cbn [negb]. unfold fs_write at 1, fs_next_io at 1. rewrite Hio. cbn [negb].
  set (st' := mkState _ _ _). set (fs1 := mkFS _ _ _).
  unfold Persist, PersistState, fs_overwrite, with_state. cbn [mm_state].
  replace (fs_is_dir fs1) with true by (by rewrite <- Hd). cbn [negb].
  rewrite fs_write_healthy by done. cbn [negb app mm_state].
  split; [done|]. split; [unfold st'; cbn; set_solver|].
  exists (apply_edits es st'). split.
  - apply files_hold_recovered. unfold fs_rename, fs_set. cbn [fs_files fs_is_dir fs_io].
    rewrite lookup_insert_eq. split; try done.
    + unfold fs_read. cbn. by rewrite lookup_insert_eq.
    + unfold fs_read in *. cbn.
      by rewrite lookup_insert_ne, lookup_delete_ne, lookup_insert_ne.
    + destruct Hst as [H1 H2 H3 H4 H5]. unfold st'. split; cbn; try done; [set_solver|].
      pose proof (subseteq_size (live_wals (mm_state mm) ∖ {[w]}) (live_wals (mm_state mm))
        ltac:(set_solver)). lia.
  - apply (apply_edits_wals_mono es ManifestState_empty st'); [set_solver|done].
Qed.

Lemma manifest_fallback_resurrects_wal_witness :
  let fs := mkFS true {[ manifest_name := encode_state ManifestState_empty;
                         manifest_log_name := encode_edits [mkEdit AddWAL 1 0] ]}
                 [io_open_fails] in
  let mm := mkManager 1 (mkState 0 ∅ {[ 1 ]}) in
  let '(mm', fs', removed) := RemoveWal mm fs 1 in
  removed = true /\ 1 ∉ live_wals (mm_state mm') /\
  exists st, recovered_state fs' = Some st /\ 1 ∈ live_wals st.
Proof.
  apply (manifest_fallback_resurrects_wal _ ManifestState_empty [mkEdit AddWAL 1 0]).
  - split; try done. apply Forall_cons_2; [split; split; done|constructor].
  - reflexivity.
  - split; try done. cbn. intros w ->%elem_of_singleton. split; reflexivity || lia.
  - reflexivity.
  - apply elem_of_union_l, elem_of_singleton. reflexivity.
Defined.

(** Replay of the edit log terminates on every file. *)
Theorem manifest_replay_terminates (mm : ManifestManager) (fs : FS) :
  exists r, ReplayLog mm fs = Ret r.
Proof.
  unfold ReplayLog. destruct (negb (fs_is_dir fs)); [eauto|].
  destruct (fs_read fs manifest_log_name) as [data|]; [|eauto].
  destruct (ReplayLog_loop_fuel (S (length data)) (S (length data)) data (mm_state mm))
    as [_ [[st ok] ->]]; [lia..|]. eauto.
Qed.
