(* ===== verification/SkipList.v ===== *)
(** The skip list ([include/SkipList.h]): nodes on a heap, with a vector of next
    pointers each; insertion, search, deletion, iteration and destruction follow
    the pointers as the code does.

    Dereferencing a null or freed pointer and indexing a vector out of range are
    [Fault]; the theorems show that neither happens.  The random height of a new
    node is a function of the coin flips drawn by [get_random_level]. *)
From S2P Require Import Prelude OMap.

(** [std::atomic<int>] wraps around. *)
Definition i32 (z : Z) : Z := (z + 2 ^ 31) mod 2 ^ 32 - 2 ^ 31.

Section skiplist.
Context {V : Type} (v0 : V).  (* [V()], the value in the sentinel *)

(** [Node] : [next] has one pointer per level of the node. *)
Record Node := mkNode {
  nd_key : bytes;
  nd_value : V;
  nd_next : list (option nat);
}.

Abbreviation Heap := (gmap nat Node).

Record SkipList := mkSkipList {
  max_level : nat;
  current_level : nat;
  sl_head : nat;
  node_count : Z;
  heap : Heap;
  next_loc : nat;  (* the allocator: addresses from here on are unused *)
}.

(** ** Memory accesses *)

(** [p->...] *)
Definition load_node (h : Heap) (p : nat) : outcome Node :=
  match h !! p with Some n => Ret n | None => Fault end.

(** [p->next[i].load()] *)
Definition load_next (h : Heap) (p i : nat) : outcome (option nat) :=
  let* n := load_node h p in
  match nd_next n !! i with Some q => Ret q | None => Fault end.

(** [p->next[i].store(q)] *)
Definition store_next (h : Heap) (p i : nat) (q : option nat) : outcome Heap :=
  let* n := load_node h p in
  if (i <? length (nd_next n))%nat
  then Ret (<[p := mkNode (nd_key n) (nd_value n) (<[i := q]> (nd_next n))]> h)
  else Fault.

(** [delete p] *)
Definition free_node (h : Heap) (p : nat) : outcome Heap :=
  let* _ := load_node h p in Ret (delete p h).

(** [update[i]] and [update[i] = p] *)
Definition vec_get (u : list nat) (i : nat) : outcome nat :=
  match u !! i with Some p => Ret p | None => Fault end.

Definition vec_set (u : list nat) (i p : nat) : outcome (list nat) :=
  if (i <? length u)%nat then Ret (<[i := p]> u) else Fault.

(** ** Construction *)

(** [create_node] and [Node::Node] *)
Definition create_node (k : bytes) (v : V) (level : nat) : Node :=
  mkNode k v (replicate level None).

(** [SkipList::SkipList] *)
Definition SkipList_new (max : nat) : SkipList :=
  mkSkipList max 0 0 0 {[ 0%nat := create_node [] v0 max ]} 1.

(** [SkipList::get_random_level] : flip [n] is whether the [n]-th draw of the
    generator is below one half. *)
Fixpoint random_level_loop (fuel n level max : nat) (flips : nat -> bool) : nat :=
  match fuel with
  | O => level
  | S fuel' =>
      if flips n && (level <? max)%nat
      then random_level_loop fuel' (S n) (S level) max flips
      else level
  end.

Definition get_random_level (s : SkipList) (flips : nat -> bool) : nat :=
  random_level_loop (max_level s) 0 1 (max_level s) flips.

(** ** Search *)

(** [while (curr->next[i] && curr->next[i]->key < key) curr = curr->next[i];] *)
Fixpoint walk (fuel : nat) (h : Heap) (key : bytes) (i curr : nat) : outcome nat :=
  match fuel with
  | O => NoFuel
  | S fuel' =>
      let* next := load_next h curr i in
      match next with
      | None => Ret curr
      | Some q =>
          let* n := load_node h q in
          if bytes_ltb (nd_key n) key then walk fuel' h key i q else Ret curr
      end
  end.

(** A walk visits each node once. *)
Definition walk_fuel (h : Heap) : nat := S (size h).

(** [for (int i = current_level - 1; i >= 0; i--) { walk; update[i] = curr; }]
    with [level] levels to go. *)
Fixpoint find_preds (level : nat) (h : Heap) (key : bytes) (curr : nat) (update : list nat)
    : outcome (nat * list nat) :=
  match level with
  | O => Ret (curr, update)
  | S i =>
      let* curr := walk (walk_fuel h) h key i curr in
      let* update := vec_set update i curr in
      find_preds i h key curr update
  end.

(** The loop of [search_element], without the vector. *)
Fixpoint descend (level : nat) (h : Heap) (key : bytes) (curr : nat) : outcome nat :=
  match level with
  | O => Ret curr
  | S i =>
      let* curr := walk (walk_fuel h) h key i curr in
      descend i h key curr
  end.

(** The node behind [curr] on level 0, if it has the key. *)
Definition match_next (h : Heap) (key : bytes) (curr : nat) : outcome (option (nat * Node)) :=
  let* next := load_next h curr 0 in
  match next with
  | None => Ret None
  | Some q =>
      let* n := load_node h q in
      if decide (nd_key n = key) then Ret (Some (q, n)) else Ret None
  end.

(** [SkipList::search_element] *)
Definition search_element (s : SkipList) (key : bytes) : outcome (option V) :=
  let* curr := descend (current_level s) (heap s) key (sl_head s) in
  let* m := match_next (heap s) key curr in
  match m with
  | Some (_, n) => Ret (Some (nd_value n))
  | None => Ret None
  end.

(** ** Insertion *)

(** [for (i = current_level; i < level; i++) update[i] = head;] *)
Fixpoint fill_head (n i : nat) (hd : nat) (update : list nat) : outcome (list nat) :=
  match n with
  | O => Ret update
  | S n' => let* update := vec_set update i hd in fill_head n' (S i) hd update
  end.

(** [for (i = 0; i < level; i++) { new->next[i] = update[i]->next[i];
    update[i]->next[i] = new; }], with [n] levels to go. *)
Fixpoint link_levels (n i : nat) (h : Heap) (new : nat) (update : list nat) : outcome Heap :=
  match n with
  | O => Ret h
  | S n' =>
      let* u := vec_get update i in
      let* q := load_next h u i in
      let* h := store_next h new i q in
      let* u := vec_get update i in
      let* h := store_next h u i (Some new) in
      link_levels n' (S i) h new update
  end.

(** [SkipList::insert_element]; the code always returns [true]. *)
Definition insert_element (s : SkipList) (key : bytes) (value : V) (flips : nat -> bool)
    : outcome SkipList :=
  let hd := sl_head s in
  let* (curr, update) :=
    find_preds (current_level s) (heap s) key hd (replicate (max_level s) hd) in
  let* m := match_next (heap s) key curr in
  match m with
  | Some (q, n) =>
      Ret (mkSkipList (max_level s) (current_level s) hd (node_count s)
             (<[q := mkNode (nd_key n) value (nd_next n)]> (heap s)) (next_loc s))
  | None =>
      let level := get_random_level s flips in
      let* update :=
        if (current_level s <? level)%nat
        then fill_head (level - current_level s) (current_level s) hd update
        else Ret update in
      let cur := if (current_level s <? level)%nat then level else current_level s in
      let new := next_loc s in
      let h := <[new := create_node key value level]> (heap s) in
      let* h := link_levels level 0 h new update in
      Ret (mkSkipList (max_level s) cur hd (i32 (node_count s + 1)) h (S new))
  end.

(** ** Deletion *)

(** The unlinking loop of [delete_element]: it stops at the first level whose
    predecessor does not point to the node. *)
Fixpoint unlink_levels (n i : nat) (h : Heap) (del : nat) (update : list nat) : outcome Heap :=
  match n with
  | O => Ret h
  | S n' =>
      let* u := vec_get update i in
      let* q := load_next h u i in
      if decide (q = Some del) then
        let* q := load_next h del i in
        let* h := store_next h u i q in
        unlink_levels n' (S i) h del update
      else Ret h
  end.

(** [while (current_level > 0 && head->next[current_level - 1] == nullptr)
    --current_level;] *)
Fixpoint lower_level (cur : nat) (h : Heap) (hd : nat) : outcome nat :=
  match cur with
  | O => Ret O
  | S cur' =>
      let* q := load_next h hd cur' in
      match q with None => lower_level cur' h hd | Some _ => Ret cur end
  end.

(** [SkipList::delete_element] *)
Definition delete_element (s : SkipList) (key : bytes) : outcome (SkipList * bool) :=
  let hd := sl_head s in
  let* (curr, update) :=
    find_preds (current_level s) (heap s) key hd (replicate (max_level s) hd) in
  let* m := match_next (heap s) key curr in
  match m with
  | None => Ret (s, false)
  | Some (del, _) =>
      let* h := unlink_levels (current_level s) 0 (heap s) del update in
      let* h := free_node h del in
      let* cur := lower_level (current_level s) h hd in
      Ret (mkSkipList (max_level s) cur hd (i32 (node_count s - 1)) h (next_loc s), true)
  end.

(** [SkipList::size] *)
Definition sl_size (s : SkipList) : Z := node_count s.

(** ** Iteration *)

(** [SkipList::Iterator] *)
Definition Iterator : Type := option nat.

Definition sl_begin (s : SkipList) : outcome Iterator := load_next (heap s) (sl_head s) 0.
Definition it_Valid (it : Iterator) : bool := match it with Some _ => true | None => false end.

Definition it_deref (s : SkipList) (it : Iterator) : outcome Node :=
  match it with Some p => load_node (heap s) p | None => Fault end.

Definition it_key (s : SkipList) (it : Iterator) : outcome bytes :=
  let* n := it_deref s it in Ret (nd_key n).
Definition it_value (s : SkipList) (it : Iterator) : outcome V :=
  let* n := it_deref s it in Ret (nd_value n).

Definition it_Next (s : SkipList) (it : Iterator) : outcome Iterator :=
  match it with Some p => load_next (heap s) p 0 | None => Ret None end.

(** [while (it.Valid()) { emit(it.key(), it.value()); it.Next(); }] *)
Fixpoint iterate (fuel : nat) (s : SkipList) (it : Iterator) : outcome (list (bytes * V)) :=
  match fuel with
  | O => NoFuel
  | S fuel' =>
      if it_Valid it then
        let* k := it_key s it in
        let* v := it_value s it in
        let* it := it_Next s it in
        let* rows := iterate fuel' s it in
        Ret ((k, v) :: rows)
      else Ret []
  end.

(** The rows that iteration from [begin] yields. *)
Definition sl_rows (s : SkipList) : outcome (list (bytes * V)) :=
  let* it := sl_begin s in iterate (walk_fuel (heap s)) s it.

(** ** Destruction *)

(** The loop of [~SkipList] *)
Fixpoint destroy_loop (fuel : nat) (h : Heap) (curr : option nat) : outcome Heap :=
  match fuel with
  | O => NoFuel
  | S fuel' =>
      match curr with
      | None => Ret h
      | Some p =>
          let* next := load_next h p 0 in
          let* h := free_node h p in
          destroy_loop fuel' h next
      end
  end.

(** [SkipList::~SkipList] : the heap that is left. *)
Definition SkipList_destroy (s : SkipList) : outcome Heap :=
  let* curr := load_next (heap s) (sl_head s) 0 in
  let* h := destroy_loop (walk_fuel (heap s)) (heap s) curr in
  free_node h (sl_head s).

(** ** Specification *)

(** A node of the abstract list; it is linked on the levels from [an_lo] to
    below [an_hi].  [an_lo] is 0 except in the middle of a deletion. *)
Record anode := mkA {
  an_loc : nat;
  an_key : bytes;
  an_val : V;
  an_lo : nat;
  an_hi : nat;
}.

Definition visible (i : nat) (a : anode) : bool := (an_lo a <=? i)%nat && (i <? an_hi a)%nat.

(** The first node linked on level [i]. *)
Fixpoint first_visible (i : nat) (ns : list anode) : option nat :=
  match ns with
  | [] => None
  | a :: r => if visible i a then Some (an_loc a) else first_visible i r
  end.

(** The next pointers of a node of height [hi] in front of [ns]. *)
Definition links (hi : nat) (ns : list anode) : list (option nat) :=
  map (fun i => first_visible i ns) (seq 0 hi).

Definition node_of (a : anode) (rest : list anode) : Node :=
  mkNode (an_key a) (an_val a) (links (an_hi a) rest).

(** The heap that lays out a list of nodes, each linked to those behind it. *)
Fixpoint layout (ns : list anode) : Heap :=
  match ns with
  | [] => ∅
  | a :: r => <[an_loc a := node_of a r]> (layout r)
  end.

(** The sentinel is a node of full height in front of the list. *)
Definition sentinel (s : SkipList) : anode := mkA (sl_head s) [] v0 0 (max_level s).

Definition node_row (a : anode) : bytes * V := (an_key a, an_val a).

(** The rows of a skip list with abstract nodes [ns]. *)
Definition node_rows (ns : list anode) : list (bytes * V) := map node_row ns.

(** The representation invariant. *)
Record sl_rep (s : SkipList) (ns : list anode) : Prop := {
  rep_max : (1 <= max_level s)%nat;
  rep_cur : (current_level s <= max_level s)%nat;
  rep_heap : heap s = layout (sentinel s :: ns);
  rep_nodup : NoDup (sl_head s :: map an_loc ns);
  rep_fresh : Forall (fun p => p < next_loc s)%nat (sl_head s :: map an_loc ns);
  rep_height : Forall (fun a => an_lo a = 0 /\ 1 <= an_hi a <= current_level s)%nat ns;
  rep_top : (0 < current_level s)%nat -> first_visible (current_level s - 1) ns <> None;
  rep_sorted : om_sorted (node_rows ns);
  rep_count : node_count s = i32 (zlen ns);
}.

(** The skip list holds exactly these rows. *)
Definition sl_holds (s : SkipList) (rows : list (bytes * V)) : Prop :=
  exists ns, sl_rep s ns /\ node_rows ns = rows.

(** The public operations, and what they return. *)
Inductive sl_op : Type :=
| op_insert (key : bytes) (value : V) (flips : nat -> bool)
| op_search (key : bytes)
| op_delete (key : bytes)
| op_iterate
| op_size.

Inductive sl_obs : Type :=
| obs_unit
| obs_value (v : option V)
| obs_bool (b : bool)
| obs_rows (rows : list (bytes * V))
| obs_int (z : Z).

Definition run_op (s : SkipList) (op : sl_op) : outcome (SkipList * sl_obs) :=
  match op with
  | op_insert k v flips => let* s := insert_element s k v flips in Ret (s, obs_unit)
  | op_search k => let* r := search_element s k in Ret (s, obs_value r)
  | op_delete k => let* (s, b) := delete_element s k in Ret (s, obs_bool b)
  | op_iterate => let* rows := sl_rows s in Ret (s, obs_rows rows)
  | op_size => Ret (s, obs_int (sl_size s))
  end.

Fixpoint run_ops (s : SkipList) (ops : list sl_op) : outcome (SkipList * list sl_obs) :=
  match ops with
  | [] => Ret (s, [])
  | op :: ops =>
      let* (s, o) := run_op s op in
      let* (s, os) := run_ops s ops in Ret (s, o :: os)
  end.

(** The same operations on a sorted association list. *)
Definition spec_op (rows : list (bytes * V)) (op : sl_op) : list (bytes * V) * sl_obs :=
  match op with
  | op_insert k v _ => (om_insert k v rows, obs_unit)
  | op_search k => (rows, obs_value (om_find k rows))
  | op_delete k =>
      (om_erase k rows, obs_bool (match om_find k rows with Some _ => true | None => false end))
  | op_iterate => (rows, obs_rows rows)
  | op_size => (rows, obs_int (i32 (zlen rows)))
  end.

Fixpoint spec_ops (rows : list (bytes * V)) (ops : list sl_op) : list (bytes * V) * list sl_obs :=
  match ops with
  | [] => (rows, [])
  | op :: ops =>
      let (rows, o) := spec_op rows op in
      let (rows, os) := spec_ops rows ops in (rows, o :: os)
  end.

(** * Lemmas *)

Implicit Types (a b c : anode) (ns p q : list anode) (h : Heap).

Abbreviation locs := (map an_loc).

(** ** Visibility and links *)

Lemma visible_lo0 i a : an_lo a = 0%nat -> visible i a = (i <? an_hi a)%nat.
Proof. intros E. unfold visible. by rewrite E. Qed.

Lemma first_visible_app i p q :
  first_visible i (p ++ q) =
  match first_visible i p with Some l => Some l | None => first_visible i q end.
Proof. induction p as [|a p IH]; simpl; [done|]. by destruct (visible i a). Qed.

Lemma first_visible_None i p :
  first_visible i p = None <-> Forall (fun a => visible i a = false) p.
Proof.
  induction p as [|a p IH]; simpl; [done|]. rewrite Forall_cons, <- IH.
  by destruct (visible i a); naive_solver.
Qed.

Lemma first_visible_elem i p l : first_visible i p = Some l -> l ∈ locs p.
Proof.
  induction p as [|a p IH]; simpl; [done|].
  destruct (visible i a); [intros [= <-]; set_solver|]. intros H%IH. set_solver.
Qed.

Lemma length_links hi p : length (links hi p) = hi.
Proof. unfold links. by rewrite length_map, length_seq. Qed.

Lemma lookup_links hi p i : (i < hi)%nat -> links hi p !! i = Some (first_visible i p).
Proof.
  intros H. unfold links. rewrite list_lookup_fmap, lookup_seq_lt by done. done.
Qed.

Lemma links_ext hi p q :
  (forall i, (i < hi)%nat -> first_visible i p = first_visible i q) -> links hi p = links hi q.
Proof.
  intros H. unfold links. apply map_ext_in. intros i Hi%in_seq. apply H. lia.
Qed.

Lemma node_of_ext a p q :
  (forall i, (i < an_hi a)%nat -> first_visible i p = first_visible i q) ->
  node_of a p = node_of a q.
Proof. intros H. unfold node_of. by rewrite (links_ext _ p q). Qed.

(** One link changes. *)
Lemma links_insert hi j p q x :
  (forall i, i <> j -> first_visible i p = first_visible i q) -> first_visible j q = x ->
  links hi q = <[j := x]> (links hi p).
Proof.
  intros H Hj. apply list_eq. intros i.
  destruct (decide (i < hi)%nat).
  - rewrite lookup_links by done. destruct (decide (i = j)) as [->|].
    + by rewrite list_lookup_insert_eq, Hj by (by rewrite length_links).
    + rewrite list_lookup_insert_ne, lookup_links by done. by rewrite H.
  - rewrite !lookup_ge_None_2; rewrite ?length_insert, ?length_links; [done|lia..].
Qed.

(** ** The layout *)

Lemma layout_cons a p : layout (a :: p) = <[an_loc a := node_of a p]> (layout p).
Proof. done. Qed.

Lemma layout_lookup_None p l : l ∉ locs p -> layout p !! l = None.
Proof.
  induction p as [|a p IH]; simpl; [by rewrite lookup_empty|].
  rewrite not_elem_of_cons. intros [H1 H2]. rewrite lookup_insert_ne by done. auto.
Qed.

Lemma layout_lookup p a q :
  NoDup (locs (p ++ a :: q)) -> layout (p ++ a :: q) !! an_loc a = Some (node_of a q).
Proof.
  induction p as [|b p IH]; simpl; intros Hnd.
  { by rewrite lookup_insert_eq. }
  apply NoDup_cons in Hnd as [Hb Hnd]. rewrite lookup_insert_ne; [by apply IH|].
  intros E. apply Hb. rewrite E, map_app. set_solver.
Qed.

Lemma layout_size p : NoDup (locs p) -> size (layout p) = length p.
Proof.
  induction p as [|a p IH]; simpl; intros Hnd; [apply map_size_empty|].
  apply NoDup_cons in Hnd as [Ha Hnd].
  rewrite map_size_insert_None by (by apply layout_lookup_None). by rewrite IH.
Qed.

(** Inserting at an address behind the front commutes with the front. *)
Lemma layout_cons_insert a p q l x :
  l <> an_loc a -> (forall i, first_visible i p = first_visible i q) ->
  layout q = <[l := x]> (layout p) ->
  layout (a :: q) = <[l := x]> (layout (a :: p)).
Proof.
  intros Hl Hv E. rewrite !layout_cons, E, insert_insert_ne by done.
  by rewrite (node_of_ext _ p q).
Qed.

Lemma first_visible_same i p a a' q :
  visible i a = visible i a' -> an_loc a = an_loc a' ->
  first_visible i (p ++ a :: q) = first_visible i (p ++ a' :: q).
Proof. intros H1 H2. rewrite !first_visible_app. simpl. by rewrite H1, H2. Qed.

(** Replacing a node by one with the same address and links. *)
Lemma layout_replace p a a' q :
  NoDup (locs (p ++ a :: q)) -> an_loc a = an_loc a' ->
  (forall i, visible i a = visible i a') ->
  layout (p ++ a' :: q) = <[an_loc a := node_of a' q]> (layout (p ++ a :: q)).
Proof.
  intros Hnd Hl Hv. induction p as [|b p IH]; cbn [app].
  { rewrite !layout_cons, Hl. by rewrite insert_insert_eq. }
  cbn [app map] in Hnd. apply NoDup_cons in Hnd as [Hb Hnd].
  apply layout_cons_insert; [|intros i; by apply first_visible_same|by apply IH].
  intros E. apply Hb. rewrite <- E, map_app. set_solver.
Qed.

Lemma first_visible_skip i p a q :
  visible i a = false -> first_visible i (p ++ a :: q) = first_visible i (p ++ q).
Proof. intros H. rewrite !first_visible_app. simpl. by rewrite H. Qed.

(** A node that no level links. *)
Lemma layout_invisible p a q :
  NoDup (locs (p ++ a :: q)) -> (forall i, visible i a = false) ->
  layout (p ++ a :: q) = <[an_loc a := node_of a q]> (layout (p ++ q)).
Proof.
  intros Hnd Hv. induction p as [|b p IH]; cbn [app]; [done|].
  cbn [app map] in Hnd. apply NoDup_cons in Hnd as [Hb Hnd].
  apply layout_cons_insert; [|intros i; symmetry; by apply first_visible_skip|by apply IH].
  intros E. apply Hb. rewrite <- E, map_app. set_solver.
Qed.

(** A change of visibility on level [j] behind nodes that do not reach it. *)
Lemma layout_hidden p a a' q j x :
  NoDup (locs (p ++ a :: q)) -> an_loc a = an_loc a' ->
  (forall i, i <> j -> visible i a = visible i a') ->
  Forall (fun b => an_lo b = 0%nat /\ visible j b = false) p ->
  <[an_loc a := x]> (layout (p ++ a' :: q)) = <[an_loc a := x]> (layout (p ++ a :: q)).
Proof.
  intros Hnd Hl Hv Hp. induction p as [|b p IH]; cbn [app].
  { rewrite !layout_cons, Hl. by rewrite !insert_insert_eq. }
  cbn [app map] in Hnd. apply NoDup_cons in Hnd as [Hb Hnd].
  apply Forall_cons in Hp as [[Hlo Hj] Hp].
  assert (an_loc a <> an_loc b).
  { intros E. apply Hb. rewrite <- E, map_app. set_solver. }
  rewrite !layout_cons, !(insert_insert_ne _ (an_loc a) (an_loc b)), IH by done.
  f_equal. apply node_of_ext. intros i Hi.
  rewrite visible_lo0 in Hj by done. apply Nat.ltb_ge in Hj.
  symmetry. apply first_visible_same; [apply Hv; lia|done].
Qed.

(** The same change behind the predecessor [b] on level [j]: one store. *)
Lemma layout_relink p1 b p2 a a' q j x :
  NoDup (locs (p1 ++ b :: p2 ++ a :: q)) -> an_loc a = an_loc a' ->
  (forall i, i <> j -> visible i a = visible i a') ->
  Forall (fun b => an_lo b = 0%nat /\ visible j b = false) p2 ->
  visible j b = true ->
  <[an_loc a := x]> (layout (p1 ++ b :: p2 ++ a' :: q)) =
  <[an_loc a := x]> (<[an_loc b := mkNode (an_key b) (an_val b)
    (<[j := first_visible j (a' :: q)]> (links (an_hi b) (p2 ++ a :: q)))]>
    (layout (p1 ++ b :: p2 ++ a :: q))).
Proof.
  intros Hnd Hl Hv Hp Hb. induction p1 as [|c p1 IH]; cbn [app].
  - cbn [app map] in Hnd. apply NoDup_cons in Hnd as [Hbn Hnd].
    assert (Hne : an_loc b <> an_loc a).
    { intros E. apply Hbn. rewrite E, map_app. set_solver. }
    rewrite !layout_cons, insert_insert_eq. rewrite !(insert_insert_ne _ (an_loc a) (an_loc b)) by done.
    rewrite (layout_hidden p2 a a' q j) by done. f_equal. unfold node_of. f_equal.
    apply links_insert.
    + intros i Hi. apply first_visible_same; auto.
    + rewrite first_visible_app.
      rewrite (proj2 (first_visible_None j p2)); [done|].
      eapply Forall_impl; [exact Hp|]. by intros ? [].
  - cbn [app map] in Hnd. apply NoDup_cons in Hnd as [Hc Hnd].
    assert (Hca : an_loc a <> an_loc c /\ an_loc b <> an_loc c).
    { split; intros E; apply Hc; rewrite <- E, map_app; simpl; rewrite ?map_app; set_solver. }
    destruct Hca as [Hca Hcb].
    rewrite !layout_cons, (insert_insert_ne _ (an_loc b) (an_loc c)) by done.
    rewrite !(insert_insert_ne _ (an_loc a) (an_loc c)), IH by done.
    f_equal. apply node_of_ext. intros i _.
    rewrite !first_visible_app. destruct (first_visible i p1); [done|].
    cbn [first_visible]. destruct (visible i b) eqn:Eb; [done|].
    assert (i <> j) by congruence. by rewrite (first_visible_same i p2 a a') by auto.
Qed.

(** ** Finding the predecessors *)

Lemma first_visible_split i p l :
  first_visible i p = Some l ->
  exists p1 a p2, p = p1 ++ a :: p2 /\ l = an_loc a /\ visible i a = true /\
    Forall (fun b => visible i b = false) p1.
Proof.
  induction p as [|b p IH]; simpl; [done|]. destruct (visible i b) eqn:E.
  - intros [= <-]. by exists [], b, p.
  - intros (p1 & a & p2 & -> & -> & Ha & Hp)%IH. exists (b :: p1), a, p2. auto.
Qed.

(** [l] is the last node of [pre] that level [i] links. *)
Definition pred_at (i : nat) (pre : list anode) (l : nat) : Prop :=
  exists p b m, pre = p ++ b :: m /\ l = an_loc b /\ visible i b = true /\
    Forall (fun c => visible i c = false) m.

Lemma load_next_layout p b q i :
  NoDup (locs (p ++ b :: q)) -> visible i b = true ->
  load_next (layout (p ++ b :: q)) (an_loc b) i = Ret (first_visible i q).
Proof.
  intros Hnd Hv. unfold load_next, load_node. rewrite layout_lookup by done. cbn [obind node_of nd_next].
  apply andb_true_iff in Hv as [_ Hv%Nat.ltb_lt]. by rewrite lookup_links.
Qed.

Lemma load_node_layout p b q :
  NoDup (locs (p ++ b :: q)) -> load_node (layout (p ++ b :: q)) (an_loc b) = Ret (node_of b q).
Proof. intros Hnd. unfold load_node. by rewrite layout_lookup. Qed.

Lemma walk_spec key i post fuel p b m :
  NoDup (locs (p ++ b :: m ++ post)) -> visible i b = true ->
  Forall (fun c => bytes_lt (an_key c) key) m ->
  Forall (fun c => ~ bytes_lt (an_key c) key) post ->
  (length m < fuel)%nat ->
  exists p' b' m', p ++ b :: m = p' ++ b' :: m' /\ suffix m' m /\
    walk fuel (layout (p ++ b :: m ++ post)) key i (an_loc b) = Ret (an_loc b') /\
    visible i b' = true /\ Forall (fun c => visible i c = false) m'.
Proof.
  revert p b m. induction fuel as [|fuel IH]; intros p b m Hnd Hb Hm Hpost Hf; [lia|].
  cbn [walk]. rewrite load_next_layout by done. cbn [obind]. rewrite first_visible_app.
  destruct (first_visible i m) as [l|] eqn:Em.
  - apply first_visible_split in Em as (m1 & c & m2 & -> & -> & Hc & Hm1).
    assert (E : p ++ b :: (m1 ++ c :: m2) ++ post = (p ++ b :: m1) ++ c :: m2 ++ post)
      by (by simplify_list_eq).
    rewrite E in *. rewrite load_node_layout by done. cbn [obind node_of nd_key].
    apply Forall_app in Hm as [_ [Hkc Hm2]%Forall_cons].
    rewrite (proj2 (bytes_ltb_lt _ _) Hkc). rewrite length_app in Hf. simpl in Hf.
    destruct (IH (p ++ b :: m1) c m2) as (p' & b' & m' & E' & Hs & Hw & Hb' & Hm'); try done; [lia|].
    exists p', b', m'. split; [|split; [|done]].
    + rewrite <- E'. by rewrite <- app_assoc.
    + etransitivity; [done|]. exists (m1 ++ [c]). by rewrite <- app_assoc.
  - exists p, b, m. split; [done|]. split; [done|]. split; [|split; [done|by apply first_visible_None]].
    destruct (first_visible i post) as [l|] eqn:Ep; [|done].
    apply first_visible_split in Ep as (m1 & c & m2 & -> & -> & Hc & _).
    assert (E : p ++ b :: m ++ m1 ++ c :: m2 = (p ++ b :: m ++ m1) ++ c :: m2)
      by (by simplify_list_eq).
    rewrite E in *. rewrite load_node_layout by done. cbn [obind node_of nd_key].
    apply Forall_app in Hpost as [_ [Hkc _]%Forall_cons].
    by rewrite (proj2 (bytes_ltb_nlt _ _) Hkc).
Qed.

Lemma visible_down i j b : an_lo b = 0%nat -> (j <= i)%nat -> visible i b = true -> visible j b = true.
Proof. intros H Hj. rewrite !visible_lo0, !Nat.ltb_lt by done. lia. Qed.

(** The descent from level [n]: it stops at the last node of [pre] on level 0
    and records the predecessor on each level. *)
Lemma find_preds_spec key pre post n p b m u :
  NoDup (locs (pre ++ post)) ->
  Forall (fun c => an_lo c = 0%nat) pre ->
  Forall (fun c => ~ bytes_lt (an_key c) key) post ->
  pre = p ++ b :: m ->
  Forall (fun c => bytes_lt (an_key c) key) m ->
  (forall i, (i < n)%nat -> visible i b = true) ->
  Forall (fun c => visible n c = false) m ->
  (n <= length u)%nat ->
  (forall j, (n <= j < length u)%nat -> exists l, u !! j = Some l /\ pred_at j pre l) ->
  exists p' b' m' u', pre = p' ++ b' :: m' /\ suffix m' m /\
    find_preds n (layout (pre ++ post)) key (an_loc b) u = Ret (an_loc b', u') /\
    Forall (fun c => visible 0 c = false) m' /\ length u' = length u /\
    (forall j, (j < length u)%nat -> exists l, u' !! j = Some l /\ pred_at j pre l).
Proof.
  intros Hnd Hlo Hpost. revert p b m u. induction n as [|n IH]; intros p b m u -> Hm Hb Hn Hlen Hu.
  { exists p, b, m, u. split_and!; try done. intros j Hj. apply Hu. lia. }
  cbn [find_preds].
  assert (E : (p ++ b :: m) ++ post = p ++ b :: m ++ post) by (by rewrite <- app_assoc).
  destruct (walk_spec key n post (walk_fuel (layout ((p ++ b :: m) ++ post))) p b m)
    as (p' & b' & m' & E' & Hs & Hw & Hb' & Hm'); try done.
  { by rewrite <- E. } { apply Hb. lia. }
  { unfold walk_fuel. rewrite layout_size by done. rewrite !length_app. simpl. lia. }
  rewrite <- E in Hw. rewrite Hw. cbn [obind]. unfold vec_set.
  rewrite (proj2 (Nat.ltb_lt _ _)) by lia. cbn [obind].
  destruct (IH p' b' m' (<[n := an_loc b']> u)) as (p2 & b2 & m2 & u2 & E2 & Hs2 & Hf & H0 & Hl2 & Hu2);
    try done.
  - destruct Hs as [k ->]. by apply Forall_app in Hm as [_ Hm].
  - intros i Hi. rewrite E' in Hlo. apply Forall_app in Hlo as [_ [Hlo _]%Forall_cons].
    apply (visible_down n); [done|lia|done].
  - rewrite length_insert. lia.
  - rewrite length_insert. intros j Hj. destruct (decide (j = n)) as [->|].
    + exists (an_loc b'). rewrite list_lookup_insert_eq by lia. split; [done|].
      exists p', b', m'. done.
    + rewrite list_lookup_insert_ne by done. apply Hu. lia.
  - rewrite length_insert in *. exists p2, b2, m2, u2. split; [done|].
    split; [by etransitivity|]. done.
Qed.

Lemma find_preds_descend n h key (curr : nat) u (c : nat) u' :
  find_preds n h key curr u = Ret (c, u') -> descend n h key curr = Ret c.
Proof.
  revert curr u. induction n as [|n IH]; intros curr u; cbn [find_preds descend].
  { by intros [= -> _]. }
  destruct (walk _ h key n curr) as [c1| |]; cbn [obind]; try done.
  unfold vec_set. destruct (_ <? _)%nat; cbn [obind]; [apply IH|done].
Qed.

(** ** Searching a represented list *)

Lemma node_rows_app p q : node_rows (p ++ q) = node_rows p ++ node_rows q.
Proof. apply map_app. Qed.

(** The nodes below a key and the others. *)
Lemma nodes_split key ns :
  om_sorted (node_rows ns) ->
  exists pre post, ns = pre ++ post /\
    Forall (fun r => bytes_lt r.1 key) (node_rows pre) /\
    Forall (fun r => ~ bytes_lt r.1 key) (node_rows post).
Proof.
  intros Hs. destruct (om_split key _ Hs) as (l1 & l2 & E & H1 & H2).
  apply fmap_app_inv in E as (pre & post & -> & -> & ->). eauto.
Qed.

Lemma visible_sentinel s j : (j < max_level s)%nat -> visible j (sentinel s) = true.
Proof. intros H. apply andb_true_iff. split; [done|]. by apply Nat.ltb_lt. Qed.

Lemma not_visible_above s ns j :
  Forall (fun a => an_lo a = 0 /\ 1 <= an_hi a <= current_level s)%nat ns ->
  (current_level s <= j)%nat -> Forall (fun c => visible j c = false) ns.
Proof.
  intros H Hj. eapply Forall_impl; [exact H|]. intros c [Hc1 Hc2]. cbn beta.
  rewrite visible_lo0 by done. apply Nat.ltb_ge. lia.
Qed.

(** Above the current level the sentinel is the predecessor. *)
Lemma pred_at_head s ns j :
  Forall (fun a => an_lo a = 0 /\ 1 <= an_hi a <= current_level s)%nat ns ->
  (current_level s <= j < max_level s)%nat -> pred_at j (sentinel s :: ns) (sl_head s).
Proof.
  intros H Hj. exists [], (sentinel s), ns. split; [done|]. split; [done|].
  split; [apply visible_sentinel; lia|]. apply (not_visible_above s); [done|lia].
Qed.

(** What the descent finds in a list split at the key. *)
Lemma find_preds_rep s pre post key :
  sl_rep s (pre ++ post) ->
  Forall (fun r => bytes_lt r.1 key) (node_rows pre) ->
  Forall (fun r => ~ bytes_lt r.1 key) (node_rows post) ->
  exists p b u, sentinel s :: pre = p ++ [b] /\
    find_preds (current_level s) (heap s) key (sl_head s) (replicate (max_level s) (sl_head s))
      = Ret (an_loc b, u) /\
    length u = max_level s /\
    (forall j, (j < max_level s)%nat ->
      exists l, u !! j = Some l /\ pred_at j (sentinel s :: pre) l).
Proof.
  intros [Hmax Hcur Hheap Hnd _ Hh _ _ _] Hpre Hpost.
  unfold node_rows in Hpre, Hpost. rewrite Forall_map in Hpre, Hpost.
  pose proof Hh as [Hh1 _]%Forall_app.
  destruct (find_preds_spec key (sentinel s :: pre) post (current_level s) [] (sentinel s) pre
    (replicate (max_level s) (sl_head s))) as (p & b & m & u & E & Hs & Hf & Hm & Hl & Hu);
    rewrite ?length_replicate in *; try done.
  - constructor; [done|]. eapply Forall_impl; [exact Hh1|]. by intros c [].
  - intros i Hi. apply visible_sentinel. lia.
  - by apply (not_visible_above s).
  - intros j Hj. exists (sl_head s). split; [apply lookup_replicate_2; lia|].
    by apply pred_at_head.
  - exists p, b, u. split; [|split; [by rewrite Hheap|done]].
    assert (m = []) as ->; [|done].
    destruct m as [|c m]; [done|]. exfalso. destruct Hs as [k ->].
    apply Forall_app in Hh1 as [_ [[Hc1 Hc2] _]%Forall_cons].
    apply Forall_cons in Hm as [Hc _]. rewrite visible_lo0 in Hc by done.
    apply Nat.ltb_ge in Hc. lia.
Qed.

(** The node that decides the outcome of an operation. *)
Lemma match_next_layout key p b post :
  NoDup (locs (p ++ b :: post)) -> visible 0 b = true ->
  Forall (fun c => visible 0 c = true) post ->
  match_next (layout (p ++ b :: post)) key (an_loc b) =
  Ret (match post with
       | c :: r => if decide (an_key c = key) then Some (an_loc c, node_of c r) else None
       | [] => None
       end).
Proof.
  intros Hnd Hb Hp. unfold match_next. rewrite load_next_layout by done. cbn [obind].
  destruct post as [|c post]; [done|]. apply Forall_cons in Hp as [Hc _].
  cbn [first_visible]. rewrite Hc.
  assert (E : p ++ b :: c :: post = (p ++ [b]) ++ c :: post) by (by simplify_list_eq).
  rewrite E in *. rewrite load_node_layout by done. cbn [obind node_of nd_key].
  by case_decide.
Qed.

Lemma rep_visible0 s ns : sl_rep s ns -> Forall (fun c => visible 0 c = true) (sentinel s :: ns).
Proof.
  intros [Hmax _ _ _ _ Hh _ _ _]. constructor.
  - by apply visible_sentinel.
  - eapply Forall_impl; [exact Hh|]. intros c [Hc1 Hc2]. cbn beta.
    rewrite visible_lo0 by done. apply Nat.ltb_lt. lia.
Qed.

(** The common beginning of all operations. *)
Lemma locate_rep s ns key :
  sl_rep s ns ->
  exists pre post u (curr : nat), ns = pre ++ post /\
    Forall (fun r => bytes_lt r.1 key) (node_rows pre) /\
    Forall (fun r => ~ bytes_lt r.1 key) (node_rows post) /\
    find_preds (current_level s) (heap s) key (sl_head s) (replicate (max_level s) (sl_head s))
      = Ret (curr, u) /\
    length u = max_level s /\
    (forall j, (j < max_level s)%nat ->
      exists l, u !! j = Some l /\ pred_at j (sentinel s :: pre) l) /\
    match_next (heap s) key curr =
      Ret (match post with
           | c :: r => if decide (an_key c = key) then Some (an_loc c, node_of c r) else None
           | [] => None
           end).
Proof.
  intros Hrep. destruct (nodes_split key ns (rep_sorted _ _ Hrep)) as (pre & post & -> & H1 & H2).
  destruct (find_preds_rep s pre post key Hrep H1 H2) as (p & b & u & E & Hf & Hl & Hu).
  exists pre, post, u, (an_loc b). do 6 (split; [done|]).
  pose proof (rep_visible0 _ _ Hrep) as Hv. pose proof (rep_nodup _ _ Hrep) as Hnd.
  rewrite (rep_heap _ _ Hrep). rewrite app_comm_cons, E in *. rewrite <- app_assoc in *.
  apply Forall_app in Hv as [_ [Hb Hv]%Forall_cons].
  apply match_next_layout; [|done|done].
  assert (Hn : NoDup (locs ((sentinel s :: pre) ++ post))) by done.
  by rewrite E, <- app_assoc in Hn.
Qed.

Lemma search_element_rep s ns key :
  sl_rep s ns -> search_element s key = Ret (om_find key (node_rows ns)).
Proof.
  intros Hrep. destruct (locate_rep s ns key Hrep) as (pre & post & u & c & -> & H1 & H2 & Hf & _ & _ & Hm).
  unfold search_element. rewrite (find_preds_descend _ _ _ _ _ _ _ Hf). cbn [obind]. rewrite Hm. cbn [obind].
  pose proof (rep_sorted _ _ Hrep) as Hs. rewrite node_rows_app in Hs |- *.
  rewrite om_find_split by done. destruct post as [|a post]; [done|]. cbn. by case_decide.
Qed.

(** ** Insertion *)

Lemma random_level_bounds fuel n level max flips :
  (level <= max)%nat -> (level <= random_level_loop fuel n level max flips <= max)%nat.
Proof.
  revert n level. induction fuel as [|fuel IH]; intros n level H; cbn [random_level_loop]; [lia|].
  destruct (flips n && (level <? max)%nat) eqn:E; [|lia].
  apply andb_true_iff in E as [_ E%Nat.ltb_lt]. specialize (IH (S n) (S level)). lia.
Qed.

Lemma get_random_level_bounds s flips :
  (1 <= max_level s)%nat -> (1 <= get_random_level s flips <= max_level s)%nat.
Proof. intros H. by apply random_level_bounds. Qed.

Lemma links_snoc hi q : links (S hi) q = links hi q ++ [first_visible hi q].
Proof. unfold links. by rewrite seq_S, map_app. Qed.

(** The node that is being linked, up to level [j]. *)
Definition partial (new : nat) (k : bytes) (v : V) (j : nat) : anode := mkA new k v 0 j.

Lemma visible_partial new k v j i : visible i (partial new k v j) = (i <? j)%nat.
Proof. done. Qed.

Lemma store_next_insert_eq h (p i : nat) (q : option nat) n :
  (i < length (nd_next n))%nat ->
  store_next (<[p := n]> h) p i q =
  Ret (<[p := mkNode (nd_key n) (nd_value n) (<[i := q]> (nd_next n))]> h).
Proof.
  intros Hi. unfold store_next, load_node. rewrite lookup_insert_eq. cbn [obind].
  rewrite (proj2 (Nat.ltb_lt _ _)) by done. by rewrite insert_insert_eq.
Qed.

Lemma store_next_lookup h (p i : nat) (q : option nat) n :
  h !! p = Some n -> (i < length (nd_next n))%nat ->
  store_next h p i q =
  Ret (<[p := mkNode (nd_key n) (nd_value n) (<[i := q]> (nd_next n))]> h).
Proof.
  intros Hp Hi. unfold store_next, load_node. rewrite Hp. cbn [obind].
  by rewrite (proj2 (Nat.ltb_lt _ _)).
Qed.

Lemma load_next_lookup h (p i : nat) n x :
  h !! p = Some n -> nd_next n !! i = Some x -> load_next h p i = Ret x.
Proof. intros Hp Hi. unfold load_next, load_node. rewrite Hp. cbn [obind]. by rewrite Hi. Qed.

(** The linking loop from level [j] on: it completes the node's own pointers
    and makes the node visible on the levels left. *)
Lemma link_levels_spec pre post new k v u n j :
  NoDup (locs (pre ++ post)) -> new ∉ locs (pre ++ post) ->
  Forall (fun c => an_lo c = 0%nat) pre ->
  (forall i, (j <= i < j + n)%nat -> exists l, u !! i = Some l /\ pred_at i pre l) ->
  link_levels n j
    (<[new := mkNode k v (links j post ++ replicate n None)]>
      (layout (pre ++ partial new k v j :: post))) new u
  = Ret (layout (pre ++ partial new k v (j + n) :: post)).
Proof.
  intros Hnd Hnew Hlo.
  assert (Hnd' : forall j, NoDup (locs (pre ++ partial new k v j :: post))).
  { intros j'. rewrite map_app. cbn [map]. apply NoDup_Permutation_proper with
      (locs (partial new k v j' :: pre ++ post)).
    { cbn [map]. rewrite map_app. symmetry. apply Permutation_middle. }
    cbn [map]. by constructor. }
  revert j. induction n as [|n IH]; intros j Hu.
  { cbn [link_levels replicate]. rewrite app_nil_r, Nat.add_0_r. f_equal.
    apply insert_id. by rewrite (layout_lookup pre (partial new k v j)). }
  cbn [link_levels]. destruct (Hu j) as (l & Hl & (p & b & m & -> & -> & Hb & Hm)); [lia|].
  unfold vec_get. rewrite Hl. cbn [obind].
  set (A := partial new k v j) in *.
  assert (E : forall x, (p ++ b :: m) ++ x = p ++ b :: m ++ x) by (intros; by simplify_list_eq).
  assert (Hne : an_loc b <> new).
  { intros Heq. apply Hnew. rewrite E, map_app. set_solver. }
  assert (Hlk : layout ((p ++ b :: m) ++ A :: post) !! an_loc b = Some (node_of b (m ++ A :: post))).
  { rewrite E. apply layout_lookup. rewrite <- E. apply Hnd'. }
  assert (Hjb : (j < an_hi b)%nat).
  { apply andb_true_iff in Hb as [_ Hb]. by apply Nat.ltb_lt in Hb. }
  assert (Hfv : first_visible j (m ++ A :: post) = first_visible j post).
  { rewrite first_visible_app, (proj2 (first_visible_None j m)) by done. cbn [first_visible].
    unfold A. by rewrite visible_partial, Nat.ltb_irrefl. }
  rewrite (load_next_lookup _ _ _ (node_of b (m ++ A :: post)) (first_visible j post));
    [|by rewrite lookup_insert_ne|cbn [node_of nd_next]; by rewrite lookup_links, Hfv].
  cbn [obind]. rewrite store_next_insert_eq
    by (cbn [nd_next]; rewrite length_app, length_links, length_replicate; lia).
  cbn [obind nd_key nd_value nd_next].
  assert (Hx : <[j := first_visible j post]> (links j post ++ replicate (S n) None)
    = links (S j) post ++ replicate n None).
  { rewrite links_snoc, <- app_assoc. rewrite insert_app_r_alt by (by rewrite length_links).
    by rewrite length_links, Nat.sub_diag. }
  rewrite Hx. set (X := mkNode k v _).
  rewrite (store_next_lookup _ _ _ _ (node_of b (m ++ A :: post)));
    [|by rewrite lookup_insert_ne|cbn [node_of nd_next]; by rewrite length_links].
  cbn [obind node_of nd_key nd_value nd_next].
  replace (j + S n)%nat with (S j + n)%nat by lia.
  rewrite <- IH by (intros i Hi; apply Hu; lia). f_equal.
  rewrite insert_insert_ne by done. fold X. rewrite !E.
  change new with (an_loc A) at 1 3. symmetry. etransitivity.
  1: apply (layout_relink p b m A (partial new k v (S j)) post j X); try done.
  4:{ f_equal. f_equal. f_equal. cbn [first_visible]. rewrite visible_partial.
    by rewrite (proj2 (Nat.ltb_lt _ _)) by lia. }
  - rewrite <- E. apply Hnd'.
  - intros i Hi. unfold A. rewrite !visible_partial.
    destruct (Nat.ltb_spec i j), (Nat.ltb_spec i (S j)); lia || done.
  - apply Forall_app in Hlo as [_ [_ Hlo]%Forall_cons].
    rewrite Forall_forall in Hlo, Hm |- *. auto.
Qed.

Lemma fill_head_spec n i hd u (P : nat -> nat -> Prop) :
  (i + n <= length u)%nat ->
  (forall j, (i <= j < i + n)%nat -> P j hd) ->
  (forall j, (j < length u)%nat -> exists l, u !! j = Some l /\ P j l) ->
  exists u', fill_head n i hd u = Ret u' /\
    (forall j, (j < length u)%nat -> exists l, u' !! j = Some l /\ P j l).
Proof.
  revert i u. induction n as [|n IH]; intros i u Hlen Hhd Hu; [by exists u|].
  cbn [fill_head]. unfold vec_set. rewrite (proj2 (Nat.ltb_lt _ _)) by lia. cbn [obind].
  destruct (IH (S i) (<[i := hd]> u)) as (u' & H1 & H2).
  - rewrite length_insert. lia.
  - intros j Hj. apply Hhd. lia.
  - rewrite length_insert. intros j Hj. destruct (decide (j = i)) as [->|].
    + exists hd. rewrite list_lookup_insert_eq by lia. split; [done|]. apply Hhd. lia.
    + rewrite list_lookup_insert_ne by done. by apply Hu.
  - exists u'. rewrite length_insert in H2. done.
Qed.

Lemma i32_succ z d : i32 (i32 z + d) = i32 (z + d).
Proof.
  unfold i32. f_equal.
  replace ((z + 2 ^ 31) mod 2 ^ 32 - 2 ^ 31 + d + 2 ^ 31) with ((z + 2 ^ 31) mod 2 ^ 32 + d) by lia.
  rewrite Zplus_mod_idemp_l. f_equal. lia.
Qed.

Lemma locs_middle pre a post : locs (pre ++ a :: post) ≡ₚ an_loc a :: locs (pre ++ post).
Proof. rewrite !map_app. cbn [map]. symmetry. apply Permutation_middle. Qed.

(** The rows after an insertion. *)
Lemma insert_rows key v pre post :
  Forall (fun r => bytes_lt r.1 key) (node_rows pre) ->
  Forall (fun r => ~ bytes_lt r.1 key) (node_rows post) ->
  om_insert key v (node_rows (pre ++ post)) =
  node_rows pre ++ match post with
                   | c :: r => if decide (an_key c = key) then (key, v) :: node_rows r
                               else (key, v) :: node_rows post
                   | [] => [(key, v)]
                   end.
Proof.
  intros H1 H2. rewrite node_rows_app, om_insert_split by done. f_equal.
  destruct post as [|c post]; [done|]. cbn. by case_decide.
Qed.

(** Overwriting the value of the node that has the key. *)
Lemma overwrite_rep s pre c post value :
  sl_rep s (pre ++ c :: post) ->
  sl_rep (mkSkipList (max_level s) (current_level s) (sl_head s) (node_count s)
           (<[an_loc c := mkNode (an_key c) value (nd_next (node_of c post))]> (heap s))
           (next_loc s))
    (pre ++ mkA (an_loc c) (an_key c) value (an_lo c) (an_hi c) :: post).
Proof.
  intros [Hmax Hcur Hheap Hnd Hfr Hh Ht Hs Hc]. set (c' := mkA _ _ _ _ _).
  assert (Hl : locs (pre ++ c' :: post) = locs (pre ++ c :: post)) by (by rewrite !map_app).
  split; cbn [max_level current_level sl_head node_count heap next_loc]; rewrite ?Hl; try done.
  - rewrite Hheap. symmetry. by apply (layout_replace (sentinel s :: pre) c c' post Hnd).
  - apply Forall_app in Hh as [Hh1 [Hh2 Hh3]%Forall_cons]. apply Forall_app. split; [done|]. by constructor.
  - intros Hpos. rewrite (first_visible_same _ pre c' c) by done. by apply Ht.
  - rewrite node_rows_app in Hs |- *. cbn in Hs |- *.
    apply om_sorted_app in Hs as (H1 & H2 & [H3 H4]%om_sorted_cons). apply om_sorted_app.
    split; [|split; [done|by apply om_sorted_cons]].
    intros p' q' Hp [->|Hq]%elem_of_cons; [|apply H1; [done|set_solver]].
    apply (H1 p' (node_row c)); [done|set_solver].
  - rewrite Hc. unfold zlen. by rewrite !length_app.
Qed.

(** Linking a new node in front of the first greater key. *)
Lemma link_rep s pre post key value level u :
  sl_rep s (pre ++ post) ->
  (1 <= level <= max_level s)%nat ->
  om_sorted (node_rows (pre ++ partial (next_loc s) key value level :: post)) ->
  (forall j, (j < max_level s)%nat -> exists l, u !! j = Some l /\ pred_at j (sentinel s :: pre) l) ->
  exists h,
  link_levels level 0 (<[next_loc s := create_node key value level]> (heap s)) (next_loc s) u
    = Ret h /\
  sl_rep (mkSkipList (max_level s) (Nat.max level (current_level s)) (sl_head s)
            (i32 (node_count s + 1)) h (S (next_loc s)))
    (pre ++ partial (next_loc s) key value level :: post).
Proof.
  intros [Hmax Hcur Hheap Hnd Hfr Hh Ht Hs Hc] Hlev Hs' Hu. set (new := next_loc s) in *.
  assert (Hnew : new ∉ sl_head s :: locs (pre ++ post)).
  { intros Hin. rewrite Forall_forall in Hfr. apply Hfr in Hin. unfold new in Hin. lia. }
  assert (Hnd0 : NoDup (locs ((sentinel s :: pre) ++ partial new key value 0 :: post))).
  { rewrite locs_middle. by constructor. }
  assert (Hstart : <[new := create_node key value level]> (heap s) =
    <[new := mkNode key value (links 0 post ++ replicate level None)]>
      (layout ((sentinel s :: pre) ++ partial new key value 0 :: post))).
  { rewrite (layout_invisible (sentinel s :: pre) (partial new key value 0) post Hnd0) by done.
    by rewrite insert_insert_eq, Hheap. }
  eexists. rewrite Hstart, link_levels_spec; [split; [reflexivity|]|done|done| |].
  - rewrite Nat.add_0_l. split; cbn [max_level current_level sl_head node_count heap next_loc];
      try done; try lia.
    + apply NoDup_cons in Hnd as [Hhd Hnd]. apply not_elem_of_cons in Hnew as [Hn1 Hn2].
      rewrite locs_middle. apply NoDup_cons. split; [|by apply NoDup_cons].
      apply not_elem_of_cons. split; [|done]. cbn [an_loc partial]. auto.
    + rewrite locs_middle. cbn [an_loc partial].
      apply Forall_cons in Hfr as [Hfr1 Hfr2]. constructor; [lia|]. constructor; [lia|].
      eapply Forall_impl; [exact Hfr2|]. cbn beta. lia.
    + apply Forall_app in Hh as [Hh1 Hh2]. apply Forall_app. split; [|constructor].
      * eapply Forall_impl; [exact Hh1|]. cbn beta. lia.
      * cbn. lia.
      * eapply Forall_impl; [exact Hh2|]. cbn beta. lia.
    + intros _. rewrite first_visible_app. destruct (first_visible _ pre) eqn:Ep; [done|].
      cbn [first_visible]. rewrite visible_partial.
      destruct (Nat.ltb_spec (Nat.max level (current_level s) - 1) level); [done|].
      specialize (Ht ltac:(lia)). rewrite first_visible_app in Ht.
      replace (Nat.max level (current_level s) - 1)%nat with (current_level s - 1)%nat in * by lia.
      by rewrite Ep in Ht.
    + rewrite Hc, i32_succ. f_equal. unfold zlen. rewrite !length_app. simpl. lia.
  - apply Forall_app in Hh as [Hh1 _]. constructor; [done|].
    eapply Forall_impl; [exact Hh1|]. by intros ? [].
  - intros i Hi. apply Hu. lia.
Qed.

(** [insert_element] inserts or overwrites. *)
Lemma insert_element_rep s ns key value flips :
  sl_rep s ns ->
  exists s' ns', insert_element s key value flips = Ret s' /\ sl_rep s' ns' /\
    node_rows ns' = om_insert key value (node_rows ns).
Proof.
  intros Hrep.
  destruct (locate_rep s ns key Hrep) as (pre & post & u & curr & -> & H1 & H2 & Hf & Hl & Hu & Hm).
  unfold insert_element. rewrite Hf. cbn [obind]. rewrite Hm. cbn [obind].
  pose proof (insert_rows key value pre post H1 H2) as Hrows.
  pose proof (om_insert_sorted key value _ (rep_sorted _ _ Hrep)) as Hsort.
  assert (Hov : (exists c r, post = c :: r /\ an_key c = key) \/
    match post with
    | c :: r => if decide (an_key c = key) then Some (an_loc c, node_of c r) else None
    | [] => None
    end = None /\
    om_insert key value (node_rows (pre ++ post)) = node_rows pre ++ (key, value) :: node_rows post).
  { destruct post as [|c post]; [by right|]. case_decide; [left; eauto|by right]. }
  destruct Hov as [(c & r & -> & Hk)|[-> Hrows']].
  - rewrite decide_True by done. eexists _, _. split; [reflexivity|].
    split; [by apply overwrite_rep|].
    rewrite Hrows, decide_True, node_rows_app by done. cbn. by rewrite <- Hk.
  - destruct (get_random_level_bounds s flips (rep_max _ _ Hrep)) as [Hlo Hhi].
    set (level := get_random_level s flips) in *.
    assert (Hfill : exists u', (if (current_level s <? level)%nat
      then fill_head (level - current_level s) (current_level s) (sl_head s) u else Ret u) = Ret u' /\
      (forall j, (j < max_level s)%nat ->
        exists l, u' !! j = Some l /\ pred_at j (sentinel s :: pre) l)).
    { destruct (Nat.ltb_spec (current_level s) level); [|eauto].
      rewrite <- Hl in *. apply (fill_head_spec _ _ _ _ (fun j l => pred_at j (sentinel s :: pre) l));
        [lia| |done].
      intros j Hj. apply pred_at_head; [|lia].
      by pose proof (rep_height _ _ Hrep) as [? _]%Forall_app. }
    destruct Hfill as (u' & -> & Hu'). cbn [obind].
    edestruct (link_rep s pre post key value level u') as (h & -> & Hr); [done|done| |done|].
    { rewrite node_rows_app. cbn. by rewrite Hrows' in Hsort. }
    cbn [obind]. eexists _, _. split; [reflexivity|]. split.
    + replace (if (current_level s <? level)%nat then level else current_level s)
        with (Nat.max level (current_level s)); [exact Hr|].
      destruct (Nat.ltb_spec (current_level s) level); lia.
    + rewrite node_rows_app. cbn. by rewrite Hrows'.
Qed.

(** ** Deletion *)

(** The node that is being unlinked, from level [j] on. *)
Definition fading (c : anode) (j : nat) : anode := mkA (an_loc c) (an_key c) (an_val c) j (an_hi c).

Lemma unlink_levels_spec pre post c u n j :
  NoDup (locs (pre ++ c :: post)) ->
  Forall (fun b => an_lo b = 0%nat) pre ->
  (j <= an_hi c <= j + n)%nat ->
  (forall i, (j <= i < j + n)%nat -> exists l, u !! i = Some l /\ pred_at i pre l) ->
  unlink_levels n j (layout (pre ++ fading c j :: post)) (an_loc c) u =
  Ret (layout (pre ++ fading c (an_hi c) :: post)).
Proof.
  intros Hnd Hlo. assert (Hnd' : forall j, NoDup (locs (pre ++ fading c j :: post))).
  { intros j'. rewrite map_app in *. done. }
  revert j. induction n as [|n IH]; intros j Hj Hu.
  { replace j with (an_hi c) by lia. done. }
  cbn [unlink_levels]. destruct (Hu j) as (l & Hl & (p & b & m & -> & -> & Hb & Hm)); [lia|].
  unfold vec_get. rewrite Hl. cbn [obind].
  assert (E : forall x, (p ++ b :: m) ++ x = p ++ b :: m ++ x) by (intros; by simplify_list_eq).
  assert (Hfv : first_visible j (m ++ fading c j :: post) =
    if decide (j < an_hi c)%nat then Some (an_loc c) else first_visible j post).
  { rewrite first_visible_app, (proj2 (first_visible_None j m)) by done. cbn [first_visible].
    unfold visible. cbn [an_lo an_hi an_loc fading]. rewrite Nat.leb_refl. cbn [andb].
    by destruct (Nat.ltb_spec j (an_hi c)), (decide (j < an_hi c)%nat); try lia. }
  rewrite E, load_next_layout, Hfv by (done || (rewrite <- E; apply Hnd')). cbn [obind].
  destruct (decide (j < an_hi c)%nat) as [Hlt|Hge].
  - rewrite decide_True by done.
    assert (Hvis : visible j (fading c j) = true).
    { unfold visible. cbn [an_lo an_hi fading]. by rewrite Nat.leb_refl, (proj2 (Nat.ltb_lt _ _)). }
    rewrite <- E. change (an_loc c) with (an_loc (fading c j)) at 1.
    rewrite load_next_layout by done. cbn [obind].
    assert (Hlk : layout ((p ++ b :: m) ++ fading c j :: post) !! an_loc b =
      Some (node_of b (m ++ fading c j :: post))).
    { rewrite E. apply layout_lookup. rewrite <- E. apply Hnd'. }
    assert (Hjb : (j < an_hi b)%nat).
    { apply andb_true_iff in Hb as [_ Hb]. by apply Nat.ltb_lt in Hb. }
    rewrite (store_next_lookup _ _ _ _ _ Hlk) by (cbn [node_of nd_next]; by rewrite length_links).
    cbn [obind node_of nd_key nd_value nd_next].
    rewrite <- (IH (S j)) by (lia || (intros i Hi; apply Hu; lia)). f_equal.
    set (X := node_of (fading c j) post).
    assert (Hne : an_loc b <> an_loc c).
    { intros Heq. rewrite E, map_app in Hnd. cbn [map] in Hnd.
      apply NoDup_app in Hnd as (_ & _ & [Hbn _]%NoDup_cons). apply Hbn.
      rewrite Heq, map_app. set_solver. }
    rewrite <- (insert_id (layout (_ ++ fading c (S j) :: _)) (an_loc c) X)
      by (rewrite (layout_lookup (p ++ b :: m) (fading c (S j))); done).
    rewrite <- (insert_id (<[an_loc b := _]> _) (an_loc c) X)
      by (rewrite lookup_insert_ne by done; rewrite (layout_lookup (p ++ b :: m) (fading c j)); done).
    rewrite !E. symmetry. etransitivity.
    + apply (layout_relink p b m (fading c j) (fading c (S j)) post j X); try done.
      * rewrite <- E. apply Hnd'.
      * intros i Hi. unfold visible. cbn [an_lo an_hi fading].
        destruct (Nat.leb_spec j i), (Nat.leb_spec (S j) i); lia || done.
      * apply Forall_app in Hlo as [_ [_ Hlo]%Forall_cons].
        rewrite Forall_forall in Hlo, Hm |- *. auto.
    + do 2 f_equal. f_equal. cbn [first_visible]. unfold visible. cbn [an_lo an_hi fading].
      by rewrite (proj2 (Nat.leb_gt _ _)) by lia.
  - rewrite decide_False.
    + rewrite <- E. repeat f_equal. lia.
    + intros Hin%first_visible_elem. rewrite map_app in Hnd. cbn [map] in Hnd.
      apply NoDup_app in Hnd as (_ & _ & [Hn _]%NoDup_cons). done.
Qed.

Lemma lower_level_spec hd ns cur :
  NoDup (locs (hd :: ns)) -> an_lo hd = 0%nat -> (cur <= an_hi hd)%nat ->
  Forall (fun a => an_lo a = 0 /\ 1 <= an_hi a <= cur)%nat ns ->
  exists cur', lower_level cur (layout (hd :: ns)) (an_loc hd) = Ret cur' /\ (cur' <= cur)%nat /\
    Forall (fun a => an_lo a = 0 /\ 1 <= an_hi a <= cur')%nat ns /\
    ((0 < cur')%nat -> first_visible (cur' - 1) ns <> None).
Proof.
  intros Hnd Hlo. induction cur as [|cur IH]; intros Hle Hh; cbn [lower_level].
  { exists 0%nat. split; [done|]. split; [lia|]. split; [done|lia]. }
  pose proof (load_next_layout [] hd ns cur) as Hld. cbn [app] in Hld.
  rewrite Hld by (done || (rewrite visible_lo0, Nat.ltb_lt by done; lia)). cbn [obind].
  destruct (first_visible cur ns) as [l|] eqn:Ef.
  - exists (S cur). split; [done|]. split; [lia|]. split; [done|].
    intros _. rewrite Nat.sub_succ, Nat.sub_0_r. by rewrite Ef.
  - destruct IH as (cur' & H1 & H2 & H3 & H4); [lia| |].
    + apply first_visible_None in Ef. rewrite Forall_forall in Hh, Ef |- *.
      intros a Ha. specialize (Hh a Ha) as [Ha0 Ha1]. specialize (Ef a Ha).
      rewrite visible_lo0, Nat.ltb_ge in Ef by done. lia.
    + exists cur'. split; [done|]. split; [lia|done].
Qed.

Lemma fading_id c : an_lo c = 0%nat -> fading c 0 = c.
Proof. destruct c. cbn. by intros ->. Qed.

(** [delete_element] erases. *)
Lemma delete_element_rep s ns key :
  sl_rep s ns ->
  exists s' ns', delete_element s key =
      Ret (s', match om_find key (node_rows ns) with Some _ => true | None => false end) /\
    sl_rep s' ns' /\ node_rows ns' = om_erase key (node_rows ns).
Proof.
  intros Hrep.
  destruct (locate_rep s ns key Hrep) as (pre & post & u & curr & -> & H1 & H2 & Hf & Hl & Hu & Hm).
  pose proof Hrep as [Hmax Hcur Hheap Hnd Hfr Hh Ht Hs Hc].
  unfold delete_element. rewrite Hf. cbn [obind]. rewrite Hm. cbn [obind].
  rewrite node_rows_app in Hs |- *. rewrite om_find_split, om_erase_split by done.
  destruct post as [|c post].
  { exists s, (pre ++ []). split; [done|]. split; [done|]. by rewrite node_rows_app. }
  cbn [node_rows map node_row]. destruct (decide (an_key c = key)) as [Hk|Hk].
  2:{ exists s, (pre ++ c :: post). split; [done|]. split; [done|]. by rewrite node_rows_app. }
  apply Forall_app in Hh as [Hh1 [[Hc0 Hc1] Hh2]%Forall_cons].
  pose proof (unlink_levels_spec (sentinel s :: pre) post c u (current_level s) 0) as Hun.
  rewrite fading_id in Hun by done. rewrite Hheap. rewrite <- app_comm_cons in Hun.
  rewrite Hun; [|done| |lia|intros i Hi; apply Hu; lia].
  2:{ constructor; [done|]. eapply Forall_impl; [exact Hh1|]. by intros ? []. }
  cbn [obind]. set (c' := fading c (an_hi c)).
  assert (Hnd' : NoDup (locs ((sentinel s :: pre) ++ c' :: post))) by (rewrite map_app in *; done).
  assert (Hinv : forall i, visible i c' = false).
  { intros i. unfold visible. cbn [an_lo an_hi fading c'].
    destruct (Nat.leb_spec (an_hi c) i), (Nat.ltb_spec i (an_hi c)); lia || done. }
  pose proof (layout_invisible (sentinel s :: pre) c' post Hnd' Hinv) as Hlay.
  unfold free_node, load_node. change (an_loc c) with (an_loc c').
  rewrite layout_lookup by done. cbn [obind]. rewrite Hlay.
  assert (Hnd2 : NoDup (locs (sentinel s :: pre ++ post)) /\ an_loc c' ∉ locs (sentinel s :: pre ++ post)).
  { rewrite locs_middle in Hnd'. apply NoDup_cons in Hnd' as [? ?]. done. }
  destruct Hnd2 as [Hnd2 Hfresh].
  rewrite delete_insert_id by (by apply layout_lookup_None). cbn [app].
  destruct (lower_level_spec (sentinel s) (pre ++ post) (current_level s))
    as (cur & Hlow & Hle & Hh' & Ht'); [done|done|done|by apply Forall_app|].
  change (sl_head s) with (an_loc (sentinel s)) at 1. rewrite Hlow. cbn [obind].
  exists (mkSkipList (max_level s) cur (sl_head s) (i32 (node_count s - 1))
            (layout (sentinel s :: pre ++ post)) (next_loc s)), (pre ++ post).
  split; [done|]. split; [|by rewrite node_rows_app].
  split; cbn [max_level current_level sl_head node_count heap next_loc]; try done; try lia.
  - apply Forall_cons in Hfr as [Hfr1 Hfr2]. constructor; [done|].
    rewrite locs_middle in Hfr2. by apply Forall_cons in Hfr2 as [_ ?].
  - rewrite node_rows_app. cbn in Hs. apply om_sorted_app in Hs as (Ha & Hb & [_ Hc']%om_sorted_cons).
    apply om_sorted_app. split; [|done]. intros p' q' Hp Hq. apply Ha; [done|set_solver].
  - rewrite Hc. replace (i32 (zlen (pre ++ c :: post)) - 1)
      with (i32 (zlen (pre ++ c :: post)) + (-1)) by lia.
    rewrite i32_succ. f_equal. unfold zlen. rewrite !length_app. simpl. lia.
Qed.

(** ** Iteration and destruction *)

Lemma iterate_layout s fuel p q :
  heap s = layout (p ++ q) -> NoDup (locs (p ++ q)) ->
  Forall (fun c => visible 0 c = true) q -> (length q < fuel)%nat ->
  iterate fuel s (first_visible 0 q) = Ret (node_rows q).
Proof.
  revert fuel p. induction q as [|a q IH]; intros fuel p Hh Hnd Hv Hf;
    (destruct fuel as [|fuel]; [simpl in Hf; lia|]); [done|].
  apply Forall_cons in Hv as [Ha Hv]. cbn [first_visible]. rewrite Ha. cbn [iterate it_Valid].
  unfold it_key, it_value, it_deref, it_Next. rewrite Hh, load_node_layout by done.
  cbn [obind node_of nd_key nd_value]. rewrite load_next_layout by done. cbn [obind].
  rewrite (IH fuel (p ++ [a])); [done| | |done|simpl in Hf; lia].
  - by rewrite <- app_assoc.
  - by rewrite <- app_assoc.
Qed.

Lemma sl_begin_rep s ns : sl_rep s ns -> sl_begin s = Ret (first_visible 0 ns).
Proof.
  intros Hrep. unfold sl_begin. rewrite (rep_heap _ _ Hrep).
  apply (load_next_layout [] (sentinel s) ns 0); [apply Hrep|].
  by apply rep_visible0, Forall_cons in Hrep as [? _].
Qed.

Lemma sl_rows_rep s ns : sl_rep s ns -> sl_rows s = Ret (node_rows ns).
Proof.
  intros Hrep. unfold sl_rows. rewrite (sl_begin_rep _ _ Hrep). cbn [obind].
  pose proof (rep_visible0 _ _ Hrep) as [_ Hv]%Forall_cons.
  apply (iterate_layout _ _ [sentinel s]); [apply Hrep|apply Hrep|done|].
  unfold walk_fuel. rewrite (rep_heap _ _ Hrep), layout_size by apply Hrep. simpl. lia.
Qed.

Lemma destroy_loop_layout l n q fuel :
  NoDup (l :: locs q) -> Forall (fun c => visible 0 c = true) q -> (length q < fuel)%nat ->
  destroy_loop fuel (<[l := n]> (layout q)) (first_visible 0 q) = Ret {[ l := n ]}.
Proof.
  revert fuel. induction q as [|a q IH]; intros fuel Hnd Hv Hf;
    (destruct fuel as [|fuel]; [simpl in Hf; lia|]); [done|].
  apply Forall_cons in Hv as [Ha Hv]. cbn [first_visible]. rewrite Ha. cbn [destroy_loop].
  apply NoDup_cons in Hnd as [Hl Hnd]. pose proof Hnd as [Han Hnd']%NoDup_cons.
  assert (Hne : l <> an_loc a) by (intros ->; set_solver).
  pose proof (load_next_layout [] a q 0 Hnd Ha) as Hld. cbn [app] in Hld.
  unfold load_next, load_node, free_node in *. rewrite lookup_insert_ne by done.
  rewrite Hld. unfold load_node. rewrite lookup_insert_ne by done. cbn [layout].
  rewrite lookup_insert_eq. cbn [obind].
  rewrite delete_insert_ne by done. rewrite delete_insert_id by (by apply layout_lookup_None).
  apply IH; [|done|simpl in Hf; lia]. apply NoDup_cons. split; [set_solver|done].
Qed.

(** The destructor frees every node exactly once. *)
Lemma SkipList_destroy_rep s ns : sl_rep s ns -> SkipList_destroy s = Ret ∅.
Proof.
  intros Hrep. unfold SkipList_destroy.
  pose proof (sl_begin_rep _ _ Hrep) as Hb. unfold sl_begin in Hb. rewrite Hb. cbn [obind].
  pose proof (rep_visible0 _ _ Hrep) as [_ Hv]%Forall_cons.
  unfold walk_fuel. rewrite (rep_heap _ _ Hrep), layout_size by apply Hrep. cbn [layout].
  rewrite destroy_loop_layout; [|apply Hrep|done|simpl; lia]. cbn [obind].
  unfold free_node, load_node. rewrite lookup_singleton_eq. cbn [obind].
  by rewrite delete_singleton_eq.
Qed.

Lemma SkipList_new_rep max : (1 <= max)%nat -> sl_rep (SkipList_new max) [].
Proof.
  intros Hmax. split; cbn [max_level current_level sl_head node_count heap next_loc SkipList_new];
    try done; try lia.
  - cbn [layout]. unfold create_node, node_of. cbn [an_loc sentinel an_key an_val an_hi max_level].
    rewrite insert_empty. do 2 f_equal. unfold links. cbn [first_visible].
    apply list_eq. intros i. rewrite list_lookup_fmap. destruct (decide (i < max)%nat).
    + by rewrite lookup_replicate_2, lookup_seq_lt.
    + rewrite lookup_ge_None_2 by (rewrite length_replicate; lia).
      rewrite lookup_ge_None_2; [done|]. rewrite length_seq. cbn. lia.
  - apply NoDup_singleton.
  - constructor; [cbn; lia|constructor].
  - constructor.
Qed.

(** ** Sequences of operations *)

(** What an operation returns, in the skip list as in the reference. *)
Lemma run_op_rep s ns op :
  sl_rep s ns ->
  exists s' ns', run_op s op = Ret (s', (spec_op (node_rows ns) op).2) /\ sl_rep s' ns' /\
    node_rows ns' = (spec_op (node_rows ns) op).1.
Proof.
  intros Hrep. destruct op as [k v flips|k|k| |]; cbn [run_op spec_op fst snd].
  - destruct (insert_element_rep s ns k v flips Hrep) as (s' & ns' & -> & H1 & H2). by exists s', ns'.
  - rewrite (search_element_rep s ns k Hrep). by exists s, ns.
  - destruct (delete_element_rep s ns k Hrep) as (s' & ns' & -> & H1 & H2). by exists s', ns'.
  - rewrite (sl_rows_rep s ns Hrep). by exists s, ns.
  - exists s, ns. split; [|done]. cbn. unfold sl_size. rewrite (rep_count _ _ Hrep).
    unfold zlen, node_rows. by rewrite length_map.
Qed.

Lemma run_ops_rep ops s ns :
  sl_rep s ns ->
  exists s' ns', run_ops s ops = Ret (s', (spec_ops (node_rows ns) ops).2) /\ sl_rep s' ns' /\
    node_rows ns' = (spec_ops (node_rows ns) ops).1.
Proof.
  revert s ns. induction ops as [|op ops IH]; intros s ns Hrep; cbn [run_ops spec_ops].
  { by exists s, ns. }
  destruct (run_op_rep s ns op Hrep) as (s1 & ns1 & -> & H1 & H2). cbn [obind].
  destruct (IH s1 ns1 H1) as (s2 & ns2 & -> & H3 & H4). cbn [obind].
  exists s2, ns2. rewrite H2 in *. by destruct (spec_op (node_rows ns) op), (spec_ops _ ops).
Qed.

End skiplist.

Arguments Node V : clear implicits.
Arguments SkipList V : clear implicits.
Arguments anode V : clear implicits.

(** * Properties *)

(** C10: the skip list is a sorted map.  Any sequence of insertions, searches,
    deletions, iterations and size queries on a new list of at least one level
    runs without following a null or freed pointer and without running off the
    fuel of a loop, returns what the sorted association list returns, whatever
    heights the coin flips give, leaves a list that holds exactly the reference
    rows, and destroying it frees every node exactly once. *)
Theorem skiplist_refines_map {V : Type} (v0 : V) (max : nat) (ops : list (sl_op (V := V))) :
  (1 <= max)%nat ->
  exists s, run_ops (SkipList_new v0 max) ops = Ret (s, (spec_ops [] ops).2) /\
    sl_holds v0 s (spec_ops [] ops).1 /\ SkipList_destroy s = Ret ∅.
Proof.
  intros Hmax. destruct (run_ops_rep v0 ops (SkipList_new v0 max) [] (SkipList_new_rep v0 max Hmax))
    as (s & ns & H1 & H2 & H3).
  exists s. split; [exact H1|]. split; [by exists ns|]. by apply (SkipList_destroy_rep v0 s ns).
Qed.

Lemma skiplist_refines_map_witness :
  let heads := fun _ : nat => true in
  let tails := fun _ : nat => false in
  let ops := [op_insert (str "b") 1 heads; op_insert (str "a") 2 tails; op_insert (str "b") 3 tails;
              op_delete (str "a"); op_search (str "b"); op_iterate; op_size] in
  exists s, run_ops (SkipList_new 0 16) ops =
      Ret (s, [obs_unit; obs_unit; obs_unit; obs_bool true; obs_value (Some 3);
               obs_rows [(str "b", 3)]; obs_int 1]) /\
    sl_holds 0 s [(str "b", 3)] /\ SkipList_destroy s = Ret ∅.
Proof.
  apply (skiplist_refines_map 0 16
    [op_insert (str "b") 1 (fun _ => true); op_insert (str "a") 2 (fun _ => false);
     op_insert (str "b") 3 (fun _ => false);
     op_delete (str "a"); op_search (str "b"); op_iterate; op_size]).
  repeat constructor.
Defined.
