(* ===== verification/SkipListShow.v ===== *)
(** [SkipList::display_list] ([include/SkipList.h]): one line per level, from the
    highest one used down, with the keys that are linked on it in columns.

    The text is returned; the code writes it to [std::cout].  A key streams as its
    octets. *)
From S2P Require Import Prelude OMap Files SkipList.

Section show.
Context {V : Type} (v0 : V).
Implicit Types (s : SkipList V) (h : gmap nat (Node V)).

(** [while (base) { keys.push_back(base->key); base = base->next[0]; }] *)
Fixpoint collect_keys (fuel : nat) h (base : option nat) : outcome (list bytes) :=
  match fuel with
  | O => NoFuel
  | S fuel' =>
      match base with
      | None => Ret []
      | Some p =>
          let* n := load_node h p in
          let* next := load_next h p 0 in
          let* keys := collect_keys fuel' h next in
          Ret (nd_key n :: keys)
      end
  end.

(** [std::string(width, '-')] : a negative [int] becomes a length no string can
    have, and [std::length_error] ends the call. *)
Definition dashes (width : Z) : outcome bytes :=
  if width <? 0 then Fault else Ret (replicate (Z.to_nat width) x2d).

(** [curr && curr->key == k] *)
Definition at_key h (k : bytes) (curr : option nat) : outcome bool :=
  match curr with
  | None => Ret false
  | Some p => let* n := load_node h p in Ret (bool_decide (nd_key n = k))
  end.

(** The line of level [i], behind its label. *)
Fixpoint display_level h (i : nat) (keys : list bytes) (curr : option nat) : outcome bytes :=
  match keys with
  | [] => Ret (str "nullptr" ++ [x0a])
  | k :: keys =>
      let width := i32 (u64 (zlen k + 3)) in
      let* hit := at_key h k curr in
      if hit then
        let* curr := match curr with Some p => load_next h p i | None => Fault end in
        let* rest := display_level h i keys curr in
        Ret (k ++ str "---" ++ rest)
      else
        let* d := dashes width in
        let* rest := display_level h i keys curr in
        Ret (d ++ rest)
  end.

(** [for (int i = current_level - 1; i >= 0; i--)], with [n] levels to go. *)
Fixpoint display_levels (n : nat) s (keys : list bytes) : outcome bytes :=
  match n with
  | O => Ret []
  | S i =>
      let* curr := load_next (heap s) (sl_head s) i in
      let* line := display_level (heap s) i keys curr in
      let* rest := display_levels i s keys in
      Ret (str "Level " ++ to_string (Z.of_nat i) ++ str ": " ++ line ++ rest)
  end.

(** [SkipList::display_list] *)
Definition display_list s : outcome bytes :=
  let* base := load_next (heap s) (sl_head s) 0 in
  let* keys := collect_keys (walk_fuel (heap s)) (heap s) base in
  display_levels (current_level s) s keys.

(** ** Specification *)

(** A column: the key where the node is tall enough, dashes of the same width
    elsewhere. *)
Definition shown_column (i : nat) (a : anode V) : bytes :=
  if visible i a then an_key a ++ str "---" else replicate (length (an_key a) + 3) x2d.

Definition shown_line (ns : list (anode V)) (i : nat) : bytes :=
  str "Level " ++ to_string (Z.of_nat i) ++ str ": " ++
  concat (map (shown_column i) ns) ++ str "nullptr" ++ [x0a].

(** * Lemmas *)

Implicit Types (a b : anode V) (p q ns : list (anode V)).

Lemma collect_keys_layout fuel p q :
  NoDup (map an_loc (p ++ q)) -> Forall (fun c => visible 0 c = true) q -> (length q < fuel)%nat ->
  collect_keys fuel (layout (p ++ q)) (first_visible 0 q) = Ret (map an_key q).
Proof.
  revert fuel p. induction q as [|a q IH]; intros fuel p Hnd Hv Hf;
    (destruct fuel as [|fuel]; [simpl in Hf; lia|]); [done|].
  apply Forall_cons in Hv as [Ha Hv]. cbn [first_visible collect_keys]. rewrite Ha.
  rewrite load_node_layout, load_next_layout by done. cbn [obind].
  rewrite cons_middle, app_assoc, IH; [done| |done|simpl in Hf; lia]. by rewrite <- app_assoc.
Qed.

Lemma column_width (k : bytes) : zlen k < 2 ^ 31 - 3 -> i32 (u64 (zlen k + 3)) = zlen k + 3.
Proof.
  pose proof (zlen_nonneg k). intros Hk. rewrite u64_small by lia. unfold i32.
  rewrite Z.mod_small by lia. lia.
Qed.

Lemma first_visible_in i q l :
  first_visible i q = Some l -> exists q1 b q2, q = q1 ++ b :: q2 /\ an_loc b = l.
Proof.
  intros H%first_visible_elem. apply list_elem_of_fmap in H as (b & -> & Hb).
  apply list_elem_of_split in Hb as (q1 & q2 & ->). by exists q1, b, q2.
Qed.

Lemma at_key_layout i p a q :
  NoDup (map an_loc (p ++ a :: q)) -> om_sorted (node_rows (a :: q)) ->
  at_key (layout (p ++ a :: q)) (an_key a) (first_visible i (a :: q)) = Ret (visible i a).
Proof.
  intros Hnd Hs. cbn [first_visible]. destruct (visible i a) eqn:Ea; unfold at_key.
  { rewrite load_node_layout by done. cbn [obind node_of nd_key]. by rewrite bool_decide_true. }
  destruct (first_visible i q) as [l|] eqn:El; [|done].
  destruct (first_visible_in i q l El) as (q1 & b & q2 & -> & <-).
  apply om_sorted_cons in Hs as [Hlt _].
  rewrite Forall_forall in Hlt. assert (key_lt (node_row a) (node_row b)) as Hab.
  { apply Hlt. apply list_elem_of_fmap. exists b. split; [done|]. set_solver. }
  change (p ++ a :: q1 ++ b :: q2) with (p ++ (a :: q1) ++ b :: q2) in *.
  rewrite app_assoc in *. rewrite load_node_layout by done. cbn [obind node_of nd_key].
  rewrite bool_decide_false; [done|]. intros E. apply (bytes_lt_ne _ _ Hab). by symmetry.
Qed.

Lemma display_level_layout i p q :
  NoDup (map an_loc (p ++ q)) -> om_sorted (node_rows q) ->
  Forall (fun a => zlen (an_key a) < 2 ^ 31 - 3) q ->
  display_level (layout (p ++ q)) i (map an_key q) (first_visible i q) =
  Ret (concat (map (shown_column i) q) ++ str "nullptr" ++ [x0a]).
Proof.
  revert p. induction q as [|a q IH]; intros p Hnd Hs Hk; [done|].
  pose proof Hs as [_ Hs']%om_sorted_cons. apply Forall_cons in Hk as [Ha Hk].
  assert (Hrest : display_level (layout (p ++ a :: q)) i (map an_key q) (first_visible i q) =
    Ret (concat (map (shown_column i) q) ++ str "nullptr" ++ [x0a])).
  { specialize (IH (p ++ [a])). rewrite <- (app_assoc p) in IH. by apply IH. }
  cbn [map display_level]. rewrite at_key_layout by done. cbn [obind concat first_visible].
  unfold shown_column at 1. destruct (visible i a) eqn:Ev.
  - rewrite load_next_layout by done. cbn [obind]. rewrite Hrest. cbn [obind].
    by rewrite <- !app_assoc.
  - rewrite column_width by done. unfold dashes. rewrite (proj2 (Z.ltb_ge _ _)); cycle 1.
    { pose proof (zlen_nonneg (an_key a)). lia. }
    cbn [obind]. rewrite Hrest. cbn [obind]. rewrite <- app_assoc. do 3 f_equal.
    unfold zlen. lia.
Qed.

Lemma display_levels_rep n s ns :
  sl_rep v0 s ns -> Forall (fun a => zlen (an_key a) < 2 ^ 31 - 3) ns -> (n <= current_level s)%nat ->
  display_levels n s (map an_key ns) = Ret (concat (map (shown_line ns) (rev (seq 0 n)))).
Proof.
  intros Hrep Hk. induction n as [|n IH]; intros Hn; [done|]. cbn [display_levels].
  rewrite (rep_heap _ _ _ Hrep).
  pose proof (rep_nodup _ _ _ Hrep) as Hnd. pose proof (rep_cur _ _ _ Hrep).
  assert (load_next (layout (sentinel v0 s :: ns)) (sl_head s) n = Ret (first_visible n ns)) as ->.
  { apply (load_next_layout [] (sentinel v0 s) ns n Hnd), visible_sentinel. lia. }
  pose proof (display_level_layout n [sentinel v0 s] ns Hnd (rep_sorted _ _ _ Hrep) Hk) as Hline.
  cbn [app] in Hline. cbn [obind]. rewrite Hline.
  cbn [obind]. rewrite IH by lia. cbn [obind].
  rewrite seq_S, rev_app_distr. cbn [rev app map concat Nat.add]. unfold shown_line at 2.
  by rewrite <- !app_assoc.
Qed.

End show.

(** * Properties *)

(** A skip list of nodes [ns] displays as one line per level in use, the highest
    first; in each line the keys of the nodes tall enough for it, in their order,
    and in the column of every other node dashes of its width.  No pointer off
    the list is followed and the loops end. *)
Theorem display_shows_levels {V : Type} (v0 : V) (s : SkipList V) (ns : list (anode V)) :
  sl_rep v0 s ns -> Forall (fun a => zlen (an_key a) < 2 ^ 31 - 3) ns ->
  display_list s = Ret (concat (map (shown_line ns) (rev (seq 0 (current_level s))))).
Proof.
  intros Hrep Hk. unfold display_list.
  pose proof (rep_visible0 _ _ _ Hrep) as [Hv0 Hv]%Forall_cons.
  pose proof (sl_begin_rep _ _ _ Hrep) as Hb. unfold sl_begin in Hb. rewrite Hb. cbn [obind].
  assert (collect_keys (walk_fuel (heap s)) (heap s) (first_visible 0 ns) = Ret (map an_key ns)) as ->;
    [|by apply (display_levels_rep v0)].
  rewrite (rep_heap _ _ _ Hrep).
  apply (collect_keys_layout _ [sentinel v0 s] ns (rep_nodup _ _ _ Hrep) Hv).
  unfold walk_fuel. rewrite layout_size by apply Hrep. simpl. lia.
Qed.

Lemma display_sample :
  (let* s := insert_element (SkipList_new 0 4) (str "b") 1 (fun n => (n <? 1)%nat) in
   let* s := insert_element s (str "ac") 2 (fun _ => false) in
   display_list s) =
  Ret (str "Level 1: -----b---nullptr" ++ [x0a] ++ str "Level 0: ac---b---nullptr" ++ [x0a]).
Proof. vm_compute. reflexivity. Qed.
