(* ===== verification/Table.v ===== *)
(** The interface between the tables of the store (memory tables and SSTables)
    and the code that looks through a stack of them, newest first: [DBImpl::Get],
    [DBImpl::NewIterator] and the compaction.

    Records are compared up to the value of a tombstone, which no client looks
    at and which the SSTable reader clears. *)
From S2P Require Import Prelude Storage OMap SSTableBuilder SSTableReader SSTable.

(** Same type, and same value when the record is a value. *)
#[export] Instance record_equiv : Equiv ValueRecord := fun r r' =>
  vr_type r = vr_type r' /\ (vr_type r = kValue -> vr_value r = vr_value r').

#[export] Instance record_equivalence : Equivalence (≡@{ValueRecord}).
Proof.
  split.
  - done.
  - intros r r' [H1 H2]. split; [done|]. intros H. symmetry. apply H2. congruence.
  - intros r1 r2 r3 [H1 H2] [H3 H4]. split; [congruence|].
    intros H. rewrite H2 by done. apply H4. congruence.
Qed.

(** What a table offers. *)
Class Table (T : Type) := {
  tbl_get : T -> bytes -> outcome (option ValueRecord);
  tbl_scan : T -> outcome (list row);
}.

(** What it promises: lookups agree with the rows, a scan delivers them in
    ascending order. *)
Record table_holds `{Table T} (t : T) (rows : list row) : Prop := {
  th_sorted : om_sorted rows;
  th_get : forall k, exists o, tbl_get t k = Ret o /\ o ≡ om_find k rows;
  th_scan : tbl_scan t = Ret rows;
}.

#[export] Instance SSTable_table : Table SSTableReader := {|
  tbl_get := GetRecord;
  tbl_scan := ForEach;
|}.

(** Every record is a value or a tombstone. *)
Definition record_typed (r : ValueRecord) : Prop := vr_type r = kValue \/ vr_type r = kDeletion.
Definition typed (rows : list row) : Prop := Forall (fun r => record_typed r.2) rows.

(** What the user sees of a record. *)
Definition visible_value (o : option ValueRecord) : option bytes :=
  match o with
  | Some r => if decide (vr_type r = kValue) then Some (vr_value r) else None
  | None => None
  end.

(** The newest record of a key in a stack of tables. *)
Fixpoint stack_find (k : bytes) (srcs : list (list row)) : option ValueRecord :=
  match srcs with
  | [] => None
  | rows :: srcs => match om_find k rows with Some r => Some r | None => stack_find k srcs end
  end.

(** The merge by [try_emplace], newest table first. *)
Definition stack_merge (srcs : list (list row)) (seen : list row) : list row :=
  fold_left (fun acc rows => om_emplace_all rows acc) srcs seen.

(** * Lemmas *)

#[export] Instance visible_value_proper : Proper ((≡) ==> (=)) visible_value.
Proof.
  intros o o' H. destruct H as [r r' [H1 H2]|]; [|done]. cbn. rewrite <- H1.
  case_decide; [|done]. by rewrite H2.
Qed.

Lemma visible_lookup_record (o : option ValueRecord) : visible_value (lookup_record <$> o) = visible_value o.
Proof.
  destruct o as [r|]; [|done]. cbn. unfold lookup_record. repeat case_decide; cbn; by simplify_option_eq.
Qed.

Lemma lookup_record_equiv r : lookup_record r ≡ r.
Proof. unfold lookup_record. case_decide; [done|]. by split. Qed.

Lemma lookup_record_fmap_equiv (o : option ValueRecord) : lookup_record <$> o ≡ o.
Proof. destruct o as [r|]; [|done]. cbn. constructor. apply lookup_record_equiv. Qed.

(** A built and opened SSTable keeps the promise of the interface. *)
Lemma sst_holds rows r :
  rows <> [] -> rows_ok rows -> om_sorted rows ->
  SSTableReader_Open true (Some (build_sst rows)) = Ret (Some r) -> table_holds r rows.
Proof.
  intros Hne Hok Hs Ho. destruct (build_open rows Hne Hok Hs) as (r' & Ho' & Hf & Hg).
  rewrite Ho in Ho'. injection Ho' as <-. split; [done| |done].
  intros k. exists (lookup_record <$> om_find k rows). split; [apply Hg|].
  apply lookup_record_fmap_equiv.
Qed.

Lemma om_find_typed k rows r : typed rows -> om_find k rows = Some r -> record_typed r.
Proof.
  intros Ht Hf. apply om_find_elem in Hf. unfold typed in Ht. rewrite Forall_forall in Ht.
  by apply (Ht (k, r)).
Qed.

Lemma stack_find_app k s1 s2 :
  stack_find k (s1 ++ s2) =
  match stack_find k s1 with Some r => Some r | None => stack_find k s2 end.
Proof. induction s1 as [|rows s1 IH]; cbn; [done|]. by destruct (om_find k rows). Qed.

Lemma stack_find_typed k srcs r :
  Forall typed srcs -> stack_find k srcs = Some r -> record_typed r.
Proof.
  induction 1 as [|rows srcs H _ IH]; cbn; [done|].
  destruct (om_find k rows) eqn:E; [|done]. intros [= <-]. by eapply om_find_typed.
Qed.

Lemma stack_merge_sorted srcs seen : om_sorted seen -> om_sorted (stack_merge srcs seen).
Proof.
  unfold stack_merge. revert seen. induction srcs as [|rows srcs IH]; intros seen H; cbn; [done|].
  by apply IH, om_emplace_all_sorted.
Qed.

(** The merge keeps the newest record of every key. *)
Lemma stack_merge_find k srcs seen :
  om_sorted seen ->
  om_find k (stack_merge srcs seen) =
  match om_find k seen with Some r => Some r | None => stack_find k srcs end.
Proof.
  unfold stack_merge. revert seen. induction srcs as [|rows srcs IH]; intros seen H; cbn.
  { by destruct (om_find k seen). }
  rewrite IH by (by apply om_emplace_all_sorted). rewrite om_find_emplace_all by done.
  by destruct (om_find k seen).
Qed.

Lemma om_try_emplace_typed k v rows :
  record_typed v -> typed rows -> typed (om_try_emplace k v rows).
Proof. intros Hv Hr. by apply om_try_emplace_Forall. Qed.

Lemma stack_merge_typed srcs seen : Forall typed srcs -> typed seen -> typed (stack_merge srcs seen).
Proof.
  unfold stack_merge. intros H. revert seen. induction H as [|rows srcs Hr _ IH]; intros seen Hs; cbn; [done|].
  apply IH. unfold om_emplace_all. clear IH. revert seen Hs.
  induction Hr as [|r rows Hr _ IH]; intros seen Hs; cbn; [done|].
  apply IH. by apply om_try_emplace_typed.
Qed.

#[export] Hint Resolve stack_merge_sorted stack_merge_typed om_try_emplace_typed : nova.
