(* ===== verification/MemTable.v ===== *)
(** The memory table ([include/MemTable.h]): a write-ahead log and a skip list.
    The reader-writer lock is not part of the state: every method holds it for
    its whole body, so each is one atomic step. *)
From S2P Require Import Prelude Storage OMap Files Crc Wal SkipList SSTableBuilder Table.

(** [ValueRecord()] : the value in the sentinel of the skip list. *)
Definition ValueRecord_default : ValueRecord := mkRecord x00 [].

Record MemTable := mkMemTable {
  mt_wal : WalHandler;
  mt_table : SkipList ValueRecord;
}.

(** [MemTable::MemTable(wal_file, max_level = 16)] *)
Definition MemTable_new (fs : FS) (wal_file : bytes) : MemTable * FS :=
  let '(wal, fs) := WalHandler_new fs wal_file in
  (mkMemTable wal (SkipList_new ValueRecord_default 16), fs).

(** [MemTable::Put] : first the log, then the table. *)
Definition MemTable_Put (fs : FS) (mt : MemTable) (key : bytes) (value : ValueRecord)
    (flips : nat -> bool) : outcome (MemTable * FS) :=
  let '(wal, fs) := AddLog fs (mt_wal mt) key (vr_value value) (vr_type value) in
  let* table := insert_element (mt_table mt) key value flips in
  Ret (mkMemTable wal table, fs).

(** [MemTable::Get] : [value] is overwritten only when the key is found. *)
Definition MemTable_Get (mt : MemTable) (key : bytes) (value : ValueRecord)
    : outcome (ValueRecord * bool) :=
  let* r := search_element (mt_table mt) key in
  match r with
  | Some v => Ret (v, true)
  | None => Ret (value, false)
  end.

(** [MemTable::Remove] *)
Definition MemTable_Remove (fs : FS) (mt : MemTable) (key : bytes) (flips : nat -> bool)
    : outcome (MemTable * FS * bool) :=
  let '(wal, fs) := AddLog fs (mt_wal mt) key [] kDeletion in
  let* table := insert_element (mt_table mt) key (mkRecord kDeletion []) flips in
  Ret (mkMemTable wal table, fs, true).

(** [MemTable::Count] *)
Definition MemTable_Count (mt : MemTable) : Z := sl_size (mt_table mt).

(** [MemTable::Snapshot] *)
Definition MemTable_Snapshot (mt : MemTable) : outcome (list row) := sl_rows (mt_table mt).

(** [MemTable::ApplyWithoutWal] *)
Definition MemTable_ApplyWithoutWal (mt : MemTable) (key : bytes) (value : ValueRecord)
    (flips : nat -> bool) : outcome MemTable :=
  let* table := insert_element (mt_table mt) key value flips in
  Ret (mkMemTable (mt_wal mt) table).

(** [MemTable::ApproximateMemoryUsage] : [int * int], converted to [size_t]. *)
Definition MemTable_ApproximateMemoryUsage (mt : MemTable) : Z :=
  u64 (i32 (sl_size (mt_table mt) * 128)).

(** [MemTable::GetWalPath] *)
Definition MemTable_GetWalPath (mt : MemTable) : bytes := WalHandler_GetFilename (mt_wal mt).

#[export] Instance MemTable_table : Table MemTable := {|
  tbl_get := fun mt k => search_element (mt_table mt) k;
  tbl_scan := MemTable_Snapshot;
|}.

(** ** Specification *)

(** The table holds these rows. *)
Definition mem_holds (mt : MemTable) (rows : list row) : Prop :=
  sl_holds ValueRecord_default (mt_table mt) rows.

(** Replay of log entries into rows: [ApplyWithoutWal] for each. *)
Definition replay_rows (es : list WalEntry) (rows : list row) : list row :=
  fold_left (fun rows e => om_insert (we_key e) (mkRecord (we_type e) (we_value e)) rows) es rows.

(** A sequence of [Put]s. *)
Fixpoint MemTable_puts (fs : FS) (mt : MemTable) (es : list WalEntry) (flips : nat -> nat -> bool)
    : outcome (MemTable * FS) :=
  match es with
  | [] => Ret (mt, fs)
  | e :: es =>
      let* (mt, fs) := MemTable_Put fs mt (we_key e) (mkRecord (we_type e) (we_value e)) (flips 0%nat) in
      MemTable_puts fs mt es (fun n => flips (S n))
  end.

(** A sequence of [ApplyWithoutWal]s, as [RecoverFromWals] makes them. *)
Fixpoint MemTable_replay (mt : MemTable) (es : list WalEntry) (flips : nat -> nat -> bool)
    : outcome MemTable :=
  match es with
  | [] => Ret mt
  | e :: es =>
      let* mt := MemTable_ApplyWithoutWal mt (we_key e) (mkRecord (we_type e) (we_value e))
                   (flips 0%nat) in
      MemTable_replay mt es (fun n => flips (S n))
  end.

(** * Lemmas *)

Lemma mem_holds_sorted mt rows : mem_holds mt rows -> om_sorted rows.
Proof. intros (ns & Hrep & <-). apply Hrep. Qed.

(** A memory table keeps the promise of the table interface. *)
Lemma mem_table_holds mt rows : mem_holds mt rows -> table_holds mt rows.
Proof.
  intros H. split; [by eapply mem_holds_sorted| |]; destruct H as (ns & Hrep & <-).
  - intros k. exists (om_find k (node_rows ns)). split; [|done].
    by apply (search_element_rep ValueRecord_default).
  - by apply (sl_rows_rep ValueRecord_default).
Qed.

Lemma MemTable_new_holds fs name : mem_holds (MemTable_new fs name).1 [].
Proof.
  unfold MemTable_new. destruct (WalHandler_new fs name). exists [].
  split; [apply SkipList_new_rep; lia|done].
Qed.

Lemma MemTable_Count_holds mt rows : mem_holds mt rows -> MemTable_Count mt = i32 (zlen rows).
Proof.
  intros (ns & Hrep & <-). unfold MemTable_Count, sl_size. rewrite (rep_count _ _ _ Hrep).
  unfold zlen, node_rows. by rewrite length_map.
Qed.

Lemma insert_element_holds s rows k v flips :
  sl_holds ValueRecord_default s rows ->
  exists s', insert_element s k v flips = Ret s' /\ sl_holds ValueRecord_default s' (om_insert k v rows).
Proof.
  intros (ns & Hrep & <-).
  destruct (insert_element_rep ValueRecord_default s ns k v flips Hrep) as (s' & ns' & -> & H1 & H2).
  exists s'. split; [done|]. by exists ns'.
Qed.

Lemma MemTable_Put_holds fs mt rows key value flips :
  mem_holds mt rows ->
  exists mt', MemTable_Put fs mt key value flips =
      Ret (mt', (AddLog fs (mt_wal mt) key (vr_value value) (vr_type value)).2) /\
    mt_wal mt' = (AddLog fs (mt_wal mt) key (vr_value value) (vr_type value)).1 /\
    mem_holds mt' (om_insert key value rows).
Proof.
  intros H. destruct (insert_element_holds _ _ key value flips H) as (s' & E & Hs).
  unfold MemTable_Put. destruct (AddLog _ _ _ _ _) as [wal fs']. rewrite E. cbn. eauto.
Qed.

Lemma MemTable_ApplyWithoutWal_holds mt rows key value flips :
  mem_holds mt rows ->
  exists mt', MemTable_ApplyWithoutWal mt key value flips = Ret mt' /\
    mt_wal mt' = mt_wal mt /\ mem_holds mt' (om_insert key value rows).
Proof.
  intros H. destruct (insert_element_holds _ _ key value flips H) as (s' & E & Hs).
  unfold MemTable_ApplyWithoutWal. rewrite E. cbn. eauto.
Qed.

Lemma MemTable_replay_holds es mt rows flips :
  mem_holds mt rows ->
  exists mt', MemTable_replay mt es flips = Ret mt' /\ mt_wal mt' = mt_wal mt /\
    mem_holds mt' (replay_rows es rows).
Proof.
  revert mt rows flips. induction es as [|e es IH]; intros mt rows flips H; [by exists mt|].
  cbn [MemTable_replay].
  destruct (MemTable_ApplyWithoutWal_holds mt rows (we_key e) (mkRecord (we_type e) (we_value e))
    (flips 0%nat) H) as (mt1 & -> & Hw & H1). cbn [obind].
  destruct (IH mt1 _ (fun n => flips (S n)) H1) as (mt2 & -> & Hw2 & H2).
  exists mt2. split; [done|]. split; [congruence|done].
Qed.

Lemma MemTable_puts_holds es fs mt rows flips :
  mem_holds mt rows ->
  exists mt', MemTable_puts fs mt es flips = Ret (mt', (add_logs fs (mt_wal mt) es).2) /\
    mt_wal mt' = (add_logs fs (mt_wal mt) es).1 /\ mem_holds mt' (replay_rows es rows).
Proof.
  revert fs mt rows flips. induction es as [|e es IH]; intros fs mt rows flips H; [by exists mt|].
  cbn [MemTable_puts].
  destruct (MemTable_Put_holds fs mt rows (we_key e) (mkRecord (we_type e) (we_value e))
    (flips 0%nat) H) as (mt1 & -> & Hw & H1). cbn [obind vr_value vr_type] in *.
  unfold add_logs. cbn [fold_left].
  destruct (AddLog fs (mt_wal mt) _ _ _) as [wal fs1] eqn:E. cbn [fst snd] in *.
  destruct (IH fs1 mt1 _ (fun n => flips (S n)) H1) as (mt2 & -> & Hw2 & H2).
  exists mt2. rewrite Hw in Hw2 |- *. done.
Qed.

(** A stream that has failed writes nothing. *)
Lemma add_logs_mute es fs h : wh_good h = false -> add_logs fs h es = (h, fs).
Proof.
  intros Hb. unfold add_logs. induction es as [|e es IH]; [done|]. cbn [fold_left].
  unfold AddLog at 2. by rewrite Hb.
Qed.

(** * Properties *)

(** The log rebuilds the table.  After any sequence of [Put]s on a fresh
    memory table in a healthy directory, replaying its log file with
    [ApplyWithoutWal] into another fresh table gives a table with the same
    lookups and the same snapshot, whatever the coin flips of the two skip
    lists were. *)
Theorem memtable_wal_rebuild (junk_t : nat -> byte) (junk_k junk_v : nat -> bytes)
    (flips flips' : nat -> nat -> bool) (fs : FS) (name name' : bytes) (es : list WalEntry) :
  junk_ok junk_k junk_v -> fs_healthy fs -> fs_read fs name = None -> Forall entry_ok es ->
  let (mt0, fs0) := MemTable_new fs name in
  exists mt fs1, MemTable_puts fs0 mt0 es flips = Ret (mt, fs1) /\
  exists es', LoadLog junk_t junk_k junk_v (fs_read fs1 name) = Ret es' /\
  exists mt', MemTable_replay (MemTable_new fs1 name').1 es' flips' = Ret mt' /\
    MemTable_Snapshot mt' = MemTable_Snapshot mt /\
    (forall k v, MemTable_Get mt' k v = MemTable_Get mt k v).
Proof.
  intros Hj Hfs Hnone Hes. unfold MemTable_new at 1, WalHandler_new, fs_open_append, fs_next_io.
  destruct Hfs as [Hd Hio]. rewrite Hio, Hnone. cbn [default from_option].
  set (fs0 := fs_set fs name []). set (mt0 := mkMemTable _ _).
  assert (H0 : mem_holds mt0 []) by (exists []; split; [apply SkipList_new_rep; lia|done]).
  destruct (MemTable_puts_holds es fs0 mt0 [] flips H0) as (mt & E & _ & H1).
  destruct (add_logs_healthy es fs0 (mt_wal mt0) []) as (fs1 & E1 & _ & Hr1); try done.
  { unfold fs0, fs_read, fs_set. cbn. apply lookup_insert_eq. }
  rewrite E1 in E. exists mt, fs1. split; [done|]. exists es.
  cbn [mt_wal mt0 wh_filename app] in Hr1. rewrite Hr1. split; [by apply LoadLog_encode_log|].
  destruct (MemTable_replay_holds es (MemTable_new fs1 name').1 [] flips' (MemTable_new_holds fs1 name'))
    as (mt' & E' & _ & H2).
  exists mt'. split; [done|]. destruct H1 as (ns1 & R1 & N1), H2 as (ns2 & R2 & N2). split.
  - unfold MemTable_Snapshot. rewrite (sl_rows_rep _ _ _ R1), (sl_rows_rep _ _ _ R2). by rewrite N1, N2.
  - intros k v. unfold MemTable_Get.
    rewrite (search_element_rep _ _ _ _ R1), (search_element_rep _ _ _ _ R2). by rewrite N1, N2.
Qed.

Lemma memtable_wal_rebuild_witness :
  let zeros := fun _ : nat => replicate 4 x00 in
  let heads := fun _ _ : nat => true in
  let tails := fun _ _ : nat => false in
  let fs := mkFS true ∅ [] in
  let es := [mkEntry kValue (str "b") (str "1"); mkEntry kDeletion (str "a") [];
             mkEntry kValue (str "b") (str "2")] in
  let (mt0, fs0) := MemTable_new fs (wal_name 1) in
  exists mt fs1, MemTable_puts fs0 mt0 es heads = Ret (mt, fs1) /\
  exists es', LoadLog (fun _ => x00) zeros zeros (fs_read fs1 (wal_name 1)) = Ret es' /\
  exists mt', MemTable_replay (MemTable_new fs1 (wal_name 2)).1 es' tails = Ret mt' /\
    MemTable_Snapshot mt' = MemTable_Snapshot mt /\
    (forall k v, MemTable_Get mt' k v = MemTable_Get mt k v).
Proof.
  apply memtable_wal_rebuild.
  - split; reflexivity.
  - split; reflexivity.
  - reflexivity.
  - repeat constructor.
Defined.

(** One failed write mutes the log.  When nothing of one record reaches the file,
    that [Put] and all later ones return normally and the table answers with
    their values, but none of them is in the log any more, even if the directory
    has recovered: a replay yields only the records from before the failure. *)
Theorem failed_write_mutes_log (junk_t : nat -> byte) (junk_k junk_v : nat -> bytes)
    (flips : nat -> nat -> bool) (fs : FS) (q : list io_result) (mt : MemTable) (rows : list row)
    (logged : list WalEntry) (e : WalEntry) (es : list WalEntry) :
  junk_ok junk_k junk_v -> Forall entry_ok logged -> mem_holds mt rows ->
  wh_good (mt_wal mt) = true -> fs_io fs = io_short 0 :: q ->
  fs_read fs (MemTable_GetWalPath mt) = Some (encode_log logged) ->
  exists mt' fs', MemTable_puts fs mt (e :: es) flips = Ret (mt', fs') /\
    mem_holds mt' (replay_rows (e :: es) rows) /\
    LoadLog junk_t junk_k junk_v (fs_read fs' (MemTable_GetWalPath mt)) = Ret logged.
Proof.
  intros Hj Hes Hm Hg Hio Hr. destruct (MemTable_puts_holds (e :: es) fs mt rows flips Hm) as (mt' & -> & _ & H).
  exists mt'. eexists. split; [reflexivity|]. split; [exact H|].
  unfold add_logs. cbn [fold_left]. unfold AddLog at 2. rewrite Hg. unfold fs_append, fs_write, fs_next_io.
  unfold MemTable_GetWalPath, WalHandler_GetFilename in *. rewrite Hio, Hr. cbn [default from_option].
  rewrite take_0, app_nil_r. change (fold_left _ es (?h, ?f)) with (add_logs f h es).
  rewrite add_logs_mute by done. cbn [snd].
  unfold fs_read, fs_set. cbn [fs_files]. rewrite lookup_insert_eq. by apply LoadLog_encode_log.
Qed.

Lemma failed_write_mutes_log_witness :
  let zeros := fun _ : nat => replicate 4 x00 in
  let tails := fun _ _ : nat => false in
  let put k := mkEntry kValue (str k) (str "1") in
  let mt := mkMemTable (mkWal (wal_name 1) true) (SkipList_new ValueRecord_default 16) in
  let fs := fs_set (mkFS true ∅ [io_short 0]) (wal_name 1) (encode_log [put "a"%string]) in
  exists mt' fs', MemTable_puts fs mt [put "b"%string; put "c"%string] tails = Ret (mt', fs') /\
    mem_holds mt' (replay_rows [put "b"%string; put "c"%string] []) /\
    LoadLog (fun _ => x00) zeros zeros (fs_read fs' (MemTable_GetWalPath mt)) =
      Ret [put "a"%string].
Proof.
  apply (failed_write_mutes_log (fun _ => x00) _ _ _ _ []).
  - split; reflexivity.
  - repeat constructor.
  - exists []. split; [apply SkipList_new_rep; lia|reflexivity].
  - reflexivity.
  - reflexivity.
  - reflexivity.
Defined.
