(* ===== verification/DBIterator.v ===== *)
(** The iterator of the store ([include/DBIterator.h], [src/DBIterator.cpp]): a
    sorted vector of visible rows and a position. *)
From S2P Require Import Prelude OMap.

Record DBIterator := mkIterator {
  it_rows : list (bytes * bytes);
  it_pos : Z;
}.

(** [DBIterator::DBIterator] *)
Definition DBIterator_new (rows : list (bytes * bytes)) : DBIterator := mkIterator rows 0.

(** [DBIterator::Seek] : [std::lower_bound] on the keys. *)
Definition Seek (it : DBIterator) (start_key : bytes) : DBIterator :=
  mkIterator (it_rows it)
    (Z.of_nat (lower_bound (fun element => bytes_ltb element.1 start_key) (it_rows it))).

(** [DBIterator::Valid] *)
Definition Valid (it : DBIterator) : bool := it_pos it <? zlen (it_rows it).

(** [DBIterator::Next] *)
Definition Next (it : DBIterator) : DBIterator :=
  if Valid it then mkIterator (it_rows it) (u64 (it_pos it + 1)) else it.

(** [rows_[pos_]] behind [assert(Valid())] : an aborted program is [Fault]. *)
Definition current_row (it : DBIterator) : outcome (bytes * bytes) :=
  if Valid it then
    match it_rows it !! Z.to_nat (it_pos it) with Some r => Ret r | None => Fault end
  else Fault.

(** [DBIterator::key] and [DBIterator::value] *)
Definition it_key (it : DBIterator) : outcome bytes := let* r := current_row it in Ret r.1.
Definition it_value (it : DBIterator) : outcome bytes := let* r := current_row it in Ret r.2.

(** The loop of a client: [for (; it->Valid(); it->Next()) use(key, value)]. *)
Fixpoint drain (fuel : nat) (it : DBIterator) : outcome (list (bytes * bytes)) :=
  match fuel with
  | O => NoFuel
  | S fuel' =>
      if Valid it then
        let* k := it_key it in
        let* v := it_value it in
        let* rest := drain fuel' (Next it) in
        Ret ((k, v) :: rest)
      else Ret []
  end.

(** The rows from a key on. *)
Definition rows_from (k : bytes) (rows : list (bytes * bytes)) : list (bytes * bytes) :=
  filter (fun r => ~ bytes_lt r.1 k) rows.

(** * Lemmas *)

Lemma drain_spec fuel rows pos :
  zlen rows < 2 ^ 64 -> (pos <= length rows)%nat -> (length rows - pos < fuel)%nat ->
  drain fuel (mkIterator rows (Z.of_nat pos)) = Ret (drop pos rows).
Proof.
  intros Hlen. revert pos. induction fuel as [|fuel IH]; intros pos Hpos Hf; [lia|].
  cbn [drain]. unfold Valid at 1. cbn [it_pos it_rows].
  destruct (Z.ltb_spec (Z.of_nat pos) (zlen rows)) as [Hlt|Hge].
  - destruct (lookup_lt_is_Some_2 rows pos) as [r Hr]; [unfold zlen in Hlt; lia|].
    unfold it_key, it_value, current_row, Next, Valid. cbn [it_pos it_rows].
    rewrite (proj2 (Z.ltb_lt _ _)) by done. rewrite Nat2Z.id, Hr. cbn [obind].
    rewrite u64_small by (unfold zlen in *; lia).
    replace (Z.of_nat pos + 1) with (Z.of_nat (S pos)) by lia.
    unfold zlen in Hlt. rewrite IH by lia. cbn [obind].
    rewrite (drop_S _ _ _ Hr). by destruct r.
  - rewrite drop_ge; [done|]. unfold zlen in Hge. lia.
Qed.

Lemma seek_drain (rows : list (bytes * bytes)) (start_key : bytes) (fuel : nat) :
  om_sorted rows -> zlen rows < 2 ^ 64 -> (length rows < fuel)%nat ->
  drain fuel (Seek (DBIterator_new rows) start_key) = Ret (rows_from start_key rows).
Proof.
  intros Hs Hlen Hf. destruct (om_split start_key rows Hs) as (l1 & l2 & -> & H1 & H2).
  unfold Seek, DBIterator_new. cbn [it_rows].
  rewrite (lower_bound_partition _ l1 l2).
  - rewrite length_app in Hf. rewrite drain_spec by (rewrite ?length_app; done || lia).
    rewrite drop_app_length. f_equal. unfold rows_from. rewrite filter_app.
    assert (filter (fun r => ~ bytes_lt r.1 start_key) l1 = []) as ->.
    { clear -H1. induction H1 as [|r l1 H _ IH]; [done|]. rewrite filter_cons_False; [done|]. tauto. }
    symmetry. cbn [app]. clear -H2. induction H2 as [|r l2 H _ IH]; [done|].
    by rewrite filter_cons_True, IH.
  - eapply Forall_impl; [exact H1|]. intros r Hr. by apply bytes_ltb_lt.
  - eapply Forall_impl; [exact H2|]. intros r Hr. by apply bytes_ltb_nlt.
Qed.

(** * Properties *)

(** Seeking and iterating yields exactly the rows from the key on.  On
    strictly sorted rows, [Seek] followed by the usual loop delivers the rows
    whose key is not below the start key, in order, and ends. *)
Theorem iterator_seek_drain (rows : list (bytes * bytes)) (start_key : bytes) (fuel : nat) :
  om_sorted rows -> zlen rows < 2 ^ 64 -> (length rows < fuel)%nat ->
  drain fuel (Seek (DBIterator_new rows) start_key) = Ret (rows_from start_key rows).
Proof. apply seek_drain. Qed.

Lemma iterator_seek_drain_witness :
  let rows := [(str "a", str "1"); (str "c", str "2"); (str "d", str "3")] in
  drain 4 (Seek (DBIterator_new rows) (str "b")) = Ret [(str "c", str "2"); (str "d", str "3")].
Proof.
  intros rows. transitivity (Ret (rows_from (str "b") rows)); [|reflexivity].
  apply iterator_seek_drain; [|reflexivity|cbn; lia].
  repeat (constructor; [|repeat constructor]); constructor.
Defined.
