(* ===== verification/Compaction.v ===== *)
(** The compaction engine ([include/CompactionEngine.h],
    [src/CompactionEngine.cpp]): writing a memory table to a level-0 SSTable, and
    merging level 0 into level 1 in three phases (prepare, build, install). *)
From S2P Require Import Prelude Storage OMap SSTableBuilder SSTableReader SSTable Files Crc Wal Manifest SkipList Table MemTable.

(** What [DBImpl] shares by reference with its compaction engine and its
    recovery loader: the directory, the manifest and the open readers of the two
    levels ([levels_[0]], [levels_[1]], oldest first). *)
Record Store := mkStore {
  st_fs : FS;
  st_mm : ManifestManager;
  st_l0 : list SSTableReader;
  st_l1 : list SSTableReader;
}.

Definition with_fs (st : Store) (fs : FS) : Store := mkStore fs (st_mm st) (st_l0 st) (st_l1 st).

(** [manifest_manager_.AllocateFileNumber()] and the other calls, on the shared
    state. *)
Definition store_AllocateFileNumber (st : Store) : Store * Z :=
  let '(mm, fs, n) := AllocateFileNumber (st_mm st) (st_fs st) in
  (mkStore fs mm (st_l0 st) (st_l1 st), n).

Definition store_AddSst (st : Store) (id level : Z) : Store :=
  let '(mm, fs) := AddSst (st_mm st) (st_fs st) id level in mkStore fs mm (st_l0 st) (st_l1 st).

Definition store_RemoveSst (st : Store) (id : Z) : Store :=
  let '(mm, fs) := RemoveSst (st_mm st) (st_fs st) id in mkStore fs mm (st_l0 st) (st_l1 st).

Definition store_AddWal (st : Store) (id : Z) : Store :=
  let '(mm, fs, _) := AddWal (st_mm st) (st_fs st) id in mkStore fs mm (st_l0 st) (st_l1 st).

Definition store_RemoveWal (st : Store) (id : Z) : Store :=
  let '(mm, fs, _) := RemoveWal (st_mm st) (st_fs st) id in mkStore fs mm (st_l0 st) (st_l1 st).

Definition store_remove_file (st : Store) (name : bytes) : Store :=
  with_fs st (fs_remove (st_fs st) name).

(** ** Writing an SSTable *)

(** The common part of [BuildMinorSST] and [BuildL0ToL1SST]: remove a stale file,
    build, open, and remove the file again when it cannot be opened.  The octets
    reach the file in one attempt; [WritableFile] does not look at its outcome. *)
Definition write_and_open (fs : FS) (path : bytes) (rows : list row)
    : outcome (FS * option SSTableReader) :=
  let fs := if fs_exists fs path then fs_remove fs path else fs in
  let '(fs, _) := fs_append fs path (build_sst rows) in
  let* reader := SSTableReader_Open true (fs_read fs path) in
  match reader with
  | None => Ret (fs_remove fs path, None)
  | Some r => Ret (fs, Some r)
  end.

(** [CompactionEngine::MinorCtx] *)
Record MinorCtx := mkMinorCtx {
  flushing_imm : option MemTable;
  old_wal_id : Z;
  old_wal_path : bytes;
  mc_new_sst_id : Z;
  mc_new_sst_path : bytes;
}.

(** [CompactionEngine::BuildMinorSST] *)
Definition BuildMinorSST (fs : FS) (ctx : MinorCtx) : outcome (FS * option SSTableReader) :=
  match flushing_imm ctx with
  | None => Ret (fs, None)
  | Some imm =>
      if decide (mc_new_sst_path ctx = []) then Ret (fs, None)
      else
        let* rows := sl_rows (mt_table imm) in
        write_and_open fs (mc_new_sst_path ctx) rows
  end.

(** ** Level 0 to level 1 *)

(** [CompactionEngine::L0ToL1Ctx] *)
Record L0ToL1Ctx := mkL0ToL1Ctx {
  merged_l0_records : list row;
  output_records : list row;
  l0_input_ids : list Z;
  expected_l0_reader_count : nat;
  new_sst_id : Z;
  new_sst_path : bytes;
  has_output : bool;
}.

Definition L0ToL1Ctx_empty : L0ToL1Ctx := mkL0ToL1Ctx [] [] [] 0 0 [] false.

(** [for (r : readers) r->ForEach(try_emplace into merged)] *)
Fixpoint merge_readers (readers : list SSTableReader) (merged : list row) : outcome (list row) :=
  match readers with
  | [] => Ret merged
  | r :: readers =>
      let* rows := ForEach r in
      merge_readers readers (om_emplace_all rows merged)
  end.

(** The ids that the manifest has on level 0.  The iteration order of the
    [unordered_map] is open; here it is the order of [map_to_list]. *)
Definition l0_ids (mm : ManifestManager) : list Z :=
  (filter (fun p => p.2 = 0) (map_to_list (SstLevels mm))).*1.

(** The loop of [HasVisibleValueInL1], newest reader first. *)
Fixpoint has_visible_loop (readers : list SSTableReader) (key : bytes) : outcome bool :=
  match readers with
  | [] => Ret false
  | r :: readers =>
      let* rec := GetRecord r key in
      match rec with
      | Some rec => Ret (negb (bool_decide (vr_type rec = kDeletion)))
      | None => has_visible_loop readers key
      end
  end.

(** [CompactionEngine::HasVisibleValueInL1] *)
Definition HasVisibleValueInL1 (st : Store) (key : bytes) : outcome bool :=
  has_visible_loop (rev (st_l1 st)) key.

(** The loop over the merged records: values are kept, a tombstone only when it
    hides something in level 1. *)
Fixpoint filter_output (st : Store) (merged output : list row) : outcome (list row) :=
  match merged with
  | [] => Ret output
  | (key, record) :: merged =>
      if decide (vr_type record = kValue)
      then filter_output st merged (om_try_emplace key record output)
      else
        let* hides := HasVisibleValueInL1 st key in
        filter_output st merged
          (if hides : bool then om_try_emplace key (mkRecord kDeletion []) output else output)
  end.

(** [CompactionEngine::PrepareL0ToL1] *)
Definition PrepareL0ToL1 (st : Store) : outcome (Store * L0ToL1Ctx * bool) :=
  match st_l0 st with
  | [] => Ret (st, L0ToL1Ctx_empty, false)
  | _ :: _ =>
      let* merged := merge_readers (rev (st_l0 st)) [] in
      let ids := l0_ids (st_mm st) in
      let count := length (st_l0 st) in
      if negb (length ids =? count)%nat
      then Ret (st, mkL0ToL1Ctx merged [] ids count 0 [] false, false)
      else
        match merged with
        | [] => Ret (st, mkL0ToL1Ctx merged [] ids count 0 [] false, true)
        | _ :: _ =>
            let '(st, id) := store_AllocateFileNumber st in
            let* output := filter_output st merged [] in
            Ret (st, mkL0ToL1Ctx merged output ids count id (sst_name id)
                       (match output with [] => false | _ => true end), true)
        end
  end.

(** [CompactionEngine::BuildL0ToL1SST] *)
Definition BuildL0ToL1SST (fs : FS) (ctx : L0ToL1Ctx) : outcome (FS * option SSTableReader) :=
  if negb (has_output ctx) then Ret (fs, None)
  else if decide (new_sst_path ctx = []) then Ret (fs, None)
  else write_and_open fs (new_sst_path ctx) (output_records ctx).

(** [std::sort] on ids *)
Definition sorted_ids (ids : list Z) : list Z := merge_sort Z.le ids.

(** The loop of [consume_l0] *)
Definition remove_inputs (ids : list Z) (st : Store) : Store :=
  fold_left (fun st id => store_remove_file (store_RemoveSst st id) (sst_name id)) ids st.

(** [consume_l0] of [InstallL0ToL1] : close the readers, then drop the files. *)
Definition consume_l0 (ctx : L0ToL1Ctx) (st : Store) : Store :=
  remove_inputs (l0_input_ids ctx) (mkStore (st_fs st) (st_mm st) [] (st_l1 st)).

(** [CompactionEngine::InstallL0ToL1] *)
Definition InstallL0ToL1 (st : Store) (ctx : L0ToL1Ctx) (reader : option SSTableReader)
    : Store * bool :=
  if negb (length (st_l0 st) =? expected_l0_reader_count ctx)%nat then (st, false)
  else if negb (bool_decide (sorted_ids (l0_input_ids ctx) = sorted_ids (l0_ids (st_mm st))))
  then (st, false)
  else if bool_decide (merged_l0_records ctx = []) || negb (has_output ctx)
  then (consume_l0 ctx st, true)
  else
    match reader with
    | None => (st, false)
    | Some r =>
        let st := mkStore (st_fs st) (st_mm st) (st_l0 st) (st_l1 st ++ [r]) in
        let st := store_AddSst st (new_sst_id ctx) 1 in
        (consume_l0 ctx st, true)
    end.

(** [DBImpl::CompactL0ToL1], run without interference between its phases. *)
Definition CompactL0ToL1 (st : Store) : outcome Store :=
  let* (st, ctx, ok) := PrepareL0ToL1 st in
  if negb ok then Ret st
  else
    let* (fs, reader) :=
      if has_output ctx then BuildL0ToL1SST (st_fs st) ctx else Ret (st_fs st, None) in
    let st := with_fs st fs in
    if has_output ctx && match reader with None => true | Some _ => false end then Ret st
    else
      let '(st, ok) := InstallL0ToL1 st ctx reader in
      if negb ok then
        Ret (if decide (new_sst_path ctx = []) then st
             else store_remove_file st (new_sst_path ctx))
      else Ret st.

(** ** Specification *)

(** No write attempt stops in the middle: a file is opened and written, or not
    opened at all. *)
Definition fs_calm (fs : FS) : Prop :=
  Forall (fun r => match r with io_short _ => False | _ => True end) (fs_io fs).

(** The octets of the records of a stack of tables. *)
Definition stack_bytes (srcs : list (list row)) : Z :=
  fold_right (fun rows n => zlen (encode_rows rows) + n) 0 srcs.

(** The readers of the two levels hold these rows, oldest table first; the
    manifest has one level-0 entry per level-0 reader, and its numbers are not
    above the last one allocated. *)
Record store_inv (st : Store) (R0 R1 : list (list row)) : Prop := {
  si_l0 : Forall2 table_holds (st_l0 st) R0;
  si_l1 : Forall2 table_holds (st_l1 st) R1;
  si_typed : Forall typed (R0 ++ R1);
  si_rows : Forall (Forall row_ok) (R0 ++ R1);
  si_calm : fs_calm (st_fs st);
  si_count : length (l0_ids (st_mm st)) = length (st_l0 st);
  si_ids : forall id l, sst_levels (mm_state (st_mm st)) !! id = Some l ->
           0 <= id <= next_file_number (mm_state (st_mm st));
  si_next : 0 <= next_file_number (mm_state (st_mm st));
}.

(** The stack of the disk, newest first. *)
Definition disk_stack (R0 R1 : list (list row)) : list (list row) := rev R0 ++ rev R1.

(** * Lemmas *)

(** ** Effects of the manifest calls *)

Lemma fs_write_io fs name base data : suffix (fs_io (fs_write fs name base data).1) (fs_io fs).
Proof.
  unfold fs_write, fs_next_io. destruct (fs_io fs) as [|[| |n] q] eqn:E; cbn; rewrite ?E; try done;
    by apply suffix_cons_r.
Qed.

Lemma fs_open_trunc_io fs name : suffix (fs_io (fs_open_trunc fs name).1) (fs_io fs).
Proof.
  unfold fs_open_trunc, fs_next_io. destruct (fs_io fs) as [|[| |n] q] eqn:E; cbn; rewrite ?E; try done;
    by apply suffix_cons_r.
Qed.

Lemma fs_rename_io fs a b : fs_io (fs_rename fs a b) = fs_io fs.
Proof. unfold fs_rename. by destruct (fs_files fs !! a). Qed.

Lemma Persist_io mm fs : suffix (fs_io (Persist mm fs).1) (fs_io fs).
Proof.
  unfold Persist, PersistState, fs_overwrite. destruct (negb (fs_is_dir fs)); [done|].
  pose proof (fs_write_io fs manifest_tmp_name [] (encode_state (mm_state mm))) as H.
  destruct (fs_write _ _ _ _) as [fs1 ok]. destruct (negb ok); cbn; [done|]. by rewrite fs_rename_io.
Qed.

Lemma TruncateLog_io fs : suffix (fs_io (TruncateLog fs).1) (fs_io fs).
Proof.
  unfold TruncateLog. destruct (negb (fs_is_dir fs)); [done|].
  destruct (negb _); [done|]. apply fs_open_trunc_io.
Qed.

Lemma MaybeCheckpoint_effect mm fs :
  mm_state (MaybeCheckpoint mm fs).1 = mm_state mm /\
  suffix (fs_io (MaybeCheckpoint mm fs).2) (fs_io fs).
Proof.
  unfold MaybeCheckpoint. destruct (_ <? _); [done|].
  pose proof (Persist_io mm fs) as H1. destruct (Persist mm fs) as [fs1 ok1].
  destruct (negb ok1); [done|].
  pose proof (TruncateLog_io fs1) as H2. destruct (TruncateLog fs1) as [fs2 ok2].
  cbn in *. destruct (negb ok2); (split; [done|]); by etransitivity.
Qed.

(** Recording an edit does not change the state, and uses up write outcomes. *)
Lemma RecordEdit_effect mm fs e :
  mm_state (RecordEdit mm fs e).1 = mm_state mm /\
  suffix (fs_io (RecordEdit mm fs e).2) (fs_io fs).
Proof.
  unfold RecordEdit, AppendEdit, fs_append.
  assert (H : suffix (fs_io (if negb (fs_is_dir fs) then (fs, false)
    else fs_write fs manifest_log_name (default [] (fs_read fs manifest_log_name)) (encode_edit e)).1)
    (fs_io fs)) by (destruct (negb (fs_is_dir fs)); [done|apply fs_write_io]).
  destruct (if negb (fs_is_dir fs) then _ else _) as [fs1 ok]. cbn in H. destruct (negb ok).
  - pose proof (Persist_io mm fs1) as H1. destruct (Persist mm fs1) as [fs2 ok2]. cbn in *.
    split; [done|]. by etransitivity.
  - destruct (MaybeCheckpoint_effect (mkManager (u32 (edits_since_checkpoint mm + 1)) (mm_state mm)) fs1)
      as [H1 H2]. split; [done|]. by etransitivity.
Qed.

Lemma fs_calm_suffix fs fs' : suffix (fs_io fs') (fs_io fs) -> fs_calm fs -> fs_calm fs'.
Proof. intros [k E] H. unfold fs_calm in *. rewrite E in H. by apply Forall_app in H as [_ H]. Qed.

(** What a manifest call does to the shared state, besides the directory. *)
Definition store_step (st st' : Store) (ms : ManifestState) : Prop :=
  mm_state (st_mm st') = ms /\ st_l0 st' = st_l0 st /\ st_l1 st' = st_l1 st /\
  suffix (fs_io (st_fs st')) (fs_io (st_fs st)).

Ltac manifest_effect :=
  match goal with
  | |- context [RecordEdit ?mm ?fs ?e] =>
      let H := fresh in
      pose proof (RecordEdit_effect mm fs e) as H; destruct (RecordEdit mm fs e); cbn in *;
      unfold store_step; cbn; intuition
  end.

Lemma store_AllocateFileNumber_step st :
  store_step st (store_AllocateFileNumber st).1
    (spec_call (mm_state (st_mm st)) call_AllocateFileNumber) /\
  (store_AllocateFileNumber st).2 = u64 (next_file_number (mm_state (st_mm st)) + 1).
Proof.
  unfold store_AllocateFileNumber, AllocateFileNumber. cbn [spec_call].
  match goal with |- context [RecordEdit ?mm ?fs ?e] =>
    pose proof (RecordEdit_effect mm fs e) as [H1 H2]; destruct (RecordEdit mm fs e) as [mm1 fs1] end.
  cbn in *. unfold store_step. cbn. by rewrite H1.
Qed.

Lemma store_AddSst_step st id level :
  store_step st (store_AddSst st id level) (spec_call (mm_state (st_mm st)) (call_AddSst id level)).
Proof. unfold store_AddSst, AddSst. cbn [spec_call]. manifest_effect. Qed.

Lemma store_RemoveSst_step st id :
  store_step st (store_RemoveSst st id) (spec_call (mm_state (st_mm st)) (call_RemoveSst id)).
Proof. unfold store_RemoveSst, RemoveSst. cbn [spec_call]. manifest_effect. Qed.

Lemma store_AddWal_step st id :
  store_step st (store_AddWal st id) (spec_call (mm_state (st_mm st)) (call_AddWal id)).
Proof.
  unfold store_AddWal, AddWal. cbn [spec_call]. case_decide as Hin; [|manifest_effect].
  unfold store_step. cbn. split; [|done]. destruct (mm_state (st_mm st)); cbn in *. f_equal. set_solver.
Qed.

Lemma store_RemoveWal_step st id :
  store_step st (store_RemoveWal st id) (spec_call (mm_state (st_mm st)) (call_RemoveWal id)).
Proof.
  unfold store_RemoveWal, RemoveWal. cbn [spec_call]. case_decide as Hin; [manifest_effect|].
  unfold store_step. cbn. split; [|done]. destruct (mm_state (st_mm st)); cbn in *. f_equal. set_solver.
Qed.

(** ** Level-0 entries of the manifest *)

Lemma elem_of_l0_ids mm id : id ∈ l0_ids mm <-> sst_levels (mm_state mm) !! id = Some 0.
Proof.
  unfold l0_ids. rewrite list_elem_of_fmap. split.
  - intros ([k l] & -> & [Hl H]%list_elem_of_filter). cbn in *. subst l.
    by apply elem_of_map_to_list in H.
  - intros H. exists (id, 0). split; [done|]. apply list_elem_of_filter. split; [done|].
    by apply elem_of_map_to_list.
Qed.

Lemma NoDup_l0_ids mm : NoDup (l0_ids mm).
Proof.
  unfold l0_ids. apply NoDup_fmap_fst.
  - intros k l1 l2 [? _]%list_elem_of_filter [? _]%list_elem_of_filter. cbn in *. congruence.
  - apply NoDup_filter, NoDup_map_to_list.
Qed.

(** The ids depend on the level-0 part of the manifest only. *)
Lemma l0_ids_perm mm ids :
  NoDup ids -> (forall id, id ∈ ids <-> sst_levels (mm_state mm) !! id = Some 0) -> l0_ids mm ≡ₚ ids.
Proof.
  intros Hnd H. apply NoDup_Permutation; [apply NoDup_l0_ids|done|].
  intros id. by rewrite elem_of_l0_ids, H.
Qed.

(** ** Writing a table *)

Lemma fs_read_remove fs name : fs_read (fs_remove fs name) name = None.
Proof. unfold fs_read, fs_remove. cbn. apply lookup_delete_eq. Qed.

Lemma write_and_open_calm fs path rows :
  fs_calm fs -> rows <> [] -> rows_ok rows -> om_sorted rows ->
  exists fs' o, write_and_open fs path rows = Ret (fs', o) /\
    suffix (fs_io fs') (fs_io fs) /\
    (fs_io fs = [] -> o <> None) /\
    match o with Some r => table_holds r rows | None => True end.
Proof.
  intros Hcalm Hne Hok Hs. unfold write_and_open.
  set (fs0 := if fs_exists fs path then fs_remove fs path else fs).
  assert (H0 : fs_read fs0 path = None /\ fs_io fs0 = fs_io fs).
  { unfold fs0, fs_exists. destruct (fs_files fs !! path) eqn:E.
    - split; [apply fs_read_remove|done].
    - done. }
  destruct H0 as [Hr0 Hio0]. unfold fs_calm in Hcalm. rewrite <- Hio0 in *.
  unfold fs_append, fs_write, fs_next_io. rewrite Hr0. cbn [default from_option].
  destruct (build_open rows Hne Hok Hs) as (r & Ho & _).
  destruct (fs_io fs0) as [|[| |n] q] eqn:Eio.
  - cbn [app]. rewrite fs_read_set, Ho. cbn [obind].
    eexists _, _. split; [reflexivity|]. split; [cbn; by rewrite Eio|]. split; [done|].
    by apply sst_holds.
  - cbn [app]. rewrite fs_read_set, Ho. cbn [obind].
    eexists _, _. split; [reflexivity|]. split; [by apply suffix_cons_r|]. split; [done|].
    by apply sst_holds.
  - unfold fs_read in *. cbn [fs_files]. rewrite Hr0. cbn [SSTableReader_Open obind].
    eexists _, _. split; [reflexivity|]. split; [by apply suffix_cons_r|]. done.
  - by apply Forall_cons in Hcalm as [? _].
Qed.

(** When it fails, the file is not there, and the others are as before. *)
Lemma write_and_open_fails fs path rows fs' :
  write_and_open fs path rows = Ret (fs', None) ->
  fs_is_dir fs' = fs_is_dir fs /\ fs_io fs' = tail (fs_io fs) /\ fs_files fs' = delete path (fs_files fs).
Proof.
  unfold write_and_open. set (fs0 := if fs_exists fs path then fs_remove fs path else fs).
  assert (H0 : fs_is_dir fs0 = fs_is_dir fs /\ fs_io fs0 = fs_io fs /\ fs_files fs0 = delete path (fs_files fs)).
  { unfold fs0, fs_exists. destruct (fs_files fs !! path) eqn:E; [done|]. by rewrite delete_id. }
  destruct H0 as (Hdir & <- & Hf). rewrite <- Hdir. unfold fs_append, fs_write, fs_next_io. generalize (default [] (fs_read fs0 path)).
  intros base. destruct (fs_io fs0) as [|[| |n] q] eqn:Eio; destruct (SSTableReader_Open _ _) as [[r|]| |]; try done; intros [= <-].
  all: split; [done|]; split; [by cbn; rewrite ?Eio|]; cbn; rewrite ?delete_insert_eq, Hf; apply delete_delete_eq.
Qed.

(** ** Merging *)

Lemma merge_readers_holds readers R seen :
  Forall2 table_holds readers R -> merge_readers readers seen = Ret (stack_merge R seen).
Proof.
  intros H. revert seen. induction H as [|r rows readers R Hr _ IH]; intros seen; [done|].
  cbn [merge_readers]. pose proof (th_scan _ _ Hr) as Hs. cbn in Hs. rewrite Hs. cbn [obind].
  apply IH.
Qed.

Lemma Forall2_rev {A B} (P : A -> B -> Prop) l m : Forall2 P l m -> Forall2 P (rev l) (rev m).
Proof.
  induction 1 as [|a b l m H _ IH]; [constructor|]. cbn. apply Forall2_app; [done|]. by constructor.
Qed.

(** [HasVisibleValueInL1] answers for the level. *)
Lemma has_visible_loop_holds readers R k :
  Forall2 table_holds readers R -> Forall typed R ->
  has_visible_loop readers k = Ret (bool_decide (is_Some (visible_value (stack_find k R)))).
Proof.
  induction 1 as [|r rows readers R Hr _ IH]; intros Ht; [done|].
  apply Forall_cons in Ht as [Ht1 Ht]. cbn [has_visible_loop stack_find].
  destruct (th_get _ _ Hr k) as (o & Hg & Ho). cbn in Hg. rewrite Hg. cbn [obind].
  destruct (om_find k rows) as [v|] eqn:Ev; inversion Ho as [o' v' Hov|]; subst; [|by apply IH].
  f_equal. destruct Hov as [Hty _]. cbn [visible_value]. rewrite Hty.
  destruct (om_find_typed _ _ _ Ht1 Ev) as [E|E]; rewrite E.
  - rewrite (decide_True (P := kValue = kValue)) by done. symmetry. by apply bool_decide_eq_true.
  - rewrite bool_decide_eq_true_2 by done. rewrite decide_False by done. symmetry.
    apply bool_decide_eq_false. by intros [? ?].
Qed.

(** What the output keeps of a merged record. *)
Definition output_record (st_view : bytes -> option bytes) (k : bytes) (r : ValueRecord)
    : option ValueRecord :=
  if decide (vr_type r = kValue) then Some r
  else if decide (is_Some (st_view k)) then Some (mkRecord kDeletion []) else None.

Lemma zlen_encode_rows_cons r rows :
  zlen (encode_rows (r :: rows)) = 9 + zlen r.1 + zlen (vr_value r.2) + zlen (encode_rows rows).
Proof. unfold encode_rows. cbn [map concat]. rewrite zlen_app, zlen_encode_row. lia. Qed.

Lemma zlen_encode_rows_nonneg rows : 0 <= zlen (encode_rows rows).
Proof. apply zlen_nonneg. Qed.

Lemma try_emplace_bytes k v rows :
  zlen (encode_rows (om_try_emplace k v rows)) <= 9 + zlen k + zlen (vr_value v) + zlen (encode_rows rows).
Proof.
  induction rows as [|[k' v'] rows IH]; cbn [om_try_emplace].
  - rewrite zlen_encode_rows_cons. cbn [fst snd]. lia.
  - destruct (bytes_compare k k'); rewrite !zlen_encode_rows_cons in *; cbn [fst snd];
      pose proof (zlen_nonneg k); pose proof (zlen_nonneg (vr_value v)); lia.
Qed.

Lemma stack_merge_bytes srcs seen :
  zlen (encode_rows (stack_merge srcs seen)) <= stack_bytes srcs + zlen (encode_rows seen).
Proof.
  unfold stack_merge, stack_bytes. revert seen.
  induction srcs as [|rows srcs IH]; intros seen; cbn [fold_left fold_right]; [lia|].
  etransitivity; [apply IH|].
  assert (zlen (encode_rows (om_emplace_all rows seen)) <= zlen (encode_rows rows) + zlen (encode_rows seen));
    [|lia].
  unfold om_emplace_all. clear IH. revert seen. induction rows as [|r rows IH]; intros seen; cbn [fold_left].
  { unfold encode_rows at 2. cbn [map concat]. rewrite zlen_nil. lia. }
  etransitivity; [apply IH|]. rewrite zlen_encode_rows_cons.
  pose proof (try_emplace_bytes r.1 r.2 seen). lia.
Qed.

Lemma stack_merge_rows (P : row -> Prop) srcs seen :
  Forall (Forall P) srcs -> Forall P seen -> Forall P (stack_merge srcs seen).
Proof.
  unfold stack_merge. intros H. revert seen. induction H as [|rows srcs Hr _ IH]; intros seen Hs; cbn; [done|].
  apply IH. unfold om_emplace_all. clear IH. revert seen Hs.
  induction Hr as [|[k v] rows Hr _ IH]; intros seen Hs; cbn; [done|].
  apply IH. by apply om_try_emplace_Forall.
Qed.

(** The output: sorted, no larger than the input, with the records kept. *)
Lemma filter_output_spec st R1 merged output :
  Forall2 table_holds (st_l1 st) R1 -> Forall typed R1 ->
  om_sorted merged -> om_sorted output ->
  (forall k, om_find k merged <> None -> om_find k output = None) ->
  Forall row_ok merged -> Forall row_ok output -> typed output ->
  exists out, filter_output st merged output = Ret out /\ om_sorted out /\
    Forall row_ok out /\ typed out /\
    zlen (encode_rows out) <= zlen (encode_rows merged) + zlen (encode_rows output) /\
    forall k, om_find k out =
      match om_find k output with
      | Some r => Some r
      | None => r ← om_find k merged;
                output_record (fun k => visible_value (stack_find k (rev R1))) k r
      end.
Proof.
  intros Hl1 Ht1 Hm. revert output.
  induction merged as [|[key rec] merged IH]; intros output Ho Hdis Hrm Hro Hto; cbn [filter_output].
  { exists output. do 4 (split; [done|]). split.
    - change (zlen (encode_rows [])) with 0. lia.
    - intros k. by destruct (om_find k output). }
  apply om_sorted_cons in Hm as [Hlt Hm]. apply Forall_cons in Hrm as [Hr Hrm].
  assert (Hkey : om_find key merged = None).
  { apply om_find_below. eapply Forall_impl; [exact Hlt|]. by intros [? ?]. }
  assert (Hnew : om_find key output = None).
  { apply Hdis. cbn. by rewrite decide_True. }
  assert (Hvis : HasVisibleValueInL1 st key =
    Ret (bool_decide (is_Some (visible_value (stack_find key (rev R1)))))).
  { apply has_visible_loop_holds; [by apply Forall2_rev|by apply Forall_rev]. }
  (* one record is put, or none *)
  assert (Hput : forall v, zlen (vr_value v) <= zlen (vr_value rec) -> record_typed v ->
    output_record (fun k => visible_value (stack_find k (rev R1))) key rec = Some v ->
    exists out, filter_output st merged (om_try_emplace key v output) = Ret out /\ om_sorted out /\
      Forall row_ok out /\ typed out /\
      zlen (encode_rows out) <= zlen (encode_rows ((key, rec) :: merged)) + zlen (encode_rows output) /\
      forall k, om_find k out =
        match om_find k output with
        | Some r => Some r
        | None => r ← om_find k ((key, rec) :: merged);
                  output_record (fun k => visible_value (stack_find k (rev R1))) k r
        end).
  { intros v Hv Htv Hout. destruct (IH Hm (om_try_emplace key v output)) as (out & E & H1 & H2 & H3 & H4 & H5).
    - by apply om_try_emplace_sorted.
    - intros k Hk. rewrite om_find_try_emplace by done. cbn in Hdis.
      rewrite decide_False by (by intros ->). rewrite (Hdis k); [done|].
      rewrite decide_False by (by intros ->). done.
    - done.
    - apply om_try_emplace_Forall; [|done]. destruct Hr as [? ?]. split; cbn in *; lia.
    - by apply om_try_emplace_typed.
    - exists out. split_and!; try done.
      + rewrite zlen_encode_rows_cons. cbn [fst snd].
        pose proof (try_emplace_bytes key v output). lia.
      + intros k. rewrite H5, om_find_try_emplace by done. cbn [om_find].
        destruct (om_find k output) as [r|] eqn:Er; [done|].
        destruct (decide (k = key)) as [->|]; [|done]. cbn. by rewrite Hout. }
  unfold output_record in Hput. destruct (decide (vr_type rec = kValue)) as [Ev|Ev].
  - apply (Hput rec); [lia|by left|done].
  - rewrite Hvis. cbn [obind].
    destruct (decide (is_Some (visible_value (stack_find key (rev R1))))) as [Hs|Hs].
    + rewrite bool_decide_eq_true_2 by done. apply Hput; [cbn; apply zlen_nonneg|by right|done].
    + rewrite bool_decide_eq_false_2 by done. clear Hput.
      destruct (IH Hm output) as (out & E & H1 & H2 & H3 & H4 & H5); try done.
      { intros k Hk. apply Hdis. cbn. by case_decide. }
      exists out. split_and!; try done.
      * rewrite zlen_encode_rows_cons. cbn [fst snd].
        pose proof (zlen_nonneg key). pose proof (zlen_nonneg (vr_value rec)). lia.
      * intros k. rewrite H5. cbn [om_find]. destruct (om_find k output); [done|].
        destruct (decide (k = key)) as [->|]; [|done]. rewrite Hkey. cbn. unfold output_record.
        by rewrite decide_False, decide_False.
Qed.

(** ** The whole compaction *)

Lemma remove_inputs_effect ids st :
  let st' := remove_inputs ids st in
  st_l0 st' = st_l0 st /\ st_l1 st' = st_l1 st /\
  suffix (fs_io (st_fs st')) (fs_io (st_fs st)) /\
  next_file_number (mm_state (st_mm st')) = next_file_number (mm_state (st_mm st)) /\
  live_wals (mm_state (st_mm st')) = live_wals (mm_state (st_mm st)) /\
  forall id, sst_levels (mm_state (st_mm st')) !! id =
    if decide (id ∈ ids) then None else sst_levels (mm_state (st_mm st)) !! id.
Proof.
  unfold remove_inputs. revert st. induction ids as [|i ids IH]; intros st; cbn [fold_left].
  { do 5 (split; [done|]). intros id. by rewrite decide_False by set_solver. }
  destruct (store_RemoveSst_step st i) as (H1 & H2 & H3 & H4).
  set (st1 := store_remove_file (store_RemoveSst st i) (sst_name i)).
  assert (E1 : mm_state (st_mm st1) = spec_call (mm_state (st_mm st)) (call_RemoveSst i)) by exact H1.
  destruct (IH st1) as (I1 & I2 & I3 & I4 & I5 & I6).
  split; [by rewrite I1|]. split; [by rewrite I2|].
  split; [by etransitivity|]. rewrite I4, I5, E1. split; [done|]. split; [done|].
  intros id. rewrite I6, E1. cbn [spec_call sst_levels]. rewrite lookup_delete.
  destruct (decide (id ∈ ids)), (decide (id ∈ i :: ids)), (decide (i = id)); set_solver.
Qed.

Lemma sorted_ids_perm l l' : l ≡ₚ l' -> sorted_ids l = sorted_ids l'.
Proof.
  intros H. unfold sorted_ids. apply (StronglySorted_unique Z.le).
  - apply StronglySorted_merge_sort; apply _.
  - apply StronglySorted_merge_sort; apply _.
  - etransitivity; [apply merge_sort_Permutation|]. etransitivity; [exact H|].
    symmetry. apply merge_sort_Permutation.
Qed.

Lemma stack_bytes_app s1 s2 : stack_bytes (s1 ++ s2) = stack_bytes s1 + stack_bytes s2.
Proof. unfold stack_bytes. induction s1 as [|r s1 IH]; cbn [app fold_right]; [lia|]. rewrite IH. lia. Qed.

Lemma stack_bytes_rev s : stack_bytes (rev s) = stack_bytes s.
Proof.
  induction s as [|r s IH]; [done|]. cbn [rev]. rewrite stack_bytes_app, IH.
  unfold stack_bytes. cbn [fold_right]. lia.
Qed.

Lemma stack_bytes_nonneg s : 0 <= stack_bytes s.
Proof. unfold stack_bytes. induction s as [|r s IH]; cbn [fold_right]; [lia|]. pose proof (zlen_nonneg (encode_rows r)). lia. Qed.

(** Keeping the output and dropping level 0 does not change what is visible. *)
Lemma output_visible R0 R1 merged out k :
  Forall typed R0 ->
  (forall k, om_find k merged = stack_find k (rev R0)) ->
  (forall k, om_find k out = r ← om_find k merged;
     output_record (fun k => visible_value (stack_find k (rev R1))) k r) ->
  visible_value (stack_find k (disk_stack [] (R1 ++ [out]))) =
  visible_value (stack_find k (disk_stack R0 R1)).
Proof.
  intros Ht Hm Hout. unfold disk_stack. cbn [rev app]. rewrite rev_app_distr. cbn [rev app].
  rewrite stack_find_app. cbn [stack_find]. rewrite Hout, Hm.
  destruct (stack_find k (rev R0)) as [r|] eqn:Er; [|done]. cbn. unfold output_record.
  destruct (decide (vr_type r = kValue)) as [E|E]; [cbn; by rewrite decide_True|].
  destruct (decide (is_Some (visible_value (stack_find k (rev R1))))) as [Hs|Hs]; [done|].
  by apply eq_None_not_Some.
Qed.

(** After the output is installed, or when nothing is left to write. *)
Lemma consume_l0_holds st ctx R0 R1 :
  store_inv st R0 R1 -> l0_input_ids ctx ≡ₚ l0_ids (st_mm st) ->
  let st' := consume_l0 ctx st in
  store_inv st' [] R1 /\ st_l0 st' = [] /\
  next_file_number (mm_state (st_mm st')) = next_file_number (mm_state (st_mm st)) /\
  live_wals (mm_state (st_mm st')) = live_wals (mm_state (st_mm st)).
Proof.
  intros Hinv Hids st'. unfold st', consume_l0.
  destruct (remove_inputs_effect (l0_input_ids ctx) (mkStore (st_fs st) (st_mm st) [] (st_l1 st)))
    as (H1 & H2 & H3 & H4 & H5 & H6). cbn [st_l0 st_l1 st_fs st_mm] in *.
  destruct Hinv as [Hl0 Hl1 Ht Hr Hc Hn Hi Hx]. split; [|done].
  apply Forall_app in Ht as [_ Ht]. apply Forall_app in Hr as [_ Hr].
  split; rewrite ?H1, ?H2, ?H4; try done.
  - by eapply fs_calm_suffix.
  - cbn. apply length_zero_iff_nil, elem_of_nil_inv. intros id Hid.
    apply elem_of_l0_ids in Hid. rewrite H6 in Hid. case_decide as Hd; [done|].
    apply Hd. rewrite Hids. by apply elem_of_l0_ids.
  - intros id l. rewrite H6. case_decide; [done|]. apply Hi.
Qed.

(** A step that leaves the levels of the manifest and the readers alone. *)
Lemma store_inv_same st st' R0 R1 :
  store_inv st R0 R1 -> st_l0 st' = st_l0 st -> st_l1 st' = st_l1 st ->
  sst_levels (mm_state (st_mm st')) = sst_levels (mm_state (st_mm st)) ->
  next_file_number (mm_state (st_mm st)) <= next_file_number (mm_state (st_mm st')) ->
  suffix (fs_io (st_fs st')) (fs_io (st_fs st)) -> store_inv st' R0 R1.
Proof.
  intros [Hl0 Hl1 Ht Hr Hc Hn Hi Hx] E0 E1 Es En Hio. split; rewrite ?E0, ?E1; try done.
  - by eapply fs_calm_suffix.
  - unfold l0_ids, SstLevels. by rewrite Es.
  - intros id l. rewrite Es. intros H%Hi. lia.
  - lia.
Qed.

Lemma l0_ids_same mm mm' :
  sst_levels (mm_state mm) = sst_levels (mm_state mm') -> l0_ids mm = l0_ids mm'.
Proof. intros E. unfold l0_ids, SstLevels. by rewrite E. Qed.

(** Allocating a number. *)
Lemma allocate_inv st R0 R1 :
  store_inv st R0 R1 -> next_file_number (mm_state (st_mm st)) + 1 < 2 ^ 64 ->
  let '(st1, id) := store_AllocateFileNumber st in
  store_inv st1 R0 R1 /\ id = next_file_number (mm_state (st_mm st)) + 1 /\
  next_file_number (mm_state (st_mm st1)) = id /\
  st_l0 st1 = st_l0 st /\ st_l1 st1 = st_l1 st /\
  sst_levels (mm_state (st_mm st1)) = sst_levels (mm_state (st_mm st)) /\
  live_wals (mm_state (st_mm st1)) = live_wals (mm_state (st_mm st)) /\
  suffix (fs_io (st_fs st1)) (fs_io (st_fs st)).
Proof.
  intros Hinv Hn. pose proof (si_next _ _ _ Hinv).
  destruct (store_AllocateFileNumber_step st) as [(H1 & H2 & H3 & H4) H5].
  destruct (store_AllocateFileNumber st) as [st1 id]. cbn [fst snd] in *. subst id.
  rewrite H1 in *. cbn [spec_call next_file_number sst_levels live_wals].
  rewrite u64_small by lia. split; [|done].
  apply (store_inv_same st); rewrite ?H1; cbn; try done. rewrite u64_small; lia.
Qed.

(** A new reader on a level, and its manifest entry. *)
Lemma install_inv st R0 R1 r rows id level :
  store_inv st R0 R1 -> table_holds r rows -> typed rows -> Forall row_ok rows ->
  sst_levels (mm_state (st_mm st)) !! id = None ->
  0 <= id <= next_file_number (mm_state (st_mm st)) -> level = 0 \/ level = 1 ->
  let st1 := if level =? 0 then mkStore (st_fs st) (st_mm st) (st_l0 st ++ [r]) (st_l1 st)
             else mkStore (st_fs st) (st_mm st) (st_l0 st) (st_l1 st ++ [r]) in
  let st2 := store_AddSst st1 id level in
  store_inv st2 (if level =? 0 then R0 ++ [rows] else R0) (if level =? 0 then R1 else R1 ++ [rows]) /\
  store_step st1 st2 (spec_call (mm_state (st_mm st)) (call_AddSst id level)).
Proof.
  intros [Hl0 Hl1 Ht Hr Hc Hn Hi Hx] Hh Hty Hro Hfresh Hid Hlev st1 st2.
  assert (Hst1 : st_mm st1 = st_mm st /\ st_fs st1 = st_fs st) by (unfold st1; by destruct (level =? 0)).
  destruct Hst1 as [Em Ef].
  pose proof (store_AddSst_step st1 id level) as (H1 & H2 & H3 & H4). fold st2 in H1, H2, H3, H4.
  rewrite Em in H1. rewrite Ef in H4.
  assert (Happ : forall P : list row -> Prop, Forall P (R0 ++ R1) -> P rows ->
    Forall P ((if level =? 0 then R0 ++ [rows] else R0) ++ (if level =? 0 then R1 else R1 ++ [rows]))).
  { intros P [H5 H6]%Forall_app Hp. destruct (level =? 0); rewrite !Forall_app; auto. }
  split.
  - split; rewrite ?H2, ?H3, ?H1; cbn [spec_call next_file_number sst_levels]; try done.
    + unfold st1. destruct (level =? 0); [apply Forall2_app; auto|done].
    + unfold st1. destruct (level =? 0); [done|apply Forall2_app; auto].
    + by apply Happ.
    + by apply Happ.
    + by eapply fs_calm_suffix.
    + assert (Hp : l0_ids (st_mm st2) ≡ₚ (if level =? 0 then [id] else []) ++ l0_ids (st_mm st)).
      { apply l0_ids_perm.
        - destruct (level =? 0); [|apply NoDup_l0_ids]. apply NoDup_cons. split; [|apply NoDup_l0_ids].
          intros Hin%elem_of_l0_ids. congruence.
        - intros j. rewrite H1. cbn [spec_call sst_levels]. rewrite lookup_insert, elem_of_app, elem_of_l0_ids.
          destruct Hlev as [-> | ->]; cbn [Z.eqb]; case_decide; subst;
            rewrite ?list_elem_of_singleton; intuition (congruence || set_solver). }
      rewrite Hp. unfold st1. destruct Hlev as [-> | ->]; cbn [Z.eqb app length st_l0];
        rewrite ?length_app, Hn; cbn [length]; lia.
    + intros j l. rewrite lookup_insert_Some. intros [[<- _]|[_ H]]; [done|by apply (Hi j l)].
  - unfold store_step. rewrite H1, H2, H3, Ef. done.
Qed.

Lemma sst_name_nonempty id : sst_name id <> [].
Proof. unfold sst_name. intros H%app_eq_nil. by destruct H. Qed.

(** [InstallL0ToL1] when nothing changed since the preparation. *)
Lemma InstallL0ToL1_unchanged st ctx reader :
  length (st_l0 st) = expected_l0_reader_count ctx -> l0_input_ids ctx = l0_ids (st_mm st) ->
  InstallL0ToL1 st ctx reader =
  if bool_decide (merged_l0_records ctx = []) || negb (has_output ctx)
  then (consume_l0 ctx st, true)
  else match reader with
       | None => (st, false)
       | Some r =>
           (consume_l0 ctx
              (store_AddSst (mkStore (st_fs st) (st_mm st) (st_l0 st) (st_l1 st ++ [r]))
                 (new_sst_id ctx) 1), true)
       end.
Proof.
  intros H1 H2. unfold InstallL0ToL1. rewrite H1, Nat.eqb_refl. cbn [negb].
  rewrite H2, bool_decide_eq_true_2 by done. cbn [negb]. done.
Qed.

(** What a compaction guarantees. *)
Definition compaction_post (st st' : Store) (R0 R1 R0' R1' : list (list row)) : Prop :=
  store_inv st' R0' R1' /\
  (forall k, visible_value (stack_find k (disk_stack R0' R1')) =
             visible_value (stack_find k (disk_stack R0 R1))) /\
  stack_bytes (R0' ++ R1') <= stack_bytes (R0 ++ R1) /\
  next_file_number (mm_state (st_mm st)) <= next_file_number (mm_state (st_mm st'))
    <= next_file_number (mm_state (st_mm st)) + 1 /\
  live_wals (mm_state (st_mm st')) = live_wals (mm_state (st_mm st)) /\
  (fs_io (st_fs st) = [] -> st_l0 st' = []).

(** ** The phases *)

(** What the context of a compaction that was prepared on [st] promises; it
    depends only on the readers and on the levels of the manifest. *)
Record prepared (st : Store) (R0 R1 : list (list row)) (ctx : L0ToL1Ctx) : Prop := {
  pr_ids : l0_input_ids ctx = l0_ids (st_mm st);
  pr_count : expected_l0_reader_count ctx = length (st_l0 st);
  pr_has : has_output ctx = match output_records ctx with [] => false | _ => true end;
  pr_view : forall k, visible_value (stack_find k (disk_stack [] (R1 ++ [output_records ctx]))) =
                      visible_value (stack_find k (disk_stack R0 R1));
  pr_merged : has_output ctx = true -> merged_l0_records ctx <> [];
  pr_path : has_output ctx = true -> new_sst_path ctx = sst_name (new_sst_id ctx);
  pr_fresh : has_output ctx = true -> sst_levels (mm_state (st_mm st)) !! new_sst_id ctx = None;
  pr_id : has_output ctx = true -> 0 <= new_sst_id ctx <= next_file_number (mm_state (st_mm st));
  pr_sorted : om_sorted (output_records ctx);
  pr_rows : Forall row_ok (output_records ctx);
  pr_typed : typed (output_records ctx);
  pr_bytes : zlen (encode_rows (output_records ctx)) <= stack_bytes R0;
}.

(** What another thread may do to the store between the phases. *)
Record store_stable (st st' : Store) : Prop := {
  ss_l0 : st_l0 st' = st_l0 st;
  ss_l1 : st_l1 st' = st_l1 st;
  ss_levels : sst_levels (mm_state (st_mm st')) = sst_levels (mm_state (st_mm st));
  ss_next : next_file_number (mm_state (st_mm st)) <= next_file_number (mm_state (st_mm st'));
  ss_io : suffix (fs_io (st_fs st')) (fs_io (st_fs st));
}.

Lemma store_inv_stable st st' R0 R1 : store_inv st R0 R1 -> store_stable st st' -> store_inv st' R0 R1.
Proof. intros H [? ? ? ? ?]. by apply (store_inv_same st). Qed.

Lemma prepared_stable st st' R0 R1 ctx :
  prepared st R0 R1 ctx -> store_stable st st' -> prepared st' R0 R1 ctx.
Proof.
  intros [P1 P2 P3 P4 P5 P6 P7 P8 P9 P10 P11 P12] [S1 S2 S3 S4 S5]. split; try done.
  - rewrite P1. by apply l0_ids_same.
  - by rewrite S1.
  - by rewrite S3.
  - intros H. specialize (P8 H). lia.
Qed.

#[export] Instance store_stable_preorder : PreOrder store_stable.
Proof.
  split; [by split|]. intros s1 s2 s3 [A1 A2 A3 A4 A5] [B1 B2 B3 B4 B5].
  split; try congruence; [lia|by etransitivity].
Qed.

Lemma allocate_stable st R0 R1 :
  store_inv st R0 R1 -> next_file_number (mm_state (st_mm st)) + 1 < 2 ^ 64 ->
  store_stable st (store_AllocateFileNumber st).1.
Proof.
  intros Hinv Hn. pose proof (allocate_inv st R0 R1 Hinv Hn) as H.
  destruct (store_AllocateFileNumber st) as [st1 id]. destruct H as (_ & Hid & Hn1 & ? & ? & ? & _ & ?).
  split; try done. cbn. lia.
Qed.

(** A merge that is empty hides nothing. *)
Lemma stack_find_empty_top k R0 R1 :
  stack_find k (rev R0) = None -> stack_find k (disk_stack R0 R1) = stack_find k (rev R1).
Proof. intros H. unfold disk_stack. by rewrite stack_find_app, H. Qed.

Lemma disk_stack_empty_output k R1 :
  stack_find k (disk_stack [] (R1 ++ [[]])) = stack_find k (rev R1).
Proof. unfold disk_stack. cbn [rev app]. by rewrite rev_app_distr. Qed.

Lemma PrepareL0ToL1_holds st R0 R1 :
  store_inv st R0 R1 -> next_file_number (mm_state (st_mm st)) + 1 < 2 ^ 64 ->
  exists st' ctx ok, PrepareL0ToL1 st = Ret (st', ctx, ok) /\ store_stable st st' /\
    next_file_number (mm_state (st_mm st')) <= next_file_number (mm_state (st_mm st)) + 1 /\
    live_wals (mm_state (st_mm st')) = live_wals (mm_state (st_mm st)) /\
    if ok : bool then prepared st' R0 R1 ctx else st_l0 st = [].
Proof.
  intros Hinv Hnext. pose proof Hinv as [Hl0 Hl1 Ht Hr _ Hn Hi _].
  apply Forall_app in Ht as [Ht0 Ht1]. apply Forall_app in Hr as [Hr0 _]. unfold PrepareL0ToL1.
  destruct (st_l0 st) as [|r0 l0] eqn:El0.
  { exists st, L0ToL1Ctx_empty, false. do 2 (split; [done|]). split; [lia|done]. }
  rewrite (merge_readers_holds _ (rev R0)) by (by apply Forall2_rev). cbn [obind].
  rewrite Hn, Nat.eqb_refl. cbn [negb]. rewrite <- El0 in *.
  assert (Hms : om_sorted (stack_merge (rev R0) [])) by (apply stack_merge_sorted; constructor).
  assert (Hmf : forall k, om_find k (stack_merge (rev R0) []) = stack_find k (rev R0))
    by (intros k; by rewrite stack_merge_find by constructor).
  assert (Hmb : zlen (encode_rows (stack_merge (rev R0) [])) <= stack_bytes R0).
  { pose proof (stack_merge_bytes (rev R0) []) as Hb. rewrite stack_bytes_rev in Hb.
    by rewrite Z.add_0_r in Hb. }
  assert (Hmr : Forall row_ok (stack_merge (rev R0) []))
    by (apply stack_merge_rows; [by apply Forall_rev|constructor]).
  set (merged := stack_merge (rev R0) []) in *. clearbody merged. destruct merged as [|m0 ms].
  { eexists _, _, true. split; [reflexivity|]. split; [done|]. split; [lia|]. split; [done|].
    split; cbn [has_output output_records]; try done;
      [|apply Forall_nil_2].
    intros k. rewrite disk_stack_empty_output, stack_find_empty_top; [done|].
    by rewrite <- Hmf. }
  set (merged := m0 :: ms) in *.
  pose proof (allocate_inv st R0 R1 Hinv Hnext) as Ha. pose proof (allocate_stable st R0 R1 Hinv Hnext) as Hst.
  destruct (store_AllocateFileNumber st) as [st1 id].
  destruct Ha as (_ & Hid & Hn1 & E0 & E1 & Es & Ew & _). cbn [fst] in Hst.
  destruct (filter_output_spec st1 R1 merged []) as (out & -> & Ho1 & Ho2 & Ho3 & Ho4 & Ho5);
    [by rewrite E1|done|done|constructor|done|done|constructor|constructor|].
  cbn [om_find obind] in Ho5 |- *. eexists _, _, true. split; [reflexivity|].
  split; [done|]. split; [lia|]. split; [done|].
  pose proof (si_next _ _ _ Hinv).
  split; cbn [l0_input_ids expected_l0_reader_count has_output output_records merged_l0_records
    new_sst_path new_sst_id]; try done.
  - by apply l0_ids_same.
  - by rewrite E0.
  - intros k. by apply (output_visible R0 R1 merged).
  - intros _. rewrite Es. destruct (_ !! id) as [l|] eqn:El; [|done]. apply Hi in El. lia.
  - lia.
  - change (zlen (encode_rows [])) with 0 in Ho4. lia.
Qed.

Lemma BuildL0ToL1SST_holds st R0 R1 ctx :
  store_inv st R0 R1 -> prepared st R0 R1 ctx -> stack_bytes R0 < 2 ^ 60 -> has_output ctx = true ->
  exists fs' o, BuildL0ToL1SST (st_fs st) ctx = Ret (fs', o) /\
    suffix (fs_io fs') (fs_io (st_fs st)) /\ (fs_io (st_fs st) = [] -> o <> None) /\
    match o with Some r => table_holds r (output_records ctx) | None => True end.
Proof.
  intros Hinv [_ _ P3 _ _ P6 _ _ P9 P10 _ P12] Hb Hout. unfold BuildL0ToL1SST. rewrite Hout. cbn [negb].
  rewrite P6 by done. rewrite decide_False by apply sst_name_nonempty.
  apply write_and_open_calm; [apply Hinv| |split; [done|lia]|done].
  rewrite Hout in P3. by destruct (output_records ctx).
Qed.

(** The state after [InstallL0ToL1]. *)
Definition installed (st st' : Store) (R0 R1 R1' : list (list row)) : Prop :=
  store_inv st' [] R1' /\ st_l0 st' = [] /\
  (forall k, visible_value (stack_find k (disk_stack [] R1')) =
             visible_value (stack_find k (disk_stack R0 R1))) /\
  stack_bytes R1' <= stack_bytes (R0 ++ R1) /\
  next_file_number (mm_state (st_mm st')) = next_file_number (mm_state (st_mm st)) /\
  live_wals (mm_state (st_mm st')) = live_wals (mm_state (st_mm st)).

(** Level 1 with the output. *)
Definition compacted (R1 : list (list row)) (ctx : L0ToL1Ctx) : list (list row) :=
  if has_output ctx then R1 ++ [output_records ctx] else R1.

Lemma InstallL0ToL1_holds st R0 R1 ctx reader :
  store_inv st R0 R1 -> prepared st R0 R1 ctx ->
  (has_output ctx = true -> exists r, reader = Some r /\ table_holds r (output_records ctx)) ->
  exists st', InstallL0ToL1 st ctx reader = (st', true) /\ installed st st' R0 R1 (compacted R1 ctx).
Proof.
  intros Hinv [P1 P2 P3 P4 P5 _ P7 P8 P9 P10 P11 P12] Hreader.
  rewrite InstallL0ToL1_unchanged by (done || congruence). unfold compacted.
  destruct (has_output ctx) eqn:Hout.
  - destruct (Hreader eq_refl) as (r & -> & Hr). rewrite bool_decide_eq_false_2 by auto. cbn [orb negb].
    destruct (install_inv st R0 R1 r (output_records ctx) (new_sst_id ctx) 1) as [Hinv3 (S1 & _)]; auto.
    cbn [Z.eqb] in Hinv3, S1. set (st3 := store_AddSst _ (new_sst_id ctx) 1) in *.
    assert (Hids : l0_input_ids ctx ≡ₚ l0_ids (st_mm st3)).
    { rewrite P1. symmetry. apply l0_ids_perm; [apply NoDup_l0_ids|]. intros j.
      rewrite elem_of_l0_ids, S1. cbn [spec_call sst_levels]. rewrite lookup_insert.
      case_decide as Hj; [|done]. subst j. rewrite P7 by done. done. }
    destruct (consume_l0_holds st3 ctx R0 (R1 ++ [output_records ctx]) Hinv3 Hids) as (C1 & C2 & C3 & C4).
    eexists. split; [reflexivity|]. split; [done|]. split; [done|]. split; [done|].
    rewrite C3, C4, S1. cbn [spec_call next_file_number live_wals]. split; [|done].
    rewrite !stack_bytes_app. unfold stack_bytes at 2. cbn [fold_right]. lia.
  - rewrite orb_true_r. destruct (consume_l0_holds st ctx R0 R1 Hinv) as (C1 & C2 & C3 & C4); [by rewrite P1|].
    eexists. split; [reflexivity|]. split; [done|]. split; [done|]. split.
    + intros k. rewrite <- P4. symmetry in P3. destruct (output_records ctx); [|done].
      by rewrite disk_stack_empty_output.
    + split; [|done]. rewrite stack_bytes_app. pose proof (stack_bytes_nonneg R0). lia.
Qed.

Lemma CompactL0ToL1_holds st R0 R1 :
  store_inv st R0 R1 -> stack_bytes (R0 ++ R1) < 2 ^ 60 ->
  next_file_number (mm_state (st_mm st)) + 1 < 2 ^ 64 ->
  exists st' R0' R1', CompactL0ToL1 st = Ret st' /\ compaction_post st st' R0 R1 R0' R1'.
Proof.
  intros Hinv Hbytes Hnext. pose proof (stack_bytes_nonneg R1) as Hpos. unfold CompactL0ToL1.
  destruct (PrepareL0ToL1_holds st R0 R1 Hinv Hnext) as (st1 & ctx & ok & -> & Hst & Hn1 & Hw1 & Hok).
  pose proof (ss_next _ _ Hst). pose proof (ss_io _ _ Hst) as Hio.
  pose proof (store_inv_stable _ _ _ _ Hinv Hst) as Hinv1. cbn [obind].
  destruct ok; cbn [negb].
  2:{ exists st1, R0, R1. split; [done|]. do 2 (split; [done|]). split; [done|]. split; [lia|].
      split; [done|]. intros _. by rewrite (ss_l0 _ _ Hst). }
  assert (Hend : forall fs reader, suffix (fs_io fs) (fs_io (st_fs st1)) ->
    (has_output ctx = true -> exists r, reader = Some r /\ table_holds r (output_records ctx)) ->
    exists st' R0' R1', (let '(st', ok) := InstallL0ToL1 (with_fs st1 fs) ctx reader in
      if negb ok then Ret (if decide (new_sst_path ctx = []) then st'
                           else store_remove_file st' (new_sst_path ctx))
      else Ret st') = Ret st' /\ compaction_post st st' R0 R1 R0' R1').
  { intros fs reader Hfs Hreader. assert (Hst2 : store_stable st1 (with_fs st1 fs)) by (split; try done; cbn; lia).
    destruct (InstallL0ToL1_holds (with_fs st1 fs) R0 R1 ctx reader) as (st' & -> & (I1 & I2 & I3 & I4 & I5 & I6));
      [by eapply store_inv_stable|by eapply prepared_stable|done|].
    cbn [negb]. exists st', [], (compacted R1 ctx). split; [done|]. split; [done|]. split; [done|]. split; [done|].
    rewrite I5, I6. cbn. split; [lia|done]. }
  destruct (has_output ctx) eqn:Hout; cbn [andb].
  - rewrite stack_bytes_app in Hbytes.
    destruct (BuildL0ToL1SST_holds st1 R0 R1 ctx Hinv1 Hok ltac:(lia) Hout) as (fs' & o & -> & Hfs & Hnn & Ho).
    cbn [obind]. destruct o as [r|]; [apply Hend; eauto|].
    exists (with_fs st1 fs'), R0, R1. split; [done|]. split.
    { eapply store_inv_stable; [exact Hinv1|]. by split. }
    do 2 (split; [done|]). cbn [with_fs st_mm st_l0]. split; [lia|]. split; [done|].
    intros Hnil. exfalso. apply Hnn; [|done]. rewrite Hnil in Hio. by apply suffix_nil_inv in Hio.
  - cbn [obind]. by apply Hend.
Qed.

(** * Properties *)


(** The reader of a freshly built table. *)
Definition reader_of_rows (rows : list row) : SSTableReader :=
  match SSTableReader_Open true (Some (build_sst rows)) with
  | Ret (Some r) => r
  | _ => mkReader [] Footer_default [] []
  end.

