(* ===== verification/Recovery.v ===== *)
(** The recovery loader ([include/RecoveryLoader.h], [src/RecoveryLoader.cpp]):
    what the constructor of the store reads back from the directory.

    An exception of the source ([std::out_of_range] of [stoull] and [stoi]) is
    [None]. *)
From S2P Require Import Prelude Storage OMap SSTableBuilder SSTableReader SSTable Files Crc Wal Manifest SkipList Table MemTable Compaction.

(** The test on the names of the directory: the extension, and a stem of digits;
    the result is the stem. *)
Definition numbered (ext : bytes) (name : bytes) : option bytes :=
  if decide (path_extension name = ext)
  then if forallb is_digit (path_stem name) then Some (path_stem name) else None
  else None.

(** ** Write-ahead logs *)

(** The first loop of [RecoverFromWals]: every numbered log of the directory is
    alive. *)
Fixpoint add_disk_wals (names : list bytes) (st : Store) : option Store :=
  match names with
  | [] => Some st
  | name :: names =>
      match numbered (str ".wal") name with
      | None => add_disk_wals names st
      | Some stem =>
          match stoull stem with
          | None => None
          | Some id => add_disk_wals names (store_AddWal st id)
          end
      end
  end.

(** [replay_ids], sorted. *)
Definition replay_ids (mm : ManifestManager) : list Z := sorted_ids (elements (LiveWals mm)).

Section recover.

(** Uninitialised locals of [LoadLog]; coin flips of the skip list, by log and
    record. *)
Context (junk_t : nat -> byte) (junk_k junk_v : nat -> bytes).
Context (flips : Z -> nat -> nat -> bool).

(** The second loop: replay every live log that exists into the memory table.
    The handler opens the log for appending as well. *)
Fixpoint replay_wals (ids : list Z) (st : Store) (mem : MemTable) : outcome (Store * MemTable) :=
  match ids with
  | [] => Ret (st, mem)
  | id :: ids =>
      if fs_exists (st_fs st) (wal_name id) then
        let '(_, fs) := WalHandler_new (st_fs st) (wal_name id) in
        let* es := LoadLog junk_t junk_k junk_v (fs_read fs (wal_name id)) in
        let* mem := MemTable_replay mem es (flips id) in
        replay_wals ids (with_fs st fs) mem
      else replay_wals ids st mem
  end.

(** [RecoveryLoader::RecoverFromWals] *)
Definition RecoverFromWals (st : Store) (mem : MemTable) : outcome (option (Store * MemTable)) :=
  match add_disk_wals (fs_entries (st_fs st)) st with
  | None => Ret None
  | Some st =>
      let* r := replay_wals (replay_ids (st_mm st)) st mem in Ret (Some r)
  end.

End recover.

(** ** SSTables *)

(** [levels_[level].push_back(reader)] *)
Definition push_reader (st : Store) (level : Z) (r : SSTableReader) : Store :=
  if level =? 0 then mkStore (st_fs st) (st_mm st) (st_l0 st ++ [r]) (st_l1 st)
  else mkStore (st_fs st) (st_mm st) (st_l0 st) (st_l1 st ++ [r]).

(** The loop over the entries of the manifest, ascending ids. *)
Fixpoint load_entries (entries : list (Z * Z)) (st : Store) : outcome Store :=
  match entries with
  | [] => Ret st
  | (id, level) :: entries =>
      if 2 <=? level then load_entries entries st
      else if negb (fs_exists (st_fs st) (sst_name id)) then load_entries entries st
      else
        let* reader := SSTableReader_Open true (fs_read (st_fs st) (sst_name id)) in
        load_entries entries
          (match reader with Some r => push_reader st level r | None => st end)
  end.

(** [static_cast<int>] of the [uint64_t] that [stoull] returned. *)
Definition int_of_u64 (z : Z) : Z := i32 z.

(** The files collected when the manifest knows no SSTable. *)
Fixpoint collect_ssts (names : list bytes) : option (list (Z * bytes)) :=
  match names with
  | [] => Some []
  | name :: names =>
      match numbered (str ".sst") name with
      | None => collect_ssts names
      | Some stem =>
          match stoull stem, collect_ssts names with
          | Some id, Some l => Some ((int_of_u64 id, name) :: l)
          | _, _ => None
          end
      end
  end.

(** [operator<] on pairs, for [std::sort]. *)
Definition named_le (a b : Z * bytes) : Prop :=
  a.1 < b.1 \/ (a.1 = b.1 /\ ~ bytes_lt b.2 a.2).

#[export] Instance named_le_dec : RelDecision named_le.
Proof. intros a b. unfold named_le. apply _. Defined.

Fixpoint load_found (found : list (Z * bytes)) (st : Store) : outcome Store :=
  match found with
  | [] => Ret st
  | (id, name) :: found =>
      let* reader := SSTableReader_Open true (fs_read (st_fs st) name) in
      load_found found
        (match reader with
         | Some r =>
             let st := push_reader st 0 r in
             mkStore (st_fs st) (SetSstLevelWithoutEdit (st_mm st) (u64 id) 0) (st_l0 st) (st_l1 st)
         | None => st
         end)
  end.

(** [RecoveryLoader::LoadSSTables] *)
Definition LoadSSTables (st : Store) : outcome (option Store) :=
  let st := mkStore (st_fs st) (st_mm st) [] [] in
  if negb (bool_decide (SstLevels (st_mm st) = ∅)) then
    let* st := load_entries (sorted_entries (SstLevels (st_mm st))) st in Ret (Some st)
  else
    match collect_ssts (fs_entries (st_fs st)) with
    | None => Ret None
    | Some found =>
        let* st := load_found (merge_sort named_le found) st in
        Ret (Some (if negb (bool_decide (SstLevels (st_mm st) = ∅))
                   then with_fs st (Persist (st_mm st) (st_fs st)).1
                   else st))
    end.

(** The loop of [InitNextFileNumberFromDisk]. *)
Fixpoint max_file_id (names : list bytes) (max_id : Z) : option Z :=
  match names with
  | [] => Some max_id
  | name :: names =>
      match numbered (str ".sst") name, numbered (str ".wal") name with
      | None, None => max_file_id names max_id
      | Some stem, _ | None, Some stem =>
          match stoi stem with
          | None => None
          | Some id => max_file_id names (Z.max max_id id)
          end
      end
  end.

(** [RecoveryLoader::InitNextFileNumberFromDisk] *)
Definition InitNextFileNumberFromDisk (st : Store) : option Store :=
  match max_file_id (fs_entries (st_fs st)) 0 with
  | None => None
  | Some max_id =>
      Some (mkStore (st_fs st) (SetNextFileNumberWithoutEdit (st_mm st) max_id)
              (st_l0 st) (st_l1 st))
  end.
