(* ===== verification/DBImpl.v ===== *)
(** The store ([include/DBImpl.h], [src/DBImpl.cpp]): construction and recovery,
    [Put], [Get], [NewIterator], the flush of the immutable memory table, and
    destruction.  Operations are composed sequentially here; a [Put] that would
    block on the background thread is a separate outcome. *)
From S2P Require Import Prelude Storage OMap SSTableBuilder SSTableReader SSTable Files Crc Wal Manifest SkipList Table MemTable DBIterator Compaction Recovery.

(** The metric of the last flush duration is left out. *)
Record DBImpl := mkDB {
  db_store : Store;
  db_mem : option MemTable;
  db_imm : option MemTable;
  active_wal_id : Z;
  imm_wal_id : Z;
  minor_compact_count : Z;
  bg_stopped : bool;
  bg_compaction_scheduled : bool;
}.

(** [DBStatus], without the duration. *)
Record DBStatus := mkStatus {
  mem_count : Z;
  imm_count : Z;
  l0_count : Z;
  l1_count : Z;
  status_minor_count : Z;
}.

(** ** Construction *)

Section open.
Context (junk_t : nat -> byte) (junk_k junk_v : nat -> bytes).
Context (flips : Z -> nat -> nat -> bool).

(** [DBImpl::DBImpl] on a directory; [None] is an exception. *)
Definition DBImpl_open (fs : FS) : outcome (option DBImpl) :=
  let fs := if fs_is_dir fs then fs else mkFS true ∅ (fs_io fs) in
  let '(mm, ok) := Load ManifestManager_new fs in
  let st := mkStore fs mm [] [] in
  match (if ok then Some st
         else match InitNextFileNumberFromDisk st with
              | None => None
              | Some st => Some (with_fs st (Persist (st_mm st) (st_fs st)).1)
              end) with
  | None => Ret None
  | Some st =>
    let* (mm, ok) := ReplayLog (st_mm st) (st_fs st) in
    if negb ok then Ret None
    else
      let* loaded := LoadSSTables (mkStore (st_fs st) mm (st_l0 st) (st_l1 st)) in
      match loaded with
      | None => Ret None
      | Some st =>
        let '(st, new_wal_id) := store_AllocateFileNumber st in
        let '(mem, fs) := MemTable_new (st_fs st) (wal_name new_wal_id) in
        let st := store_AddWal (with_fs st fs) new_wal_id in
        let* recovered := RecoverFromWals junk_t junk_k junk_v flips st mem in
        match recovered with
        | None => Ret None
        | Some (st, mem) =>
            Ret (Some (mkDB st (Some mem) None new_wal_id 0 0 false false))
        end
      end
  end.

End open.

(** ** Reading *)

(** One level of [DBImpl::Get], newest reader first: [Some] when the level
    decides the answer. *)
Fixpoint get_level (readers : list SSTableReader) (key : bytes) (value : ValueRecord)
    : outcome (option (ValueRecord * bool)) :=
  match readers with
  | [] => Ret None
  | r :: readers =>
      let* rec := GetRecord r key in
      match rec with
      | Some rec =>
          if decide (vr_type rec = kDeletion) then Ret (Some (value, false))
          else Ret (Some (rec, true))
      | None => get_level readers key value
      end
  end.

(** A memory table in [DBImpl::Get]; [value] is overwritten also when the record
    found is not a value. *)
Definition get_mem (mem : option MemTable) (key : bytes) (value : ValueRecord)
    : outcome (option (ValueRecord * bool)) :=
  match mem with
  | None => Ret None
  | Some mt =>
      let* (value, found) := MemTable_Get mt key value in
      if found : bool then Ret (Some (value, bool_decide (vr_type value = kValue)))
      else Ret None
  end.

(** [DBImpl::Get] : the out-parameter and the result. *)
Definition DBImpl_Get (db : DBImpl) (key : bytes) (value : ValueRecord)
    : outcome (ValueRecord * bool) :=
  let* r := get_mem (db_mem db) key value in
  match r with
  | Some res => Ret res
  | None =>
    let* r := get_mem (db_imm db) key value in
    match r with
    | Some res => Ret res
    | None =>
      let* r := get_level (rev (st_l0 (db_store db))) key value in
      match r with
      | Some res => Ret res
      | None =>
        let* r := get_level (rev (st_l1 (db_store db))) key value in
        match r with
        | Some res => Ret res
        | None => Ret (value, false)
        end
      end
    end
  end.

(** A memory table in [DBImpl::NewIterator]. *)
Definition seen_mem (mem : option MemTable) (seen : list row) : outcome (list row) :=
  match mem with
  | None => Ret seen
  | Some mt => let* rows := MemTable_Snapshot mt in Ret (om_emplace_all rows seen)
  end.

(** The visible rows of [seen]. *)
Definition visible_rows (seen : list row) : list (bytes * bytes) :=
  flat_map (fun r => if decide (vr_type r.2 = kValue) then [(r.1, vr_value r.2)] else []) seen.

(** [DBImpl::NewIterator] *)
Definition NewIterator (db : DBImpl) : outcome DBIterator :=
  let* seen := seen_mem (db_mem db) [] in
  let* seen := seen_mem (db_imm db) seen in
  let* seen := merge_readers (rev (st_l0 (db_store db))) seen in
  let* seen := merge_readers (rev (st_l1 (db_store db))) seen in
  Ret (DBIterator_new (visible_rows seen)).

(** [DBImpl::LevelSize] *)
Definition LevelSize (db : DBImpl) (level : Z) : Z :=
  if level =? 0 then zlen (st_l0 (db_store db))
  else if level =? 1 then zlen (st_l1 (db_store db))
  else 0.

(** [DBImpl::GetStatus] *)
Definition GetStatus (db : DBImpl) : DBStatus :=
  let count (m : option MemTable) := match m with Some mt => MemTable_Count mt | None => 0 end in
  mkStatus (count (db_mem db)) (count (db_imm db))
    (zlen (st_l0 (db_store db))) (zlen (st_l1 (db_store db))) (minor_compact_count db).

(** ** Flushing *)

Definition with_store (db : DBImpl) (st : Store) : DBImpl :=
  mkDB st (db_mem db) (db_imm db) (active_wal_id db) (imm_wal_id db) (minor_compact_count db)
    (bg_stopped db) (bg_compaction_scheduled db).

(** The third phase of [DBImpl::MinorCompaction]: the new reader replaces the
    immutable table and its log. *)
Definition install_minor (db : DBImpl) (ctx : MinorCtx) (r : SSTableReader) : DBImpl :=
  let st := db_store db in
  let st := mkStore (st_fs st) (st_mm st) (st_l0 st ++ [r]) (st_l1 st) in
  let st := store_AddSst st (mc_new_sst_id ctx) 0 in
  let st := store_RemoveWal st (old_wal_id ctx) in
  let st := store_remove_file st (old_wal_path ctx) in
  mkDB st (db_mem db) None (active_wal_id db) 0 (minor_compact_count db)
    (bg_stopped db) (bg_compaction_scheduled db).

(** The first phase of [DBImpl::MinorCompaction]: [None] when there is no
    immutable table. *)
Definition minor_prepare (db : DBImpl) : option (DBImpl * MinorCtx) :=
  match db_imm db with
  | None => None
  | Some imm =>
      let '(st, id) := store_AllocateFileNumber (db_store db) in
      Some (with_store db st,
            mkMinorCtx (Some imm) (imm_wal_id db) (wal_name (imm_wal_id db)) id (sst_name id))
  end.

(** The second phase, outside the lock: write the SSTable. *)
Definition minor_build (db : DBImpl) (ctx : MinorCtx) : outcome (DBImpl * option SSTableReader) :=
  let* (fs, reader) := BuildMinorSST (st_fs (db_store db)) ctx in
  Ret (mkDB (with_fs (db_store db) fs) (db_mem db) (db_imm db) (active_wal_id db) (imm_wal_id db)
         (u64 (minor_compact_count db + 1)) (bg_stopped db) (bg_compaction_scheduled db), reader).

(** [if (levels_[0].size() >= 2)] *)
Definition trigger_l0_to_l1 (db : DBImpl) : bool := (2 <=? length (st_l0 (db_store db)))%nat.

(** [DBImpl::MinorCompaction], run without interference between its phases. *)
Definition MinorCompaction (db : DBImpl) : outcome DBImpl :=
  match minor_prepare db with
  | None => Ret db
  | Some (db, ctx) =>
      let* (db, reader) := minor_build db ctx in
      match reader with
      | None => Ret db
      | Some r =>
          let db := install_minor db ctx r in
          if trigger_l0_to_l1 db then
            let* st := CompactL0ToL1 (db_store db) in Ret (with_store db st)
          else Ret db
      end
  end.

(** One turn of [DBImpl::BackgroundLoop] behind its wait: [None] when the loop
    ends. *)
Definition background_turn (db : DBImpl) : outcome (option DBImpl) :=
  if bg_stopped db then Ret None
  else
    let* db := MinorCompaction db in
    Ret (Some (mkDB (db_store db) (db_mem db) (db_imm db) (active_wal_id db) (imm_wal_id db)
                 (minor_compact_count db) (bg_stopped db) false)).

(** ** Writing *)

Definition kMemTableThreshold : Z := 10000.

(** The switch inside [DBImpl::Put]: the full table becomes immutable. *)
Definition switch_memtable (db : DBImpl) : DBImpl :=
  let '(st, new_wal_id) := store_AllocateFileNumber (db_store db) in
  let '(mem, fs) := MemTable_new (st_fs st) (wal_name new_wal_id) in
  let st := store_AddWal (with_fs st fs) new_wal_id in
  mkDB st (Some mem) (db_mem db) new_wal_id (active_wal_id db) (minor_compact_count db)
    (bg_stopped db) true.

(** [PutWaits] : the call waits for the background thread. *)
Inductive put_result : Type :=
| PutDone (db : DBImpl)
| PutWaits.

(** The write behind the check of the threshold. *)
Definition put_mem (db : DBImpl) (key : bytes) (value : ValueRecord) (flips : nat -> bool)
    : outcome DBImpl :=
  match db_mem db with
  | None => Fault
  | Some mt =>
      let* (mt, fs) := MemTable_Put (st_fs (db_store db)) mt key value flips in
      Ret (mkDB (with_fs (db_store db) fs) (Some mt) (db_imm db) (active_wal_id db) (imm_wal_id db)
             (minor_compact_count db) (bg_stopped db) (bg_compaction_scheduled db))
  end.

(** [DBImpl::Put] *)
Definition DBImpl_Put (db : DBImpl) (key : bytes) (value : ValueRecord) (flips : nat -> bool)
    : outcome put_result :=
  match db_mem db with
  | None => Fault
  | Some mt =>
      if kMemTableThreshold <=? MemTable_Count mt then
        match db_imm db with
        | Some _ => Ret PutWaits
        | None => let* db := put_mem (switch_memtable db) key value flips in Ret (PutDone db)
        end
      else let* db := put_mem db key value flips in Ret (PutDone db)
  end.

(** The condition that [DBImpl::Sync] waits for. *)
Definition Sync_done (db : DBImpl) : bool :=
  match db_imm db with None => negb (bg_compaction_scheduled db) | Some _ => false end.

(** ** Destruction *)

(** [DBImpl::~DBImpl], the background thread having ended: the directory that is
    left.  An immutable table still pending is overwritten. *)
Definition DBImpl_close (db : DBImpl) : outcome FS :=
  let flush :=
    match db_mem db with
    | Some mt => 0 <? MemTable_Count mt
    | None => false
    end in
  if flush then
    let* db := MinorCompaction
      (mkDB (db_store db) None (db_mem db) (active_wal_id db) (active_wal_id db)
         (minor_compact_count db) true (bg_compaction_scheduled db)) in
    Ret (st_fs (db_store db))
  else Ret (st_fs (db_store db)).

(** ** Specification *)

Definition opt_list {A} (o : option A) : list A := match o with Some a => [a] | None => [] end.

(** The tables of the store, newest first. *)
Definition db_stack (M I : option (list row)) (R0 R1 : list (list row)) : list (list row) :=
  opt_list M ++ opt_list I ++ disk_stack R0 R1.

(** The store holds these tables. *)
Record db_inv (db : DBImpl) (M I : option (list row)) (R0 R1 : list (list row)) : Prop := {
  di_mem : option_Forall2 mem_holds (db_mem db) M;
  di_imm : option_Forall2 mem_holds (db_imm db) I;
  di_store : store_inv (db_store db) R0 R1;
  di_typed : Forall typed (opt_list M ++ opt_list I);
  di_rows : Forall (Forall row_ok) (opt_list M ++ opt_list I);
  di_imm_rows : I <> Some [];
}.

(** What the user sees under a key. *)
Definition stack_view (srcs : list (list row)) (k : bytes) : option bytes :=
  visible_value (stack_find k srcs).

(** The octets of all tables. *)
Definition db_bytes (M I : option (list row)) (R0 R1 : list (list row)) : Z :=
  stack_bytes (opt_list M ++ opt_list I ++ R0 ++ R1).

Definition next_number (db : DBImpl) : Z := next_file_number (mm_state (st_mm (db_store db))).

(** The store shows exactly the map [m]; its tables have at most [n] octets. *)
Definition represents (db : DBImpl) (m : gmap bytes bytes) (n : Z) : Prop :=
  exists M I R0 R1, db_inv db M I R0 R1 /\ M <> None /\
    (forall k, stack_view (db_stack M I R0 R1) k = m !! k) /\ db_bytes M I R0 R1 <= n.

(** Requests of the user and turns of the background thread. *)
Inductive db_event : Type :=
| ev_put (key : bytes) (value : ValueRecord) (flips : nat -> bool)
| ev_background.

(** The new state, and whether the event was completed: a [Put] that has to wait
    changes nothing. *)
Definition run_event (db : DBImpl) (e : db_event) : outcome (DBImpl * bool) :=
  match e with
  | ev_put k v flips =>
      let* r := DBImpl_Put db k v flips in
      match r with PutDone db => Ret (db, true) | PutWaits => Ret (db, false) end
  | ev_background => let* db := MinorCompaction db in Ret (db, true)
  end.

Fixpoint run_events (db : DBImpl) (es : list db_event) : outcome (DBImpl * list bool) :=
  match es with
  | [] => Ret (db, [])
  | e :: es =>
      let* (db, b) := run_event db e in
      let* (db, bs) := run_events db es in Ret (db, b :: bs)
  end.

(** The same requests on a map. *)
Definition spec_put (m : gmap bytes bytes) (k : bytes) (v : ValueRecord) : gmap bytes bytes :=
  if decide (vr_type v = kValue) then <[k := vr_value v]> m else delete k m.

Definition spec_event (m : gmap bytes bytes) (e : db_event) (completed : bool) : gmap bytes bytes :=
  match e with
  | ev_put k v _ => if completed then spec_put m k v else m
  | ev_background => m
  end.

Fixpoint spec_events (m : gmap bytes bytes) (es : list db_event) (bs : list bool) : gmap bytes bytes :=
  match es, bs with
  | e :: es, b :: bs => spec_events (spec_event m e b) es bs
  | _, _ => m
  end.

Definition event_ok (e : db_event) : Prop :=
  match e with
  | ev_put k v _ => row_ok (k, v) /\ record_typed v
  | ev_background => True
  end.

Definition event_bytes (e : db_event) : Z :=
  match e with
  | ev_put k v _ => zlen (encode_row (k, v))
  | ev_background => 0
  end.

Definition events_bytes (es : list db_event) : Z := fold_right (fun e n => event_bytes e + n) 0 es.

(** * Lemmas *)

Lemma db_stack_typed db M I R0 R1 :
  db_inv db M I R0 R1 -> Forall typed (db_stack M I R0 R1).
Proof.
  intros [_ _ [_ _ Ht _ _ _ _ _] Ht' _ _]. unfold db_stack, disk_stack.
  apply Forall_app in Ht as [? ?]. rewrite app_assoc. apply Forall_app. split; [done|].
  apply Forall_app. split; by apply Forall_rev.
Qed.

(** ** Reading *)

(** The answer of [Get] about a record. *)
Definition answers (o : option ValueRecord) (value : ValueRecord) (res : ValueRecord * bool) : Prop :=
  res.2 = bool_decide (is_Some (visible_value o)) /\
  (forall x, visible_value o = Some x -> res.1 = mkRecord kValue x).

Lemma answers_value r value : vr_type r = kValue -> answers (Some r) value (r, true).
Proof.
  intros E. unfold answers. cbn. rewrite decide_True by done. split.
  - symmetry. by apply bool_decide_eq_true.
  - intros x [= <-]. destruct r. cbn in *. by subst.
Qed.

Lemma answers_hidden o value r : visible_value o = None -> answers o value (r, false).
Proof.
  intros E. unfold answers. rewrite E. split; [|done]. symmetry. apply bool_decide_eq_false. by intros [? ?].
Qed.

Lemma get_level_holds readers R k value :
  Forall2 table_holds readers R -> Forall typed R ->
  exists o, get_level readers k value = Ret o /\
    match stack_find k R, o with
    | Some r, Some res => answers (Some r) value res
    | None, None => True
    | _, _ => False
    end.
Proof.
  induction 1 as [|t rows readers R Ht _ IH]; intros Hty; [by exists None|].
  apply Forall_cons in Hty as [Hty1 Hty]. cbn [get_level stack_find].
  destruct (th_get _ _ Ht k) as (o & Hg & Ho). cbn in Hg. rewrite Hg. cbn [obind].
  destruct (om_find k rows) as [v|] eqn:Ev; inversion Ho as [o' v' Hov|]; subst; [|by apply IH].
  pose proof (om_find_typed _ _ _ Hty1 Ev) as Hv. destruct Hov as [Ety Eval].
  destruct (decide (vr_type o' = kDeletion)) as [E|E]; (eexists; split; [reflexivity|]).
  - apply answers_hidden. cbn. rewrite decide_False; [done|]. by rewrite <- Ety, E.
  - assert (Ek : vr_type o' = kValue) by (rewrite Ety in *; by destruct Hv).
    pose proof (answers_value o' value Ek) as [H1 H2]. split; cbn in *.
    + rewrite H1. by rewrite Ety, Eval.
    + intros x. rewrite <- Ety, <- Eval by done. apply H2.
Qed.

Lemma get_mem_holds mem M k value :
  option_Forall2 mem_holds mem M -> Forall typed (opt_list M) ->
  exists o, get_mem mem k value = Ret o /\
    match stack_find k (opt_list M), o with
    | Some r, Some res => answers (Some r) value res
    | None, None => True
    | _, _ => False
    end.
Proof.
  intros [mt rows (ns & Hrep & <-)|] Ht; [|by exists None]. cbn [opt_list stack_find] in *.
  apply Forall_cons in Ht as [Ht _]. unfold get_mem, MemTable_Get.
  rewrite (search_element_rep _ _ _ _ Hrep). cbn [obind].
  destruct (om_find k (node_rows ns)) as [r|] eqn:Er; cbn [obind]; [|by exists None].
  eexists. split; [reflexivity|].
  destruct (om_find_typed _ _ _ Ht Er) as [E|E].
  - rewrite E, bool_decide_eq_true_2 by done. by apply answers_value.
  - rewrite E, bool_decide_eq_false_2 by done. apply answers_hidden. cbn. by rewrite E.
Qed.

(** One stage of the lookup. *)
Lemma get_stage k value s1 s2 (o1 : option (ValueRecord * bool))
    (next : outcome (ValueRecord * bool)) :
  match stack_find k s1, o1 with
  | Some r, Some res => answers (Some r) value res
  | None, None => True
  | _, _ => False
  end ->
  (exists res, next = Ret res /\ answers (stack_find k s2) value res) ->
  exists res, match o1 with Some res => Ret res | None => next end = Ret res /\
    answers (stack_find k (s1 ++ s2)) value res.
Proof.
  rewrite stack_find_app. destruct (stack_find k s1), o1; try done; intros H1 H2; eauto.
Qed.

(** [Get] answers what the stack shows. *)
Lemma DBImpl_Get_holds db M I R0 R1 k value :
  db_inv db M I R0 R1 ->
  exists res, DBImpl_Get db k value = Ret res /\
    answers (stack_find k (db_stack M I R0 R1)) value res.
Proof.
  intros [Hm Hi [Hl0 Hl1 Ht _ _ _ _ _] Ht' _ _].
  apply Forall_app in Ht as [Ht0 Ht1]. apply Forall_app in Ht' as [Htm Hti].
  unfold DBImpl_Get, db_stack, disk_stack.
  destruct (get_mem_holds _ _ k value Hm Htm) as (o1 & -> & H1). cbn [obind].
  apply get_stage; [done|]. destruct (get_mem_holds _ _ k value Hi Hti) as (o2 & -> & H2). cbn [obind].
  apply get_stage; [done|].
  destruct (get_level_holds _ _ k value (Forall2_rev _ _ _ Hl0)) as (o3 & -> & H3); [by apply Forall_rev|].
  cbn [obind]. apply get_stage; [done|].
  destruct (get_level_holds _ _ k value (Forall2_rev _ _ _ Hl1)) as (o4 & -> & H4); [by apply Forall_rev|].
  cbn [obind]. rewrite <- (app_nil_r (rev R1)). apply get_stage; [done|].
  eexists. split; [done|]. by apply answers_hidden.
Qed.

(** ** Iterating *)

Lemma seen_mem_holds mem M seen :
  option_Forall2 mem_holds mem M -> seen_mem mem seen = Ret (stack_merge (opt_list M) seen).
Proof.
  intros [mt rows H|]; [|done]. unfold seen_mem.
  pose proof (th_scan _ _ (mem_table_holds _ _ H)) as Hs. cbn in Hs. by rewrite Hs.
Qed.

Lemma stack_merge_app s1 s2 seen : stack_merge (s1 ++ s2) seen = stack_merge s2 (stack_merge s1 seen).
Proof. apply fold_left_app. Qed.

Lemma NewIterator_holds db M I R0 R1 :
  db_inv db M I R0 R1 ->
  NewIterator db = Ret (DBIterator_new (visible_rows (stack_merge (db_stack M I R0 R1) []))).
Proof.
  intros [Hm Hi [Hl0 Hl1 _ _ _ _ _ _] _ _ _]. unfold NewIterator, db_stack, disk_stack.
  rewrite (seen_mem_holds _ _ _ Hm). cbn [obind]. rewrite (seen_mem_holds _ _ _ Hi). cbn [obind].
  rewrite (merge_readers_holds _ (rev R0)) by (by apply Forall2_rev). cbn [obind].
  rewrite (merge_readers_holds _ (rev R1)) by (by apply Forall2_rev). cbn [obind].
  by rewrite !stack_merge_app.
Qed.

Lemma visible_rows_cons r rows :
  visible_rows (r :: rows) =
  (if decide (vr_type r.2 = kValue) then [(r.1, vr_value r.2)] else []) ++ visible_rows rows.
Proof. done. Qed.

Lemma visible_rows_keys rows k v : (k, v) ∈ visible_rows rows -> exists r, (k, r) ∈ rows.
Proof.
  induction rows as [|[k' r'] rows IH]; [set_solver|]. rewrite visible_rows_cons, elem_of_app. cbn.
  intros [H|H]; [|destruct (IH H); set_solver].
  case_decide; [|set_solver]. apply list_elem_of_singleton in H. simplify_eq. set_solver.
Qed.

(** The visible rows are sorted and have the visible value of every key. *)
Lemma visible_rows_sorted rows : om_sorted rows -> om_sorted (visible_rows rows).
Proof.
  induction rows as [|[k r] rows IH]; intros Hs; [constructor|].
  apply om_sorted_cons in Hs as [Hlt Hs]. rewrite visible_rows_cons. cbn.
  case_decide; [|by apply IH]. cbn. apply om_sorted_cons. split; [|by apply IH].
  apply Forall_forall. intros [k' v'] Hin. apply visible_rows_keys in Hin as [r' Hin].
  rewrite Forall_forall in Hlt. by apply (Hlt (k', r')).
Qed.

Lemma visible_rows_find k rows :
  om_sorted rows -> om_find k (visible_rows rows) = visible_value (om_find k rows).
Proof.
  induction rows as [|[k' r] rows IH]; intros Hs; [done|].
  apply om_sorted_cons in Hs as [Hlt Hs]. rewrite visible_rows_cons. cbn [fst snd om_find].
  destruct (decide (k = k')) as [->|Hne].
  - cbn [visible_value]. case_decide; [cbn; by rewrite decide_True|]. cbn [app]. rewrite IH by done.
    rewrite om_find_below; [done|]. eapply Forall_impl; [exact Hlt|]. by intros [? ?].
  - case_decide; cbn [app]; [cbn; rewrite decide_False by done|]; by apply IH.
Qed.

(** ** Writing *)

Lemma om_insert_bytes k v rows :
  zlen (encode_rows (om_insert k v rows)) <= zlen (encode_row (k, v)) + zlen (encode_rows rows).
Proof.
  rewrite zlen_encode_row. cbn [fst snd].
  induction rows as [|[k' v'] rows IH]; cbn [om_insert].
  - rewrite zlen_encode_rows_cons. cbn [fst snd]. lia.
  - destruct (bytes_compare k k'); rewrite !zlen_encode_rows_cons in *; cbn [fst snd];
      pose proof (zlen_nonneg k'); pose proof (zlen_nonneg (vr_value v')); lia.
Qed.

Lemma om_insert_typed k v rows : record_typed v -> typed rows -> typed (om_insert k v rows).
Proof. intros Hv Hr. by apply om_insert_Forall. Qed.

Lemma AddLog_io fs h k v t : suffix (fs_io (AddLog fs h k v t).2) (fs_io fs).
Proof.
  unfold AddLog, fs_append. destruct (wh_good h); [|done].
  pose proof (fs_write_io fs (wh_filename h) (default [] (fs_read fs (wh_filename h))) (wal_record k v t)) as H.
  by destruct (fs_write _ _ _ _).
Qed.

Lemma MemTable_new_io fs name : suffix (fs_io (MemTable_new fs name).2) (fs_io fs).
Proof.
  unfold MemTable_new, WalHandler_new, fs_open_append, fs_next_io.
  destruct (fs_io fs) as [|[| |n] q] eqn:E; cbn; rewrite ?E; try done; by apply suffix_cons_r.
Qed.

Lemma stack_find_hit k rows srcs :
  stack_view (rows :: srcs) k =
  match om_find k rows with Some r => visible_value (Some r) | None => stack_view srcs k end.
Proof. unfold stack_view. cbn [stack_find]. by destruct (om_find k rows). Qed.

(** What a write does to a store. *)
Definition put_post (db' : DBImpl) (M I M' I' : option (list row)) (R0 R1 : list (list row))
    (key : bytes) (value : ValueRecord) : Prop :=
  db_inv db' M' I' R0 R1 /\ M' <> None /\
  (forall k, stack_view (db_stack M' I' R0 R1) k =
    if decide (k = key) then visible_value (Some value) else stack_view (db_stack M I R0 R1) k) /\
  db_bytes M' I' R0 R1 <= zlen (encode_row (key, value)) + db_bytes M I R0 R1.

Lemma put_mem_holds db rows I R0 R1 key value flips :
  db_inv db (Some rows) I R0 R1 -> row_ok (key, value) -> record_typed value ->
  exists db', put_mem db key value flips = Ret db' /\
    put_post db' (Some rows) I (Some (om_insert key value rows)) I R0 R1 key value /\
    next_number db' = next_number db.
Proof.
  intros [Hm Hi Hst Ht Hr Hne] Hrow Hty. unfold put_mem. inversion Hm as [mt rows' Hmt E1 E2|]; subst.
  destruct (MemTable_Put_holds (st_fs (db_store db)) mt rows key value flips Hmt) as (mt' & -> & _ & Hmt').
  cbn [obind]. eexists. split; [reflexivity|].
  cbn [opt_list app] in Ht, Hr. apply Forall_cons in Ht as [Ht1 Ht2]. apply Forall_cons in Hr as [Hr1 Hr2].
  split; [|done]. split; [|split; [done|split]].
  - split; cbn [db_mem db_imm db_store opt_list app]; try done.
    + by constructor.
    + apply (store_inv_same (db_store db)); try done. apply AddLog_io.
    + constructor; [by apply om_insert_typed|done].
    + constructor; [by apply om_insert_Forall|done].
  - intros k. unfold db_stack. cbn [opt_list app]. rewrite !stack_find_hit, om_find_insert.
    by case_decide.
  - unfold db_bytes. cbn [opt_list app]. unfold stack_bytes. cbn [fold_right].
    pose proof (om_insert_bytes key value rows). lia.
Qed.

(** The switch makes the full table immutable and starts an empty one. *)
Lemma switch_memtable_holds db rows R0 R1 :
  db_inv db (Some rows) None R0 R1 -> rows <> [] -> next_number db + 1 < 2 ^ 64 ->
  db_inv (switch_memtable db) (Some []) (Some rows) R0 R1 /\
  next_number (switch_memtable db) = next_number db + 1.
Proof.
  intros [Hm Hi Hst Ht Hr _] Hne Hn. unfold switch_memtable, next_number in *.
  pose proof (allocate_inv (db_store db) R0 R1 Hst Hn) as Ha.
  destruct (store_AllocateFileNumber (db_store db)) as [st1 id].
  destruct Ha as (Hst1 & -> & Hn1 & _ & _ & _ & _ & _). set (id := next_file_number _ + 1) in *.
  pose proof (MemTable_new_holds (st_fs st1) (wal_name id)) as Hmem.
  pose proof (MemTable_new_io (st_fs st1) (wal_name id)) as Hio.
  destruct (MemTable_new (st_fs st1) (wal_name id)) as [mem fs]. cbn [fst snd] in *.
  destruct (store_AddWal_step (with_fs st1 fs) id) as (H1 & H2 & H3 & H4).
  cbn [spec_call with_fs st_mm st_l0 st_l1 st_fs] in *. split.
  - split; cbn [db_mem db_imm db_store opt_list app] in *; try done.
    + by constructor.
    + apply (store_inv_same st1); rewrite ?H1; cbn; try done. by etransitivity.
    + by constructor; [constructor|].
    + by constructor; [constructor|].
    + congruence.
  - cbn [db_store]. rewrite H1. cbn. by rewrite Hn1.
Qed.

Lemma count_nonempty mt rows : mem_holds mt rows -> 0 < MemTable_Count mt -> rows <> [].
Proof. intros H Hc ->. rewrite (MemTable_Count_holds _ _ H) in Hc. by vm_compute in Hc. Qed.

(** [Put] either waits, when the immutable table is still there, or writes. *)
Lemma DBImpl_Put_holds db rows I R0 R1 key value flips :
  db_inv db (Some rows) I R0 R1 -> row_ok (key, value) -> record_typed value ->
  next_number db + 1 < 2 ^ 64 ->
  (DBImpl_Put db key value flips = Ret PutWaits /\ I <> None) \/
  exists db' M' I', DBImpl_Put db key value flips = Ret (PutDone db') /\
    put_post db' (Some rows) I M' I' R0 R1 key value /\
    next_number db <= next_number db' <= next_number db + 1.
Proof.
  intros Hinv Hrow Hty Hn. pose proof Hinv as [Hm Hi _ _ _ _]. unfold DBImpl_Put.
  inversion Hm as [mt rows' Hmt E1 E2|]; subst.
  destruct (Z.leb_spec kMemTableThreshold (MemTable_Count mt)) as [Hfull|Hroom].
  - destruct Hi as [imm rows_i Himm|]; [left; done|right].
    destruct (switch_memtable_holds db rows R0 R1 Hinv) as [Hinv' Hn']; [|done|].
    { apply (count_nonempty mt); [done|]. unfold kMemTableThreshold in Hfull. lia. }
    destruct (put_mem_holds _ [] (Some rows) R0 R1 key value flips Hinv' Hrow Hty)
      as (db' & -> & (Hdb & Hne & Hv & Hb) & Hnn). cbn [obind].
    eexists _, _, _. split; [reflexivity|]. split; [|lia]. split; [done|]. split; [done|]. split.
    + intros k. rewrite Hv. done.
    + etransitivity; [exact Hb|]. unfold db_bytes, stack_bytes. cbn [opt_list app fold_right].
      change (zlen (encode_rows [])) with 0. lia.
  - right. destruct (put_mem_holds db rows I R0 R1 key value flips Hinv Hrow Hty) as (db' & -> & Hp & Hnn).
    cbn [obind]. eexists _, _, _. split; [reflexivity|]. split; [exact Hp|lia].
Qed.

(** ** Flushing *)

(** What a flush does to a store. *)
Definition flush_post (db db' : DBImpl) (M I I' : option (list row)) (R0 R1 R0' R1' : list (list row))
    : Prop :=
  db_inv db' M I' R0' R1' /\
  (forall k, stack_view (db_stack M I' R0' R1') k = stack_view (db_stack M I R0 R1) k) /\
  db_bytes M I' R0' R1' <= db_bytes M I R0 R1 /\
  next_number db <= next_number db' <= next_number db + 2 /\
  (fs_io (st_fs (db_store db)) = [] -> db_imm db' = None).

Lemma stack_view_app s1 s2 k :
  stack_view (s1 ++ s2) k =
  match stack_find k s1 with Some r => visible_value (Some r) | None => stack_view s2 k end.
Proof. unfold stack_view. rewrite stack_find_app. by destruct (stack_find k s1). Qed.

(** Views agree when the lower parts do. *)
Lemma stack_view_app_ext s s1 s2 k :
  stack_view s1 k = stack_view s2 k -> stack_view (s ++ s1) k = stack_view (s ++ s2) k.
Proof. intros H. rewrite !stack_view_app. by destruct (stack_find k s). Qed.

(** The third phase: the reader of the flushed rows takes over from the
    immutable table. *)
Lemma install_minor_holds db ctx r M rows R0 R1 :
  db_inv db M (Some rows) R0 R1 -> table_holds r rows ->
  sst_levels (mm_state (st_mm (db_store db))) !! mc_new_sst_id ctx = None ->
  0 <= mc_new_sst_id ctx <= next_number db ->
  let db' := install_minor db ctx r in
  db_inv db' M None (R0 ++ [rows]) R1 /\ next_number db' = next_number db /\
  suffix (fs_io (st_fs (db_store db'))) (fs_io (st_fs (db_store db))).
Proof.
  intros [Hm Hi Hst Ht Hr Hne] Hh Hfresh Hid db'.
  apply Forall_app in Ht as [HtM [HtI _]%Forall_cons]. apply Forall_app in Hr as [HrM [HrI _]%Forall_cons].
  destruct (install_inv (db_store db) R0 R1 r rows (mc_new_sst_id ctx) 0 Hst Hh HtI HrI Hfresh Hid)
    as [Hst2 (S1 & S2 & S3 & S4)]; [by left|]. cbn [Z.eqb] in Hst2, S1, S2, S3, S4.
  set (st2 := store_AddSst _ (mc_new_sst_id ctx) 0) in *.
  destruct (store_RemoveWal_step st2 (old_wal_id ctx)) as (W1 & W2 & W3 & W4).
  assert (Em : mm_state (st_mm (db_store db')) =
    spec_call (mm_state (st_mm st2)) (call_RemoveWal (old_wal_id ctx))) by exact W1.
  assert (Hs : suffix (fs_io (st_fs (db_store db'))) (fs_io (st_fs (db_store db)))).
  { unfold db', install_minor. cbn [db_store]. fold st2. by etransitivity. }
  split; [|split; [|done]].
  - split; cbn [db' install_minor db_mem db_imm opt_list]; rewrite ?app_nil_r; try done.
    + constructor.
    + by apply (store_inv_same st2); rewrite ?Em.
  - unfold next_number. rewrite Em. cbn. by rewrite S1.
Qed.

Lemma minor_stack k M rows R0 R1 :
  stack_view (db_stack M None (R0 ++ [rows]) R1) k = stack_view (db_stack M (Some rows) R0 R1) k.
Proof. unfold db_stack, disk_stack. cbn [opt_list app]. by rewrite rev_app_distr. Qed.

Lemma minor_bytes M rows R0 R1 : db_bytes M None (R0 ++ [rows]) R1 = db_bytes M (Some rows) R0 R1.
Proof.
  unfold db_bytes. rewrite !stack_bytes_app. cbn [opt_list]. unfold stack_bytes. cbn [fold_right]. lia.
Qed.

Lemma compact_view k M I R0 R1 R0' R1' :
  visible_value (stack_find k (disk_stack R0' R1')) = visible_value (stack_find k (disk_stack R0 R1)) ->
  stack_view (db_stack M I R0' R1') k = stack_view (db_stack M I R0 R1) k.
Proof. intros H. unfold db_stack. by do 2 apply stack_view_app_ext. Qed.

Lemma rows_ok_stack rows M R0 R1 :
  Forall row_ok rows -> db_bytes M (Some rows) R0 R1 < 2 ^ 60 -> rows_ok rows.
Proof.
  intros Hr Hb. split; [done|]. unfold db_bytes in Hb. rewrite stack_bytes_app in Hb.
  unfold stack_bytes at 2 in Hb. cbn [opt_list app fold_right] in Hb. fold (stack_bytes (R0 ++ R1)) in Hb.
  pose proof (stack_bytes_nonneg (opt_list M)). pose proof (stack_bytes_nonneg (R0 ++ R1)). lia.
Qed.

(** A context that was prepared for the immutable table of [db]. *)
Record minor_ready (db : DBImpl) (ctx : MinorCtx) : Prop := {
  mr_imm : flushing_imm ctx = db_imm db;
  mr_path : mc_new_sst_path ctx = sst_name (mc_new_sst_id ctx);
  mr_fresh : sst_levels (mm_state (st_mm (db_store db))) !! mc_new_sst_id ctx = None;
  mr_id : 0 <= mc_new_sst_id ctx <= next_number db;
}.

Lemma minor_ready_stable db db' ctx :
  minor_ready db ctx -> db_imm db' = db_imm db -> store_stable (db_store db) (db_store db') ->
  minor_ready db' ctx.
Proof.
  intros [H1 H2 H3 H4] E [_ _ S3 S4 _]. split; rewrite ?E, ?S3; try done.
  unfold next_number in *. lia.
Qed.

(** The tables of [db] are in place when only the store changed, stably. *)
Lemma db_inv_stable db db' M I R0 R1 :
  db_inv db M I R0 R1 -> db_mem db' = db_mem db -> db_imm db' = db_imm db ->
  store_stable (db_store db) (db_store db') -> db_inv db' M I R0 R1.
Proof.
  intros [H1 H2 H3 H4 H5 H6] Em Ei Hs. split; rewrite ?Em, ?Ei; try done.
  by eapply store_inv_stable.
Qed.

Lemma minor_prepare_holds db M rows R0 R1 :
  db_inv db M (Some rows) R0 R1 -> next_number db + 1 < 2 ^ 64 ->
  exists db' ctx, minor_prepare db = Some (db', ctx) /\
    db_inv db' M (Some rows) R0 R1 /\ minor_ready db' ctx /\
    db_mem db' = db_mem db /\ next_number db' = next_number db + 1 /\
    store_stable (db_store db) (db_store db').
Proof.
  intros Hinv Hn. pose proof Hinv as [_ Hi Hst _ _ _]. unfold minor_prepare.
  inversion Hi as [imm rows' _ E1 E2|]; subst.
  pose proof (allocate_inv (db_store db) R0 R1 Hst Hn) as Ha.
  pose proof (allocate_stable (db_store db) R0 R1 Hst Hn) as Hs.
  destruct (store_AllocateFileNumber (db_store db)) as [st1 id].
  destruct Ha as (_ & Hid & Hn1 & _ & _ & As & _). cbn [fst] in Hs.
  eexists _, _. split; [reflexivity|]. fold (next_number db) in Hid.
  pose proof (si_next _ _ _ Hst). fold (next_number db) in *.
  split; [by apply (db_inv_stable db)|]. split; [|split; [done|split; [|done]]].
  - split; cbn [flushing_imm mc_new_sst_path mc_new_sst_id db_imm db_store with_store]; try done.
    + rewrite As. destruct (_ !! id) as [l|] eqn:El; [|done]. apply (si_ids _ _ _ Hst) in El.
      fold (next_number db) in El. lia.
    + unfold next_number. cbn [db_store with_store]. lia.
  - unfold next_number at 1. cbn [db_store with_store]. lia.
Qed.

Lemma minor_build_holds db ctx M rows R0 R1 :
  db_inv db M (Some rows) R0 R1 -> minor_ready db ctx -> db_bytes M (Some rows) R0 R1 < 2 ^ 60 ->
  exists db' o, minor_build db ctx = Ret (db', o) /\
    db_mem db' = db_mem db /\ db_imm db' = db_imm db /\
    next_number db' = next_number db /\ store_stable (db_store db) (db_store db') /\
    (fs_io (st_fs (db_store db)) = [] -> o <> None) /\
    match o with Some r => table_holds r rows | None => True end.
Proof.
  intros [_ Hi Hst _ Hr Hne] [M1 M2 _ _] Hb. unfold minor_build, BuildMinorSST. rewrite M1, M2.
  inversion Hi as [imm rows' Himm E1 E2|]; subst.
  rewrite decide_False by apply sst_name_nonempty.
  pose proof (th_scan _ _ (mem_table_holds _ _ Himm)) as Hscan. cbn in Hscan. unfold MemTable_Snapshot in Hscan.
  rewrite Hscan. cbn [obind]. apply Forall_app in Hr as [_ [HrI _]%Forall_cons].
  destruct (write_and_open_calm (st_fs (db_store db)) (sst_name (mc_new_sst_id ctx)) rows)
    as (fs' & o & -> & Hio & Hok & Hold).
  { apply Hst. } { congruence. } { by eapply rows_ok_stack. } { by eapply mem_holds_sorted. }
  cbn [obind]. eexists _, o. split; [reflexivity|]. do 3 (split; [done|]). split; [by split|done].
Qed.

(** The end of [MinorCompaction] once the reader is there. *)
Lemma minor_tail_holds db ctx r M rows R0 R1 :
  db_inv db M (Some rows) R0 R1 -> table_holds r rows -> minor_ready db ctx ->
  db_bytes M (Some rows) R0 R1 < 2 ^ 60 -> next_number db + 1 < 2 ^ 64 ->
  let db1 := install_minor db ctx r in
  exists db' R0' R1',
    (if trigger_l0_to_l1 db1
     then let* st := CompactL0ToL1 (db_store db1) in Ret (with_store db1 st)
     else Ret db1) = Ret db' /\
    db_inv db' M None R0' R1' /\
    (forall k, stack_view (db_stack M None R0' R1') k = stack_view (db_stack M (Some rows) R0 R1) k) /\
    db_bytes M None R0' R1' <= db_bytes M (Some rows) R0 R1 /\
    next_number db <= next_number db' <= next_number db + 1.
Proof.
  intros Hinv Hh [_ _ Hfresh Hid] Hb Hn db1.
  destruct (install_minor_holds db ctx r M rows R0 R1 Hinv Hh Hfresh Hid) as (Hinv1 & Hn1 & _).
  fold db1 in Hinv1, Hn1. destruct (trigger_l0_to_l1 db1).
  2:{ exists db1, (R0 ++ [rows]), R1. split; [done|]. split; [done|].
      split; [intros k; apply minor_stack|]. rewrite minor_bytes, Hn1. lia. }
  rewrite <- minor_bytes in Hb. unfold db_bytes in Hb. cbn [opt_list app] in Hb.
  rewrite stack_bytes_app in Hb. pose proof (stack_bytes_nonneg (opt_list M)).
  destruct (CompactL0ToL1_holds (db_store db1) (R0 ++ [rows]) R1) as (st' & R0' & R1' & -> & P1 & P2 & P3 & P4 & _ & _).
  { apply Hinv1. } { lia. } { unfold next_number in *. lia. }
  cbn [obind]. exists (with_store db1 st'), R0', R1'. split; [done|]. destruct Hinv1 as [Hm1 Hi1 _ Ht1 Hr1 _].
  split; [by split|]. split.
  { intros k. rewrite <- minor_stack. by apply compact_view. }
  split; [|unfold next_number in *; cbn; lia].
  rewrite <- minor_bytes. unfold db_bytes. cbn [opt_list app]. rewrite !(stack_bytes_app (opt_list M)). lia.
Qed.

Lemma MinorCompaction_holds db M I R0 R1 :
  db_inv db M I R0 R1 -> db_bytes M I R0 R1 < 2 ^ 60 -> next_number db + 2 < 2 ^ 64 ->
  exists db' I' R0' R1', MinorCompaction db = Ret db' /\ flush_post db db' M I I' R0 R1 R0' R1'.
Proof.
  intros Hinv Hb Hn. unfold MinorCompaction. destruct I as [rows|].
  2:{ pose proof Hinv as [_ Hi _ _ _ _]. unfold minor_prepare. inversion Hi as [|E1 E2]; subst.
      exists db, None, R0, R1. do 4 (split; [done|]). split; [lia|done]. }
  destruct (minor_prepare_holds db M rows R0 R1 Hinv ltac:(lia)) as (db1 & ctx & -> & Hinv1 & Hr1 & _ & Hn1 & Hs1).
  destruct (minor_build_holds db1 ctx M rows R0 R1 Hinv1 Hr1 Hb) as (db2 & o & -> & Em & Ei & Hn2 & Hs2 & Hok & Ho).
  cbn [obind]. pose proof (db_inv_stable _ _ _ _ _ _ Hinv1 Em Ei Hs2) as Hinv2.
  destruct o as [r|].
  - destruct (minor_tail_holds db2 ctx r M rows R0 R1) as (db' & R0' & R1' & -> & H1 & H2 & H3 & H4); try done.
    + by eapply minor_ready_stable.
    + lia.
    + exists db', None, R0', R1'. do 4 (split; [done|]).
      split; [lia|]. intros _. destruct H1 as [_ Hi' _ _ _ _]. by inversion Hi'.
  - exists db2, (Some rows), R0, R1. do 4 (split; [done|]). split; [lia|].
    intros Hnil. exfalso. apply Hok; [|done]. pose proof (ss_io _ _ Hs1) as Hio. rewrite Hnil in Hio.
    by apply suffix_nil_inv in Hio.
Qed.

(** ** Sequences of events *)

Lemma visible_some value :
  record_typed value ->
  visible_value (Some value) = if decide (vr_type value = kValue) then Some (vr_value value) else None.
Proof. done. Qed.

Lemma spec_put_lookup m key value k :
  spec_put m key value !! k = if decide (k = key) then visible_value (Some value) else m !! k.
Proof.
  unfold spec_put. cbn. destruct (decide (vr_type value = kValue));
    rewrite ?lookup_insert, ?lookup_delete; by repeat case_decide; subst.
Qed.

Lemma event_bytes_nonneg e : 0 <= event_bytes e.
Proof. destruct e; cbn; [apply zlen_nonneg|lia]. Qed.

Lemma run_event_holds db m n e :
  represents db m n -> event_ok e -> n + event_bytes e < 2 ^ 60 -> next_number db + 2 < 2 ^ 64 ->
  exists db' b, run_event db e = Ret (db', b) /\
    represents db' (spec_event m e b) (n + event_bytes e) /\ next_number db' <= next_number db + 2.
Proof.
  intros (M & I & R0 & R1 & Hinv & Hne & Hv & Hb) He Hbytes Hn.
  pose proof (event_bytes_nonneg e) as Hpos. destruct e as [k v flips|]; cbn [run_event spec_event].
  - destruct M as [rows|]; [|done]. destruct He as [Hrow Hty].
    destruct (DBImpl_Put_holds db rows I R0 R1 k v flips Hinv Hrow Hty ltac:(lia))
      as [[-> _]|(db' & M' & I' & -> & (Hinv' & Hne' & Hv' & Hb') & Hn')]; cbn [obind].
    + exists db, false. split; [done|]. split; [|lia]. exists (Some rows), I, R0, R1.
      do 3 (split; [done|]). lia.
    + exists db', true. split; [done|]. split; [|lia]. exists M', I', R0, R1.
      do 2 (split; [done|]). split; [|cbn [event_bytes]; lia].
      intros j. by rewrite Hv', spec_put_lookup, Hv.
  - destruct (MinorCompaction_holds db M I R0 R1 Hinv) as (db' & I' & R0' & R1' & -> & F1 & F2 & F3 & F4 & _).
    { cbn in *. lia. } { lia. }
    cbn [obind]. exists db', true. split; [done|]. split; [|lia]. exists M, I', R0', R1'.
    do 2 (split; [done|]). split; [|cbn in *; lia]. intros j. by rewrite F2.
Qed.

Lemma run_events_holds es db m n :
  represents db m n -> Forall event_ok es -> n + events_bytes es < 2 ^ 60 ->
  next_number db + 2 * zlen es < 2 ^ 64 ->
  exists db' bs, run_events db es = Ret (db', bs) /\
    represents db' (spec_events m es bs) (n + events_bytes es).
Proof.
  intros Hr Hes. revert db m n Hr. induction Hes as [|e es He _ IH]; intros db m n Hr Hb Hn; cbn [run_events].
  { exists db, []. split; [done|]. cbn. by rewrite Z.add_0_r. }
  unfold events_bytes in *. cbn [fold_right] in *. fold (events_bytes es) in *.
  rewrite zlen_cons in Hn. pose proof (zlen_nonneg es).
  assert (0 <= events_bytes es).
  { clear. unfold events_bytes. induction es as [|e es IH]; cbn [fold_right]; [lia|].
    pose proof (event_bytes_nonneg e). lia. }
  destruct (run_event_holds db m n e Hr He ltac:(lia) ltac:(lia)) as (db1 & b & -> & Hr1 & Hn1).
  cbn [obind]. destruct (IH db1 _ _ Hr1 ltac:(lia) ltac:(lia)) as (db2 & bs & -> & Hr2). cbn [obind].
  exists db2, (b :: bs). split; [done|]. cbn [spec_events]. by rewrite Z.add_assoc.
Qed.

(** What the user can observe of a store that shows [m]. *)
Definition shows (db : DBImpl) (m : gmap bytes bytes) : Prop :=
  (forall k v, exists v', DBImpl_Get db k v = Ret (v', bool_decide (is_Some (m !! k))) /\
    forall x, m !! k = Some x -> v' = mkRecord kValue x) /\
  exists it, NewIterator db = Ret it /\ it_pos it = 0 /\ om_sorted (it_rows it) /\
    forall k, om_find k (it_rows it) = m !! k.

Lemma represents_shows db m n : represents db m n -> shows db m.
Proof.
  intros (M & I & R0 & R1 & Hinv & _ & Hv & _). split.
  - intros k v. destruct (DBImpl_Get_holds db M I R0 R1 k v Hinv) as ([v' found] & -> & H1 & H2).
    cbn [fst snd] in *. unfold stack_view in Hv. rewrite Hv in H1, H2. exists v'. by rewrite H1.
  - rewrite (NewIterator_holds _ _ _ _ _ Hinv). eexists. split; [reflexivity|]. split; [done|].
    cbn [it_rows DBIterator_new].
    assert (Hs : om_sorted (stack_merge (db_stack M I R0 R1) [])) by (apply stack_merge_sorted; constructor).
    split; [by apply visible_rows_sorted|]. intros k. rewrite visible_rows_find by done.
    rewrite stack_merge_find by constructor. apply Hv.
Qed.

(** Opening a directory that does not exist yet. *)
Definition no_directory : FS := mkFS false ∅ [].

Lemma open_fresh_inv junk_t junk_k junk_v flips :
  exists db, DBImpl_open junk_t junk_k junk_v flips no_directory = Ret (Some db) /\
    db_inv db (Some []) None [] [] /\ next_number db = 1 /\ fs_io (st_fs (db_store db)) = [] /\
    bg_stopped db = false /\ bg_compaction_scheduled db = false.
Proof.
  eexists. split; [vm_compute; reflexivity|]. split; [|done]. split.
  - constructor. exists []. split; [apply (SkipList_new_rep ValueRecord_default 16); lia|done].
  - constructor.
  - split; [constructor..|reflexivity| |].
    + intros id l H. by vm_compute in H.
    + by vm_compute.
  - by repeat constructor.
  - by repeat constructor.
  - done.
Qed.

Lemma open_fresh junk_t junk_k junk_v flips :
  exists db, DBImpl_open junk_t junk_k junk_v flips no_directory = Ret (Some db) /\
    represents db ∅ 0 /\ next_number db = 1.
Proof.
  destruct (open_fresh_inv junk_t junk_k junk_v flips) as (db & E & Hinv & Hn & _).
  exists db. split; [done|]. split; [|done].
  exists (Some []), None, [], []. by split; [|split; [|split]].
Qed.

(** ** The log of an earlier run *)

(** Clients for concrete runs: no coin flip succeeds, uninitialised locals are
    zero. *)
Definition zeros : nat -> bytes := fun _ => replicate 4 x00.
Definition open_plain (fs : FS) : outcome (option DBImpl) :=
  DBImpl_open (fun _ => x00) zeros zeros (fun _ _ _ => false) fs.

Definition then_open {A} (fs : FS) (f : DBImpl -> outcome A) : outcome A :=
  let* o := open_plain fs in match o with Some db => f db | None => Fault end.

Definition put_plain (db : DBImpl) (k v : bytes) (t : ValueType) : outcome DBImpl :=
  let* r := DBImpl_Put db k (mkRecord t v) (fun _ => false) in
  match r with PutDone db => Ret db | PutWaits => Fault end.

(** A run that ends in a crash after writing two keys; a run that recovers,
    overwrites the first key, deletes the second and shuts down cleanly; and the
    answers of the next run for both keys, in front of them those of the second
    run before its shutdown. *)
Definition crash_overwrite_restart : outcome (list (ValueRecord * bool)) :=
  let none := mkRecord x00 [] in
  then_open no_directory (fun db =>
  let* db := put_plain db (str "a") (str "old") kValue in
  let* db := put_plain db (str "b") (str "old") kValue in
  let after_crash := st_fs (db_store db) in
  then_open after_crash (fun db =>
  let* db := put_plain db (str "a") (str "new") kValue in
  let* db := put_plain db (str "b") [] kDeletion in
  let* a := DBImpl_Get db (str "a") none in
  let* b := DBImpl_Get db (str "b") none in
  let* after_close := DBImpl_close db in
  then_open after_close (fun db =>
  let* a' := DBImpl_Get db (str "a") none in
  let* b' := DBImpl_Get db (str "b") none in
  Ret [a; b; a'; b']))).

(** * Properties *)

(** C8: a fresh store is a map.  Opening a directory that does not exist
    succeeds, and after any sequence of [Put]s (values and tombstones) and turns
    of the background thread, each of which runs to its end without undefined
    behaviour, the store shows exactly the map that the completed [Put]s build:
    [Get] returns the value of every key that is present and [false] for every
    other, and an iterator has exactly the rows of the map in ascending order.
    The events may be interleaved in any order; a [Put] that has to wait for the
    background thread is reported and changes nothing. *)
Theorem store_is_a_map (junk_t : nat -> byte) (junk_k junk_v : nat -> bytes)
    (flips : Z -> nat -> nat -> bool) (es : list db_event) :
  Forall event_ok es -> events_bytes es < 2 ^ 60 -> zlen es < 2 ^ 60 ->
  exists db0, DBImpl_open junk_t junk_k junk_v flips no_directory = Ret (Some db0) /\
  exists db bs, run_events db0 es = Ret (db, bs) /\ shows db (spec_events ∅ es bs).
Proof.
  intros Hes Hb Hl. destruct (open_fresh junk_t junk_k junk_v flips) as (db0 & -> & Hr & Hn).
  exists db0. split; [done|].
  destruct (run_events_holds es db0 ∅ 0 Hr Hes) as (db & bs & -> & Hr'); [lia|lia|].
  exists db, bs. split; [done|]. by eapply represents_shows.
Qed.

Lemma store_is_a_map_witness :
  let es := [ev_put (str "a") (mkRecord kValue (str "1")) (fun _ => true); ev_background;
             ev_put (str "a") (mkRecord kDeletion []) (fun _ => false);
             ev_put (str "b") (mkRecord kValue (str "2")) (fun _ => false)] in
  exists db0, DBImpl_open (fun _ => x00) zeros zeros (fun _ _ _ => false) no_directory = Ret (Some db0) /\
  exists db bs, run_events db0 es = Ret (db, bs) /\ shows db (spec_events ∅ es bs).
Proof.
  apply store_is_a_map.
  - repeat apply Forall_cons_2; try apply Forall_nil_2; try exact Logic.I;
      (split; [split; reflexivity|]); (by left) || by right.
  - vm_compute. reflexivity.
  - vm_compute. reflexivity.
Defined.

(** C24: flushing does not change any answer.  On a store whose tables are as the
    invariant says, [MinorCompaction] (with the compaction it may trigger) ends
    normally in such a store again, and [Get] finds the same keys with the same
    values as before, whichever of its writes fail to open their file; when none
    fails, the immutable table is gone. *)
Theorem flush_preserves_get (db : DBImpl) (M I : option (list row)) (R0 R1 : list (list row)) :
  db_inv db M I R0 R1 -> db_bytes M I R0 R1 < 2 ^ 60 -> next_number db + 2 < 2 ^ 64 ->
  exists db' I' R0' R1', MinorCompaction db = Ret db' /\ db_inv db' M I' R0' R1' /\
    (forall k v, exists v1 v2 found,
      DBImpl_Get db k v = Ret (v1, found) /\ DBImpl_Get db' k v = Ret (v2, found) /\
      (found = true -> v1 = v2)) /\
    (fs_io (st_fs (db_store db)) = [] -> db_imm db' = None).
Proof.
  intros Hinv Hb Hn.
  destruct (MinorCompaction_holds db M I R0 R1 Hinv Hb Hn) as (db' & I' & R0' & R1' & E & F1 & F2 & _ & _ & F5).
  exists db', I', R0', R1'. split; [done|]. split; [done|]. split; [|done]. intros k v.
  destruct (DBImpl_Get_holds db M I R0 R1 k v Hinv) as ([v1 f1] & E1 & H1 & H2).
  destruct (DBImpl_Get_holds db' M I' R0' R1' k v F1) as ([v2 f2] & E2 & H3 & H4).
  cbn [fst snd] in *. specialize (F2 k). unfold stack_view in F2. rewrite F2 in H3, H4.
  exists v1, v2, f1. split; [done|]. split; [congruence|]. intros Hf. rewrite H1 in Hf.
  apply bool_decide_eq_true in Hf as [x Hx]. by rewrite (H2 x Hx), (H4 x Hx).
Qed.

(** A store with an immutable table and one open level-0 table. *)
Definition sample_imm : list row :=
  [(str "a", mkRecord kDeletion []); (str "c", mkRecord kValue (str "3"))].
Definition sample_sst : list row :=
  [(str "a", mkRecord kValue (str "1")); (str "b", mkRecord kValue (str "2"))].
Definition sample_table (rows : list row) : MemTable :=
  match MemTable_replay (MemTable_new no_directory (wal_name 3)).1
          (map (fun r => mkEntry (vr_type r.2) r.1 (vr_value r.2)) rows) (fun _ _ => false) with
  | Ret mt => mt
  | _ => (MemTable_new no_directory (wal_name 3)).1
  end.
Definition sample_db : DBImpl :=
  mkDB (mkStore (mkFS true ∅ []) (mkManager 0 (mkState 4 {[ 2 := 0 ]} {[ 3; 4 ]}))
          [reader_of_rows sample_sst] [])
    (Some (sample_table [])) (Some (sample_table sample_imm)) 4 3 0 false true.

Lemma sample_db_inv : db_inv sample_db (Some []) (Some sample_imm) [sample_sst] [].
Proof.
  assert (Hmem : forall rows, mem_holds (sample_table rows)
    (replay_rows (map (fun r => mkEntry (vr_type r.2) r.1 (vr_value r.2)) rows) [])).
  { intros rows. unfold sample_table.
    destruct (MemTable_replay_holds (map (fun r => mkEntry (vr_type r.2) r.1 (vr_value r.2)) rows)
      (MemTable_new no_directory (wal_name 3)).1 [] (fun _ _ => false) (MemTable_new_holds _ _))
      as (mt & -> & _ & H). exact H. }
  split.
  + constructor. by apply (Hmem []).
  + constructor. by apply (Hmem sample_imm).
  + split.
    * repeat constructor. apply sst_holds; [done| |repeat constructor|vm_compute; reflexivity].
      split; [repeat constructor|reflexivity].
    * constructor.
    * repeat apply Forall_cons_2; try apply Forall_nil_2; by left.
    * repeat constructor.
    * constructor.
    * reflexivity.
    * intros id l. cbn. rewrite lookup_singleton_Some. lia.
    * cbn. lia.
  + repeat apply Forall_cons_2; try apply Forall_nil_2; (by left) || by right.
  + repeat constructor.
  + done.
Qed.

Lemma flush_preserves_get_witness :
  exists db' I' R0' R1', MinorCompaction sample_db = Ret db' /\ db_inv db' (Some []) I' R0' R1' /\
    (forall k v, exists v1 v2 found,
      DBImpl_Get sample_db k v = Ret (v1, found) /\ DBImpl_Get db' k v = Ret (v2, found) /\
      (found = true -> v1 = v2)) /\
    (fs_io (st_fs (db_store sample_db)) = [] -> db_imm db' = None).
Proof.
  apply (flush_preserves_get sample_db (Some []) (Some sample_imm) [sample_sst] []).
  - apply sample_db_inv.
  - vm_compute. reflexivity.
  - vm_compute. reflexivity.
Defined.

