(* ===== verification/DBConc.v ===== *)
(** The store with its background thread ([DBImpl::BackgroundLoop],
    [DBImpl::Put] in [src/DBImpl.cpp]): the critical sections of the two threads
    as steps that interleave.

    [write_mu_] serialises the writers, so there is at most one [Put] under way.
    What a thread does while it holds [state_mu_], and each stretch of work
    outside the lock, is one step; the phases are those of [MinorCompaction] and
    [CompactL0ToL1] in [DBImpl] and [Compaction].  A condition variable may wake
    its waiter at any time. *)
From S2P Require Import Prelude Storage OMap SSTableBuilder SSTableReader SSTable Files Crc Wal Manifest SkipList Table MemTable DBIterator Compaction Recovery DBImpl.

(** Where the background thread is. *)
Inductive bg_pc : Type :=
| bg_wait                                            (* in [bg_cv_.wait] *)
| bg_prepare                                         (* about to call [MinorCompaction] *)
| bg_build (ctx : MinorCtx)
| bg_install (ctx : MinorCtx) (reader : SSTableReader)
| bg_compact                                         (* about to call [CompactL0ToL1] *)
| bg_cbuild (ctx : L0ToL1Ctx)
| bg_cinstall (ctx : L0ToL1Ctx) (reader : option SSTableReader)
| bg_reset.                                          (* about to lock again *)

(** Where the writer is. *)
Inductive wr_pc : Type :=
| wr_idle
| wr_enter (key : bytes) (value : ValueRecord) (flips : nat -> bool)
| wr_blocked (key : bytes) (value : ValueRecord) (flips : nat -> bool)
| wr_write (key : bytes) (value : ValueRecord) (flips : nat -> bool).

Record cstate := mkC {
  c_db : DBImpl;
  c_bg : bg_pc;
  c_wr : wr_pc;
}.

Definition set_scheduled (db : DBImpl) (b : bool) : DBImpl :=
  mkDB (db_store db) (db_mem db) (db_imm db) (active_wal_id db) (imm_wal_id db)
    (minor_compact_count db) (bg_stopped db) b.

(** A step of the background thread; [None] when it waits. *)
Definition bg_step (db : DBImpl) (pc : bg_pc) : outcome (option (DBImpl * bg_pc)) :=
  match pc with
  | bg_wait =>
      Ret (if negb (bg_stopped db) && bg_compaction_scheduled db then Some (db, bg_prepare) else None)
  | bg_prepare =>
      match minor_prepare db with
      | None => Ret (Some (db, bg_reset))
      | Some (db, ctx) => Ret (Some (db, bg_build ctx))
      end
  | bg_build ctx =>
      let* (db, reader) := minor_build db ctx in
      Ret (Some (db, match reader with Some r => bg_install ctx r | None => bg_reset end))
  | bg_install ctx r =>
      let db := install_minor db ctx r in
      Ret (Some (db, if trigger_l0_to_l1 db then bg_compact else bg_reset))
  | bg_compact =>
      let* (st, ctx, ok) := PrepareL0ToL1 (db_store db) in
      Ret (Some (with_store db st,
                 if negb ok then bg_reset
                 else if has_output ctx then bg_cbuild ctx else bg_cinstall ctx None))
  | bg_cbuild ctx =>
      let* (fs, reader) := BuildL0ToL1SST (st_fs (db_store db)) ctx in
      Ret (Some (with_store db (with_fs (db_store db) fs),
                 match reader with Some _ => bg_cinstall ctx reader | None => bg_reset end))
  | bg_cinstall ctx reader =>
      let '(st, ok) := InstallL0ToL1 (db_store db) ctx reader in
      let st := if negb ok && negb (bool_decide (new_sst_path ctx = []))
                then store_remove_file st (new_sst_path ctx) else st in
      Ret (Some (with_store db st, bg_reset))
  | bg_reset => Ret (Some (set_scheduled db false, bg_wait))
  end.

(** A step of a [Put] under way; the last component is the write that the step
    completes.  [None] when no [Put] is under way. *)
Definition wr_step (db : DBImpl) (pc : wr_pc)
    : outcome (option (DBImpl * wr_pc * option (bytes * ValueRecord))) :=
  match pc with
  | wr_idle => Ret None
  | wr_enter k v flips =>
      match db_mem db with
      | None => Fault
      | Some mt =>
          if kMemTableThreshold <=? MemTable_Count mt then
            match db_imm db with
            | Some _ => Ret (Some (db, wr_blocked k v flips, None))
            | None => Ret (Some (switch_memtable db, wr_write k v flips, None))
            end
          else Ret (Some (db, wr_write k v flips, None))
      end
  | wr_blocked k v flips => Ret (Some (db, wr_enter k v flips, None))
  | wr_write k v flips =>
      let* db := put_mem db k v flips in Ret (Some (db, wr_idle, Some (k, v)))
  end.

(** ** The phases together *)

(** A turn of the background thread that nobody interrupts, as [DBImpl] has it, is
    a sequence of at most seven of the steps above. *)
Definition bg_moves (p q : DBImpl * bg_pc) : Prop := bg_step p.1 p.2 = Ret (Some q).

Lemma bg_move n db pc q p : bg_step db pc = Ret (Some p) -> bsteps bg_moves n p q -> bsteps bg_moves (S n) (db, pc) q.
Proof. intros E. by apply bsteps_l. Qed.

Lemma install_moves db ctx reader :
  bsteps bg_moves 1 (db, bg_cinstall ctx reader)
    (with_store db (let '(st, ok) := InstallL0ToL1 (db_store db) ctx reader in
       if negb ok then if decide (new_sst_path ctx = []) then st else store_remove_file st (new_sst_path ctx) else st), bg_reset).
Proof.
  eapply bg_move; [cbn [bg_step]|apply bsteps_refl]. destruct (InstallL0ToL1 _ _ _) as [st ok].
  destruct ok; [done|]. case_decide; [by rewrite bool_decide_eq_true_2|by rewrite bool_decide_eq_false_2].
Qed.

Lemma compact_moves db st :
  CompactL0ToL1 (db_store db) = Ret st -> bsteps bg_moves 3 (db, bg_compact) (with_store db st, bg_reset).
Proof.
  unfold CompactL0ToL1. intros E. destruct (PrepareL0ToL1 (db_store db)) as [[[st1 ctx] ok]| |] eqn:Ep; [|done..]. cbn [obind] in E.
  eapply bg_move; [cbn [bg_step]; rewrite Ep; reflexivity|]. destruct ok; cbn [negb] in *; [|injection E as <-; apply bsteps_refl].
  destruct (has_output ctx) eqn:Eo; cbn [andb] in E.
  - destruct (BuildL0ToL1SST (st_fs st1) ctx) as [[fs reader]| |] eqn:Eb; [|done..]. cbn [obind] in E.
    eapply bg_move; [cbn [bg_step with_store db_store]; rewrite Eb; reflexivity|].
    destruct reader as [r|]; [|injection E as <-; apply bsteps_refl].
    pose proof (install_moves (with_store db (with_fs st1 fs)) ctx (Some r)) as Hi. cbn [with_store db_store] in Hi, E |- *.
    destruct (InstallL0ToL1 _ _ _) as [st2 ok]. destruct ok; injection E as <-; exact Hi.
  - cbn [obind] in E. pose proof (install_moves (with_store db st1) ctx None) as Hi.
    assert (Es : with_fs st1 (st_fs st1) = st1) by (by destruct st1). rewrite Es in E. cbn [with_store db_store] in Hi |- *.
    eapply bsteps_weaken; [|by destruct (InstallL0ToL1 _ _ _) as [st2 ok]; destruct ok; injection E as <-; exact Hi]. lia.
Qed.

Lemma minor_moves db db' :
  MinorCompaction db = Ret db' -> bsteps bg_moves 6 (db, bg_prepare) (db', bg_reset).
Proof.
  intros E. unfold MinorCompaction in E. destruct (minor_prepare db) as [[db2 ctx]|] eqn:Ep.
  2:{ injection E as <-. eapply bg_move; [cbn [bg_step]; rewrite Ep; reflexivity|apply bsteps_refl]. }
  eapply bg_move; [cbn [bg_step]; rewrite Ep; reflexivity|]. destruct (minor_build db2 ctx) as [[db3 reader]| |] eqn:Em; [|done..].
  cbn [obind] in E. eapply bg_move; [cbn [bg_step]; rewrite Em; reflexivity|]. destruct reader as [r|]; [|injection E as <-; apply bsteps_refl].
  eapply bg_move; [reflexivity|]. destruct (trigger_l0_to_l1 _); [|injection E as <-; apply bsteps_refl].
  destruct (CompactL0ToL1 _) as [st| |] eqn:Ec; [|done..]. injection E as <-. by apply compact_moves.
Qed.

Lemma background_turn_moves db db' :
  background_turn db = Ret (Some db') -> bsteps bg_moves 7 (db, bg_prepare) (db', bg_wait).
Proof.
  unfold background_turn. destruct (bg_stopped db); [done|]. destruct (MinorCompaction db) as [db1| |] eqn:E; [|done..].
  cbn [obind]. intros [= <-]. apply (bsteps_trans 6 1 _ (db1, bg_reset)); [by apply minor_moves|].
  eapply bg_move; [reflexivity|apply bsteps_refl].
Qed.

(** A new SSTable that cannot be written while everything else works: the file is
    not created, or less than the whole of it reaches the disk and
    [SSTableReader::Open] refuses it. *)
Definition set_io (db : DBImpl) (io : list io_result) : DBImpl :=
  let fs := st_fs (db_store db) in
  with_store db (with_fs (db_store db) (mkFS (fs_is_dir fs) (fs_files fs) io)).

Definition builds (bg : bg_pc) : bool :=
  match bg with bg_build _ | bg_cbuild _ => true | _ => false end.

Definition bg_fault (db : DBImpl) (bg : bg_pc) (db' : DBImpl) : Prop :=
  builds bg = true /\ fs_io (st_fs (db_store db)) = [] /\
  exists r, bg_step (set_io db [r]) bg = Ret (Some (db', bg_reset)).

(** The interleaving of the two threads and of requests by the user. *)
Inductive cstep : cstate -> option (bytes * ValueRecord) -> cstate -> Prop :=
| cs_request db bg k v flips :
    row_ok (k, v) -> record_typed v ->
    cstep (mkC db bg wr_idle) None (mkC db bg (wr_enter k v flips))
| cs_writer db bg wr db' wr' w :
    wr_step db wr = Ret (Some (db', wr', w)) ->
    cstep (mkC db bg wr) w (mkC db' bg wr')
| cs_background db bg wr db' bg' :
    bg_step db bg = Ret (Some (db', bg')) ->
    cstep (mkC db bg wr) None (mkC db' bg' wr)
| cs_fault db bg wr db' :
    bg_fault db bg db' -> cstep (mkC db bg wr) None (mkC db' bg_reset wr).

(** The state reached from [c0] in [n] steps, with the writes completed so far,
    oldest first. *)
Inductive creach (c0 : cstate) : cstate -> list (bytes * ValueRecord) -> nat -> Prop :=
| cr_start : creach c0 c0 [] 0
| cr_step c ws n c' w :
    creach c0 c ws n -> cstep c w c' -> creach c0 c' (ws ++ opt_list w) (S n).

(** The map that a sequence of writes builds. *)
Definition map_of_writes (ws : list (bytes * ValueRecord)) : gmap bytes bytes :=
  fold_left (fun m w => spec_put m w.1 w.2) ws ∅.

Definition writes_bytes (ws : list (bytes * ValueRecord)) : Z := zlen (encode_rows ws).

(** The state after the constructor of the store. *)
Definition start (db : DBImpl) : cstate := mkC db bg_wait wr_idle.

(** ** The invariant *)

(** What the background thread relies on in the middle of its work. *)
Definition bg_ready (db : DBImpl) (I : option (list row)) (R0 R1 : list (list row)) (pc : bg_pc) : Prop :=
  match pc with
  | bg_wait | bg_prepare | bg_compact | bg_reset => True
  | bg_build ctx => I <> None /\ minor_ready db ctx
  | bg_install ctx r => exists rows, I = Some rows /\ minor_ready db ctx /\ table_holds r rows
  | bg_cbuild ctx => prepared (db_store db) R0 R1 ctx /\ has_output ctx = true
  | bg_cinstall ctx reader =>
      prepared (db_store db) R0 R1 ctx /\
      (has_output ctx = true -> exists r, reader = Some r /\ table_holds r (output_records ctx))
  end.

Definition wr_ready (pc : wr_pc) : Prop :=
  match pc with
  | wr_idle => True
  | wr_enter k v _ | wr_blocked k v _ | wr_write k v _ => row_ok (k, v) /\ record_typed v
  end.

Definition conc_inv (c : cstate) (m : gmap bytes bytes) (bytes : Z) (steps : Z) : Prop :=
  exists M I R0 R1, db_inv (c_db c) M I R0 R1 /\ M <> None /\
    (forall k, stack_view (db_stack M I R0 R1) k = m !! k) /\
    db_bytes M I R0 R1 <= bytes /\ next_number (c_db c) <= 1 + steps /\
    bg_ready (c_db c) I R0 R1 (c_bg c) /\ wr_ready (c_wr c).

(** * Lemmas *)

(** ** The writer *)

Lemma put_mem_stable db key value flips db' :
  put_mem db key value flips = Ret db' ->
  store_stable (db_store db) (db_store db') /\ db_imm db' = db_imm db /\
  bg_stopped db' = bg_stopped db /\ bg_compaction_scheduled db' = bg_compaction_scheduled db.
Proof.
  unfold put_mem. destruct (db_mem db) as [mt|]; [|done]. unfold MemTable_Put.
  pose proof (AddLog_io (st_fs (db_store db)) (mt_wal mt) key (vr_value value) (vr_type value)) as Hio.
  destruct (AddLog _ _ _ _ _) as [wal fs]. destruct (insert_element _ _ _ _) as [t| |]; [|done..].
  cbn. intros [= <-]. split; [|done]. by split.
Qed.

Lemma switch_memtable_stable db R0 R1 :
  store_inv (db_store db) R0 R1 -> next_number db + 1 < 2 ^ 64 ->
  store_stable (db_store db) (db_store (switch_memtable db)) /\
  db_imm (switch_memtable db) = db_mem db /\
  bg_stopped (switch_memtable db) = bg_stopped db /\
  bg_compaction_scheduled (switch_memtable db) = true.
Proof.
  intros Hst Hn. unfold switch_memtable.
  pose proof (allocate_stable (db_store db) R0 R1 Hst Hn) as Hs1.
  destruct (store_AllocateFileNumber (db_store db)) as [st1 id]. cbn [fst] in Hs1.
  pose proof (MemTable_new_io (st_fs st1) (wal_name id)) as Hio.
  destruct (MemTable_new (st_fs st1) (wal_name id)) as [mem fs]. cbn [snd] in Hio.
  destruct (store_AddWal_step (with_fs st1 fs) id) as (H1 & H2 & H3 & H4).
  cbn [spec_call with_fs st_mm st_l0 st_l1 st_fs] in *. split; [|done]. cbn [db_store].
  transitivity st1; [done|]. split; try done; try (by rewrite H1). by etransitivity.
Qed.

(** What the background thread relies on survives the steps of the writer. *)
Lemma bg_ready_stable db db' I R0 R1 pc :
  bg_ready db I R0 R1 pc -> db_imm db' = db_imm db -> store_stable (db_store db) (db_store db') ->
  bg_ready db' I R0 R1 pc.
Proof.
  intros H Ei Hs. destruct pc; cbn in *; try done.
  - destruct H. split; [done|]. by eapply minor_ready_stable.
  - destruct H as (rows & ? & ? & ?). exists rows. split; [done|]. split; [|done]. by eapply minor_ready_stable.
  - destruct H. split; [|done]. by eapply prepared_stable.
  - destruct H. split; [|done]. by eapply prepared_stable.
Qed.

(** A switch happens only when the background thread does not hold on to an
    immutable table. *)
Lemma bg_ready_switch db I db' R0 R1 pc :
  bg_ready db None R0 R1 pc -> store_stable (db_store db) (db_store db') ->
  bg_ready db' I R0 R1 pc.
Proof.
  intros H Hs. destruct pc; cbn in *; try done.
  - by destruct H.
  - by destruct H as (rows & ? & _).
  - destruct H. split; [|done]. by eapply prepared_stable.
  - destruct H. split; [|done]. by eapply prepared_stable.
Qed.

(** The map and the octets after a step that completes [w]. *)
Definition after_write (m : gmap bytes bytes) (w : option (bytes * ValueRecord)) : gmap bytes bytes :=
  match w with Some (k, v) => spec_put m k v | None => m end.

Definition write_bytes (w : option (bytes * ValueRecord)) : Z := zlen (encode_rows (opt_list w)).

Lemma wr_step_holds c m n s :
  conc_inv c m n s -> 2 + s < 2 ^ 64 ->
  exists o, wr_step (c_db c) (c_wr c) = Ret o /\
    forall db' wr' w, o = Some (db', wr', w) ->
      conc_inv (mkC db' (c_bg c) wr') (after_write m w) (n + write_bytes w) (s + 1).
Proof.
  intros (M & I & R0 & R1 & Hinv & Hne & Hv & Hb & Hn & Hbg & Hwr) Hs.
  destruct M as [rows|]; [|done].
  assert (H0 : write_bytes None = 0) by done.
  destruct c as [db bg wr]. cbn [c_db c_bg c_wr] in *. destruct wr as [|k v f|k v f|k v f]; cbn [wr_step].
  - exists None. done.
  - pose proof Hinv as [Hm Hi Hst _ _ _]. inversion Hm as [mt rows' Hmt E1 E2|]; subst.
    destruct (Z.leb_spec kMemTableThreshold (MemTable_Count mt)) as [Hfull|Hroom].
    + inversion Hi as [imm rows_i Himm E3 E4|E3 E4]; subst.
      * eexists. split; [reflexivity|]. intros ? ? ? [= <- <- <-]. rewrite H0.
        exists (Some rows), (Some rows_i), R0, R1. do 3 (split; [done|]).
        cbn [c_db c_bg c_wr]. split; [lia|]. split; [lia|done].
      * destruct (switch_memtable_holds db rows R0 R1 Hinv) as [Hinv' Hn']; [|lia|].
        { apply (count_nonempty mt); [done|]. unfold kMemTableThreshold in Hfull. lia. }
        destruct (switch_memtable_stable db R0 R1 Hst ltac:(lia)) as (Hstab & _).
        eexists. split; [reflexivity|]. intros ? ? ? [= <- <- <-]. rewrite H0.
        exists (Some []), (Some rows), R0, R1. split; [done|]. split; [done|].
        split; [intros j; by rewrite <- Hv|]. cbn [c_db c_bg c_wr] in *.
        split; [|split; [lia|split; [by eapply bg_ready_switch|done]]].
        unfold db_bytes, stack_bytes in *. cbn [opt_list app fold_right] in *.
        change (zlen (encode_rows [])) with 0. lia.
    + eexists. split; [reflexivity|]. intros ? ? ? [= <- <- <-]. rewrite H0.
      exists (Some rows), I, R0, R1. do 3 (split; [done|]).
      cbn [c_db c_bg c_wr]. split; [lia|]. split; [lia|done].
  - eexists. split; [reflexivity|]. intros ? ? ? [= <- <- <-]. rewrite H0.
    exists (Some rows), I, R0, R1. do 3 (split; [done|]).
      cbn [c_db c_bg c_wr]. split; [lia|]. split; [lia|done].
  - destruct Hwr as [Hrow Hty].
    destruct (put_mem_holds db rows I R0 R1 k v f Hinv Hrow Hty) as (db' & E & (Hinv' & Hne' & Hv' & Hb') & Hn').
    destruct (put_mem_stable _ _ _ _ _ E) as (Hstab & Ei & _). rewrite E. cbn [obind].
    eexists. split; [reflexivity|]. intros ? ? ? [= <- <- <-].
    exists (Some (om_insert k v rows)), I, R0, R1. split; [done|]. split; [done|].
    split; [intros j; cbn [after_write]; by rewrite Hv', spec_put_lookup, Hv|].
    cbn [c_db c_bg c_wr]. split.
    + unfold write_bytes, encode_rows. cbn [opt_list map concat]. rewrite app_nil_r. lia.
    + split; [lia|]. split; [by eapply bg_ready_stable|done].
Qed.

(** ** The background thread *)

(** What a step of the background thread leaves: the tables [M], [I'], [R0'] and
    [R1'], which show what [M], [I], [R0] and [R1] showed. *)
Definition bg_post (db' : DBImpl) (bg' : bg_pc) (M I : option (list row)) (R0 R1 : list (list row)) (n s : Z) : Prop :=
  exists I' R0' R1', db_inv db' M I' R0' R1' /\
    (forall k, stack_view (db_stack M I' R0' R1') k = stack_view (db_stack M I R0 R1) k) /\
    db_bytes M I' R0' R1' <= n /\ next_number db' <= 1 + s /\ bg_ready db' I' R0' R1' bg'.

Lemma bg_post_same db' bg' M I R0 R1 n s :
  db_inv db' M I R0 R1 -> db_bytes M I R0 R1 <= n -> next_number db' <= 1 + s -> bg_ready db' I R0 R1 bg' ->
  bg_post db' bg' M I R0 R1 n s.
Proof. intros H1 H2 H3 H4. by exists I, R0, R1. Qed.

Lemma with_store_inv db st M I R0 R1 :
  db_inv db M I R0 R1 -> store_stable (db_store db) st -> db_inv (with_store db st) M I R0 R1.
Proof. intros H Hs. by eapply db_inv_stable. Qed.

(** Installing the output of a compaction. *)
Lemma install_l1_inv db st M I R0 R1 R1' :
  db_inv db M I R0 R1 -> installed (db_store db) st R0 R1 R1' ->
  db_inv (with_store db st) M I [] R1' /\
  (forall k, stack_view (db_stack M I [] R1') k = stack_view (db_stack M I R0 R1) k) /\
  db_bytes M I [] R1' <= db_bytes M I R0 R1 /\ next_number (with_store db st) = next_number db.
Proof.
  intros [Hm Hi _ Ht Hr Hne] (I1 & _ & I3 & I4 & I5 & _). split; [by split|].
  split; [intros k; by apply compact_view|]. split; [|done].
  unfold db_bytes. cbn [app]. rewrite !(stack_bytes_app (opt_list M)), !(stack_bytes_app (opt_list I)). lia.
Qed.

Lemma bg_step_good db bg M I R0 R1 n s :
  db_inv db M I R0 R1 -> bg_ready db I R0 R1 bg -> db_bytes M I R0 R1 <= n -> next_number db <= 1 + s ->
  n < 2 ^ 60 -> 2 + s < 2 ^ 64 ->
  exists o, bg_step db bg = Ret o /\ forall db' bg', o = Some (db', bg') -> bg_post db' bg' M I R0 R1 n (s + 1).
Proof.
  intros Hinv Hbg Hb Hn Hbytes Hs. pose proof (di_store _ _ _ _ _ Hinv) as Hst.
  assert (Hbd : stack_bytes R0 < 2 ^ 60).
  { unfold db_bytes in Hb. rewrite !stack_bytes_app in Hb. pose proof (stack_bytes_nonneg (opt_list M)).
    pose proof (stack_bytes_nonneg (opt_list I)). pose proof (stack_bytes_nonneg R1). lia. }
  destruct bg as [| |ctx|ctx r| |ctx|ctx reader|]; cbn [bg_step].
  - eexists. split; [reflexivity|]. intros ? ? H. destruct (_ && _); [|done]. injection H as <- <-.
    apply bg_post_same; (done || lia).
  - destruct I as [rows|].
    + destruct (minor_prepare_holds db M rows R0 R1 Hinv ltac:(lia)) as (db1 & ctx & -> & Hinv1 & Hr1 & _ & Hn1 & _).
      eexists. split; [reflexivity|]. intros ? ? [= <- <-]. apply bg_post_same; (done || lia).
    + pose proof Hinv as [_ Hi _ _ _ _]. unfold minor_prepare. inversion Hi as [|E1 E2]; subst.
      eexists. split; [reflexivity|]. intros ? ? [= <- <-]. apply bg_post_same; (done || lia).
  - destruct Hbg as [HI Hr]. destruct I as [rows|]; [|done].
    destruct (minor_build_holds db ctx M rows R0 R1 Hinv Hr ltac:(lia)) as (db2 & o & -> & Em & Ei & Hn2 & Hs2 & _ & Ho).
    cbn [obind]. eexists. split; [reflexivity|]. intros ? ? [= <- <-].
    apply bg_post_same; [by eapply db_inv_stable|done|lia|].
    destruct o as [r|]; [|done]. exists rows. split; [done|]. split; [|done]. by eapply minor_ready_stable.
  - destruct Hbg as (rows & -> & [_ _ Hfresh Hid] & Hh).
    destruct (install_minor_holds db ctx r M rows R0 R1 Hinv Hh Hfresh Hid) as (Hinv1 & Hn1 & _).
    eexists. split; [reflexivity|]. intros ? ? [= <- <-]. exists None, (R0 ++ [rows]), R1. split; [done|].
    split; [intros k; by rewrite minor_stack|]. split; [by rewrite minor_bytes|]. split; [lia|by destruct (trigger_l0_to_l1 _)].
  - unfold next_number in Hn.
    destruct (PrepareL0ToL1_holds (db_store db) R0 R1 Hst ltac:(lia)) as (st1 & ctx & ok & -> & Hs1 & Hn1 & _ & Hok).
    cbn [obind]. eexists. split; [reflexivity|]. intros ? ? [= <- <-].
    apply bg_post_same; [by eapply with_store_inv|done|unfold next_number; cbn; lia|].
    destruct ok; cbn [negb]; [|done]. destruct (has_output ctx) eqn:Eo; [by split|]. split; [done|]. intros H. congruence.
  - destruct Hbg as [Hp Hout].
    destruct (BuildL0ToL1SST_holds (db_store db) R0 R1 ctx Hst Hp Hbd Hout) as (fs' & o & -> & Hio & _ & Ho).
    assert (Hs1 : store_stable (db_store db) (with_fs (db_store db) fs')) by (split; try done; cbn; lia).
    cbn [obind]. eexists. split; [reflexivity|]. intros ? ? [= <- <-].
    apply bg_post_same; [by eapply with_store_inv|done|unfold next_number in *; cbn; lia|].
    destruct o as [r|]; [|done]. split; [by eapply prepared_stable|]. eauto.
  - destruct Hbg as [Hp Hreader].
    destruct (InstallL0ToL1_holds (db_store db) R0 R1 ctx reader Hst Hp Hreader) as (st' & -> & Hi).
    destruct (install_l1_inv db st' M I R0 R1 _ Hinv Hi) as (H1 & H2 & H3 & H4).
    cbn [negb andb]. eexists. split; [reflexivity|]. intros ? ? [= <- <-]. exists I, [], (compacted R1 ctx).
    split; [done|]. split; [done|]. split; [lia|]. split; [lia|done].
  - eexists. split; [reflexivity|]. intros ? ? [= <- <-].
    apply bg_post_same; [by destruct Hinv|done| |done]. unfold next_number in *. cbn. lia.
Qed.

Lemma bg_step_holds c m n s :
  conc_inv c m n s -> n < 2 ^ 60 -> 2 + s < 2 ^ 64 ->
  exists o, bg_step (c_db c) (c_bg c) = Ret o /\
    forall db' bg', o = Some (db', bg') -> conc_inv (mkC db' bg' (c_wr c)) m n (s + 1).
Proof.
  intros (M & I & R0 & R1 & Hinv & Hne & Hv & Hb & Hn & Hbg & Hwr) Hbytes Hs.
  destruct (bg_step_good _ _ _ _ _ _ n s Hinv Hbg Hb Hn Hbytes Hs) as (o & -> & Ho).
  exists o. split; [done|]. intros db' bg' E. destruct (Ho db' bg' E) as (I' & R0' & R1' & H1 & H2 & H3 & H4 & H5).
  exists M, I', R0', R1'. split; [done|]. split; [done|]. split; [intros k; by rewrite H2|done].
Qed.

(** ** Builds that fail *)

Lemma write_fault st r path rows fs :
  fs_io (st_fs st) = [] ->
  write_and_open (mkFS (fs_is_dir (st_fs st)) (fs_files (st_fs st)) [r]) path rows = Ret (fs, None) ->
  fs = fs_remove (st_fs st) path.
Proof.
  intros Hio (Hd & Hi & Hf)%write_and_open_fails. destruct fs as [d f io]. cbn in *. subst. unfold fs_remove. by rewrite Hio.
Qed.

(** A failed build counts as a flush, and a stale file under the number of the new
    table is gone; nothing else has changed. *)
Lemma bg_fault_effect db bg db' M I R0 R1 :
  db_inv db M I R0 R1 -> bg_ready db I R0 R1 bg -> bg_fault db bg db' ->
  exists id n, 0 <= id <= next_number db /\ sst_levels (mm_state (st_mm (db_store db))) !! id = None /\
    db' = mkDB (with_fs (db_store db) (fs_remove (st_fs (db_store db)) (sst_name id))) (db_mem db) (db_imm db)
            (active_wal_id db) (imm_wal_id db) n (bg_stopped db) (bg_compaction_scheduled db).
Proof.
  intros Hinv Hbg (Hb & Hio & r & HB). destruct bg as [| |ctx|ctx rd| |ctx|ctx rd|]; try done; cbn [bg_step bg_ready] in *.
  - destruct Hbg as [HI [M1 M2 M3 M4]]. exists (mc_new_sst_id ctx), (u64 (minor_compact_count db + 1)).
    split; [done|]. split; [done|]. pose proof (di_imm _ _ _ _ _ Hinv) as Hi.
    destruct (db_imm db) as [imm|] eqn:Ei; [|by inversion Hi; subst].
    unfold minor_build, BuildMinorSST in HB. rewrite M1, M2, decide_False in HB by apply sst_name_nonempty.
    cbn [set_io with_store db_store with_fs st_fs] in HB. destruct (sl_rows (mt_table imm)) as [rows| |]; [|done..]. cbn [obind] in HB.
    destruct (write_and_open _ _ _) as [[fs [rd|]]| |] eqn:Ew; [done| |done..]. cbn [obind] in HB. injection HB as <-.
    rewrite (write_fault _ _ _ _ _ Hio Ew). cbn. by rewrite Ei.
  - destruct Hbg as [[_ _ _ _ _ P6 P7 P8 _ _ _ _] Hout]. exists (new_sst_id ctx), (minor_compact_count db).
    split; [by apply P8|]. split; [by apply P7|]. unfold BuildL0ToL1SST in HB. rewrite Hout, P6, decide_False in HB by (done || apply sst_name_nonempty).
    cbn [negb set_io with_store db_store with_fs st_fs] in HB.
    destruct (write_and_open _ _ _) as [[fs [rd|]]| |] eqn:Ew; [done| |done..]. cbn [obind] in HB. injection HB as <-.
    by rewrite (write_fault _ _ _ _ _ Hio Ew).
Qed.

Lemma bg_fault_stable db bg db' M I R0 R1 :
  db_inv db M I R0 R1 -> bg_ready db I R0 R1 bg -> bg_fault db bg db' ->
  db_inv db' M I R0 R1 /\ next_number db' = next_number db.
Proof.
  intros Hinv Hbg Hf. destruct (bg_fault_effect _ _ _ _ _ _ _ Hinv Hbg Hf) as (id & n & _ & _ & ->).
  split; [|done]. by eapply db_inv_stable.
Qed.

Lemma bg_fault_holds c db' m n s :
  conc_inv c m n s -> bg_fault (c_db c) (c_bg c) db' -> conc_inv (mkC db' bg_reset (c_wr c)) m n (s + 1).
Proof.
  intros (M & I & R0 & R1 & Hinv & Hne & Hv & Hb & Hn & Hbg & Hwr) Hf.
  destruct (bg_fault_stable _ _ _ _ _ _ _ Hinv Hbg Hf) as [Hinv' Hn']. exists M, I, R0, R1. do 4 (split; [done|]).
  cbn [c_db c_bg c_wr]. split; [lia|done].
Qed.

(** ** Reachable states *)

Lemma map_of_writes_snoc ws w : map_of_writes (ws ++ opt_list w) = after_write (map_of_writes ws) w.
Proof. destruct w as [[k v]|]; cbn [opt_list]; [|by rewrite app_nil_r]. unfold map_of_writes. by rewrite fold_left_app. Qed.

Lemma writes_bytes_snoc ws w : writes_bytes (ws ++ opt_list w) = writes_bytes ws + write_bytes w.
Proof. unfold writes_bytes, write_bytes, encode_rows. by rewrite map_app, concat_app, zlen_app. Qed.

Lemma write_bytes_nonneg w : 0 <= write_bytes w.
Proof. apply zlen_nonneg. Qed.

Lemma cstep_holds c m n s w c' :
  conc_inv c m n s -> n < 2 ^ 60 -> 2 + s < 2 ^ 64 -> cstep c w c' ->
  conc_inv c' (after_write m w) (n + write_bytes w) (s + 1).
Proof.
  intros Hinv Hn Hs Hstep. pose proof (write_bytes_nonneg w) as Hw.
  destruct Hstep as [db bg k v f Hrow Hty|db bg wr db' wr' w E|db bg wr db' bg' E|db bg wr db' Hf].
  - destruct Hinv as (M & I & R0 & R1 & H1 & H2 & H3 & H4 & H5 & H6 & _). cbn [c_db c_bg c_wr] in *.
    exists M, I, R0, R1. do 3 (split; [done|]). cbn [after_write c_db c_bg c_wr]. split; [lia|]. split; [lia|done].
  - destruct (wr_step_holds _ _ _ _ Hinv Hs) as (o & E' & H). cbn [c_db c_wr c_bg] in *.
    rewrite E in E'. injection E' as <-. by apply H.
  - destruct (bg_step_holds _ _ _ _ Hinv Hn Hs) as (o & E' & H). cbn [c_db c_wr c_bg] in *.
    rewrite E in E'. injection E' as <-. change (write_bytes None) with 0. rewrite Z.add_0_r. by apply H.
  - change (write_bytes None) with 0. rewrite Z.add_0_r. by apply (bg_fault_holds (mkC db bg wr)).
Qed.

Lemma creach_holds c0 c ws n m0 b0 :
  conc_inv c0 m0 b0 0 -> b0 = 0 -> m0 = ∅ -> creach c0 c ws n ->
  writes_bytes ws < 2 ^ 60 -> Z.of_nat n < 2 ^ 60 ->
  conc_inv c (map_of_writes ws) (writes_bytes ws) (Z.of_nat n).
Proof.
  intros H0 -> -> Hreach. induction Hreach as [|c ws n c' w Hr IH Hstep]; intros Hb Hn; [done|].
  rewrite writes_bytes_snoc in *. pose proof (write_bytes_nonneg w).
  rewrite map_of_writes_snoc. rewrite Nat2Z.inj_succ, <- Z.add_1_r in *.
  apply (cstep_holds c); [apply IH; lia|lia|lia|done].
Qed.

Lemma start_holds db : represents db ∅ 0 -> next_number db = 1 -> conc_inv (start db) ∅ 0 0.
Proof.
  intros (M & I & R0 & R1 & H1 & H2 & H3 & H4) Hn. exists M, I, R0, R1. do 3 (split; [done|]).
  cbn [start c_db c_bg c_wr]. split; [done|]. split; [lia|done].
Qed.

Lemma conc_inv_shows c m n s : conc_inv c m n s -> shows (c_db c) m.
Proof.
  intros (M & I & R0 & R1 & H1 & H2 & H3 & H4 & _). apply (represents_shows _ _ n).
  by exists M, I, R0, R1.
Qed.

(** * Properties *)

(** C3: with its background thread, the store is still a map.  In every state that
    a fresh store reaches under any interleaving of the critical sections of the
    writer and of the background thread (spurious wake-ups included), [Get] and
    an iterator show exactly the map that the completed writes build, in the
    order in which they completed: nothing is lost, duplicated or resurrected
    while a flush or a compaction is half done or has failed to write its SSTable.  And no step of either thread has
    undefined behaviour. *)
Theorem concurrent_store_is_a_map (junk_t : nat -> byte) (junk_k junk_v : nat -> bytes)
    (flips : Z -> nat -> nat -> bool) (db0 : DBImpl) (c : cstate)
    (ws : list (bytes * ValueRecord)) (n : nat) :
  DBImpl_open junk_t junk_k junk_v flips no_directory = Ret (Some db0) ->
  creach (start db0) c ws n -> writes_bytes ws < 2 ^ 60 -> Z.of_nat n < 2 ^ 60 ->
  shows (c_db c) (map_of_writes ws) /\
  (exists o, bg_step (c_db c) (c_bg c) = Ret o) /\ (exists o, wr_step (c_db c) (c_wr c) = Ret o).
Proof.
  intros Hopen Hreach Hb Hn. destruct (open_fresh junk_t junk_k junk_v flips) as (db & E & Hr & Hnn).
  rewrite Hopen in E. injection E as <-.
  pose proof (creach_holds _ _ _ _ _ _ (start_holds db0 Hr Hnn) eq_refl eq_refl Hreach Hb Hn) as Hinv.
  split; [by eapply conc_inv_shows|].
  destruct (bg_step_holds _ _ _ _ Hinv Hb ltac:(lia)) as (o1 & E1 & _).
  destruct (wr_step_holds _ _ _ _ Hinv ltac:(lia)) as (o2 & E2 & _). eauto.
Qed.

Definition some_value : ValueRecord := mkRecord kValue (str "v").
Definition opened : DBImpl :=
  match open_plain no_directory with Ret (Some db) => db | _ => sample_db end.
Definition opened_put : DBImpl :=
  match put_mem opened (str "k") some_value (fun _ => true) with Ret db => db | _ => opened end.

Lemma opened_put_reach : creach (start opened) (mkC opened_put bg_wait wr_idle) [(str "k", some_value)] 3.
Proof.
  apply (cr_step _ (mkC opened bg_wait (wr_write (str "k") some_value (fun _ => true))) [] 2 _
    (Some (str "k", some_value))).
  - apply (cr_step _ (mkC opened bg_wait (wr_enter (str "k") some_value (fun _ => true))) [] 1 _ None).
    + apply (cr_step _ (start opened) [] 0 _ None); [apply cr_start|]. apply cs_request; [by split|by left].
    + apply cs_writer. vm_compute. reflexivity.
  - apply cs_writer. vm_compute. reflexivity.
Qed.

Lemma concurrent_store_is_a_map_witness :
  let c := mkC opened_put bg_wait wr_idle in
  shows (c_db c) (map_of_writes [(str "k", some_value)]) /\
  (exists o, bg_step (c_db c) (c_bg c) = Ret o) /\ (exists o, wr_step (c_db c) (c_wr c) = Ret o).
Proof.
  apply (concurrent_store_is_a_map (fun _ => x00) zeros zeros (fun _ _ _ => false) opened _ _ 3).
  - vm_compute. reflexivity.
  - apply opened_put_reach.
  - vm_compute. reflexivity.
  - vm_compute. reflexivity.
Defined.
