(* ===== verification/LongRuns.v ===== *)
(** Long runs of the store with its background thread: ten thousand writes and
    more, which fill its memory tables, and a wake-up that is lost on the way. *)
From S2P Require Import Prelude Storage OMap SSTableBuilder SSTableReader SSTable Files Crc Wal Manifest SkipList Table MemTable DBIterator Compaction Recovery DBImpl DBConc.

(** ** A wake-up that is lost *)

(** The background thread waits with nothing scheduled while the immutable table
    is still there and the writer needs its place. *)
Definition deadlocked (c : cstate) : Prop :=
  c_bg c = bg_wait /\ bg_stopped (c_db c) = false /\ bg_compaction_scheduled (c_db c) = false /\
  db_imm (c_db c) <> None /\
  (exists mt, db_mem (c_db c) = Some mt /\ kMemTableThreshold <= MemTable_Count mt) /\
  (exists k v flips, c_wr c = wr_enter k v flips \/ c_wr c = wr_blocked k v flips).

Lemma deadlocked_step c w c' : deadlocked c -> cstep c w c' -> w = None /\ deadlocked c' /\ c_db c' = c_db c.
Proof.
  intros (Hbg & Hs & Hsch & Hi & (mt & Hm & Hfull) & (k & v & f & Hw)) Hstep.
  destruct Hstep as [db bg k' v' f' _ _|db bg wr db' wr' w E|db bg wr db' bg' E|db bg wr db' (Hb & _)]; cbn [c_db c_bg c_wr] in *.
  - by destruct Hw.
  - assert (db' = db /\ w = None /\ (wr' = wr_enter k v f \/ wr' = wr_blocked k v f)) as (-> & -> & Hw').
    { destruct Hw as [-> | ->]; cbn [wr_step] in E; [|injection E as <- <- <-; auto].
      rewrite Hm in E. destruct (Z.leb_spec kMemTableThreshold (MemTable_Count mt)) as [_|]; [|lia].
      destruct (db_imm db) as [imm|]; [|done]. injection E as <- <- <-. auto. }
    split; [done|]. split; [|done]. split; [done|]. do 3 (split; [done|]). split; [by exists mt|]. by exists k, v, f.
  - subst bg. cbn [bg_step] in E. rewrite Hs, Hsch in E. cbn in E. done.
  - by subst bg.
Qed.

Lemma deadlocked_forever c c' ws n :
  deadlocked c -> creach c c' ws n -> ws = [] /\ deadlocked c' /\ Sync_done (c_db c') = false.
Proof.
  intros Hd Hr.
  assert (H : ws = [] /\ deadlocked c').
  { induction Hr as [|c1 ws1 n1 c2 w _ IH Hstep]; [done|]. destruct IH as [-> Hd1].
    destruct (deadlocked_step _ _ _ Hd1 Hstep) as (-> & Hd2 & _). done. }
  destruct H as [-> Hd']. split; [done|]. split; [done|].
  destruct Hd' as (_ & _ & _ & Hi & _). unfold Sync_done. by destruct (db_imm (c_db c')).
Qed.

(** Keys of letters only, one for every length. *)
Definition nth_key (i : nat) : bytes := replicate i x61.

Lemma nth_key_ok i : Z.of_nat i < 30000 -> row_ok (nth_key i, some_value).
Proof. intros Hi. split; [|by vm_compute]. unfold zlen, nth_key. cbn [fst]. rewrite length_replicate. lia. Qed.

Lemma nth_key_inj i j : nth_key i = nth_key j -> i = j.
Proof. intros H%(f_equal length). unfold nth_key in H. by rewrite !length_replicate in H. Qed.

Lemma om_insert_fresh_length {V} k (v : V) l : om_find k l = None -> length (om_insert k v l) = S (length l).
Proof.
  induction l as [|[k' v'] l IH]; cbn [om_find om_insert]; [done|]. case_decide as Hk; [done|]. intros H.
  destruct (bytes_compare k k') eqn:E; cbn [length]; [|done|by rewrite IH].
  by apply bytes_compare_eq in E.
Qed.

(** A row of these runs. *)
Definition small_row (r : row) : Prop := r.2 = some_value /\ zlen r.1 < 30000.

Lemma nth_key_small i : Z.of_nat i < 30000 -> small_row (nth_key i, some_value).
Proof. intros Hi. split; [done|]. unfold zlen, nth_key. cbn [fst]. rewrite length_replicate. lia. Qed.

(** A state between writes whose memory table has [len] rows, all under keys
    before the [next]-th; no fault is to come. *)
Record resting (c : cstate) (len next : nat) (num : Z) (I : option (list row)) (R0 R1 : list (list row))
    (bg : bg_pc) (scheduled : bool) : Prop := {
  re_rows : exists rows, db_inv (c_db c) (Some rows) I R0 R1 /\ length rows = len /\
    (forall i, (next <= i)%nat -> om_find (nth_key i) rows = None) /\ Forall small_row rows /\
    db_bytes (Some rows) I R0 R1 <= 40000 * Z.of_nat next;
  re_number : next_number (c_db c) <= num;
  re_io : fs_io (st_fs (db_store (c_db c))) = [];
  re_flags : bg_stopped (c_db c) = false /\ bg_compaction_scheduled (c_db c) = scheduled;
  re_pcs : c_bg c = bg /\ c_wr c = wr_idle;
}.

(** [c'] can be reached from [c] in [n] steps that write at most 40000 octets
    each. *)
Definition leads (n : nat) (c c' : cstate) : Prop :=
  forall c0 ws m, creach c0 c ws m ->
    exists ws', creach c0 c' ws' (m + n) /\ writes_bytes ws' <= writes_bytes ws + 40000 * Z.of_nat n.

Lemma leads_refl c : leads 0 c c.
Proof. intros c0 ws m H. exists ws. rewrite Nat.add_0_r. split; [done|lia]. Qed.

Lemma leads_trans n1 n2 c1 c2 c3 : leads n1 c1 c2 -> leads n2 c2 c3 -> leads (n1 + n2) c1 c3.
Proof.
  intros H12 H23 c0 ws m H. destruct (H12 _ _ _ H) as (ws1 & Hr1 & Hb1). destruct (H23 _ _ _ Hr1) as (ws2 & Hr2 & Hb2).
  exists ws2. rewrite Nat.add_assoc. split; [done|lia].
Qed.

Lemma leads_step c w c' : cstep c w c' -> write_bytes w <= 40000 -> leads 1 c c'.
Proof.
  intros Hs Hw c0 ws m Hr. exists (ws ++ opt_list w). rewrite Nat.add_1_r. split; [by eapply cr_step|]. rewrite writes_bytes_snoc. lia.
Qed.

Lemma leads_cons n c c1 c' : cstep c None c1 -> leads n c1 c' -> leads (S n) c c'.
Proof. intros Hs. apply (leads_trans 1 n). by apply (leads_step _ None). Qed.

Lemma small_write_bytes k v : zlen k < 30000 -> zlen (vr_value v) <= 1 -> write_bytes (Some (k, v)) <= 40000.
Proof.
  intros Hi Hv. unfold write_bytes, encode_rows. cbn [opt_list map concat]. rewrite app_nil_r, zlen_encode_row. cbn [fst snd]. lia.
Qed.

Lemma mem_count_small mt rows :
  mem_holds mt rows -> Z.of_nat (length rows) < 30000 -> MemTable_Count mt = Z.of_nat (length rows).
Proof.
  intros H Hl. rewrite (MemTable_Count_holds _ _ H). unfold i32, zlen. rewrite Z.mod_small; lia.
Qed.

(** A write of any small row. *)
Lemma resting_put c len next num I R0 R1 bg sch k v :
  resting c len next num I R0 R1 bg sch -> Z.of_nat len < 10000 -> zlen k < 30000 -> zlen (vr_value v) <= 1 -> record_typed v ->
  exists db', put_mem (c_db c) k v (fun _ => false) = Ret db' /\ leads 3 c (mkC db' bg wr_idle).
Proof.
  intros [(rows & Hinv & Hlen & _) _ _ _ [Hbg Hw]] Hl Hk Hv Hty. destruct c as [db bg' wr]. cbn [c_db c_bg c_wr] in *. subst bg' wr.
  assert (Hrow : row_ok (k, v)) by (split; cbn [fst snd]; lia).
  destruct (put_mem_holds db rows I R0 R1 k v (fun _ => false) Hinv Hrow Hty) as (db' & E & _). exists db'. split; [done|].
  eapply leads_cons; [by apply (cs_request _ _ k v (fun _ => false))|].
  eapply leads_cons; [eapply (cs_writer _ _ _ db (wr_write k v (fun _ => false)) None)|].
  - pose proof Hinv as [Hm _ _ _ _ _]. inversion Hm as [mt rows' Hmt E1 E2|]; subst. cbn [wr_step].
    rewrite <- E1, (mem_count_small mt rows Hmt) by lia.
    by rewrite (proj2 (Z.leb_gt _ _)) by (unfold kMemTableThreshold; lia).
  - eapply leads_step; [apply cs_writer; cbn [wr_step]; rewrite E; reflexivity|by apply small_write_bytes].
Qed.

(** One more write. *)
Lemma resting_write c len next num I R0 R1 bg sch :
  resting c len next num I R0 R1 bg sch -> Z.of_nat len < 10000 -> Z.of_nat next < 30000 ->
  exists c', leads 3 c c' /\ resting c' (S len) (S next) num I R0 R1 bg sch.
Proof.
  intros Hr Hl Hnx. pose proof (nth_key_small _ Hnx) as [_ Hk]. assert (Hty : record_typed some_value) by (by left).
  destruct (resting_put _ _ _ _ _ _ _ _ _ (nth_key next) some_value Hr Hl Hk ltac:(by vm_compute) Hty) as (db' & E & L).
  destruct Hr as [(rows & Hinv & Hlen & Hfresh & Hval & Hb) Hn Hio [Hs Hsch] [Hbg Hw]].
  destruct c as [db bg' wr]. cbn [c_db c_bg c_wr] in *. subst bg' wr.
  destruct (put_mem_holds db rows I R0 R1 (nth_key next) some_value (fun _ => false) Hinv (nth_key_ok _ Hnx) Hty)
    as (db1 & E1 & (Hinv' & _ & _ & Hb') & Hn'). rewrite E in E1. injection E1 as <-.
  destruct (put_mem_stable _ _ _ _ _ E) as (Hstab & Ei & Es & Esch).
  exists (mkC db' bg wr_idle). split; [done|].
  - split; cbn [c_db c_bg c_wr]; try done.
    + exists (om_insert (nth_key next) some_value rows). split; [done|].
      split; [rewrite om_insert_fresh_length; auto|]. split.
      * intros i Hi. rewrite om_find_insert, decide_False; [apply Hfresh; lia|].
        intros H%nth_key_inj. lia.
      * split; [apply om_insert_Forall; [by apply nth_key_small|done]|].
        etransitivity; [exact Hb'|]. rewrite zlen_encode_row. cbn [fst snd].
        unfold zlen at 1. unfold nth_key at 1. rewrite length_replicate.
        change (zlen (vr_value some_value)) with 1. lia.
    + lia.
    + pose proof (ss_io _ _ Hstab) as H. rewrite Hio in H. by apply suffix_nil_inv in H.
    + by rewrite Es, Esch.
Qed.

Lemma resting_fill k c len next num I R0 R1 bg sch :
  resting c len next num I R0 R1 bg sch -> Z.of_nat (len + k) <= 10000 -> Z.of_nat (next + k) <= 30000 ->
  exists c', leads (3 * k) c c' /\ resting c' (len + k) (next + k) num I R0 R1 bg sch.
Proof.
  revert c len next. induction k as [|k IH]; intros c len next Hr Hl Hn.
  { exists c. rewrite !Nat.add_0_r. split; [apply leads_refl|done]. }
  destruct (resting_write _ _ _ _ _ _ _ _ _ Hr ltac:(lia) ltac:(lia)) as (c1 & L1 & Hr1).
  destruct (IH c1 (S len) (S next) Hr1 ltac:(lia) ltac:(lia)) as (c2 & L2 & Hr2).
  exists c2. split; [replace (3 * S k)%nat with (3 + 3 * k)%nat by lia; by eapply leads_trans|]. by rewrite !Nat.add_succ_comm in Hr2.
Qed.

(** The write that finds the table full and no immutable table. *)
Lemma resting_switch c len next num R0 R1 bg sch :
  resting c len next num None R0 R1 bg sch -> Z.of_nat len = 10000 -> Z.of_nat next < 30000 ->
  num + 1 < 2 ^ 64 ->
  exists rows c', leads 3 c c' /\ resting c' 1 (S next) (num + 1) (Some rows) R0 R1 bg true /\
    length rows = len /\ Forall small_row rows.
Proof.
  intros [(rows & Hinv & Hlen & _ & Hval & Hb) Hn Hio [Hs Hsch] [Hbg Hw]] Hl Hnx Hnum.
  destruct c as [db bg' wr]. cbn [c_db c_bg c_wr] in *. subst bg' wr.
  assert (Hrow : row_ok (nth_key next, some_value)) by (by apply nth_key_ok).
  assert (Hty : record_typed some_value) by (by left).
  pose proof Hinv as [Hm Hi Hst _ _ _]. inversion Hm as [mt rows' Hmt E1 E2|]; subst rows'.
  destruct (switch_memtable_holds db rows R0 R1 Hinv) as [Hinv1 Hn1]; [intros ->; cbn in Hlen; lia|lia|].
  destruct (switch_memtable_stable db R0 R1 Hst ltac:(lia)) as (Hstab1 & _ & Hs1 & Hsch1).
  destruct (put_mem_holds _ [] (Some rows) R0 R1 (nth_key next) some_value (fun _ => false) Hinv1 Hrow Hty)
    as (db' & E & (Hinv' & _ & _ & Hb') & Hn').
  destruct (put_mem_stable _ _ _ _ _ E) as (Hstab & _ & Es & Esch).
  exists rows, (mkC db' bg wr_idle). split.
  - eapply leads_cons; [by apply (cs_request _ _ (nth_key next) some_value (fun _ => false))|].
    eapply leads_cons; [eapply (cs_writer _ _ _ (switch_memtable db) (wr_write (nth_key next) some_value (fun _ => false)) None)|].
    + cbn [wr_step]. rewrite <- E1, (mem_count_small mt rows Hmt) by lia.
      rewrite (proj2 (Z.leb_le _ _)) by (unfold kMemTableThreshold; lia). by inversion Hi.
    + eapply leads_step; [apply cs_writer; cbn [wr_step]; rewrite E; reflexivity|by apply small_write_bytes; [apply nth_key_small|]].
  - split; [|done]. split; cbn [c_db c_bg c_wr]; try done.
    + exists (om_insert (nth_key next) some_value []). split; [done|]. split; [done|]. split.
      * intros i Hi'. cbn. rewrite decide_False; [done|]. intros H%nth_key_inj. lia.
      * split; [constructor; [by apply nth_key_small|constructor]|]. etransitivity; [exact Hb'|]. rewrite zlen_encode_row. cbn [fst snd].
        unfold zlen at 1. unfold nth_key at 1. rewrite length_replicate.
        change (zlen (vr_value some_value)) with 1.
        unfold db_bytes, stack_bytes in *. cbn [opt_list app fold_right] in *.
        change (zlen (encode_rows [])) with 0. lia.
    + lia.
    + pose proof (ss_io _ _ Hstab) as H. pose proof (ss_io _ _ Hstab1) as H1.
      rewrite Hio in H1. apply suffix_nil_inv in H1. rewrite H1 in H. by apply suffix_nil_inv in H.
    + by rewrite Es, Esch, Hs1, Hsch1.
Qed.

(** The background thread flushes the immutable table, the first of its level,
    up to the moment before it locks again. *)
Lemma resting_flush c len next num rows R1 :
  resting c len next num (Some rows) [] R1 bg_wait true -> Z.of_nat next < 30000 -> num + 1 < 2 ^ 64 ->
  exists c', leads 4 c c' /\ resting c' len next (num + 1) None [rows] R1 bg_reset true.
Proof.
  intros [(mrows & Hinv & Hlen & Hfresh & Hval & Hb) Hn Hio [Hs Hsch] [Hbg Hw]] Hnx Hnum.
  destruct c as [db bg' wr]. cbn [c_db c_bg c_wr] in *. subst bg' wr.
  destruct (minor_prepare_holds db (Some mrows) rows [] R1 Hinv ltac:(lia))
    as (db1 & ctx & E1 & Hinv1 & Hr1 & Em1 & Hn1 & Hs1).
  pose proof (suffix_nil_inv (fs_io (st_fs (db_store db1)))) as Hio1.
  rewrite <- Hio in Hio1 at 1. specialize (Hio1 (ss_io _ _ Hs1)).
  destruct (minor_build_holds db1 ctx (Some mrows) rows [] R1 Hinv1 Hr1 ltac:(lia))
    as (db2 & o & E2 & Em & Ei & Hn2 & Hs2 & Hok & Ho).
  specialize (Hok Hio1). destruct o as [r|]; [|done].
  pose proof (db_inv_stable _ _ _ _ _ _ Hinv1 Em Ei Hs2) as Hinv2.
  pose proof (minor_ready_stable _ _ _ Hr1 Ei Hs2) as Hr2.
  destruct (install_minor_holds db2 ctx r (Some mrows) rows [] R1 Hinv2 Ho) as (Hinv3 & Hn3 & Hio3); [apply Hr2..|].
  assert (Hflags : bg_stopped (install_minor db2 ctx r) = false /\ bg_compaction_scheduled (install_minor db2 ctx r) = true).
  { unfold minor_prepare in E1. destruct (db_imm db); [|done]. destruct (store_AllocateFileNumber _).
    injection E1 as <- <-. unfold minor_build in E2. destruct (BuildMinorSST _ _) as [[? ?]| |]; [|done..].
    cbn [obind] in E2. by injection E2 as <- _. }
  exists (mkC (install_minor db2 ctx r) bg_reset wr_idle). split.
  - eapply leads_cons; [apply (cs_background _ _ _ db bg_prepare); cbn [bg_step]; by rewrite Hs, Hsch|].
    eapply leads_cons; [apply (cs_background _ _ _ db1 (bg_build ctx)); cbn [bg_step]; by rewrite E1|].
    eapply leads_cons; [apply (cs_background _ _ _ db2 (bg_install ctx r)); cbn [bg_step]; by rewrite E2|].
    eapply leads_cons; [|apply leads_refl]. apply cs_background. cbn [bg_step]. pose proof (di_store _ _ _ _ _ Hinv3) as Hst3.
    apply si_l0, Forall2_length in Hst3. unfold trigger_l0_to_l1. by rewrite Hst3.
  - split; cbn [c_db c_bg c_wr]; try done.
    + exists mrows. do 4 (split; [done|]).
      change [rows] with ([] ++ [rows]). by rewrite minor_bytes.
    + lia.
    + pose proof (ss_io _ _ Hs2) as H. rewrite Hio1 in H. apply suffix_nil_inv in H.
      rewrite H in Hio3. by apply suffix_nil_inv in Hio3.
Qed.

(** The background thread forgets what was scheduled in the meantime. *)
Lemma resting_reset c len next num I R0 R1 sch :
  resting c len next num I R0 R1 bg_reset sch ->
  exists c', leads 1 c c' /\ resting c' len next num I R0 R1 bg_wait false.
Proof.
  intros [(mrows & Hinv & Hrest) Hn Hio [Hs Hsch] [Hbg Hw]].
  destruct c as [db bg' wr]. cbn [c_db c_bg c_wr] in *. subst bg' wr.
  exists (mkC (set_scheduled db false) bg_wait wr_idle). split; [eapply leads_cons; [by apply cs_background|apply leads_refl]|].
  split; cbn [c_db c_bg c_wr]; try done. exists mrows. split; [by destruct Hinv|done].
Qed.

(** The next write that needs the switch is stuck. *)
Lemma resting_deadlock c len next num rows R0 R1 :
  resting c len next num (Some rows) R0 R1 bg_wait false -> Z.of_nat len = 10000 ->
  exists c', leads 1 c c' /\ deadlocked c'.
Proof.
  intros [(mrows & Hinv & Hlen & _) Hn Hio [Hs Hsch] [Hbg Hw]] Hl.
  destruct c as [db bg' wr]. cbn [c_db c_bg c_wr] in *. subst bg' wr.
  pose proof Hinv as [Hm Hi _ _ _ _]. inversion Hm as [mt rows' Hmt E1 E2|]; subst rows'.
  exists (mkC db bg_wait (wr_enter [] some_value (fun _ => false))). split.
  - eapply leads_cons; [apply (cs_request _ _ [] some_value (fun _ => false)); [by split|by left]|apply leads_refl].
  - split; [done|]. split; [done|]. split; [done|]. cbn [c_db c_wr].
    split; [by inversion Hi|]. split; [|by exists [], some_value, (fun _ => false); left].
    exists mt. split; [done|]. rewrite (mem_count_small mt mrows Hmt); unfold kMemTableThreshold; lia.
Qed.

Lemma start_resting db :
  db_inv db (Some []) None [] [] -> next_number db = 1 -> fs_io (st_fs (db_store db)) = [] ->
  bg_stopped db = false -> bg_compaction_scheduled db = false -> resting (start db) 0 0 1 None [] [] bg_wait false.
Proof.
  intros Hinv Hn Hio Hs Hsch. constructor; cbn [start c_db c_bg c_wr].
  - exists []. split; [exact Hinv|]. split; [reflexivity|]. split; [intros; reflexivity|]. split; [constructor|]. by vm_compute.
  - by rewrite Hn.
  - exact Hio.
  - by split.
  - by split.
Qed.

Lemma deadlock_reachable db0 :
  resting (start db0) 0 0 1 None [] [] bg_wait false -> exists n c, leads n (start db0) c /\ deadlocked c.
Proof.
  intros H0. set (full := Z.to_nat 10000). set (rest := Z.to_nat 9999).
  destruct (resting_fill full _ _ _ _ _ _ _ _ _ H0) as (c1 & L1 & H1); [lia..|].
  destruct (resting_switch _ _ _ _ _ _ _ _ H1) as (rows1 & c2 & L2 & H2 & _); [lia..|].
  destruct (resting_flush _ _ _ _ _ _ H2) as (c3 & L3 & H3); [lia..|].
  destruct (resting_fill rest _ _ _ _ _ _ _ _ _ H3) as (c4 & L4 & H4); [lia..|].
  destruct (resting_switch _ _ _ _ _ _ _ _ H4) as (rows2 & c5 & L5 & H5 & _); [lia..|].
  destruct (resting_reset _ _ _ _ _ _ _ _ H5) as (c6 & L6 & H6).
  destruct (resting_fill rest _ _ _ _ _ _ _ _ _ H6) as (c7 & L7 & H7); [lia..|].
  destruct (resting_deadlock _ _ _ _ _ _ _ H7) as (c8 & L8 & H8); [lia|].
  eexists _, c8. split; [|done]. do 7 (eapply leads_trans; [done|]). done.
Qed.

(** * Properties *)

(** C30: a wake-up can be lost for ever.  [BackgroundLoop] clears
    [bg_compaction_scheduled_] after its flush without looking at [imm_] again; if
    a writer has switched tables in the meantime, its request is forgotten.  From
    a fresh store a state is reached in which the writer needs the place of the
    immutable table and the background thread waits; from there on, whatever the
    threads do, no write completes and what [Sync] waits for never becomes
    true. *)
Theorem lost_wakeup (junk_t : nat -> byte) (junk_k junk_v : nat -> bytes)
    (flips : Z -> nat -> nat -> bool) :
  exists db0, DBImpl_open junk_t junk_k junk_v flips no_directory = Ret (Some db0) /\
  exists c ws n, creach (start db0) c ws n /\ deadlocked c /\
    forall c' ws' n', creach c c' ws' n' -> ws' = [] /\ deadlocked c' /\ Sync_done (c_db c') = false.
Proof.
  destruct (open_fresh_inv junk_t junk_k junk_v flips) as (db0 & E & Hinv & Hn & Hio & Hs & Hsch).
  exists db0. split; [done|].
  destruct (deadlock_reachable db0 (start_resting db0 Hinv Hn Hio Hs Hsch)) as (steps & c & Hl & Hd).
  destruct (Hl (start db0) [] 0%nat (cr_start _)) as (ws & Hr & _).
  exists c, ws, (0 + steps)%nat. split; [exact Hr|]. split; [exact Hd|].
  intros c' ws' n'. apply deadlocked_forever, Hd.
Qed.
