(* ===== verification/Disk.v ===== *)
(** What the files of the directory hold while the store of [DBConc] runs on
    it: the invariant between the store and its directory, kept by every
    critical section as long as no file
    operation fails but the writing of SSTables.  [Durability] shows
    what a restart makes of it. *)
From S2P Require Import Prelude Storage OMap SSTableBuilder SSTableReader SSTable Files Crc Wal Manifest SkipList Table MemTable DBIterator Compaction Recovery DBImpl DBConc.

(** ** Specification *)

(** The file of SSTable [id] holds [rows]. *)
Definition sst_on_disk (fs : FS) (id : Z) (rows : list row) : Prop :=
  fs_read fs (sst_name id) = Some (build_sst rows) /\ rows <> [].

(** Replaying log [id] gives [rows]. *)
Definition wal_on_disk (fs : FS) (id : Z) (rows : list row) : Prop :=
  exists es, fs_read fs (wal_name id) = Some (encode_log es) /\ Forall entry_ok es /\ replay_rows es [] = rows.

(** The directory of a store: [ids0] and [ids1] are the SSTables of the two levels,
    oldest first, [wals] the live logs, and [pending] an SSTable that has been
    written but not installed. *)
Record disk_inv (st : Store) (wals : gset Z) (pending : option Z) (ids0 ids1 : list Z)
    (R0 R1 : list (list row)) : Prop := {
  dk_manifest : manifest_inv (st_mm st) (st_fs st);
  dk_levels : forall id l, sst_levels (mm_state (st_mm st)) !! id = Some l <->
    (l = 0 /\ id ∈ ids0) \/ (l = 1 /\ id ∈ ids1);
  dk_sorted0 : StronglySorted Z.lt ids0;
  dk_sorted1 : StronglySorted Z.lt ids1;
  dk_l0 : Forall2 (sst_on_disk (st_fs st)) ids0 R0;
  dk_l1 : Forall2 (sst_on_disk (st_fs st)) ids1 R1;
  dk_wals : live_wals (mm_state (st_mm st)) = wals;
  dk_numbers : forall id, id ∈ wals \/ pending = Some id -> 0 <= id <= next_file_number (mm_state (st_mm st));
  dk_logs : forall name, is_Some (fs_read (st_fs st) name) -> numbered (str ".wal") name <> None ->
    exists id, name = wal_name id /\ id ∈ wals;
  dk_ssts : forall name, is_Some (fs_read (st_fs st) name) -> numbered (str ".sst") name <> None ->
    exists id, name = sst_name id /\ (id ∈ ids0 \/ id ∈ ids1 \/ pending = Some id);
}.

Definition db_wals (db : DBImpl) : gset Z :=
  match db_mem db with Some _ => {[active_wal_id db]} | None => ∅ end ∪
  match db_imm db with Some _ => {[imm_wal_id db]} | None => ∅ end.

Definition pending_sst (pc : bg_pc) : option Z :=
  match pc with
  | bg_install ctx _ => Some (mc_new_sst_id ctx)
  | bg_cinstall ctx _ => if has_output ctx then Some (new_sst_id ctx) else None
  | _ => None
  end.

(** The log of the immutable table, as the context of its flush has it. *)
Definition flushes (db : DBImpl) (ids0 : list Z) (ctx : MinorCtx) : Prop :=
  old_wal_id ctx = imm_wal_id db /\ old_wal_path ctx = wal_name (imm_wal_id db) /\
  Forall (fun id => id < mc_new_sst_id ctx) ids0.

(** What the background thread knows about the directory in the middle of its work. *)
Definition bg_disk (db : DBImpl) (I : option (list row)) (ids0 ids1 : list Z) (pc : bg_pc) : Prop :=
  match pc with
  | bg_wait | bg_prepare | bg_compact | bg_reset => True
  | bg_build ctx => flushes db ids0 ctx
  | bg_install ctx r => flushes db ids0 ctx /\
      exists rows, I = Some rows /\ sst_on_disk (st_fs (db_store db)) (mc_new_sst_id ctx) rows
  | bg_cbuild ctx => ids0 <> [] /\ Forall (fun id => id < new_sst_id ctx) ids1
  | bg_cinstall ctx reader =>
      has_output ctx = true -> ids0 <> [] /\ Forall (fun id => id < new_sst_id ctx) ids1 /\
        sst_on_disk (st_fs (db_store db)) (new_sst_id ctx) (output_records ctx)
  end.

(** A memory table whose log [id] holds its rows. *)
Definition logged (fs : FS) (mem : option MemTable) (id : Z) (rows : list row) : Prop :=
  exists mt, mem = Some mt /\ mt_wal mt = mkWal (wal_name id) true /\ wal_on_disk fs id rows.

Record mem_on_disk (db : DBImpl) (M I : option (list row)) : Prop := {
  md_mem : forall rows, M = Some rows -> logged (st_fs (db_store db)) (db_mem db) (active_wal_id db) rows;
  md_imm : forall rows, I = Some rows -> logged (st_fs (db_store db)) (db_imm db) (imm_wal_id db) rows;
  md_logs : I <> None -> imm_wal_id db <> active_wal_id db;
}.

(** Everything that the store shows is in its directory. *)
Definition on_disk (db : DBImpl) (pc : bg_pc) (M I : option (list row)) (R0 R1 : list (list row)) : Prop :=
  exists ids0 ids1, disk_inv (db_store db) (db_wals db) (pending_sst pc) ids0 ids1 R0 R1 /\
    mem_on_disk db M I /\ bg_disk db I ids0 ids1 pc.

(** The log of the immutable table is the older one. *)
Definition logs_ordered (db : DBImpl) : Prop := db_imm db <> None -> imm_wal_id db < active_wal_id db.

(** * Lemmas *)

(** ** Names *)

Lemma numbered_wal id : 0 <= id -> numbered (str ".wal") (wal_name id) = Some (to_string id).
Proof.
  intros Hid. unfold numbered, path_extension, path_stem, wal_name. rewrite path_split_id by auto.
  cbn [fst snd]. by rewrite decide_True, to_string_digits by done.
Qed.

Lemma numbered_sst id : 0 <= id -> numbered (str ".sst") (sst_name id) = Some (to_string id).
Proof.
  intros Hid. unfold numbered, path_extension, path_stem, sst_name. rewrite path_split_id by auto.
  cbn [fst snd]. by rewrite decide_True, to_string_digits by done.
Qed.

Lemma numbered_wal_sst id : 0 <= id -> numbered (str ".wal") (sst_name id) = None.
Proof. intros Hid. unfold numbered, path_extension, sst_name. by rewrite path_split_id by auto. Qed.

Lemma numbered_sst_wal id : 0 <= id -> numbered (str ".sst") (wal_name id) = None.
Proof. intros Hid. unfold numbered, path_extension, wal_name. by rewrite path_split_id by auto. Qed.

Definition data_name (name : bytes) : Prop :=
  numbered (str ".wal") name <> None \/ numbered (str ".sst") name <> None.

Lemma data_wal id : 0 <= id -> data_name (wal_name id).
Proof. intros. left. by rewrite numbered_wal. Qed.

Lemma data_sst id : 0 <= id -> data_name (sst_name id).
Proof. intros. right. by rewrite numbered_sst. Qed.

Definition manifest_file (name : bytes) : Prop :=
  name = manifest_name \/ name = manifest_log_name \/ name = manifest_tmp_name.

Lemma data_manifest name : data_name name -> manifest_file name -> False.
Proof. by intros [H|H] [-> | [-> | ->]]; vm_compute in H. Qed.

(** The manifest files and the others. *)
Definition same_data (fs fs' : FS) : Prop := forall name, ~ manifest_file name -> fs_read fs' name = fs_read fs name.
Definition same_manifest (fs fs' : FS) : Prop :=
  fs_is_dir fs' = fs_is_dir fs /\ fs_io fs' = fs_io fs /\
  forall name, manifest_file name -> fs_read fs' name = fs_read fs name.

#[export] Instance same_data_preorder : PreOrder same_data.
Proof. split; [done|]. intros f1 f2 f3 H1 H2 name Hn. by rewrite H2, H1. Qed.

#[export] Instance same_manifest_preorder : PreOrder same_manifest.
Proof.
  split; [done|]. intros f1 f2 f3 (D1 & I1 & H1) (D2 & I2 & H2).
  split; [congruence|]. split; [congruence|]. intros name Hn. by rewrite H2, H1.
Qed.

Lemma fs_write_data fs name base data : manifest_file name -> same_data fs (fs_write fs name base data).1.
Proof.
  intros Hm name' Hn. assert (name <> name') by (by intros <-).
  unfold fs_write, fs_next_io, fs_read. destruct (fs_io fs) as [|[| |n] q]; cbn; try done;
    by rewrite lookup_insert_ne by done.
Qed.

Lemma Persist_data mm fs : same_data fs (Persist mm fs).1.
Proof.
  unfold Persist, PersistState, fs_overwrite. destruct (negb _); [done|].
  pose proof (fs_write_data fs manifest_tmp_name [] (encode_state (mm_state mm))) as Hw.
  destruct (fs_write _ _ _ _) as [fs1 ok]. cbn [fst] in Hw. specialize (Hw ltac:(unfold manifest_file; auto)).
  destruct (negb ok); [done|]. cbn [fst]. etransitivity; [exact Hw|]. intros name Hn.
  unfold fs_rename, fs_read. destruct (fs_files fs1 !! manifest_tmp_name); [|done]. cbn [fs_files].
  rewrite lookup_insert_ne, lookup_delete_ne; [done|..]; intros <-; apply Hn; unfold manifest_file; auto.
Qed.

Lemma TruncateLog_data fs : same_data fs (TruncateLog fs).1.
Proof.
  unfold TruncateLog, fs_open_trunc, fs_next_io. destruct (negb _); [done|]. destruct (negb _); [done|].
  intros name Hn. assert (manifest_log_name <> name) by (intros <-; apply Hn; unfold manifest_file; auto).
  unfold fs_read. destruct (fs_io fs) as [|[| |n] q]; cbn; try done; by rewrite lookup_insert_ne by done.
Qed.

Lemma MaybeCheckpoint_data mm fs : same_data fs (MaybeCheckpoint mm fs).2.
Proof.
  unfold MaybeCheckpoint. destruct (_ <? _); [done|].
  pose proof (Persist_data mm fs) as H1. destruct (Persist mm fs) as [fs1 ok1]. destruct (negb ok1); [done|].
  pose proof (TruncateLog_data fs1) as H2. destruct (TruncateLog fs1) as [fs2 ok2]. cbn [fst] in *.
  destruct (negb ok2); by etransitivity.
Qed.

Lemma RecordEdit_data mm fs e : same_data fs (RecordEdit mm fs e).2.
Proof.
  unfold RecordEdit. assert (H : same_data fs (AppendEdit fs e).1).
  { unfold AppendEdit, fs_append. destruct (negb _); [done|]. apply fs_write_data. unfold manifest_file; auto. }
  destruct (AppendEdit fs e) as [fs1 ok]. cbn [fst] in H. destruct (negb ok).
  - pose proof (Persist_data mm fs1) as H1. destruct (Persist mm fs1) as [fs2 ok2]. cbn [fst snd] in *. by etransitivity.
  - etransitivity; [exact H|]. apply MaybeCheckpoint_data.
Qed.

Lemma run_call_data mm fs c : same_data fs (run_call mm fs c).2.
Proof. rewrite run_call_edit. destruct (call_edit _ _); [apply RecordEdit_data|done]. Qed.

(** Operations on other files leave the manifest alone. *)
Lemma fs_set_manifest fs name data : ~ manifest_file name -> same_manifest fs (fs_set fs name data).
Proof. intros Hn. split; [done|]. split; [done|]. intros m Hm. apply fs_read_set_ne. by intros <-. Qed.

Lemma fs_read_remove_ne fs name name' : name <> name' -> fs_read (fs_remove fs name) name' = fs_read fs name'.
Proof. intros H. unfold fs_read, fs_remove. by apply lookup_delete_ne. Qed.

Lemma fs_remove_manifest fs name : ~ manifest_file name -> same_manifest fs (fs_remove fs name).
Proof. intros Hn. split; [done|]. split; [done|]. intros m Hm. apply fs_read_remove_ne. by intros <-. Qed.

Lemma manifest_inv_same mm fs fs' : same_manifest fs fs' -> manifest_inv mm fs -> manifest_inv mm fs'.
Proof.
  intros (D & Io & Hf) ((Hd & Hio) & Hs & Hc & s0 & es & [F1 F2 F3 F4 F5] & E).
  split; [split; congruence|]. split; [done|]. split; [done|]. exists s0, es. split; [|done].
  split; rewrite ?D; rewrite ?Hf by (unfold manifest_file; auto); done.
Qed.

(** ** Manifest calls *)

Definition store_call (st : Store) (c : manifest_call) : Store :=
  let '(mm, fs) := run_call (st_mm st) (st_fs st) c in mkStore fs mm (st_l0 st) (st_l1 st).

Lemma store_call_allocate st : (store_AllocateFileNumber st).1 = store_call st call_AllocateFileNumber.
Proof. unfold store_AllocateFileNumber, store_call. cbn [run_call]. by destruct (AllocateFileNumber _ _) as [[mm fs] n]. Qed.
Lemma store_call_add_wal st id : store_AddWal st id = store_call st (call_AddWal id).
Proof. unfold store_AddWal, store_call. cbn [run_call]. by destruct (AddWal _ _ _) as [[mm fs] b]. Qed.
Lemma store_call_remove_wal st id : store_RemoveWal st id = store_call st (call_RemoveWal id).
Proof. unfold store_RemoveWal, store_call. cbn [run_call]. by destruct (RemoveWal _ _ _) as [[mm fs] b]. Qed.
Lemma store_call_add_sst st id l : store_AddSst st id l = store_call st (call_AddSst id l).
Proof. done. Qed.
Lemma store_call_remove_sst st id : store_RemoveSst st id = store_call st (call_RemoveSst id).
Proof. done. Qed.

(** Numbers below [n]: there are at most [n + 1] of them. *)
Lemma numbers_bounded (l : list Z) n : NoDup l -> (forall x, x ∈ l -> 0 <= x <= n) -> zlen l <= Z.max 0 (n + 1).
Proof.
  intros Hnd Hb. assert (H : (length l <= length (seqZ 0 (n + 1)))%nat).
  { apply submseteq_length, NoDup_submseteq; [done|]. intros x Hx%Hb. apply elem_of_seqZ. lia. }
  rewrite length_seqZ in H. unfold zlen. lia.
Qed.

(** The store's numbers, small enough for the counts of the snapshot. *)
Definition small (st : Store) : Prop := 0 <= next_file_number (mm_state (st_mm st)) < 2 ^ 31.

Lemma disk_room st wals p ids0 ids1 R0 R1 :
  store_inv st R0 R1 -> disk_inv st wals p ids0 ids1 R0 R1 -> small st -> has_room (mm_state (st_mm st)) 1.
Proof.
  intros Hst Hd [Hs1 Hs2]. split.
  - pose proof (numbers_bounded (map_to_list (sst_levels (mm_state (st_mm st)))).*1 (next_file_number (mm_state (st_mm st)))
      (NoDup_fst_map_to_list _)) as Hb. unfold zlen in Hb.
    rewrite length_fmap, length_map_to_list in Hb. specialize (Hb ltac:(
      intros x ([k l] & -> & Hin%elem_of_map_to_list)%list_elem_of_fmap; by eapply (si_ids _ _ _ Hst))). lia.
  - pose proof (numbers_bounded (elements (live_wals (mm_state (st_mm st)))) (next_file_number (mm_state (st_mm st)))
      (NoDup_elements _)) as Hb. rewrite (dk_wals _ _ _ _ _ _ _ Hd) in *. unfold zlen in Hb.
    specialize (Hb ltac:(intros x Hx%elem_of_elements; apply (dk_numbers _ _ _ _ _ _ _ Hd); by left)).
    change (length (elements wals)) with (size wals) in Hb. lia.
Qed.

(** A call of the manifest leaves the other files alone, and its own files follow. *)
Lemma store_call_disk st c :
  manifest_inv (st_mm st) (st_fs st) -> has_room (mm_state (st_mm st)) 1 -> call_ok c ->
  manifest_inv (st_mm (store_call st c)) (st_fs (store_call st c)) /\
  mm_state (st_mm (store_call st c)) = spec_call (mm_state (st_mm st)) c /\
  same_data (st_fs st) (st_fs (store_call st c)).
Proof.
  intros Hm Hr Hc. unfold store_call. destruct (run_call_inv (st_mm st) (st_fs st) c 0 Hm Hc Hr) as (H1 & H2 & _).
  pose proof (run_call_data (st_mm st) (st_fs st) c) as H3. by destruct (run_call _ _ _).
Qed.

(** ** Frames *)

Lemma sst_on_disk_same fs fs' id rows :
  fs_read fs' (sst_name id) = fs_read fs (sst_name id) -> sst_on_disk fs id rows -> sst_on_disk fs' id rows.
Proof. intros E [H1 H2]. split; [by rewrite E|done]. Qed.

Lemma wal_on_disk_same fs fs' id rows :
  fs_read fs' (wal_name id) = fs_read fs (wal_name id) -> wal_on_disk fs id rows -> wal_on_disk fs' id rows.
Proof. intros E (es & H1 & H2). exists es. by rewrite E. Qed.

Lemma not_manifest_sst id : 0 <= id -> ~ manifest_file (sst_name id).
Proof. intros H Hm. by eapply data_manifest; [apply data_sst|]. Qed.
Lemma not_manifest_wal id : 0 <= id -> ~ manifest_file (wal_name id).
Proof. intros H Hm. by eapply data_manifest; [apply data_wal|]. Qed.

Lemma sorted_app_lt l x : StronglySorted Z.lt l -> Forall (fun y => y < x) l -> StronglySorted Z.lt (l ++ [x]).
Proof.
  induction l as [|y l IH]; intros Hs Hf; cbn; [repeat constructor|].
  apply StronglySorted_inv in Hs as [Hs Hy]. apply Forall_cons in Hf as [Hyx Hf].
  constructor; [by apply IH|]. apply Forall_app. split; [done|]. by repeat constructor.
Qed.

Lemma Forall2_same {A B} (P Q : A -> B -> Prop) l k :
  (forall x y, x ∈ l -> P x y -> Q x y) -> Forall2 P l k -> Forall2 Q l k.
Proof.
  intros H Hl. induction Hl as [|x y l k Hxy _ IH]; constructor; [apply H; [left|done]|].
  apply IH. intros x' y' Hx'. apply H. by right.
Qed.

(** Which data files there are. *)
Lemma fs_set_some fs name data name' :
  is_Some (fs_read (fs_set fs name data) name') -> name' = name \/ is_Some (fs_read fs name').
Proof. destruct (decide (name = name')) as [->|]; [by left|]. rewrite fs_read_set_ne by done. by right. Qed.

Lemma fs_remove_some fs name name' :
  is_Some (fs_read (fs_remove fs name) name') -> name' <> name /\ is_Some (fs_read fs name').
Proof.
  destruct (decide (name = name')) as [->|].
  - rewrite fs_read_remove. by intros [? ?].
  - rewrite fs_read_remove_ne by done. by split.
Qed.

Lemma same_data_some fs fs' name :
  same_data fs fs' -> data_name name -> is_Some (fs_read fs' name) -> is_Some (fs_read fs name).
Proof. intros Hs Hn. rewrite Hs; [done|]. intros Hm. by eapply data_manifest. Qed.

Section disk.
Context (st : Store) (wals : gset Z) (p : option Z) (ids0 ids1 : list Z) (R0 R1 : list (list row)).
Hypothesis Hst : store_inv st R0 R1.
Hypothesis Hd : disk_inv st wals p ids0 ids1 R0 R1.

Lemma disk_sst_number id : id ∈ ids0 \/ id ∈ ids1 -> 0 <= id <= next_file_number (mm_state (st_mm st)).
Proof.
  intros [Hid|Hid]; [apply (si_ids _ _ _ Hst id 0)|apply (si_ids _ _ _ Hst id 1)];
    apply (dk_levels _ _ _ _ _ _ _ Hd); auto.
Qed.

(** The tables of the levels survive a change that does not touch their files. *)
Lemma disk_tables_same fs' :
  (forall id, id ∈ ids0 \/ id ∈ ids1 -> fs_read fs' (sst_name id) = fs_read (st_fs st) (sst_name id)) ->
  Forall2 (sst_on_disk fs') ids0 R0 /\ Forall2 (sst_on_disk fs') ids1 R1.
Proof.
  intros Hf. split; (eapply Forall2_same; [|first [exact (dk_l0 _ _ _ _ _ _ _ Hd)|exact (dk_l1 _ _ _ _ _ _ _ Hd)]]);
    intros id rows Hid; apply sst_on_disk_same, Hf; auto.
Qed.

(** A manifest call that leaves the levels and the logs alone. *)
Lemma disk_allocate :
  small st -> disk_inv (store_AllocateFileNumber st).1 wals p ids0 ids1 R0 R1 /\
  same_data (st_fs st) (st_fs (store_AllocateFileNumber st).1).
Proof.
  intros Hs. rewrite store_call_allocate.
  destruct (store_call_disk st call_AllocateFileNumber (dk_manifest _ _ _ _ _ _ _ Hd)
    (disk_room _ _ _ _ _ _ _ Hst Hd Hs) Logic.I) as (Hm & E & Hdata).
  split; [|done]. cbn [spec_call] in E. destruct Hs as [Hs1 Hs2]. rewrite u64_small in E by lia.
  pose proof Hd as [_ D2 D3 D4 D5 D6 D7 D8 D9 D10].
  destruct (disk_tables_same (st_fs (store_call st call_AllocateFileNumber))) as [T0 T1].
  { intros id Hid. apply Hdata, not_manifest_sst, (disk_sst_number id Hid). }
  split; rewrite ?E; try done.
  - intros id Hid. specialize (D8 id Hid). cbn. lia.
  - intros name Hx Hn. apply D9; [|done]. eapply same_data_some; [done|by left|done].
  - intros name Hx Hn. apply D10; [|done]. eapply same_data_some; [done|by right|done].
Qed.

(** A new, empty log. *)
Lemma disk_new_log id :
  small st -> 0 <= id <= next_file_number (mm_state (st_mm st)) ->
  let st' := store_AddWal (with_fs st (fs_set (st_fs st) (wal_name id) [])) id in
  disk_inv st' ({[id]} ∪ wals) p ids0 ids1 R0 R1 /\
  same_data (fs_set (st_fs st) (wal_name id) []) (st_fs st').
Proof.
  intros Hs Hid st'. unfold st'. rewrite store_call_add_wal. pose proof (disk_room _ _ _ _ _ _ _ Hst Hd Hs) as Hroom.
  set (st1 := with_fs st _). destruct (store_call_disk st1 (call_AddWal id)) as (Hm & E & Hdata).
  { eapply manifest_inv_same; [|apply Hd]. apply fs_set_manifest, not_manifest_wal; lia. }
  { done. } { split; [|destruct Hs]; lia. }
  split; [|done]. cbn [spec_call st1 with_fs st_mm] in E. pose proof Hd as [_ D2 D3 D4 D5 D6 D7 D8 D9 D10].
  destruct (disk_tables_same (st_fs (store_call st1 (call_AddWal id)))) as [T0 T1].
  { intros j Hj. pose proof (disk_sst_number j Hj). rewrite Hdata by (apply not_manifest_sst; lia).
    apply fs_read_set_ne. apply wal_sst_name_ne. }
  split; rewrite ?E; try done.
  - cbn. by rewrite D7.
  - cbn. intros j [[->%elem_of_singleton|Hj]%elem_of_union|Hj]; [done|apply D8; by left|apply D8; by right].
  - intros name Hx Hn. eapply same_data_some in Hx; [|done|by left].
    apply fs_set_some in Hx as [->|Hx]; [exists id; set_solver|].
    destruct (D9 name Hx Hn) as (j & -> & Hj). exists j. set_solver.
  - intros name Hx Hn. eapply same_data_some in Hx; [|done|by right].
    apply fs_set_some in Hx as [->|Hx]; [by rewrite numbered_sst_wal in Hn by lia|]. by apply D10.
Qed.

(** A log that is dropped, with its file. *)
Lemma disk_drop_log id :
  small st -> 0 <= id <= next_file_number (mm_state (st_mm st)) ->
  let st' := store_remove_file (store_RemoveWal st id) (wal_name id) in
  disk_inv st' (wals ∖ {[id]}) p ids0 ids1 R0 R1 /\ same_data (fs_remove (st_fs st) (wal_name id)) (st_fs st').
Proof.
  intros Hs Hid st'. unfold st'. rewrite store_call_remove_wal.
  destruct (store_call_disk st (call_RemoveWal id) (dk_manifest _ _ _ _ _ _ _ Hd)
    (disk_room _ _ _ _ _ _ _ Hst Hd Hs)) as (Hm & E & Hdata); [split; [|destruct Hs]; lia|].
  set (st1 := store_call st _) in *.
  assert (Hdata' : same_data (fs_remove (st_fs st) (wal_name id)) (fs_remove (st_fs st1) (wal_name id))).
  { intros name Hn. destruct (decide (wal_name id = name)) as [<-|Hne]; [by rewrite !fs_read_remove|].
    rewrite !fs_read_remove_ne by done. by apply Hdata. }
  split; [|done]. cbn [spec_call] in E. pose proof Hd as [_ D2 D3 D4 D5 D6 D7 D8 D9 D10].
  destruct (disk_tables_same (fs_remove (st_fs st1) (wal_name id))) as [T0 T1].
  { intros j Hj. pose proof (disk_sst_number j Hj). rewrite Hdata' by (apply not_manifest_sst; lia).
    apply fs_read_remove_ne. apply wal_sst_name_ne. }
  split; cbn [store_remove_file with_fs st_mm st_fs]; rewrite ?E; try done.
  - eapply manifest_inv_same; [|done]. apply fs_remove_manifest, not_manifest_wal; lia.
  - cbn. by rewrite D7.
  - cbn. intros j [[Hj _]%elem_of_difference|Hj]; apply D8; auto.
  - intros name [Hne Hx]%fs_remove_some Hn. eapply same_data_some in Hx; [|done|by left].
    destruct (D9 name Hx Hn) as (j & -> & Hj). exists j. split; [done|]. apply elem_of_difference. split; [done|].
    intros ->%elem_of_singleton. done.
  - intros name [Hne Hx]%fs_remove_some Hn. eapply same_data_some in Hx; [|done|by right]. by apply D10.
Qed.

(** A change of the file of a live log. *)
Lemma disk_write_log id data :
  id ∈ wals -> disk_inv (with_fs st (fs_set (st_fs st) (wal_name id) data)) wals p ids0 ids1 R0 R1.
Proof.
  intros Hid. pose proof Hd as [D1 D2 D3 D4 D5 D6 D7 D8 D9 D10]. pose proof (D8 id ltac:(auto)) as Hid'.
  destruct (disk_tables_same (fs_set (st_fs st) (wal_name id) data)) as [T0 T1].
  { intros j Hj. apply fs_read_set_ne, wal_sst_name_ne. }
  split; cbn [with_fs st_mm st_fs]; try done.
  - eapply manifest_inv_same; [|done]. apply fs_set_manifest, not_manifest_wal; lia.
  - intros name [->|Hx]%fs_set_some Hn; [by exists id|by apply D9].
  - intros name [->|Hx]%fs_set_some Hn; [by rewrite numbered_sst_wal in Hn by lia|by apply D10].
Qed.

(** A new SSTable, written and not installed. *)
Lemma disk_write_sst id data :
  p = None -> 0 <= id <= next_file_number (mm_state (st_mm st)) -> sst_levels (mm_state (st_mm st)) !! id = None ->
  disk_inv (with_fs st (fs_set (st_fs st) (sst_name id) data)) wals (Some id) ids0 ids1 R0 R1.
Proof.
  intros Hp Hid Hfresh. pose proof Hd as [D1 D2 D3 D4 D5 D6 D7 D8 D9 D10].
  destruct (disk_tables_same (fs_set (st_fs st) (sst_name id) data)) as [T0 T1].
  { intros j Hj. apply fs_read_set_ne. pose proof (disk_sst_number j Hj). intros E%sst_name_inj; [|lia|lia]. subst j.
    destruct Hj as [Hj|Hj]; [assert (Hl : sst_levels (mm_state (st_mm st)) !! id = Some 0)
      |assert (Hl : sst_levels (mm_state (st_mm st)) !! id = Some 1)]; try (apply D2; auto); congruence. }
  split; cbn [with_fs st_mm st_fs]; try done.
  - eapply manifest_inv_same; [|done]. apply fs_set_manifest, not_manifest_sst; lia.
  - intros j [Hj|[= <-]]; [apply D8; by left|done].
  - intros name [->|Hx]%fs_set_some Hn; [by rewrite numbered_wal_sst in Hn by lia|by apply D9].
  - intros name [->|Hx]%fs_set_some Hn; [exists id; auto|]. destruct (D10 name Hx Hn) as (j & -> & Hj).
    exists j. split; [done|]. rewrite Hp in Hj. destruct Hj as [?|[?|Hj]]; [auto|auto|done].
Qed.

(** The SSTable is installed on a level. *)
Lemma disk_install id rows l0 l1 level :
  small st -> p = Some id -> level = 0 \/ level = 1 -> sst_levels (mm_state (st_mm st)) !! id = None ->
  Forall (fun j => j < id) (if level =? 0 then ids0 else ids1) -> sst_on_disk (st_fs st) id rows ->
  let st' := store_AddSst (mkStore (st_fs st) (st_mm st) l0 l1) id level in
  disk_inv st' wals None (if level =? 0 then ids0 ++ [id] else ids0) (if level =? 0 then ids1 else ids1 ++ [id])
    (if level =? 0 then R0 ++ [rows] else R0) (if level =? 0 then R1 else R1 ++ [rows]) /\
  same_data (st_fs st) (st_fs st').
Proof.
  intros Hs Hp Hlev Hfresh Hlt Hrows st'. unfold st'. rewrite store_call_add_sst.
  pose proof Hd as [D1 D2 D3 D4 D5 D6 D7 D8 D9 D10]. pose proof (D8 id ltac:(auto)) as Hid.
  destruct (store_call_disk (mkStore (st_fs st) (st_mm st) l0 l1) (call_AddSst id level) (dk_manifest _ _ _ _ _ _ _ Hd)
    (disk_room _ _ _ _ _ _ _ Hst Hd Hs)) as (Hm & E & Hdata).
  { destruct Hs. split; split; lia. }
  set (st1 := store_call _ _) in *. split; [|done]. cbn [spec_call st_mm st_fs] in E, Hdata.
  destruct (disk_tables_same (st_fs st1)) as [T0 T1].
  { intros j Hj. apply Hdata, not_manifest_sst, (disk_sst_number j Hj). }
  assert (Hrows' : sst_on_disk (st_fs st1) id rows) by (eapply sst_on_disk_same, Hrows; apply Hdata, not_manifest_sst; lia).
  split; rewrite ?E; cbn [sst_levels live_wals next_file_number]; try done.
  - intros j l. rewrite lookup_insert. case_decide as Hj.
    + subst j. destruct Hlev as [-> | ->]; cbn [Z.eqb]; rewrite elem_of_app, list_elem_of_singleton; split.
      * intros [= <-]. auto.
      * intros [[-> _]|[-> Hin]]; [done|]. assert (sst_levels (mm_state (st_mm st)) !! id = Some 1) by (apply D2; auto). congruence.
      * intros [= <-]. auto.
      * intros [[-> Hin]|[-> _]]; [|done]. assert (sst_levels (mm_state (st_mm st)) !! id = Some 0) by (apply D2; auto). congruence.
    + rewrite D2. destruct (level =? 0); rewrite elem_of_app, list_elem_of_singleton; intuition congruence.
  - destruct (level =? 0); [by apply sorted_app_lt|done].
  - destruct (level =? 0); [done|by apply sorted_app_lt].
  - destruct (level =? 0); [apply Forall2_app; auto|done].
  - destruct (level =? 0); [done|apply Forall2_app; auto].
  - intros j [Hj|?]; [apply D8; by left|done].
  - intros name Hx Hn. apply D9; [|done]. eapply same_data_some; [done|by left|done].
  - intros name Hx Hn. eapply same_data_some in Hx; [|done|by right]. destruct (D10 name Hx Hn) as (j & -> & Hj).
    exists j. split; [done|]. destruct (level =? 0); rewrite elem_of_app, list_elem_of_singleton;
      (destruct Hj as [?|[?|Hj]]; [auto|auto|rewrite Hp in Hj; injection Hj as <-; auto]).
Qed.

End disk.

(** ** Dropping level 0 *)

Lemma has_room_remove st id n : has_room st n -> has_room (spec_call st (call_RemoveSst id)) n.
Proof.
  intros [H1 H2]. split; [|done]. cbn [spec_call sst_levels].
  pose proof (map_size_delete id (sst_levels st)) as H. destruct (sst_levels st !! id); cbn in H; lia.
Qed.

Lemma remove_inputs_disk ids st :
  manifest_inv (st_mm st) (st_fs st) -> has_room (mm_state (st_mm st)) 1 -> Forall (fun id => 0 <= id < 2 ^ 64) ids ->
  manifest_inv (st_mm (remove_inputs ids st)) (st_fs (remove_inputs ids st)) /\
  forall name, ~ manifest_file name ->
    fs_read (st_fs (remove_inputs ids st)) name =
    if decide (name ∈ map sst_name ids) then None else fs_read (st_fs st) name.
Proof.
  intros Hm Hr Hids. unfold remove_inputs. revert st Hm Hr. induction Hids as [|id ids Hid _ IH]; intros st Hm Hr; cbn [fold_left].
  { split; [done|]. intros name _. by rewrite decide_False by (by intros ?%not_elem_of_nil). }
  destruct (store_call_disk st (call_RemoveSst id) Hm Hr Hid) as (Hm1 & E & Hdata).
  rewrite store_call_remove_sst. set (st1 := store_call st _) in *.
  destruct (IH (store_remove_file st1 (sst_name id))) as [Hm2 Hf].
  { eapply manifest_inv_same; [|done]. apply fs_remove_manifest, not_manifest_sst. lia. }
  { cbn [store_remove_file with_fs st_mm]. rewrite E. by apply has_room_remove. }
  split; [done|]. intros name Hn. rewrite Hf by done. cbn [map store_remove_file with_fs st_fs].
  destruct (decide (name ∈ map sst_name ids)) as [Hin|Hin]; [by rewrite decide_True by (by right)|].
  destruct (decide (name = sst_name id)) as [->|Hne].
  - rewrite decide_True by left. apply fs_read_remove.
  - rewrite decide_False by (rewrite elem_of_cons; intros [?|?]; done).
    rewrite fs_read_remove_ne by done. by apply Hdata.
Qed.

Lemma disk_consume st wals ids0 ids1 R0 R1 ctx :
  store_inv st R0 R1 -> disk_inv st wals None ids0 ids1 R0 R1 -> small st ->
  l0_input_ids ctx ≡ₚ l0_ids (st_mm st) ->
  disk_inv (consume_l0 ctx st) wals None [] ids1 [] R1 /\
  forall id, 0 <= id -> fs_read (st_fs (consume_l0 ctx st)) (wal_name id) = fs_read (st_fs st) (wal_name id).
Proof.
  intros Hst Hd Hs Hids.
  assert (Hin : forall id, id ∈ l0_input_ids ctx <-> id ∈ ids0).
  { intros id. rewrite Hids, elem_of_l0_ids, (dk_levels _ _ _ _ _ _ _ Hd). intuition congruence. }
  pose proof (disk_room _ _ _ _ _ _ _ Hst Hd Hs) as Hroom.
  pose proof Hd as [D1 D2 D3 D4 D5 D6 D7 D8 D9 D10]. unfold consume_l0.
  set (st0 := mkStore (st_fs st) (st_mm st) [] (st_l1 st)).
  destruct (remove_inputs_effect (l0_input_ids ctx) st0) as (_ & _ & _ & E4 & E5 & E6).
  destruct (remove_inputs_disk (l0_input_ids ctx) st0) as [Hm Hf]; [done|done| |].
  { apply Forall_forall. intros id Hid%Hin. pose proof (disk_sst_number _ _ _ _ _ _ _ Hst Hd id ltac:(auto)). destruct Hs. lia. }
  set (st' := remove_inputs _ _) in *. cbn [st0 st_fs st_mm] in *.
  assert (Hnames : forall id, 0 <= id -> sst_name id ∈ map sst_name (l0_input_ids ctx) <-> id ∈ ids0).
  { intros id Hid. rewrite list_elem_of_fmap. split; [|by exists id; rewrite Hin].
    intros (j & E & Hj%Hin). pose proof (disk_sst_number _ _ _ _ _ _ _ Hst Hd j ltac:(auto)).
    apply sst_name_inj in E; [by subst j|lia|lia]. }
  assert (Hdisj : forall id, id ∈ ids1 -> id ∉ ids0).
  { intros id H1 H0. assert (Hl : sst_levels (mm_state (st_mm st)) !! id = Some 1) by (apply D2; auto).
    assert (Hl' : sst_levels (mm_state (st_mm st)) !! id = Some 0) by (apply D2; auto). congruence. }
  split.
  - split; rewrite ?E4, ?E5; try done; try (by constructor).
    + intros id l. rewrite E6. case_decide as Hj.
      * split; [done|]. intros [[_ ?%not_elem_of_nil]|[-> H1]]; [done|]. by destruct (Hdisj id H1); apply Hin.
      * rewrite Hin in Hj. rewrite D2, elem_of_nil. intuition.
    + eapply Forall2_same; [|exact D6]. intros id rows Hid. apply sst_on_disk_same.
      pose proof (disk_sst_number _ _ _ _ _ _ _ Hst Hd id ltac:(auto)).
      rewrite Hf by (apply not_manifest_sst; lia). rewrite decide_False; [done|].
      rewrite Hnames by lia. by apply Hdisj.
    + intros name Hx Hn. rewrite Hf in Hx by (intros ?; by eapply data_manifest; [left|]).
      case_decide; [by destruct Hx|by apply D9].
    + intros name Hx Hn. rewrite Hf in Hx by (intros ?; by eapply data_manifest; [right|]).
      case_decide as Hni; [by destruct Hx|]. destruct (D10 name Hx Hn) as (id & -> & Hid). exists id. split; [done|].
      destruct Hid as [Hid|[Hid|?]]; [|auto|done]. destruct Hni. apply Hnames; [|done].
      pose proof (disk_sst_number _ _ _ _ _ _ _ Hst Hd id ltac:(auto)). lia.
  - intros id Hid. rewrite Hf by (by apply not_manifest_wal). rewrite decide_False; [done|].
    rewrite list_elem_of_fmap. intros (j & E & _). by eapply wal_sst_name_ne.
Qed.
