(* ===== verification/DiskSteps.v ===== *)
(** Every critical section of the store's two threads keeps the directory in
    step with the store ([Disk]). *)
From S2P Require Import Prelude Storage OMap SSTableBuilder SSTableReader SSTable Files Crc Wal Manifest SkipList Table MemTable DBIterator Compaction Recovery DBImpl DBConc Disk.

(** ** The tables of a store are determined by its objects *)

Lemma table_holds_unique `{Table T} (t : T) rows rows' : table_holds t rows -> table_holds t rows' -> rows = rows'.
Proof. intros H1%th_scan H2%th_scan. congruence. Qed.

Lemma mem_holds_unique mt rows rows' : mem_holds mt rows -> mem_holds mt rows' -> rows = rows'.
Proof. intros H1%mem_table_holds H2%mem_table_holds. by eapply table_holds_unique. Qed.

Lemma db_inv_unique db M I R0 R1 M' I' R0' R1' :
  db_inv db M I R0 R1 -> db_inv db M' I' R0' R1' -> M' = M /\ I' = I /\ R0' = R0 /\ R1' = R1.
Proof.
  assert (Ho : forall (o : option MemTable) X X',
    option_Forall2 mem_holds o X -> option_Forall2 mem_holds o X' -> X' = X).
  { intros o X X' H1 H2. destruct H1; inversion H2; subst; [|done]. f_equal. by eapply mem_holds_unique. }
  assert (Hl : forall (l : list SSTableReader) X X', Forall2 table_holds l X -> Forall2 table_holds l X' -> X' = X).
  { intros l X X' H1. revert X'. induction H1 as [|r x l X Hx _ IH]; intros X' H2; inversion H2; subst; [done|].
    f_equal; [by eapply (table_holds_unique r)|by apply IH]. }
  intros [A1 A2 [A3 A4 _ _ _ _ _ _] _ _ _] [B1 B2 [B3 B4 _ _ _ _ _ _] _ _ _]. eauto 10.
Qed.

(** ** Writing a table *)

Lemma write_and_open_healthy fs path rows :
  fs_io fs = [] -> fs_read fs path = None -> rows <> [] -> rows_ok rows -> om_sorted rows ->
  exists r, write_and_open fs path rows = Ret (fs_set fs path (build_sst rows), Some r) /\ table_holds r rows.
Proof.
  intros Hio Hr Hne Hok Hs. unfold write_and_open, fs_append.
  assert (fs_exists fs path = false) as -> by (unfold fs_exists, fs_read in *; by rewrite Hr).
  rewrite Hr, fs_write_healthy by done. cbn [default from_option app].
  rewrite fs_read_set. destruct (build_open rows Hne Hok Hs) as (r & Ho & _). rewrite Ho. cbn [obind].
  exists r. split; [done|]. by apply sst_holds.
Qed.

(** The new SSTable of the background thread has a name of its own. *)
Lemma disk_sst_absent st wals ids0 ids1 R0 R1 id :
  store_inv st R0 R1 -> disk_inv st wals None ids0 ids1 R0 R1 -> 0 <= id -> sst_levels (mm_state (st_mm st)) !! id = None ->
  fs_read (st_fs st) (sst_name id) = None.
Proof.
  intros Hst Hd Hid Hfresh. apply eq_None_not_Some. intros Hx.
  destruct (dk_ssts _ _ _ _ _ _ _ Hd _ Hx) as (j & E & Hj); [by rewrite numbered_sst|].
  assert (Hj' : j ∈ ids0 \/ j ∈ ids1) by (destruct Hj as [?|[?|?]]; auto; done). clear Hj.
  pose proof (disk_sst_number _ _ _ _ _ _ _ Hst Hd j Hj'). apply sst_name_inj in E; [subst j|lia|lia].
  destruct Hj' as [Hj|Hj].
  - assert (sst_levels (mm_state (st_mm st)) !! id = Some 0) by (apply (dk_levels _ _ _ _ _ _ _ Hd); auto). congruence.
  - assert (sst_levels (mm_state (st_mm st)) !! id = Some 1) by (apply (dk_levels _ _ _ _ _ _ _ Hd); auto). congruence.
Qed.

Lemma disk_log_absent st wals p ids0 ids1 R0 R1 id :
  disk_inv st wals p ids0 ids1 R0 R1 -> 0 <= id -> id ∉ wals -> fs_read (st_fs st) (wal_name id) = None.
Proof.
  intros Hd Hid Hni. apply eq_None_not_Some. intros Hx.
  destruct (dk_logs _ _ _ _ _ _ _ Hd _ Hx) as (j & E & Hj); [by rewrite numbered_wal|].
  pose proof (dk_numbers _ _ _ _ _ _ _ Hd j ltac:(auto)). apply wal_name_inj in E; [by subst j|lia|lia].
Qed.

Lemma disk_healthy st wals p ids0 ids1 R0 R1 :
  disk_inv st wals p ids0 ids1 R0 R1 -> fs_is_dir (st_fs st) = true /\ fs_io (st_fs st) = [].
Proof. intros Hd. apply (dk_manifest _ _ _ _ _ _ _ Hd). Qed.

(** ** Frames *)

Lemma same_data_wal fs fs' id rows : same_data fs fs' -> 0 <= id -> wal_on_disk fs id rows -> wal_on_disk fs' id rows.
Proof. intros Hs Hid. by apply wal_on_disk_same, Hs, not_manifest_wal. Qed.

Lemma same_data_sst fs fs' id rows : same_data fs fs' -> 0 <= id -> sst_on_disk fs id rows -> sst_on_disk fs' id rows.
Proof. intros Hs Hid. by apply sst_on_disk_same, Hs, not_manifest_sst. Qed.

Lemma logged_same fs fs' mem id rows :
  fs_read fs' (wal_name id) = fs_read fs (wal_name id) -> logged fs mem id rows -> logged fs' mem id rows.
Proof. intros Hf (mt & H1 & H2 & H3). exists mt. split; [done|]. split; [done|]. by eapply wal_on_disk_same. Qed.

Lemma same_data_logged fs fs' mem id rows : same_data fs fs' -> 0 <= id -> logged fs mem id rows -> logged fs' mem id rows.
Proof. intros Hs Hid. by apply logged_same, Hs, not_manifest_wal. Qed.

(** Changes of the directory that keep the live logs. *)
Lemma mem_on_disk_same db db' M I :
  mem_on_disk db M I -> db_mem db' = db_mem db -> db_imm db' = db_imm db ->
  active_wal_id db' = active_wal_id db -> imm_wal_id db' = imm_wal_id db ->
  (forall id, (M <> None /\ id = active_wal_id db) \/ (I <> None /\ id = imm_wal_id db) ->
    fs_read (st_fs (db_store db')) (wal_name id) = fs_read (st_fs (db_store db)) (wal_name id)) ->
  mem_on_disk db' M I.
Proof.
  intros [Hm Hi Hne] E1 E2 E3 E4 Hf. split.
  - intros rows E. rewrite E1, E3. eapply logged_same; [|by apply Hm]. apply Hf. left. by rewrite E.
  - intros rows E. rewrite E2, E4. eapply logged_same; [|by apply Hi]. apply Hf. right. by rewrite E.
  - by rewrite E3, E4.
Qed.

(** The live logs have numbers. *)
Lemma db_wals_active db : db_mem db <> None -> active_wal_id db ∈ db_wals db.
Proof. unfold db_wals. destruct (db_mem db); [set_solver|done]. Qed.

Lemma db_wals_imm db : db_imm db <> None -> imm_wal_id db ∈ db_wals db.
Proof. unfold db_wals. destruct (db_imm db); [set_solver|done]. Qed.

Lemma inv_imm db M I R0 R1 : db_inv db M I R0 R1 -> (db_imm db = None <-> I = None).
Proof. intros [_ Hi _ _ _ _]. by destruct Hi. Qed.

Lemma inv_mem db M I R0 R1 : db_inv db M I R0 R1 -> (db_mem db = None <-> M = None).
Proof. intros [Hm _ _ _ _ _]. by destruct Hm. Qed.

Lemma live_log db M I R0 R1 j :
  db_inv db M I R0 R1 -> (M <> None /\ j = active_wal_id db) \/ (I <> None /\ j = imm_wal_id db) -> j ∈ db_wals db.
Proof.
  intros Hinv [[HM ->]|[HI ->]]; [apply db_wals_active; by rewrite (inv_mem _ _ _ _ _ Hinv)|].
  apply db_wals_imm. by rewrite (inv_imm _ _ _ _ _ Hinv).
Qed.

Definition small_db (db : DBImpl) : Prop := 0 <= next_number db < 2 ^ 31 - 1.

Lemma small_db_small db : small_db db -> small (db_store db).
Proof. unfold small_db, small, next_number. lia. Qed.

(** ** The writer *)

Lemma MemTable_new_healthy fs name :
  fs_io fs = [] -> fs_read fs name = None ->
  (MemTable_new fs name).2 = fs_set fs name [] /\ mt_wal (MemTable_new fs name).1 = mkWal name true.
Proof.
  intros Hio Hr. unfold MemTable_new, WalHandler_new, fs_open_append, fs_next_io. rewrite Hio.
  cbn. by rewrite Hr.
Qed.

(** A new log is empty. *)
Lemma wal_on_disk_nil fs id : fs_read fs (wal_name id) = Some [] -> wal_on_disk fs id [].
Proof. intros H. exists []. by split. Qed.

Lemma switch_on_disk db pc rows R0 R1 :
  db_inv db (Some rows) None R0 R1 -> bg_ready db None R0 R1 pc -> on_disk db pc (Some rows) None R0 R1 ->
  small_db db -> on_disk (switch_memtable db) pc (Some []) (Some rows) R0 R1.
Proof.
  intros Hinv Hbg (ids0 & ids1 & Hd & [Hmd _ _] & Hbd) Hs.
  destruct (Hmd rows eq_refl) as (mt & Hmt & Hwal & Hlog).
  pose proof (proj2 (inv_imm _ _ _ _ _ Hinv) eq_refl) as Himm. pose proof (di_store _ _ _ _ _ Hinv) as Hst.
  destruct (disk_allocate _ _ _ _ _ _ _ Hst Hd (small_db_small _ Hs)) as [Hd1 Hdata1].
  unfold small_db, next_number in Hs. pose proof (allocate_inv (db_store db) R0 R1 Hst ltac:(lia)) as Ha.
  unfold switch_memtable. destruct (store_AllocateFileNumber (db_store db)) as [st1 id]. cbn [fst] in *.
  destruct Ha as (Hst1 & Hid & Hn1 & _). pose proof (dk_numbers _ _ _ _ _ _ _ Hd) as Hnum.
  pose proof (Hnum (active_wal_id db) ltac:(left; apply db_wals_active; by rewrite Hmt)) as Hact.
  assert (Hfree : fs_read (st_fs st1) (wal_name id) = None).
  { eapply (disk_log_absent _ _ _ _ _ _ _ _ Hd1); [lia|]. intros Hin. specialize (Hnum id ltac:(auto)). lia. }
  destruct (MemTable_new_healthy (st_fs st1) (wal_name id) (proj2 (disk_healthy _ _ _ _ _ _ _ Hd1)) Hfree) as [Ef Ew].
  destruct (MemTable_new (st_fs st1) (wal_name id)) as [mem fs]. cbn [fst snd] in *. subst fs.
  destruct (disk_new_log _ _ _ _ _ _ _ Hst1 Hd1 id) as [Hd2 Hdata2]; [unfold small; lia|lia|].
  exists ids0, ids1. split; [|split].
  - replace (db_wals _) with ({[id]} ∪ db_wals db); [done|].
    unfold db_wals. cbn [active_wal_id imm_wal_id db_imm db_mem]. rewrite Hmt, Himm. set_solver.
  - split; cbn [db_mem db_store active_wal_id imm_wal_id].
    + intros ? [= <-]. exists mem. do 2 (split; [done|]). apply wal_on_disk_nil. rewrite Hdata2 by (apply not_manifest_wal; lia).
      apply fs_read_set.
    + intros ? [= <-]. eapply same_data_logged; [exact Hdata2|lia|].
      eapply logged_same; [|eapply same_data_logged; [exact Hdata1|lia|by apply Hmd]].
      apply fs_read_set_ne. intros E%wal_name_inj; lia.
    + intros _. lia.
  - destruct pc as [| |ctx|ctx r| |ctx|ctx reader|]; cbn [bg_disk bg_ready] in *; try done.
    + by destruct Hbg.
    + by destruct Hbg as (? & ? & _).
    + intros Hout. destruct Hbg as [Hp _]. pose proof (pr_id _ _ _ _ Hp Hout). destruct (Hbd Hout) as (? & ? & Hsst).
      split; [done|]. split; [done|]. cbn [db_store]. eapply same_data_sst; [exact Hdata2|lia|].
      eapply sst_on_disk_same; [|eapply same_data_sst; [exact Hdata1|lia|exact Hsst]].
      apply fs_read_set_ne, wal_sst_name_ne.
Qed.

Lemma replay_rows_snoc es e rows :
  replay_rows (es ++ [e]) rows = om_insert (we_key e) (mkRecord (we_type e) (we_value e)) (replay_rows es rows).
Proof. unfold replay_rows. by rewrite fold_left_app. Qed.

Lemma put_on_disk db db' pc k v flips rows I R0 R1 :
  db_inv db (Some rows) I R0 R1 -> bg_ready db I R0 R1 pc -> on_disk db pc (Some rows) I R0 R1 -> row_ok (k, v) ->
  put_mem db k v flips = Ret db' -> on_disk db' pc (Some (om_insert k v rows)) I R0 R1.
Proof.
  intros Hinv Hbg (ids0 & ids1 & Hd & [Hmd Hi Hlogs] & Hbd) [Hk Hv] Hput. cbn [fst snd] in *.
  destruct (Hmd rows eq_refl) as (mt & Hmt & Hwal & Hlog).
  pose proof (di_mem _ _ _ _ _ Hinv) as Hm. rewrite Hmt in Hm. inversion Hm as [? ? Hholds E1 E2|]; subst.
  destruct (disk_healthy _ _ _ _ _ _ _ Hd) as [_ Hio].
  destruct Hlog as (es & Hread & Hes & Erows).
  destruct (MemTable_Put_holds (st_fs (db_store db)) mt rows k v flips Hholds) as (mt' & E & Hwal' & _).
  unfold put_mem in Hput. rewrite Hmt, E in Hput. cbn [obind] in Hput. injection Hput as <-.
  rewrite (AddLog_healthy (st_fs (db_store db)) (mt_wal mt)) in Hwal' |- * by (by rewrite ?Hwal).
  cbn [fst snd] in *. rewrite Hwal in *. cbn [wh_filename] in *. rewrite Hread. cbn [default from_option].
  pose proof (dk_numbers _ _ _ _ _ _ _ Hd) as Hnum. pose proof (db_wals_active db ltac:(by rewrite Hmt)) as Hina.
  set (data := id (encode_log es) ++ _).
  pose proof (disk_write_log _ _ _ _ _ _ _ Hd (active_wal_id db) data Hina) as Hd1.
  exists ids0, ids1. split; [unfold db_wals in *; cbn [db_mem db_imm active_wal_id imm_wal_id]; by rewrite Hmt in Hd1|]. split; [split|].
  - intros ? [= <-]. exists mt'. do 2 (split; [done|]).
    exists (es ++ [mkEntry (vr_type v) k (vr_value v)]). cbn [db_store st_fs with_fs active_wal_id]. split; [|split].
    + rewrite fs_read_set, encode_log_app. unfold data, encode_log at 3. cbn [map concat].
      by rewrite app_nil_r.
    + apply Forall_app. split; [done|]. by repeat constructor.
    + rewrite replay_rows_snoc. cbn [we_key we_type we_value]. rewrite Erows. by destruct v.
  - intros rows_i Ei. cbn [db_store with_fs st_fs db_imm imm_wal_id]. eapply logged_same; [|by apply Hi].
    assert (Himm : db_imm db <> None) by (rewrite (inv_imm _ _ _ _ _ Hinv); by rewrite Ei).
    pose proof (Hnum (imm_wal_id db) ltac:(left; by apply db_wals_imm)). pose proof (Hnum (active_wal_id db) ltac:(auto)).
    apply fs_read_set_ne. intros Hn%wal_name_inj; [|lia..]. by apply Hlogs; [rewrite Ei|].
  - exact Hlogs.
  - assert (Hsst : forall id rows, sst_on_disk (st_fs (db_store db)) id rows ->
      sst_on_disk (fs_set (st_fs (db_store db)) (wal_name (active_wal_id db)) data) id rows).
    { intros id rows_t. apply sst_on_disk_same. apply fs_read_set_ne, wal_sst_name_ne. }
    destruct pc; cbn [bg_disk] in *; try done.
    + destruct Hbd as (H1 & rt & H2 & H3). split; [done|]. exists rt. split; [done|]. by apply Hsst.
    + intros Hout. destruct (Hbd Hout) as (? & ? & ?). split; [done|]. split; [done|]. by apply Hsst.
Qed.

(** ** The flush *)

Lemma allocate_on_disk db pc M I R0 R1 :
  db_inv db M I R0 R1 -> on_disk db pc M I R0 R1 -> small_db db -> pending_sst pc = None ->
  let st := (store_AllocateFileNumber (db_store db)).1 in
  exists ids0 ids1, disk_inv st (db_wals db) None ids0 ids1 R0 R1 /\ mem_on_disk (with_store db st) M I /\
    Forall (fun id => id < (store_AllocateFileNumber (db_store db)).2) ids0 /\
    Forall (fun id => id < (store_AllocateFileNumber (db_store db)).2) ids1.
Proof.
  intros Hinv (ids0 & ids1 & Hd & Hm & _) Hs Hp st. rewrite Hp in Hd. pose proof (di_store _ _ _ _ _ Hinv) as Hst.
  destruct (disk_allocate _ _ _ _ _ _ _ Hst Hd (small_db_small _ Hs)) as [Hd1 Hdata].
  unfold small_db, next_number in Hs. pose proof (allocate_inv (db_store db) R0 R1 Hst ltac:(lia)) as Ha. unfold st.
  destruct (store_AllocateFileNumber (db_store db)) as [st1 id]. cbn [fst snd] in *. destruct Ha as (_ & Hid & _).
  exists ids0, ids1. split; [done|]. split.
  - apply (mem_on_disk_same db); try done. cbn [with_store db_store]. intros j Hj. apply Hdata, not_manifest_wal.
    apply (dk_numbers _ _ _ _ _ _ _ Hd). left. by eapply live_log.
  - split; apply Forall_forall; intros j Hj; pose proof (disk_sst_number _ _ _ _ _ _ _ Hst Hd j ltac:(auto)); lia.
Qed.

Lemma prepare_on_disk db db' ctx M I R0 R1 :
  db_inv db M I R0 R1 -> on_disk db bg_prepare M I R0 R1 -> small_db db ->
  minor_prepare db = Some (db', ctx) -> on_disk db' (bg_build ctx) M I R0 R1.
Proof.
  intros Hinv Hod Hs Hp. destruct (allocate_on_disk _ _ _ _ _ _ Hinv Hod Hs eq_refl) as (ids0 & ids1 & Hd & Hm & Hlt & _).
  unfold minor_prepare in Hp. destruct (db_imm db) as [imm|] eqn:Ei; [|done].
  destruct (store_AllocateFileNumber (db_store db)) as [st1 id]. cbn [fst snd] in *. injection Hp as <- <-.
  exists ids0, ids1. split; [|split; [done|by split]].
  unfold db_wals in *. cbn [with_store active_wal_id imm_wal_id db_imm db_mem]. by rewrite Ei in *.
Qed.

Lemma build_on_disk db db' o ctx M I R0 R1 :
  db_inv db M I R0 R1 -> bg_ready db I R0 R1 (bg_build ctx) -> on_disk db (bg_build ctx) M I R0 R1 ->
  db_bytes M I R0 R1 < 2 ^ 60 -> minor_build db ctx = Ret (db', o) ->
  exists r, o = Some r /\ on_disk db' (bg_install ctx r) M I R0 R1.
Proof.
  intros Hinv [HI [M1 M2 M3 M4]] (ids0 & ids1 & Hd & Hm & Hfl) Hb HB. destruct I as [rows|]; [|done]. cbn [pending_sst bg_disk] in *.
  pose proof Hinv as [_ Hi Hst _ Hr Hne]. inversion Hi as [imm rows' Himm E1 E2|]; subst.
  pose proof (th_scan _ _ (mem_table_holds _ _ Himm)) as Hscan. cbn in Hscan. unfold MemTable_Snapshot in Hscan.
  apply Forall_app in Hr as [_ [HrI _]%Forall_cons].
  destruct (write_and_open_healthy (st_fs (db_store db)) (sst_name (mc_new_sst_id ctx)) rows) as (r & E & _).
  { apply (disk_healthy _ _ _ _ _ _ _ Hd). } { eapply disk_sst_absent; [done|done|lia|done]. } { congruence. }
  { by eapply rows_ok_stack. } { by eapply mem_holds_sorted. }
  unfold minor_build, BuildMinorSST in HB. rewrite M1, M2, <- E1, decide_False, Hscan in HB by apply sst_name_nonempty.
  cbn [obind] in HB. rewrite E in HB. cbn [obind] in HB. injection HB as <- <-. exists r. split; [done|].
  unfold next_number in M4. exists ids0, ids1. split; [|split; [|split]].
  - unfold db_wals in *. cbn [active_wal_id imm_wal_id db_imm db_mem]. rewrite <- E1 in Hd.
    exact (disk_write_sst _ _ _ _ _ _ _ Hst Hd _ _ eq_refl M4 M3).
  - apply (mem_on_disk_same db); try done. intros j _. cbn [db_store with_fs st_fs]. apply fs_read_set_ne.
    apply not_eq_sym, wal_sst_name_ne.
  - exact Hfl.
  - exists rows. split; [done|]. split; [apply fs_read_set|congruence].
Qed.

Lemma install_on_disk db ctx r pc M I R0 R1 :
  db_inv db M I R0 R1 -> bg_ready db I R0 R1 (bg_install ctx r) -> on_disk db (bg_install ctx r) M I R0 R1 ->
  small_db db -> pc = bg_compact \/ pc = bg_reset ->
  exists rows, I = Some rows /\ on_disk (install_minor db ctx r) pc M None (R0 ++ [rows]) R1.
Proof.
  intros Hinv (rows & -> & [M1 M2 M3 M4] & Hh) (ids0 & ids1 & Hd & [Hmd Hi Hlogs] & (F1 & F2 & F3) & rows' & [= <-] & Hsst) Hs Hpc.
  exists rows. split; [done|]. pose proof Hinv as [_ Himm Hst _ _ _]. cbn [pending_sst] in Hd. pose proof (small_db_small _ Hs) as Hs'.
  pose proof (di_typed _ _ _ _ _ Hinv) as Ht. pose proof (di_rows _ _ _ _ _ Hinv) as Hr.
  apply Forall_app in Ht as [_ [HtI _]%Forall_cons]. apply Forall_app in Hr as [_ [HrI _]%Forall_cons].
  specialize (Hlogs ltac:(done)). pose proof (dk_numbers _ _ _ _ _ _ _ Hd) as Hnum.
  assert (Hini : imm_wal_id db ∈ db_wals db) by (apply db_wals_imm; rewrite (inv_imm _ _ _ _ _ Hinv); done).
  destruct (disk_install _ _ _ _ _ _ _ Hst Hd (mc_new_sst_id ctx) rows (st_l0 (db_store db) ++ [r]) (st_l1 (db_store db)) 0 Hs' eq_refl)
    as [Hd1 Hdata1]; [by left|done|done|done|].
  destruct (install_inv (db_store db) R0 R1 r rows (mc_new_sst_id ctx) 0 Hst Hh HtI HrI M3 M4) as [Hst1 (S1 & _)]; [by left|].
  cbn [Z.eqb] in *. set (st1 := store_AddSst _ (mc_new_sst_id ctx) 0) in *.
  assert (Hn1 : next_file_number (mm_state (st_mm st1)) = next_file_number (mm_state (st_mm (db_store db)))) by by rewrite S1.
  pose proof (Hnum (imm_wal_id db) ltac:(auto)) as Hnimm.
  destruct (disk_drop_log _ _ _ _ _ _ _ Hst1 Hd1 (imm_wal_id db)) as [Hd2 Hdata2]; [unfold small in *; by rewrite Hn1|by rewrite Hn1|].
  exists (ids0 ++ [mc_new_sst_id ctx]), ids1. unfold install_minor. rewrite F1, F2. fold st1.
  split; [|split; [|by destruct Hpc as [-> | ->]]].
  - replace (db_wals _) with (db_wals db ∖ {[imm_wal_id db]}); [by destruct Hpc as [-> | ->]|].
    unfold db_wals. cbn [active_wal_id db_imm db_mem]. inversion Himm as [? ? _ E|]. apply set_eq. intros j.
    destruct (db_mem db); set_solver.
  - split; [|done|done]. intros rm HM. cbn [db_store db_mem active_wal_id].
    pose proof (Hnum (active_wal_id db) ltac:(left; eapply live_log; [done|left; by rewrite HM])) as Hnact.
    eapply same_data_logged; [exact Hdata2|lia|]. eapply logged_same; [|eapply same_data_logged; [exact Hdata1|lia|by apply Hmd]].
    apply fs_read_remove_ne. intros E%wal_name_inj; lia.
Qed.

(** ** The compaction *)

(** Preparing allocates a number for the output, or changes nothing. *)
Lemma PrepareL0ToL1_shape st st' ctx ok :
  PrepareL0ToL1 st = Ret (st', ctx, ok) ->
  (st' = st /\ has_output ctx = false) \/
  (st' = (store_AllocateFileNumber st).1 /\ new_sst_id ctx = (store_AllocateFileNumber st).2 /\ st_l0 st <> []).
Proof.
  unfold PrepareL0ToL1. destruct (st_l0 st) as [|r0 l0] eqn:E0; [intros [= <- <- <-]; by left|].
  destruct (merge_readers _ _) as [merged| |]; [|done..]. cbn [obind].
  destruct (negb _); [intros [= <- <- <-]; by left|]. destruct merged as [|m ms]; [intros [= <- <- <-]; by left|].
  destruct (store_AllocateFileNumber st) as [st1 id]. destruct (filter_output st1 _ _) as [out| |]; [|done..].
  cbn [obind]. intros [= <- <- <-]. by right.
Qed.

Lemma with_store_same db : with_store db (db_store db) = db.
Proof. by destruct db. Qed.

Lemma compact_on_disk db st ctx ok M I R0 R1 :
  db_inv db M I R0 R1 -> on_disk db bg_compact M I R0 R1 -> small_db db ->
  PrepareL0ToL1 (db_store db) = Ret (st, ctx, ok) ->
  on_disk (with_store db st)
    (if negb ok then bg_reset else if has_output ctx then bg_cbuild ctx else bg_cinstall ctx None) M I R0 R1.
Proof.
  intros Hinv Hod Hs [[-> Ho]|(-> & Hid & Hne)]%PrepareL0ToL1_shape.
  - rewrite with_store_same, Ho. destruct Hod as (ids0 & ids1 & Hd & Hm & _). exists ids0, ids1.
    destruct (negb ok); [done|]. cbn [pending_sst bg_disk]. rewrite Ho. done.
  - destruct (allocate_on_disk _ _ _ _ _ _ Hinv Hod Hs eq_refl) as (ids0 & ids1 & Hd & Hm & _ & Hlt).
    exists ids0, ids1. rewrite <- Hid in Hlt.
    assert (Hn0 : ids0 <> []).
    { intros ->. pose proof (dk_l0 _ _ _ _ _ _ _ Hd) as H0. inversion H0; subst.
      pose proof (si_l0 _ _ _ (di_store _ _ _ _ _ Hinv)) as H1. by inversion H1. }
    destruct (negb ok); [done|]. destruct (has_output ctx) eqn:Eo; cbn [pending_sst bg_disk]; rewrite ?Eo; done.
Qed.

Lemma cbuild_on_disk db fs o ctx M I R0 R1 :
  db_inv db M I R0 R1 -> bg_ready db I R0 R1 (bg_cbuild ctx) -> on_disk db (bg_cbuild ctx) M I R0 R1 ->
  stack_bytes R0 < 2 ^ 60 -> BuildL0ToL1SST (st_fs (db_store db)) ctx = Ret (fs, o) ->
  exists r, o = Some r /\ on_disk (with_store db (with_fs (db_store db) fs)) (bg_cinstall ctx (Some r)) M I R0 R1.
Proof.
  intros Hinv [[P1 P2 P3 P4 P5 P6 P7 P8 P9 P10 P11 P12] Hout] (ids0 & ids1 & Hd & Hm & Hn0 & Hlt) Hb HB.
  specialize (P6 Hout). specialize (P7 Hout). specialize (P8 Hout). pose proof (di_store _ _ _ _ _ Hinv) as Hst. cbn [pending_sst] in Hd.
  assert (Hne : output_records ctx <> []) by (intros E; rewrite E in P3; congruence).
  destruct (write_and_open_healthy (st_fs (db_store db)) (sst_name (new_sst_id ctx)) (output_records ctx)) as (r & E & _); try done.
  { apply (disk_healthy _ _ _ _ _ _ _ Hd). } { eapply disk_sst_absent; [done|done|lia|done]. } { split; [done|lia]. }
  unfold BuildL0ToL1SST in HB. rewrite Hout, P6, decide_False, E in HB by apply sst_name_nonempty.
  injection HB as <- <-. exists r. split; [done|]. exists ids0, ids1. split; [|split].
  - cbn [pending_sst]. rewrite Hout. exact (disk_write_sst _ _ _ _ _ _ _ Hst Hd _ _ eq_refl P8 P7).
  - apply (mem_on_disk_same db); try done. intros j _. cbn [db_store with_store with_fs st_fs]. apply fs_read_set_ne.
    apply not_eq_sym, wal_sst_name_ne.
  - intros _. split; [done|]. split; [done|]. split; [apply fs_read_set|done].
Qed.

Lemma cinstall_on_disk db ctx reader st ok M I R0 R1 :
  db_inv db M I R0 R1 -> bg_ready db I R0 R1 (bg_cinstall ctx reader) -> on_disk db (bg_cinstall ctx reader) M I R0 R1 ->
  small_db db -> InstallL0ToL1 (db_store db) ctx reader = (st, ok) ->
  ok = true /\ on_disk (with_store db st) bg_reset M I [] (compacted R1 ctx).
Proof.
  intros Hinv [Hp Hreader] (ids0 & ids1 & Hd & Hm & Hbd) Hs HI. pose proof (di_store _ _ _ _ _ Hinv) as Hst.
  pose proof (small_db_small _ Hs) as Hs'. pose proof (dk_numbers _ _ _ _ _ _ _ Hd) as Hnum. cbn [pending_sst bg_disk] in *.
  assert (Hmem : forall st', (forall id, 0 <= id -> fs_read (st_fs st') (wal_name id) = fs_read (st_fs (db_store db)) (wal_name id)) ->
    mem_on_disk (with_store db st') M I).
  { intros st' Hf. apply (mem_on_disk_same db); try done. intros j Hj. apply Hf. apply Hnum. left.
    by eapply live_log. }
  pose proof Hp as [P1 P2 P3 P4 P5 P6 P7 P8 P9 P10 P11 P12]. rewrite InstallL0ToL1_unchanged in HI by (done || congruence).
  unfold compacted.
  destruct (has_output ctx) eqn:Hout.
  - destruct (Hreader eq_refl) as (r & -> & Hr). destruct (Hbd eq_refl) as (Hn0 & Hlt & Hsst). specialize (P7 eq_refl). specialize (P8 eq_refl).
    rewrite bool_decide_eq_false_2 in HI by auto. cbn [orb negb] in HI. injection HI as <- <-. split; [done|].
    destruct (disk_install _ _ _ _ _ _ _ Hst Hd (new_sst_id ctx) (output_records ctx) (st_l0 (db_store db)) (st_l1 (db_store db) ++ [r]) 1 Hs' eq_refl)
      as [Hd1 Hdata1]; [by right|done|done|done|].
    destruct (install_inv (db_store db) R0 R1 r (output_records ctx) (new_sst_id ctx) 1) as [Hst1 (S1 & _)]; auto.
    cbn [Z.eqb] in *. set (st1 := store_AddSst _ (new_sst_id ctx) 1) in *.
    destruct (disk_consume st1 _ ids0 (ids1 ++ [new_sst_id ctx]) R0 (R1 ++ [output_records ctx]) ctx Hst1 Hd1) as [Hd2 Hf2].
    { unfold small in *. by rewrite S1. }
    { rewrite P1. symmetry. apply l0_ids_perm; [apply NoDup_l0_ids|]. intros j.
      rewrite elem_of_l0_ids, S1. cbn [spec_call sst_levels]. rewrite lookup_insert. case_decide as Hj; [|done].
      subst j. by rewrite P7. }
    exists [], (ids1 ++ [new_sst_id ctx]). split; [done|]. split; [|done]. apply Hmem. intros id Hid. rewrite Hf2 by done.
    apply Hdata1. by apply not_manifest_wal.
  - rewrite orb_true_r in HI. injection HI as <- <-. split; [done|].
    destruct (disk_consume _ _ _ _ _ _ ctx Hst Hd Hs') as [Hd2 Hf2]; [by rewrite P1|].
    exists [], ids1. split; [done|]. split; [|done]. by apply Hmem.
Qed.

(** ** All steps *)

(** A step that changes nothing but where the threads are. *)
Lemma on_disk_same db db' pc pc' M I R0 R1 :
  on_disk db pc M I R0 R1 -> db_store db' = db_store db -> db_mem db' = db_mem db -> db_imm db' = db_imm db ->
  active_wal_id db' = active_wal_id db -> imm_wal_id db' = imm_wal_id db -> pending_sst pc = None ->
  pending_sst pc' = None -> (forall ids0 ids1, bg_disk db' I ids0 ids1 pc') -> on_disk db' pc' M I R0 R1.
Proof.
  intros (ids0 & ids1 & Hd & Hm & _) E1 E2 E3 E4 E5 Hp Hp' Hbd. exists ids0, ids1. split; [|split; [|done]].
  - rewrite E1, Hp'. unfold db_wals. rewrite E2, E3, E4, E5. by rewrite Hp in Hd.
  - apply (mem_on_disk_same db); try done. intros id _. by rewrite E1.
Qed.

Lemma wr_step_on_disk db bg wr db' wr' w M I R0 R1 :
  db_inv db M I R0 R1 -> bg_ready db I R0 R1 bg -> wr_ready wr -> on_disk db bg M I R0 R1 -> small_db db ->
  wr_step db wr = Ret (Some (db', wr', w)) ->
  exists M' I' R0' R1', db_inv db' M' I' R0' R1' /\ on_disk db' bg M' I' R0' R1'.
Proof.
  intros Hinv Hbg Hwr Hod Hs Hw. assert (Hn : next_number db + 1 < 2 ^ 64) by (unfold small_db in Hs; lia).
  destruct wr as [|k v f|k v f|k v f]; cbn [wr_step wr_ready] in *; [done| | |].
  - destruct (db_mem db) as [mt|] eqn:Em; [|done]. pose proof (di_mem _ _ _ _ _ Hinv) as Hm. rewrite Em in Hm.
    inversion Hm as [? rows Hmt E1 E2|]; subst.
    destruct (Z.leb_spec kMemTableThreshold (MemTable_Count mt)) as [Hfull|_]; [|injection Hw as <- <- <-; by exists (Some rows), I, R0, R1].
    destruct (db_imm db) as [imm|] eqn:Ei; injection Hw as <- <- <-; [by exists (Some rows), I, R0, R1|].
    apply (inv_imm _ _ _ _ _ Hinv) in Ei as ->. exists (Some []), (Some rows), R0, R1. split.
    + apply switch_memtable_holds; [done| |done]. apply (count_nonempty mt); [done|]. unfold kMemTableThreshold in Hfull. lia.
    + by apply switch_on_disk.
  - injection Hw as <- <- <-. by exists M, I, R0, R1.
  - destruct Hwr as [Hrow Hty]. destruct (put_mem db k v f) as [db1| |] eqn:Ep; [|done..]. cbn [obind] in Hw. injection Hw as <- <- <-.
    assert (exists rows, M = Some rows) as [rows ->].
    { unfold put_mem in Ep. pose proof (di_mem _ _ _ _ _ Hinv) as Hm. destruct Hm as [mt rows _|]; [by exists rows|done]. }
    destruct (put_mem_holds db rows I R0 R1 k v f Hinv Hrow Hty) as (db2 & E & (Hinv2 & _) & _).
    rewrite Ep in E. injection E as <-. exists (Some (om_insert k v rows)), I, R0, R1. split; [done|]. by apply (put_on_disk db db1 bg k v f).
Qed.

Lemma bg_step_on_disk db bg db' bg' M I R0 R1 :
  db_inv db M I R0 R1 -> bg_ready db I R0 R1 bg -> on_disk db bg M I R0 R1 -> small_db db ->
  db_bytes M I R0 R1 < 2 ^ 60 -> bg_step db bg = Ret (Some (db', bg')) ->
  exists M' I' R0' R1', db_inv db' M' I' R0' R1' /\ on_disk db' bg' M' I' R0' R1'.
Proof.
  intros Hinv Hbg Hod Hs Hb HB. assert (Hn : next_number db + 1 < 2 ^ 64) by (unfold small_db in Hs; lia).
  assert (Hb0 : stack_bytes R0 < 2 ^ 60).
  { unfold db_bytes in Hb. rewrite !stack_bytes_app in Hb. pose proof (stack_bytes_nonneg (opt_list M)).
    pose proof (stack_bytes_nonneg (opt_list I)). pose proof (stack_bytes_nonneg R1). lia. }
  pose proof (di_store _ _ _ _ _ Hinv) as Hst. destruct bg as [| |ctx|ctx r| |ctx|ctx reader|]; cbn [bg_step] in HB.
  - destruct (_ && _); [|done]. injection HB as <- <-. exists M, I, R0, R1. split; [done|]. by eapply on_disk_same.
  - destruct (minor_prepare db) as [[db1 ctx]|] eqn:Ep; injection HB as <- <-.
    + destruct I as [rows|].
      2:{ pose proof (proj2 (inv_imm _ _ _ _ _ Hinv) eq_refl) as Ei. unfold minor_prepare in Ep. by rewrite Ei in Ep. }
      destruct (minor_prepare_holds db M rows R0 R1 Hinv Hn) as (db2 & ctx2 & E & Hinv2 & _).
      rewrite Ep in E. injection E as <- <-. exists M, (Some rows), R0, R1. split; [done|]. by apply (prepare_on_disk db).
    + exists M, I, R0, R1. split; [done|]. by eapply on_disk_same.
  - destruct (minor_build db ctx) as [[db1 o]| |] eqn:Em; [|done..]. cbn [obind] in HB. injection HB as <- <-.
    destruct (build_on_disk _ _ _ _ _ _ _ _ Hinv Hbg Hod Hb Em) as (r & -> & Hod1). exists M, I, R0, R1. split; [|done].
    destruct Hbg as [HI Hr]. destruct I as [rows|]; [|done].
    destruct (minor_build_holds db ctx M rows R0 R1 Hinv Hr Hb) as (db2 & o2 & E & E1 & E2 & _ & Hstab & _).
    rewrite Em in E. injection E as <- <-. by eapply db_inv_stable.
  - injection HB as <- <-.
    destruct (install_on_disk db ctx r (if trigger_l0_to_l1 (install_minor db ctx r) then bg_compact else bg_reset) M I R0 R1)
      as (rows & -> & Hod1); [done..|by destruct (trigger_l0_to_l1 _); auto|].
    exists M, None, (R0 ++ [rows]), R1. split; [|done]. destruct Hbg as (rows' & [= <-] & [_ _ Hfresh Hid] & Hh).
    by apply (install_minor_holds db ctx r M rows R0 R1).
  - destruct (PrepareL0ToL1 (db_store db)) as [[[st ctx] ok]| |] eqn:Ep; [|done..]. cbn [obind] in HB. injection HB as <- <-.
    exists M, I, R0, R1. split; [|by apply (compact_on_disk db)].
    destruct (PrepareL0ToL1_holds (db_store db) R0 R1 Hst Hn) as (st2 & ctx2 & ok2 & E & Hstab & _).
    rewrite Ep in E. injection E as <- <- <-. by eapply with_store_inv.
  - destruct (BuildL0ToL1SST _ _) as [[fs o]| |] eqn:Em; [|done..]. cbn [obind] in HB. injection HB as <- <-.
    destruct (cbuild_on_disk _ _ _ _ _ _ _ _ Hinv Hbg Hod Hb0 Em) as (r & -> & Hod1). exists M, I, R0, R1. split; [|done].
    destruct Hbg as [Hp Hout]. destruct (BuildL0ToL1SST_holds (db_store db) R0 R1 ctx Hst Hp Hb0 Hout) as (fs2 & o2 & E & Hio & _).
    rewrite Em in E. injection E as <- <-. eapply with_store_inv; [done|]. split; done.
  - destruct (InstallL0ToL1 (db_store db) ctx reader) as [st ok] eqn:Em. 
    destruct (cinstall_on_disk _ _ _ _ _ _ _ _ _ Hinv Hbg Hod Hs Em) as [-> Hod1]. cbn [negb andb] in HB. injection HB as <- <-.
    exists M, I, [], (compacted R1 ctx). split; [|done]. destruct Hbg as [Hp Hreader].
    destruct (InstallL0ToL1_holds (db_store db) R0 R1 ctx reader Hst Hp Hreader) as (st2 & E & Hi).
    rewrite Em in E. injection E as <-. by apply (install_l1_inv db st M I R0 R1).
  - injection HB as <- <-. exists M, I, R0, R1. split; [by destruct Hinv|]. by eapply on_disk_same.
Qed.

(** ** The order of the logs *)

Lemma wr_step_ordered db bg wr db' wr' w M I R0 R1 :
  db_inv db M I R0 R1 -> on_disk db bg M I R0 R1 -> small_db db -> logs_ordered db ->
  wr_step db wr = Ret (Some (db', wr', w)) -> logs_ordered db'.
Proof.
  intros Hinv (ids0 & ids1 & Hd & _) Hs Ho Hw. destruct wr as [|k v f|k v f|k v f]; cbn [wr_step] in Hw.
  - done.
  - destruct (db_mem db) as [mt|] eqn:Em; [|done]. destruct (kMemTableThreshold <=? MemTable_Count mt); [|by injection Hw as <- _ _].
    destruct (db_imm db) as [imm|]; [by injection Hw as <- _ _|]. injection Hw as <- _ _.
    pose proof (dk_numbers _ _ _ _ _ _ _ Hd (active_wal_id db) ltac:(left; apply db_wals_active; by rewrite Em)) as Hact.
    unfold small_db, next_number in Hs. pose proof (allocate_inv (db_store db) R0 R1 (di_store _ _ _ _ _ Hinv) ltac:(lia)) as Ha.
    unfold switch_memtable. destruct (store_AllocateFileNumber (db_store db)) as [st1 id]. destruct Ha as (_ & Hid & _).
    destruct (MemTable_new _ _) as [mem fs]. intros _. cbn [imm_wal_id active_wal_id]. lia.
  - by injection Hw as <- _ _.
  - unfold put_mem in Hw. destruct (db_mem db) as [mt|]; [|done]. destruct (MemTable_Put _ _ _ _ _) as [[mt' fs]| |]; [|done..].
    cbn [obind] in Hw. by injection Hw as <- _ _.
Qed.

Lemma bg_step_ordered db bg db' bg' : bg_step db bg = Ret (Some (db', bg')) -> logs_ordered db -> logs_ordered db'.
Proof.
  intros HB Ho. destruct bg as [| |ctx|ctx r| |ctx|ctx reader|]; cbn [bg_step] in HB.
  - destruct (_ && _); [|done]. by injection HB as <- _.
  - unfold minor_prepare in HB. destruct (db_imm db) as [imm|] eqn:Ei; [|by injection HB as <- _].
    destruct (store_AllocateFileNumber _) as [st id]. injection HB as <- _. intros _. cbn. apply Ho. by rewrite Ei.
  - unfold minor_build in HB. destruct (BuildMinorSST _ _) as [[fs o]| |]; [|done..]. by injection HB as <- _.
  - injection HB as <- _. intros Hi. by destruct Hi.
  - destruct (PrepareL0ToL1 _) as [[[st ctx] ok]| |]; [|done..]. by injection HB as <- _.
  - destruct (BuildL0ToL1SST _ _) as [[fs o]| |]; [|done..]. by injection HB as <- _.
  - destruct (InstallL0ToL1 _ _ _) as [st ok]. by injection HB as <- _.
  - by injection HB as <- _.
Qed.

(** A build that fails leaves the directory as it was. *)
Lemma bg_fault_on_disk db bg db' M I R0 R1 :
  db_inv db M I R0 R1 -> bg_ready db I R0 R1 bg -> on_disk db bg M I R0 R1 -> logs_ordered db -> bg_fault db bg db' ->
  on_disk db' bg_reset M I R0 R1 /\ logs_ordered db'.
Proof.
  intros Hinv Hbg Hod Ho Hf. pose proof Hf as (Hb & _).
  destruct (bg_fault_effect _ _ _ _ _ _ _ Hinv Hbg Hf) as (id & n & Hid & Hfresh & ->). split; [|done].
  assert (Hp : pending_sst bg = None) by (by destruct bg). pose proof Hod as (ids0 & ids1 & Hd & _). rewrite Hp in Hd.
  pose proof (disk_sst_absent _ _ _ _ _ _ id (di_store _ _ _ _ _ Hinv) Hd ltac:(lia) Hfresh) as Habs.
  eapply on_disk_same; [exact Hod| |done..]. cbn [db_store]. unfold fs_read in Habs.
  destruct (db_store db) as [[d f io] mm l0 l1]. unfold fs_remove, with_fs. cbn in *. by rewrite delete_id.
Qed.

(** The store of [c] is in its directory. *)
Definition durable (c : cstate) : Prop :=
  exists M I R0 R1, db_inv (c_db c) M I R0 R1 /\ on_disk (c_db c) (c_bg c) M I R0 R1 /\ logs_ordered (c_db c).

Lemma cstep_durable c m n s w c' :
  conc_inv c m n s -> durable c -> n < 2 ^ 60 -> s < 2 ^ 31 - 2 -> cstep c w c' -> durable c'.
Proof.
  intros (M & I & R0 & R1 & Hinv & _ & _ & Hb & Hn & Hbg & Hwr) (M' & I' & R0' & R1' & Hinv' & Hod & Ho) Hbytes Hs Hstep.
  destruct (db_inv_unique _ _ _ _ _ _ _ _ _ Hinv Hinv') as (-> & -> & -> & ->). clear Hinv'.
  pose proof (si_next _ _ _ (di_store _ _ _ _ _ Hinv)) as H0. fold (next_number (c_db c)) in H0.
  assert (Hsm : small_db (c_db c)) by (unfold small_db; lia).
  destruct Hstep as [db bg k v f _ _|db bg wr db' wr' w E|db bg wr db' bg' E|db bg wr db' Hf]; cbn [c_db c_bg c_wr] in *.
  - by exists M, I, R0, R1.
  - destruct (wr_step_on_disk _ _ _ _ _ _ _ _ _ _ Hinv Hbg Hwr Hod Hsm E) as (M1 & I1 & R2 & R3 & H1 & H2).
    exists M1, I1, R2, R3. split; [done|]. split; [done|]. exact (wr_step_ordered _ _ _ _ _ _ _ _ _ _ Hinv Hod Hsm Ho E).
  - destruct (bg_step_on_disk _ _ _ _ _ _ _ _ Hinv Hbg Hod Hsm ltac:(lia) E) as (M1 & I1 & R2 & R3 & H1 & H2).
    exists M1, I1, R2, R3. split; [done|]. split; [done|]. by eapply bg_step_ordered.
  - exists M, I, R0, R1. cbn [c_db c_bg]. split; [by eapply bg_fault_stable|]. by apply (bg_fault_on_disk db bg).
Qed.

Lemma creach_durable c0 c ws n :
  conc_inv c0 ∅ 0 0 -> durable c0 -> creach c0 c ws n -> writes_bytes ws < 2 ^ 60 -> Z.of_nat n < 2 ^ 31 - 2 ->
  durable c.
Proof.
  intros H0 Hd0 Hreach. induction Hreach as [|c ws n c' w Hr IH Hstep]; intros Hb Hn; [done|].
  rewrite writes_bytes_snoc in Hb. pose proof (write_bytes_nonneg w).
  eapply (cstep_durable c _ _ (Z.of_nat n)); [|apply IH; lia| |lia|done].
  - eapply creach_holds; [done..|lia|lia].
  - lia.
Qed.

(** ** The background thread alone *)

(** The state in the middle of its work, with a store that shows what [M], [I],
    [R0] and [R1] show. *)
Definition bg_durable (db : DBImpl) (bg : bg_pc) (M : option (list row)) (view : bytes -> option bytes) (n s : Z) : Prop :=
  exists I R0 R1, db_inv db M I R0 R1 /\ on_disk db bg M I R0 R1 /\ bg_ready db I R0 R1 bg /\
    (forall k, stack_view (db_stack M I R0 R1) k = view k) /\ db_bytes M I R0 R1 <= n /\ next_number db <= 1 + s.

Lemma bg_moves_durable k p q M view n s :
  bsteps bg_moves k p q -> bg_durable p.1 p.2 M view n s -> n < 2 ^ 60 -> s + Z.of_nat k < 2 ^ 31 - 2 ->
  bg_durable q.1 q.2 M view n (s + Z.of_nat k).
Proof.
  intros Hk. revert s. induction Hk as [k p|k p p' q Hm _ IH]; intros s Hd Hn Hs.
  - destruct Hd as (I & R0 & R1 & H1 & H2 & H3 & H4 & H5 & H6). exists I, R0, R1. do 5 (split; [done|]). lia.
  - rewrite Nat2Z.inj_succ in *. replace (s + Z.succ (Z.of_nat k)) with (s + 1 + Z.of_nat k) by lia. apply IH; [|done|lia].
    destruct Hd as (I & R0 & R1 & Hinv & Hod & Hbg & Hv & Hb & Hnn). destruct p as [db bg], p' as [db' bg'].
    unfold bg_moves in Hm. cbn [fst snd] in *.
    pose proof (si_next _ _ _ (di_store _ _ _ _ _ Hinv)) as H0. fold (next_number db) in H0.
    destruct (bg_step_on_disk _ _ _ _ _ _ _ _ Hinv Hbg Hod ltac:(unfold small_db; lia) ltac:(lia) Hm) as (M1 & I1 & R2 & R3 & G1 & G2).
    destruct (bg_step_good _ _ _ _ _ _ n s Hinv Hbg Hb Hnn Hn ltac:(lia)) as (o & E & Ho). rewrite Hm in E. injection E as <-.
    destruct (Ho _ _ eq_refl) as (I' & R0' & R1' & F1 & F2 & F3 & F4 & F5).
    destruct (db_inv_unique _ _ _ _ _ _ _ _ _ G1 F1) as (E1 & E2 & E3 & E4). subst.
    eexists _, _, _. split; [exact F1|]. split; [exact G2|]. split; [exact F5|]. split; [intros j; by rewrite F2|done].
Qed.
