(* ===== verification/Durability.v ===== *)
(** What a crash leaves: a restart of the store on the directory that [DiskSteps]
    speaks of shows the same map; and a crash in the middle of the last step of
    a compaction, which may not. *)
From S2P Require Import Prelude Storage OMap SSTableBuilder SSTableReader SSTable Files Crc Wal Manifest SkipList Table MemTable DBIterator Compaction Recovery DBImpl DBConc Disk DiskSteps.

(** ** The manifest *)

Lemma manifest_recovers mm fs :
  manifest_inv mm fs -> exists mm1 mm2, Load ManifestManager_new fs = (mm1, true) /\
    ReplayLog mm1 fs = Ret (mm2, true) /\ mm_state mm2 = mm_state mm.
Proof.
  intros (_ & _ & _ & s0 & es & Hf & E). pose proof (files_hold_recovered _ _ _ Hf) as Hr. unfold recovered_state in Hr.
  destruct (Load ManifestManager_new fs) as [mm1 ok]. destruct ok; [|done]. cbn [negb] in Hr.
  destruct (ReplayLog mm1 fs) as [[mm2 ok]| |] eqn:El; [|done..]. destruct ok; [|done]. injection Hr as Hr.
  exists mm1, mm2. split; [done|]. split; [done|]. congruence.
Qed.

(** ** SSTables *)

Definition table_on_disk (fs : FS) (id : Z) (rows : list row) : Prop :=
  sst_on_disk fs id rows /\ rows_ok rows /\ om_sorted rows.

Lemma open_table fs id rows :
  table_on_disk fs id rows ->
  exists r, SSTableReader_Open true (fs_read fs (sst_name id)) = Ret (Some r) /\ table_holds r rows.
Proof.
  intros ([-> Hne] & Hok & Hs). destruct (build_open rows Hne Hok Hs) as (r & Ho & _). exists r. split; [done|].
  by apply sst_holds.
Qed.

Definition level_ids (l : Z) (entries : list (Z * Z)) : list Z := (filter (fun e => e.2 = l) entries).*1.

Lemma level_ids_cons l e entries :
  level_ids l (e :: entries) = (if decide (e.2 = l) then [e.1] else []) ++ level_ids l entries.
Proof. unfold level_ids. rewrite filter_cons. by case_decide. Qed.

Lemma load_entries_cons id l entries st rows :
  l = 0 \/ l = 1 -> table_on_disk (st_fs st) id rows ->
  exists r, table_holds r rows /\ load_entries ((id, l) :: entries) st = load_entries entries (push_reader st l r).
Proof.
  intros Hl Hrows. destruct (open_table _ _ _ Hrows) as (r & Ho & Hr). exists r. split; [done|]. cbn [load_entries].
  destruct (Z.leb_spec 2 l) as [|_]; [lia|].
  assert (fs_exists (st_fs st) (sst_name id) = true) as ->.
  { unfold fs_exists. destruct Hrows as [[E _] _]. unfold fs_read in E. by rewrite E. }
  cbn [negb]. by rewrite Ho.
Qed.

Lemma load_entries_holds entries st R0 R1 :
  Forall (fun e => e.2 = 0 \/ e.2 = 1) entries ->
  Forall2 (table_on_disk (st_fs st)) (level_ids 0 entries) R0 ->
  Forall2 (table_on_disk (st_fs st)) (level_ids 1 entries) R1 ->
  exists l0 l1, load_entries entries st = Ret (mkStore (st_fs st) (st_mm st) (st_l0 st ++ l0) (st_l1 st ++ l1)) /\
    Forall2 table_holds l0 R0 /\ Forall2 table_holds l1 R1.
Proof.
  intros Hl. revert st R0 R1. induction Hl as [|[id l] entries He _ IH]; intros st R0 R1 H0 H1.
  { inversion H0; inversion H1; subst. exists [], []. rewrite !app_nil_r. by destruct st. }
  cbn [snd] in He. rewrite !level_ids_cons in *. cbn [fst snd] in *. destruct He as [-> | ->].
  - rewrite decide_True in H0 by done. rewrite decide_False in H1 by done. cbn [app] in *.
    inversion H0 as [|? rows ? R0' Hrows H0']; subst.
    destruct (load_entries_cons id 0 entries st rows) as (r & Hr & ->); [by left|done|].
    destruct (IH (push_reader st 0 r) R0' R1) as (l0 & l1 & -> & Hl0 & Hl1); [done|done|].
    exists (r :: l0), l1. cbn [push_reader Z.eqb st_fs st_mm st_l0 st_l1]. rewrite <- app_assoc. by split; [|split; [constructor|]].
  - rewrite decide_False in H0 by done. rewrite decide_True in H1 by done. cbn [app] in *.
    inversion H1 as [|? rows ? R1' Hrows H1']; subst.
    destruct (load_entries_cons id 1 entries st rows) as (r & Hr & ->); [by right|done|].
    destruct (IH (push_reader st 1 r) R0 R1') as (l0 & l1 & -> & Hl0 & Hl1); [done|done|].
    exists l0, (r :: l1). cbn [push_reader Z.eqb st_fs st_mm st_l0 st_l1]. rewrite <- app_assoc. by split; [|split; [|constructor]].
Qed.

(** The entries of a level, ascending. *)
Lemma level_ids_sorted (levels : gmap Z Z) l ids :
  StronglySorted Z.lt ids -> (forall id, levels !! id = Some l <-> id ∈ ids) ->
  level_ids l (sorted_entries levels) = ids.
Proof.
  intros Hs Hids.
  assert (Hp : level_ids l (sorted_entries levels) ≡ₚ (filter (fun e => e.2 = l) (map_to_list levels)).*1)
    by (unfold level_ids; by rewrite sorted_entries_perm).
  assert (Hnd : NoDup (filter (fun e => e.2 = l) (map_to_list levels)).*1).
  { apply NoDup_fmap_fst; [|apply NoDup_filter, NoDup_map_to_list].
    intros k l1 l2 [? _]%list_elem_of_filter [? _]%list_elem_of_filter. cbn in *. congruence. }
  assert (Hnd' : NoDup ids).
  { clear -Hs. induction Hs as [|x xs _ IH Hx]; constructor; [|done]. intros Hin. rewrite Forall_forall in Hx.
    specialize (Hx _ Hin). lia. }
  apply (StronglySorted_unique Z.le).
  - unfold level_ids. assert (Hm : StronglySorted entry_le (sorted_entries levels)).
    { apply StronglySorted_merge_sort. - intros a b c. unfold entry_le. lia. - intros a b. unfold entry_le. lia. }
    revert Hm. generalize (sorted_entries levels) as es. clear. intros es Hm.
    induction Hm as [|e es _ IH He]; [constructor|]. rewrite filter_cons. case_decide; [|done]. cbn. constructor; [done|].
    apply Forall_forall. intros x (e' & -> & [_ Hin]%list_elem_of_filter)%list_elem_of_fmap.
    rewrite Forall_forall in He. by apply He.
  - clear -Hs. induction Hs as [|x xs _ IH Hx]; constructor; [done|]. eapply Forall_impl; [exact Hx|]. lia.
  - rewrite Hp. apply NoDup_Permutation; [done|done|]. intros id. rewrite <- Hids, list_elem_of_fmap. split.
    + intros ([k l'] & -> & [Hl H]%list_elem_of_filter). cbn in *. subst l'. by apply elem_of_map_to_list in H.
    + intros H. exists (id, l). split; [done|]. apply list_elem_of_filter. split; [done|]. by apply elem_of_map_to_list.
Qed.

(** An SSTable that the manifest does not know. *)
Lemma stoull_to_string id : 0 <= id < 2 ^ 64 -> stoull (to_string id) = Some id.
Proof. intros Hid. unfold stoull. rewrite parse_to_string by lia. by rewrite (proj2 (Z.ltb_lt _ _)) by lia. Qed.

Lemma collect_ssts_one names id :
  NoDup names -> 0 <= id < 2 ^ 31 -> (forall name, name ∈ names -> numbered (str ".sst") name <> None -> name = sst_name id) ->
  collect_ssts names = Some (if decide (sst_name id ∈ names) then [(id, sst_name id)] else []).
Proof.
  intros Hnd Hid. induction Hnd as [|name names Hni Hnd IH]; intros Hall; cbn [collect_ssts]; [done|].
  specialize (IH ltac:(intros name' Hin; apply Hall; by right)).
  destruct (numbered (str ".sst") name) as [stem|] eqn:En.
  - assert (name = sst_name id) as -> by (apply Hall; [left|by rewrite En]). rewrite numbered_sst in En by lia. injection En as <-.
    rewrite stoull_to_string, IH by lia. rewrite decide_False by done. rewrite decide_True by left.
    unfold int_of_u64, i32. by rewrite Z.mod_small, Z.add_simpl_r by lia.
  - rewrite IH. destruct (decide (sst_name id ∈ names)) as [Hin|Hin].
    + by rewrite decide_True by (by right).
    + rewrite decide_False; [done|]. intros [<-|?]%elem_of_cons; [|done]. by rewrite numbered_sst in En by lia.
Qed.

(** The files of the directory. *)
Lemma elem_of_fs_entries fs name : name ∈ fs_entries fs <-> is_Some (fs_read fs name).
Proof.
  unfold fs_entries, fs_read. rewrite list_elem_of_fmap. split.
  - intros ([k c] & -> & Hin%elem_of_map_to_list). by exists c.
  - intros [c Hc]. exists (name, c). split; [done|]. by apply elem_of_map_to_list.
Qed.

Lemma NoDup_fs_entries fs : NoDup (fs_entries fs).
Proof. apply NoDup_fst_map_to_list. Qed.

Section load.
Context (st : Store) (wals : gset Z) (p : option Z) (ids0 ids1 : list Z) (R0 R1 : list (list row)).
Context (mm : ManifestManager) (Q : list row -> Prop).
Hypothesis Hst : store_inv st R0 R1.
Hypothesis Hd : disk_inv st wals p ids0 ids1 R0 R1.
Hypothesis Hsmall : small st.
Hypothesis Hbytes : stack_bytes (R0 ++ R1) < 2 ^ 60.
Hypothesis Hmm : mm_state mm = mm_state (st_mm st).

(** What [LoadSSTables] leaves: the two levels as before, or, when the manifest
    knows no SSTable, the one that was being installed. *)
Definition loaded (st' : Store) (R0' : list (list row)) : Prop :=
  store_inv st' R0' R1 /\ same_data (st_fs st) (st_fs st') /\ fs_io (st_fs st') = [] /\
  live_wals (mm_state (st_mm st')) = wals /\
  next_file_number (mm_state (st_mm st')) = next_file_number (mm_state (st_mm st)) /\
  (R0' = R0 \/ exists rows, R0 = [] /\ R1 = [] /\ Q rows /\ R0' = [rows]).

Lemma stack_bytes_elem rows srcs : rows ∈ srcs -> zlen (encode_rows rows) <= stack_bytes srcs.
Proof.
  induction 1 as [rows srcs|rows r srcs _ IH]; unfold stack_bytes in *; cbn [fold_right].
  - fold (stack_bytes srcs). pose proof (stack_bytes_nonneg srcs). lia.
  - pose proof (zlen_nonneg (encode_rows r)). lia.
Qed.

Lemma disk_tables_good :
  Forall2 (table_on_disk (st_fs st)) ids0 R0 /\ Forall2 (table_on_disk (st_fs st)) ids1 R1.
Proof.
  destruct Hst as [H0 H1 _ Hr _ _ _ _]. apply Forall_app in Hr as [Hr0 Hr1].
  assert (Hgen : forall (l : list SSTableReader) ids R, Forall2 table_holds l R -> Forall (Forall row_ok) R ->
    (forall rows, rows ∈ R -> rows ∈ R0 ++ R1) -> Forall2 (sst_on_disk (st_fs st)) ids R ->
    Forall2 (table_on_disk (st_fs st)) ids R).
  { intros l ids R Hl Hro Hin Hf. revert l Hl. induction Hf as [|id rows ids R Hx _ IH]; intros l Hl; [constructor|].
    inversion Hl as [|r ? l' ? Hh Hl']; subst. apply Forall_cons in Hro as [Hrow Hro]. constructor.
    - split; [done|]. split; [|exact (th_sorted _ _ Hh)]. split; [done|].
      pose proof (stack_bytes_elem rows (R0 ++ R1) (Hin rows ltac:(left))). lia.
    - apply (IH Hro) with l'; [|done]. intros rows' Hr'. apply Hin. by right. }
  split; [apply (Hgen (st_l0 st))|apply (Hgen (st_l1 st))]; try done; try apply Hd;
    intros rows Hin; apply elem_of_app; auto.
Qed.

Lemma LoadSSTables_known :
  sst_levels (mm_state (st_mm st)) <> ∅ ->
  exists st', (forall l0 l1, LoadSSTables (mkStore (st_fs st) mm l0 l1) = Ret (Some st')) /\ loaded st' R0.
Proof.
  intros Hne. destruct disk_tables_good as [T0 T1]. pose proof Hd as [_ D2 D3 D4 _ _ D7 _ _ _].
  assert (H0 : level_ids 0 (sorted_entries (sst_levels (mm_state (st_mm st)))) = ids0).
  { apply level_ids_sorted; [done|]. intros id. rewrite D2. intuition congruence. }
  assert (H1 : level_ids 1 (sorted_entries (sst_levels (mm_state (st_mm st)))) = ids1).
  { apply level_ids_sorted; [done|]. intros id. rewrite D2. intuition congruence. }
  destruct (load_entries_holds (sorted_entries (sst_levels (mm_state (st_mm st)))) (mkStore (st_fs st) mm [] []) R0 R1)
    as (l0 & l1 & E & Hl0 & Hl1); [|by rewrite H0|by rewrite H1|].
  { apply Forall_forall. intros [id l] Hin. rewrite sorted_entries_perm in Hin. apply elem_of_map_to_list, D2 in Hin. cbn. intuition. }
  eexists. split.
  { intros l0' l1'. unfold LoadSSTables, SstLevels. cbn [st_mm st_fs]. rewrite Hmm, bool_decide_eq_false_2 by done. cbn [negb].
    rewrite E. cbn [obind]. reflexivity. }
  cbn [st_fs st_mm st_l0 st_l1 app]. unfold loaded. cbn [st_fs st_mm]. rewrite Hmm.
  split; [|split; [done|split; [by eapply disk_healthy|split; [done|split; [done|by left]]]]].
  pose proof Hst as [S1 S2 S3 S4 S5 S6 S7 S8]. split; cbn [st_fs st_mm st_l0 st_l1]; rewrite ?Hmm; try done.
  rewrite (l0_ids_same mm (st_mm st)) by by rewrite Hmm. rewrite S6.
  apply Forall2_length in S1, Hl0. lia.
Qed.

Lemma LoadSSTables_unknown :
  sst_levels (mm_state (st_mm st)) = ∅ ->
  (forall id, p = Some id -> ids0 = [] -> exists rows, table_on_disk (st_fs st) id rows /\ typed rows /\ Q rows) ->
  exists st' R0', (forall l0 l1, LoadSSTables (mkStore (st_fs st) mm l0 l1) = Ret (Some st')) /\ loaded st' R0'.
Proof.
  intros He Hpend. pose proof Hd as [_ D2 _ _ D5 D6 D7 D8 _ D10].
  assert (Hn0 : ids0 = []).
  { apply elem_of_nil_inv. intros id Hid. assert (Hl : sst_levels (mm_state (st_mm st)) !! id = Some 0) by (apply D2; auto). by rewrite He in Hl. }
  assert (Hn1 : ids1 = []).
  { apply elem_of_nil_inv. intros id Hid. assert (Hl : sst_levels (mm_state (st_mm st)) !! id = Some 1) by (apply D2; auto). by rewrite He in Hl. }
  assert (HR0 : R0 = []) by (rewrite Hn0 in D5; by inversion D5).
  assert (HR1 : R1 = []) by (rewrite Hn1 in D6; by inversion D6). clear D5 D6. unfold loaded.
  pose proof Hst as [_ _ _ _ S5 _ _ S8]. destruct (disk_healthy _ _ _ _ _ _ _ Hd) as [Hdir Hio].
  assert (Hname : forall name, name ∈ fs_entries (st_fs st) -> numbered (str ".sst") name <> None ->
    exists id, p = Some id /\ name = sst_name id).
  { intros name Hin%elem_of_fs_entries Hn. destruct (D10 name Hin Hn) as (id & -> & Hid). exists id. split; [|done].
    rewrite Hn0, Hn1 in Hid. by destruct Hid as [?%not_elem_of_nil|[?%not_elem_of_nil|?]]. }
  assert (Hempty : bool_decide (SstLevels mm = ∅) = true).
  { apply bool_decide_eq_true. unfold SstLevels. by rewrite Hmm. }
  assert (Hp : p = None \/ exists id, p = Some id) by (destruct p; eauto). destruct Hp as [Hp|[id Hp]]; [|].
  2:{ destruct (Hpend id Hp Hn0) as (rows & Hrows & Ht & HQ). pose proof (D8 id ltac:(auto)) as Hid. destruct Hsmall as [Hs1 Hs2].
    destruct (open_table _ _ _ Hrows) as (r & Ho & Hr).
    assert (Hc : collect_ssts (fs_entries (st_fs st)) = Some [(id, sst_name id)]).
    { rewrite (collect_ssts_one _ id); [|apply NoDup_fs_entries|lia|].
      - rewrite decide_True; [done|]. apply elem_of_fs_entries. destruct Hrows as [[-> _] _]. by eexists.
      - intros name Hin Hn. destruct (Hname name Hin Hn) as (? & E & ->). congruence. }
    assert (Hm : merge_sort named_le [(id, sst_name id)] = [(id, sst_name id)]).
    { apply Permutation_singleton_r, merge_sort_Permutation. }
    set (mm' := SetSstLevelWithoutEdit mm (u64 id) 0). assert (Hu : u64 id = id) by (apply u64_small; lia).
    exists (mkStore (Persist mm' (st_fs st)).1 mm' [r] []), [rows]. split.
    { intros l0 l1. unfold LoadSSTables. cbn [st_mm st_fs]. rewrite Hempty. cbn [negb]. rewrite Hc, Hm. cbn [load_found st_fs].
      rewrite Ho. cbn [obind push_reader Z.eqb st_fs st_mm st_l0 st_l1]. fold mm'.
      rewrite bool_decide_eq_false_2; [done|]. unfold SstLevels, mm', SetSstLevelWithoutEdit. cbn. apply insert_non_empty. }
    assert (Ew : live_wals (mm_state mm') = wals) by (unfold mm', SetSstLevelWithoutEdit; cbn; by rewrite Hmm).
    assert (En : next_file_number (mm_state mm') = next_file_number (mm_state (st_mm st)))
      by (unfold mm', SetSstLevelWithoutEdit; cbn; by rewrite Hmm).
    cbn [st_fs st_mm]. rewrite HR0, HR1.
    split; [|split; [apply Persist_data|split; [|split; [done|split; [done|right; by exists rows]]]]].
    + assert (El : sst_levels (mm_state mm') = {[id := 0]}).
      { unfold mm', SetSstLevelWithoutEdit. cbn. by rewrite Hmm, He, Hu. }
      split; cbn [st_fs st_mm st_l0 st_l1]; try done.
      * constructor; [done|constructor].
      * apply Forall_cons_2; [done|constructor].
      * destruct Hrows as (_ & [Hro _] & _). apply Forall_cons_2; [done|constructor].
      * eapply fs_calm_suffix; [apply Persist_io|done].
      * assert (Hl0 : l0_ids mm' ≡ₚ [id]); [|by rewrite Hl0].
        apply l0_ids_perm; [apply NoDup_singleton|]. intros j. rewrite El, list_elem_of_singleton, lookup_singleton_Some. naive_solver.
      * intros j l. rewrite El, lookup_singleton_Some. intros [<- _]. by rewrite En.
      * by rewrite En.
    + pose proof (Persist_io mm' (st_fs st)) as Hx. rewrite Hio in Hx. by apply suffix_nil_inv in Hx. }
  exists (mkStore (st_fs st) mm [] []), []. split.
    { intros l0 l1. unfold LoadSSTables. cbn [st_mm st_fs]. rewrite Hempty. cbn [negb].
      rewrite (collect_ssts_one _ 0); [|apply NoDup_fs_entries|lia|].
      - rewrite decide_False; [cbn; by rewrite Hempty|]. intros Hin. destruct (Hname _ Hin) as (? & ? & _); [by rewrite numbered_sst|congruence].
      - intros name Hin Hn. destruct (Hname name Hin Hn) as (? & ? & _). congruence. }
    cbn [st_fs st_mm]. rewrite HR0, HR1, Hmm. split; [|split; [done|split; [done|split; [done|split; [done|by left]]]]].
    split; cbn [st_fs st_mm st_l0 st_l1]; rewrite ?Hmm; try done; try (by constructor).
    + assert (Hl0 : l0_ids mm ≡ₚ []); [|by rewrite Hl0].
      apply l0_ids_perm; [constructor|]. intros j. by rewrite Hmm, He, lookup_empty, elem_of_nil.
    + intros j l. by rewrite He, lookup_empty.
Qed.
End load.

(** ** Logs *)

Lemma replay_rows_sorted es rows : om_sorted rows -> om_sorted (replay_rows es rows).
Proof.
  revert rows. induction es as [|e es IH]; intros rows Hs; [done|]. by apply IH, om_insert_sorted.
Qed.

Lemma replay_rows_find es rows k :
  om_find k (replay_rows es rows) =
  match om_find k (replay_rows es []) with Some r => Some r | None => om_find k rows end.
Proof.
  induction es as [|e es IH] using rev_ind; [done|]. rewrite !replay_rows_snoc, !om_find_insert. by case_decide.
Qed.

Lemma stack_merge_ext s1 s2 :
  (forall k, stack_find k s1 = stack_find k s2) -> stack_merge s1 [] = stack_merge s2 [].
Proof.
  intros H. apply om_ext; try (apply stack_merge_sorted, om_sorted_nil).
  intros k. rewrite !stack_merge_find by apply om_sorted_nil. cbn. apply H.
Qed.

Lemma replay_over es rows : om_sorted rows -> replay_rows es rows = stack_merge [replay_rows es []; rows] [].
Proof.
  intros Hs. apply om_ext; [by apply replay_rows_sorted|apply stack_merge_sorted, om_sorted_nil|].
  intros k. rewrite stack_merge_find by apply om_sorted_nil. cbn [om_find stack_find]. rewrite replay_rows_find.
  by repeat case_match.
Qed.

Section replay.
Context (junk_t : nat -> byte) (junk_k junk_v : nat -> bytes) (flips : Z -> nat -> nat -> bool).
Hypothesis Hjunk : junk_ok junk_k junk_v.

Lemma replay_wals_holds fs ids RS st mem rows :
  (forall name, fs_read (st_fs st) name = fs_read fs name) -> fs_io (st_fs st) = [] ->
  Forall2 (wal_on_disk fs) ids RS -> mem_holds mem rows ->
  exists st' mem', replay_wals junk_t junk_k junk_v flips ids st mem = Ret (st', mem') /\
    st_mm st' = st_mm st /\ st_l0 st' = st_l0 st /\ st_l1 st' = st_l1 st /\ fs_io (st_fs st') = [] /\
    mem_holds mem' (stack_merge (rev RS ++ [rows]) []).
Proof.
  intros Hf Hio Hids. revert st mem rows Hf Hio.
  induction Hids as [|wid rows_i ids RS Hlog Hids IH]; intros st mem rows Hf Hio Hmem.
  { exists st, mem. cbn [replay_wals]. do 5 (split; [done|]). cbn [rev app].
    replace (stack_merge [rows] []) with rows; [done|]. apply mem_holds_sorted in Hmem.
    apply om_ext; [done|apply stack_merge_sorted, om_sorted_nil|]. intros k. rewrite stack_merge_find by apply om_sorted_nil.
    cbn. by case_match. }
  destruct Hlog as (es & Hread & Hes & Erows). rewrite <- Hf in Hread. cbn [replay_wals].
  assert (fs_exists (st_fs st) (wal_name wid) = true) as -> by (unfold fs_exists, fs_read in *; by rewrite Hread).
  unfold WalHandler_new, fs_open_append, fs_next_io. rewrite Hio, Hread. cbn [default from_option id].
  rewrite fs_read_set, (LoadLog_encode_log junk_t junk_k junk_v Hjunk) by done. cbn [obind].
  destruct (MemTable_replay_holds es mem rows (flips wid) Hmem) as (mem1 & -> & _ & Hmem1). cbn [obind].
  set (fs1 := fs_set _ _ _). destruct (IH (with_fs st fs1) mem1 (replay_rows es rows)) as (st' & mem' & -> & E1 & E2 & E3 & E4 & Hm'); [|done|done|].
  { intros name. cbn [with_fs st_fs]. rewrite <- Hf. unfold fs1. destruct (decide (wal_name wid = name)) as [<-|Hne].
    - by rewrite fs_read_set, Hread. - by rewrite fs_read_set_ne. }
  exists st', mem'. split; [done|]. split; [done|]. split; [done|]. split; [done|]. split; [done|].
  replace (stack_merge _ []) with (stack_merge (rev RS ++ [replay_rows es rows]) []); [done|].
  apply stack_merge_ext. intros k. cbn [rev]. rewrite <- app_assoc, !stack_find_app.
  destruct (stack_find k (rev RS)); [done|]. cbn [app stack_find]. rewrite replay_rows_find, Erows.
  by repeat case_match.
Qed.

(** Every log of the directory is alive already. *)
Lemma add_disk_wals_alive names st :
  (forall name, name ∈ names -> numbered (str ".wal") name <> None ->
    exists id, name = wal_name id /\ 0 <= id < 2 ^ 64 /\ id ∈ live_wals (mm_state (st_mm st))) ->
  add_disk_wals names st = Some st.
Proof.
  induction names as [|name names IH]; intros Hn; cbn [add_disk_wals]; [done|].
  assert (IH' := IH ltac:(intros name' Hin; apply Hn; by right)). clear IH.
  destruct (numbered (str ".wal") name) as [stem|] eqn:En; [|done].
  destruct (Hn name) as (wid & -> & Hid & Hl); [left|by rewrite En|]. rewrite numbered_wal in En by lia. injection En as <-.
  rewrite stoull_to_string by lia. unfold store_AddWal, AddWal. rewrite decide_True by done. by destruct st.
Qed.

Lemma RecoverFromWals_holds st mem rows ids RS :
  fs_io (st_fs st) = [] -> mem_holds mem rows ->
  (forall name, is_Some (fs_read (st_fs st) name) -> numbered (str ".wal") name <> None ->
    exists id, name = wal_name id /\ 0 <= id < 2 ^ 64 /\ id ∈ live_wals (mm_state (st_mm st))) ->
  StronglySorted Z.lt ids -> (forall id, id ∈ live_wals (mm_state (st_mm st)) <-> id ∈ ids) ->
  Forall2 (wal_on_disk (st_fs st)) ids RS ->
  exists st' mem', RecoverFromWals junk_t junk_k junk_v flips st mem = Ret (Some (st', mem')) /\
    st_mm st' = st_mm st /\ st_l0 st' = st_l0 st /\ st_l1 st' = st_l1 st /\ fs_io (st_fs st') = [] /\
    mem_holds mem' (stack_merge (rev RS ++ [rows]) []).
Proof.
  intros Hio Hmem Hnames Hs Hids Hlogs. unfold RecoverFromWals.
  rewrite add_disk_wals_alive by (intros name Hin%elem_of_fs_entries; by apply Hnames).
  assert (Hr : replay_ids (st_mm st) = ids).
  { unfold replay_ids, LiveWals, sorted_ids. apply (StronglySorted_unique Z.le).
    - apply StronglySorted_merge_sort; apply _.
    - clear -Hs. induction Hs as [|x xs _ IH Hx]; constructor; [done|]. eapply Forall_impl; [exact Hx|]. lia.
    - rewrite merge_sort_Permutation. apply NoDup_Permutation; [apply NoDup_elements| |].
      + clear -Hs. induction Hs as [|x xs _ IH Hx]; constructor; [|done]. intros Hin. rewrite Forall_forall in Hx. specialize (Hx _ Hin). lia.
      + intros wid. rewrite elem_of_elements. apply Hids. }
  rewrite Hr. destruct (replay_wals_holds (st_fs st) ids RS st mem rows) as (st' & mem' & -> & H); [done..|].
  cbn [obind]. by exists st', mem'.
Qed.
End replay.

(** ** The restart *)

Lemma store_call_data st c : same_data (st_fs st) (st_fs (store_call st c)).
Proof. unfold store_call. pose proof (run_call_data (st_mm st) (st_fs st) c) as H. by destruct (run_call _ _ _). Qed.

(** The rows of the memory table after the restart. *)
Definition merged_mem (M I : option (list row)) : list row :=
  stack_merge ([] :: opt_list M ++ opt_list I ++ [[]]) [].

Lemma merged_mem_find M I k : om_find k (merged_mem M I) = stack_find k (opt_list M ++ opt_list I).
Proof.
  unfold merged_mem. rewrite stack_merge_find by apply om_sorted_nil. cbn [om_find stack_find].
  rewrite !stack_find_app. destruct (stack_find k (opt_list M)); [done|]. by destruct (stack_find k (opt_list I)).
Qed.

Lemma merged_mem_Forall (P : row -> Prop) M I : Forall (Forall P) (opt_list M ++ opt_list I) -> Forall P (merged_mem M I).
Proof.
  intros H. apply stack_merge_rows; [|constructor]. constructor; [constructor|]. rewrite app_assoc. apply Forall_app. split; [done|].
  by repeat constructor.
Qed.

Lemma merged_mem_bytes M I : zlen (encode_rows (merged_mem M I)) <= stack_bytes (opt_list M ++ opt_list I).
Proof.
  pose proof (stack_merge_bytes ([] :: opt_list M ++ opt_list I ++ [[]]) []) as H. fold (merged_mem M I) in H.
  change ([] :: opt_list M ++ opt_list I ++ [[]]) with ([[]] ++ opt_list M ++ opt_list I ++ [[]]) in H.
  rewrite !stack_bytes_app in *. change (stack_bytes [[]]) with 0 in H. change (zlen (encode_rows [])) with 0 in H. lia.
Qed.

(** The SSTable that was being installed, when the manifest has none. *)
Lemma pending_table db pc M I R0 R1 ids0 ids1 id :
  db_inv db M I R0 R1 -> db_bytes M I R0 R1 < 2 ^ 60 -> bg_disk db I ids0 ids1 pc ->
  pending_sst pc = Some id -> ids0 = [] ->
  exists rows, table_on_disk (st_fs (db_store db)) id rows /\ typed rows /\ I = Some rows.
Proof.
  intros Hinv Hb Hbd Hp ->. destruct pc as [| |ctx|ctx r| |ctx|ctx reader|]; try done; cbn [pending_sst bg_disk] in *.
  - injection Hp as <-. destruct Hbd as (_ & rows & -> & Hsst). exists rows.
    destruct Hinv as [_ Hi _ Ht Hr _]. apply Forall_app in Ht as [_ [Ht _]%Forall_cons]. apply Forall_app in Hr as [_ [Hr _]%Forall_cons].
    split; [|done]. split; [done|]. split; [by eapply rows_ok_stack|]. inversion Hi; subst. by eapply mem_holds_sorted.
  - destruct (has_output ctx); [|done]. by destruct (Hbd eq_refl) as (? & _).
Qed.

Lemma table_sorted_lt a b : a < b -> StronglySorted Z.lt [a; b].
Proof. intros H. by repeat constructor. Qed.

Section restart.
Context (junk_t : nat -> byte) (junk_k junk_v : nat -> bytes) (flips : Z -> nat -> nat -> bool).
Hypothesis Hjunk : junk_ok junk_k junk_v.
Context (db : DBImpl) (pc : bg_pc) (M I : option (list row)) (R0 R1 : list (list row)).
Hypothesis Hinv : db_inv db M I R0 R1.
Hypothesis Hod : on_disk db pc M I R0 R1.
Hypothesis Hord : logs_ordered db.
Hypothesis Hsmall : small_db db.
Hypothesis Hbytes : db_bytes M I R0 R1 < 2 ^ 60.

(** The tables of the levels are loaded. *)
Lemma restart_loads mm :
  mm_state mm = mm_state (st_mm (db_store db)) ->
  exists st' R0', LoadSSTables (mkStore (st_fs (db_store db)) mm [] []) = Ret (Some st') /\
    loaded (db_store db) (db_wals db) R0 R1 (fun rows => I = Some rows) st' R0'.
Proof.
  intros Hmm. destruct Hod as (ids0 & ids1 & Hd & _ & Hbd). pose proof (di_store _ _ _ _ _ Hinv) as Hst.
  assert (Hb : stack_bytes (R0 ++ R1) < 2 ^ 60).
  { unfold db_bytes in Hbytes. rewrite !stack_bytes_app in *. pose proof (stack_bytes_nonneg (opt_list M)).
    pose proof (stack_bytes_nonneg (opt_list I)). lia. }
  pose proof (small_db_small _ Hsmall) as Hsm.
  destruct (decide (sst_levels (mm_state (st_mm (db_store db))) = ∅)) as [He|He].
  - destruct (LoadSSTables_unknown _ _ _ _ _ _ _ mm (fun rows => I = Some rows) Hst Hd Hsm Hb Hmm He) as (st' & R0' & E & Hl).
    { intros id Hp Hn0. by eapply pending_table. }
    exists st', R0'. by rewrite E.
  - destruct (LoadSSTables_known _ _ _ _ _ _ _ mm (fun rows => I = Some rows) Hst Hd Hb Hmm He) as (st' & E & Hl).
    exists st', R0. by rewrite E.
Qed.

(** The tables after the restart show what the tables before it showed. *)
Lemma restart_view R0' k :
  R0' = R0 \/ (exists rows, R0 = [] /\ R1 = [] /\ I = Some rows /\ R0' = [rows]) ->
  stack_view (db_stack (Some (merged_mem M I)) None R0' R1) k = stack_view (db_stack M I R0 R1) k.
Proof.
  intros HR. unfold stack_view, db_stack. rewrite (app_assoc (opt_list M)), (stack_find_app k (opt_list M ++ opt_list I)).
  cbn [opt_list app stack_find]. rewrite merged_mem_find. destruct (stack_find k (opt_list M ++ opt_list I)) eqn:Ef; [done|].
  destruct HR as [->|(rows & -> & -> & EI & ->)]; [done|]. rewrite stack_find_app, EI in Ef. cbn in Ef |- *.
  destruct (stack_find k (opt_list M)); [done|]. by destruct (om_find k rows).
Qed.

Lemma restart_bytes R0' :
  R0' = R0 \/ (exists rows, R0 = [] /\ R1 = [] /\ I = Some rows /\ R0' = [rows]) ->
  db_bytes (Some (merged_mem M I)) None R0' R1 <= 2 * db_bytes M I R0 R1.
Proof.
  intros HR. pose proof (merged_mem_bytes M I) as Hm. unfold db_bytes. rewrite stack_bytes_app in Hm.
  pose proof (stack_bytes_nonneg (opt_list M)). pose proof (stack_bytes_nonneg (opt_list I)).
  pose proof (stack_bytes_nonneg R0). pose proof (stack_bytes_nonneg R1).
  assert (HR0 : stack_bytes R0' <= stack_bytes R0 + stack_bytes (opt_list I)).
  { destruct HR as [->|(rows & -> & _ & -> & ->)]; [lia|]. cbn [opt_list]. lia. }
  rewrite !stack_bytes_app. cbn [opt_list]. unfold stack_bytes at 1. cbn [fold_right]. change (stack_bytes []) with 0. lia.
Qed.

(** The live logs of the directory, oldest first, with a new one behind them. *)
Lemma restart_logs fs id :
  (forall wid, wid ∈ db_wals db -> fs_read fs (wal_name wid) = fs_read (st_fs (db_store db)) (wal_name wid)) ->
  fs_read fs (wal_name id) = Some [] -> next_number db < id ->
  exists ids RS, StronglySorted Z.lt ids /\ (forall wid, wid ∈ {[id]} ∪ db_wals db <-> wid ∈ ids) /\
    Forall2 (wal_on_disk fs) ids RS /\ rev RS = [] :: opt_list M ++ opt_list I.
Proof.
  intros Hf Hnew Hid. destruct Hod as (ids0 & ids1 & Hd & [Hm Hi _] & _).
  pose proof (dk_numbers _ _ _ _ _ _ _ Hd) as Hnum. fold (next_number db) in Hnum.
  pose proof (di_mem _ _ _ _ _ Hinv) as Hmem. pose proof (di_imm _ _ _ _ _ Hinv) as Himm.
  assert (Hm' : forall rows, M = Some rows -> active_wal_id db < id /\ wal_on_disk fs (active_wal_id db) rows).
  { intros rows E. assert (Hin : active_wal_id db ∈ db_wals db) by (eapply live_log; [done|left; by rewrite E]).
    pose proof (Hnum (active_wal_id db) ltac:(auto)). destruct (Hm rows E) as (_ & _ & _ & Hw). split; [lia|].
    eapply wal_on_disk_same, Hw. by apply Hf. }
  assert (Hi' : forall rows, I = Some rows -> imm_wal_id db < active_wal_id db /\ imm_wal_id db < id /\ wal_on_disk fs (imm_wal_id db) rows).
  { intros rows E. assert (Hin : imm_wal_id db ∈ db_wals db) by (eapply live_log; [done|right; by rewrite E]).
    pose proof (Hnum (imm_wal_id db) ltac:(auto)). destruct (Hi rows E) as (_ & _ & _ & Hw).
    split; [apply Hord; rewrite (inv_imm _ _ _ _ _ Hinv); by rewrite E|]. split; [lia|]. eapply wal_on_disk_same, Hw. by apply Hf. }
  pose proof (wal_on_disk_nil _ _ Hnew) as Hnil. unfold db_wals. clear Hm Hi. destruct Hmem as [mt rows _|], Himm as [imm rows_i _|].
  - destruct (Hm' _ eq_refl) as [L1 W1]. destruct (Hi' _ eq_refl) as (L2 & _ & W2).
    exists [imm_wal_id db; active_wal_id db; id], [rows_i; rows; []].
    split; [repeat constructor; lia|]. split; [intros wid; set_solver|]. split; [by repeat constructor|done].
  - destruct (Hm' _ eq_refl) as [L1 W1]. exists [active_wal_id db; id], [rows; []].
    split; [repeat constructor; lia|]. split; [intros wid; set_solver|]. split; [by repeat constructor|done].
  - destruct (Hi' _ eq_refl) as (_ & L2 & W2). exists [imm_wal_id db; id], [rows_i; []].
    split; [repeat constructor; lia|]. split; [intros wid; set_solver|]. split; [by repeat constructor|done].
  - exists [id], [[]]. split; [repeat constructor|]. split; [intros wid; set_solver|]. split; [by repeat constructor|done].
Qed.

Lemma restart_holds :
  exists db' R0', DBImpl_open junk_t junk_k junk_v flips (st_fs (db_store db)) = Ret (Some db') /\
    db_inv db' (Some (merged_mem M I)) None R0' R1 /\
    (R0' = R0 \/ exists rows, R0 = [] /\ R1 = [] /\ I = Some rows /\ R0' = [rows]).
Proof.
  pose proof Hod as (ids0 & ids1 & Hd & _). destruct (disk_healthy _ _ _ _ _ _ _ Hd) as [Hdir Hio].
  destruct (manifest_recovers _ _ (dk_manifest _ _ _ _ _ _ _ Hd)) as (mm1 & mm2 & EL & ER & Hmm).
  destruct (restart_loads mm2 Hmm) as (st' & R0' & ELS & Hst' & Hdata & Hio' & Hlive & Hnext & HR). fold (next_number db) in Hnext.
  assert (Hsm := Hsmall). unfold small_db in Hsm.
  pose proof (allocate_inv st' R0' R1 Hst' ltac:(lia)) as Ha. pose proof (store_call_data st' call_AllocateFileNumber) as Hdata1.
  rewrite <- store_call_allocate in Hdata1.
  unfold DBImpl_open. rewrite Hdir, EL. cbn [st_mm st_fs st_l0 st_l1]. rewrite ER. cbn [obind negb]. rewrite ELS. cbn [obind].
  destruct (store_AllocateFileNumber st') as [st1 id]. cbn [fst] in Hdata1.
  destruct Ha as (Hst1 & Hid & Hn1 & _ & _ & _ & Hw1 & Hio1). rewrite Hio' in Hio1. apply suffix_nil_inv in Hio1.
  assert (Hsame : same_data (st_fs (db_store db)) (st_fs st1)) by (by etransitivity).
  pose proof (dk_numbers _ _ _ _ _ _ _ Hd) as Hnum. fold (next_number db) in Hnum.
  assert (Hfree : fs_read (st_fs st1) (wal_name id) = None).
  { rewrite Hsame by (apply not_manifest_wal; lia). eapply disk_log_absent; [done|lia|]. intros Hin. specialize (Hnum id ltac:(auto)). lia. }
  destruct (MemTable_new_healthy (st_fs st1) (wal_name id) Hio1 Hfree) as [Ef _].
  pose proof (MemTable_new_holds (st_fs st1) (wal_name id)) as Hmem.
  destruct (MemTable_new (st_fs st1) (wal_name id)) as [mem fs]. cbn [fst snd] in *. subst fs.
  set (st2 := with_fs st1 _). destruct (store_AddWal_step st2 id) as (S1 & S2 & S3 & S4).
  pose proof (store_call_data st2 (call_AddWal id)) as Hdata2. rewrite <- store_call_add_wal in Hdata2.
  cbn [spec_call st2 with_fs st_mm st_l0 st_l1 st_fs] in S1, S2, S3, S4, Hdata2. set (st3 := store_AddWal st2 id) in *.
  assert (Hw3 : live_wals (mm_state (st_mm st3)) = {[id]} ∪ db_wals db) by (rewrite S1; cbn; by rewrite Hw1, Hlive).
  assert (Hread : forall wid, wid ∈ db_wals db -> fs_read (st_fs st3) (wal_name wid) = fs_read (st_fs (db_store db)) (wal_name wid)).
  { intros wid Hin. pose proof (Hnum wid ltac:(auto)). rewrite Hdata2 by (apply not_manifest_wal; lia).
    rewrite fs_read_set_ne by (intros E%wal_name_inj; lia). apply Hsame, not_manifest_wal. lia. }
  assert (Hnew : fs_read (st_fs st3) (wal_name id) = Some []).
  { rewrite Hdata2 by (apply not_manifest_wal; lia). apply fs_read_set. }
  destruct (restart_logs (st_fs st3) id Hread Hnew ltac:(lia)) as (ids & RS & Hsorted & Hids & Hlogs & Hrev).
  destruct (RecoverFromWals_holds junk_t junk_k junk_v flips Hjunk st3 mem [] ids RS) as (st4 & mem4 & E4 & F1 & F2 & F3 & F4 & Hmem4).
  { apply suffix_nil_inv. rewrite <- Hio1. exact S4. } { done. }
  { intros name Hx Hn. rewrite Hw3. eapply same_data_some in Hx; [|exact Hdata2|by left].
    apply fs_set_some in Hx as [->|Hx]; [exists id; split; [done|]; split; [lia|set_solver]|].
    eapply same_data_some in Hx; [|exact Hsame|by left]. destruct (dk_logs _ _ _ _ _ _ _ Hd name Hx Hn) as (wid & -> & Hin).
    pose proof (Hnum wid ltac:(auto)). exists wid. split; [done|]. split; [lia|set_solver]. }
  { done. } { intros wid. rewrite Hw3. apply Hids. } { done. }
  rewrite E4. cbn [obind]. eexists _, R0'. split; [reflexivity|]. split; [|done].
  rewrite Hrev in Hmem4. pose proof Hinv as [_ _ _ Ht Hr _].
  split; cbn [db_mem db_imm db_store opt_list app].
  - constructor. replace (merged_mem M I) with (stack_merge (([] :: opt_list M ++ opt_list I) ++ [[]]) []); [done|].
    unfold merged_mem. cbn [app]. by rewrite <- app_assoc.
  - constructor.
  - apply (store_inv_same st1); rewrite ?F1, ?F2, ?F3, ?S1, ?S2, ?S3; try done. by rewrite F4; apply suffix_nil.
  - apply Forall_cons_2; [by apply merged_mem_Forall|constructor].
  - apply Forall_cons_2; [by apply merged_mem_Forall|constructor].
  - done.
Qed.

(** A restart shows the same map. *)
Lemma restart_represents m n :
  (forall k, stack_view (db_stack M I R0 R1) k = m !! k) -> db_bytes M I R0 R1 <= n ->
  exists db', DBImpl_open junk_t junk_k junk_v flips (st_fs (db_store db)) = Ret (Some db') /\ represents db' m (2 * n).
Proof.
  intros Hv Hn. destruct restart_holds as (db' & R0' & E & Hinv' & HR). exists db'. split; [done|].
  exists (Some (merged_mem M I)), None, R0', R1. split; [done|]. split; [done|]. split.
  - intros k. by rewrite restart_view.
  - pose proof (restart_bytes R0' HR). lia.
Qed.
End restart.

(** The next start of a store that is in its directory. *)
Lemma restart_durable junk_t junk_k junk_v flips c m n s :
  junk_ok junk_k junk_v -> conc_inv c m n s -> durable c -> n < 2 ^ 60 -> s < 2 ^ 31 - 2 ->
  exists db', DBImpl_open junk_t junk_k junk_v flips (st_fs (db_store (c_db c))) = Ret (Some db') /\
    shows db' m /\ represents db' m (2 * n).
Proof.
  intros Hjunk (M & I & R0 & R1 & Hinv & _ & Hv & Hb & Hn & _) (M' & I' & R0' & R1' & Hinv' & Hod & Hord) Hbytes Hs.
  destruct (db_inv_unique _ _ _ _ _ _ _ _ _ Hinv Hinv') as (<- & <- & <- & <-).
  pose proof (si_next _ _ _ (di_store _ _ _ _ _ Hinv)) as Hpos. fold (next_number (c_db c)) in Hpos.
  destruct (restart_represents junk_t junk_k junk_v flips Hjunk _ _ _ _ _ _ Hinv Hod Hord ltac:(unfold small_db; lia) ltac:(lia)
    _ _ Hv Hb) as (db' & E & Hrep).
  exists db'. split; [done|]. split; [by eapply represents_shows|done].
Qed.

(** ** The first start *)

(** The directory that the first start leaves: an empty snapshot, two edits, an
    empty log. *)
Definition first_files : FS :=
  fs_set (fs_set (fs_set (mkFS true ∅ []) manifest_name (encode_state ManifestState_empty))
    manifest_log_name (encode_edits [mkEdit SetNextFileNumber 1 0; mkEdit AddWAL 1 0])) (wal_name 1) [].
Definition first_manager : ManifestManager := mkManager 2 (mkState 1 ∅ {[1]}).

Lemma first_files_names name :
  is_Some (fs_read first_files name) -> name = wal_name 1 \/ manifest_file name.
Proof. intros [->|[->|[->|[c Hc]]%fs_set_some]%fs_set_some]%fs_set_some; unfold manifest_file; auto. unfold fs_read in Hc. cbn [fs_files] in Hc. by rewrite lookup_empty in Hc. Qed.

Lemma first_manifest : manifest_inv first_manager first_files.
Proof.
  split; [done|]. split; [|split; [done|]].
  - split; cbn [first_manager mm_state next_file_number sst_levels live_wals]; [done| | |done|done].
    + intros k l Hl. by rewrite lookup_empty in Hl.
    + by intros w ->%elem_of_singleton.
  - exists ManifestState_empty, [mkEdit SetNextFileNumber 1 0; mkEdit AddWAL 1 0]. split; [|by vm_compute].
    split; [done|by vm_compute|by vm_compute| |by repeat constructor].
    exact (fh_state _ _ _ fresh_hold).
Qed.

Lemma first_disk : disk_inv (mkStore first_files first_manager [] []) {[1]} None [] [] [] [].
Proof.
  split; cbn [st_fs st_mm].
  - exact first_manifest.
  - intros id l. cbn. rewrite lookup_empty, elem_of_nil. split; [done|by intros [[_ ?]|[_ ?]]].
  - constructor.
  - constructor.
  - constructor.
  - constructor.
  - done.
  - cbn. intros id [->%elem_of_singleton|?]; [lia|done].
  - intros name Hx Hn. apply first_files_names in Hx as [->|Hm]; [exists 1; set_solver|].
    destruct (data_manifest name); [by left|done].
  - intros name Hx Hn. apply first_files_names in Hx as [->|Hm]; [by vm_compute in Hn|].
    destruct (data_manifest name); [by right|done].
Qed.

(** What of the first store the directory speaks of. *)
Definition on_disk_parts (o : outcome (option DBImpl)) : option (Store * gset Z * Z * option WalHandler) :=
  match o with
  | Ret (Some db) => Some (db_store db, db_wals db, active_wal_id db, option_map mt_wal (db_mem db))
  | _ => None
  end.

Lemma open_fresh_parts junk_t junk_k junk_v flips :
  on_disk_parts (DBImpl_open junk_t junk_k junk_v flips no_directory) =
    Some (mkStore first_files first_manager [] [], {[1]}, 1, Some (mkWal (wal_name 1) true)).
Proof. vm_compute. reflexivity. Qed.

Lemma open_fresh_durable junk_t junk_k junk_v flips :
  exists db, DBImpl_open junk_t junk_k junk_v flips no_directory = Ret (Some db) /\ durable (start db).
Proof.
  destruct (open_fresh_inv junk_t junk_k junk_v flips) as (db & E & Hinv & _). exists db. split; [exact E|].
  pose proof (open_fresh_parts junk_t junk_k junk_v flips) as Hp. rewrite E in Hp. clear E. cbn [on_disk_parts] in Hp.
  destruct (db_mem db) as [mt|] eqn:Em; [|discriminate Hp]. cbn [option_map] in Hp. injection Hp as Ef Ew Ea Ewal.
  exists (Some []), None, [], []. split; [exact Hinv|].
  assert (Ei : db_imm db = None) by (by apply (inv_imm _ _ _ _ _ Hinv)).
  split; [|intros Hne; by destruct Hne]. exists [], []. cbn [start c_db c_bg pending_sst bg_disk]. rewrite Ef, Ew.
  split; [exact first_disk|]. split; [|exact Logic.I]. split; [|done|done].
  intros ? [= <-]. exists mt. rewrite Ea, Ef.
  split; [exact Em|]. split; [exact Ewal|]. apply wal_on_disk_nil. by vm_compute.
Qed.

(** ** A compaction that is interrupted *)

(** What [InstallL0ToL1] has done when [n] of its inputs are removed. *)
Definition interrupted_install (st : Store) (ctx : L0ToL1Ctx) (r : SSTableReader) (n : nat) : Store :=
  let st := store_AddSst (mkStore (st_fs st) (st_mm st) (st_l0 st) (st_l1 st ++ [r])) (new_sst_id ctx) 1 in
  remove_inputs (take n (l0_input_ids ctx)) (mkStore (st_fs st) (st_mm st) [] (st_l1 st)).

Lemma interrupted_install_all st R0 R1 ctx r :
  prepared st R0 R1 ctx -> has_output ctx = true ->
  InstallL0ToL1 st ctx (Some r) = (interrupted_install st ctx r (length (l0_input_ids ctx)), true).
Proof.
  intros [P1 P2 _ _ P5 _ _ _ _ _ _ _] Hout. rewrite InstallL0ToL1_unchanged by congruence.
  rewrite Hout, bool_decide_eq_false_2 by auto. unfold interrupted_install. by rewrite take_ge.
Qed.

(** The destructor of a store up to the last phase of the compaction. *)
Definition close_to_install (db : DBImpl) : outcome (Store * L0ToL1Ctx * SSTableReader) :=
  match minor_prepare (mkDB (db_store db) None (db_mem db) (active_wal_id db) (active_wal_id db)
                         (minor_compact_count db) true (bg_compaction_scheduled db)) with
  | None => Fault
  | Some (db, ctx) =>
      let* (db, reader) := minor_build db ctx in
      match reader with
      | None => Fault
      | Some r =>
          let* (st, ctx, ok) := PrepareL0ToL1 (db_store (install_minor db ctx r)) in
          let* (fs, reader) := BuildL0ToL1SST (st_fs st) ctx in
          match reader with Some r => Ret (with_fs st fs, ctx, r) | None => Fault end
      end
  end.

(** A run that writes a key and ends; a run that overwrites it and crashes in the
    compaction of its shutdown, [n] inputs being removed; and the answer of the
    next run. *)
Definition crash_in_compaction (n : nat) : outcome (ValueRecord * bool) :=
  then_open no_directory (fun db =>
  let* db := put_plain db (str "a") (str "old") kValue in
  let* first := DBImpl_close db in
  then_open first (fun db =>
  let* db := put_plain db (str "a") (str "new") kValue in
  let* (st, ctx, r) := close_to_install db in
  then_open (st_fs (interrupted_install st ctx r n)) (fun db =>
  DBImpl_Get db (str "a") (mkRecord x00 [])))).

(** * Properties *)

(** C7: a crash loses nothing.  Whatever the interleaving of the writer and the
    background thread since a fresh start in a directory in which no file operation
    fails but the writing of SSTables, if the process dies between two critical sections (a flush or a
    compaction may be half done), the next start succeeds, whatever its
    uninitialised locals and coin flips, and its store shows exactly the map
    that the completed writes built; so all theorems about the store hold for
    it again. *)
Theorem crash_loses_nothing (junk_t junk_t' : nat -> byte) (junk_k junk_v junk_k' junk_v' : nat -> bytes)
    (flips flips' : Z -> nat -> nat -> bool) (db0 : DBImpl) (c : cstate)
    (ws : list (bytes * ValueRecord)) (n : nat) :
  junk_ok junk_k' junk_v' ->
  DBImpl_open junk_t junk_k junk_v flips no_directory = Ret (Some db0) ->
  creach (start db0) c ws n -> writes_bytes ws < 2 ^ 60 -> Z.of_nat n < 2 ^ 31 - 2 ->
  exists db', DBImpl_open junk_t' junk_k' junk_v' flips' (st_fs (db_store (c_db c))) = Ret (Some db') /\
    shows db' (map_of_writes ws) /\ represents db' (map_of_writes ws) (2 * writes_bytes ws).
Proof.
  intros Hjunk Hopen Hreach Hb Hn. destruct (open_fresh junk_t junk_k junk_v flips) as (db & E & Hr & Hnn).
  rewrite Hopen in E. injection E as <-. pose proof (start_holds db0 Hr Hnn) as H0.
  destruct (open_fresh_durable junk_t junk_k junk_v flips) as (db & E & Hd0). rewrite Hopen in E. injection E as <-.
  pose proof (creach_holds _ _ _ _ _ _ H0 eq_refl eq_refl Hreach Hb ltac:(lia)) as Hinv.
  pose proof (creach_durable _ _ _ _ H0 Hd0 Hreach Hb Hn) as Hd.
  by apply (restart_durable _ _ _ _ _ _ _ _ Hjunk Hinv Hd Hb).
Qed.

Lemma crash_loses_nothing_witness :
  exists db', open_plain (st_fs (db_store opened_put)) = Ret (Some db') /\
    shows db' (map_of_writes [(str "k", some_value)]) /\
    represents db' (map_of_writes [(str "k", some_value)]) (2 * writes_bytes [(str "k", some_value)]).
Proof.
  apply (crash_loses_nothing (fun _ => x00) (fun _ => x00) zeros zeros zeros zeros (fun _ _ _ => false) (fun _ _ _ => false)
    opened (mkC opened_put bg_wait wr_idle) _ 3).
  - by split.
  - vm_compute. reflexivity.
  - apply opened_put_reach.
  - vm_compute. reflexivity.
  - vm_compute. reflexivity.
Defined.

