(* ===== verification/Shutdown.v ===== *)
(** The end of a process that is not killed ([DBImpl::~DBImpl] in
    [src/DBImpl.cpp]): what the next start makes of the directory that the
    destructor leaves.  With nothing left to flush it shows the same map; with an
    immutable table left, whose flush was scheduled and not begun, that table
    comes back over newer values. *)
From S2P Require Import Prelude Storage OMap SSTableBuilder SSTableReader SSTable Files Crc Wal Manifest SkipList Table MemTable DBIterator Compaction Recovery DBImpl DBConc LongRuns Disk DiskSteps Durability.

(** * Lemmas *)

(** A flush looks at the immutable table and its log only. *)
Definition store_of (o : outcome DBImpl) : outcome Store := let* db := o in Ret (db_store db).

Lemma MinorCompaction_store st m m' imm a a' i n b b' s s' :
  store_of (MinorCompaction (mkDB st m imm a i n b s)) = store_of (MinorCompaction (mkDB st m' imm a' i n b' s')).
Proof.
  unfold MinorCompaction, minor_prepare. cbn [db_imm db_store imm_wal_id]. destruct imm as [imm|]; [|done].
  destruct (store_AllocateFileNumber st) as [st1 id]. unfold minor_build. cbn [with_store db_store].
  destruct (BuildMinorSST _ _) as [[fs reader]| |]; [|done..]. cbn [obind]. destruct reader as [r|]; [|done].
  unfold trigger_l0_to_l1, install_minor. cbn [db_store minor_compact_count with_store].
  destruct (2 <=? _)%nat; [|done]. by destruct (CompactL0ToL1 _).
Qed.

Section close.
Context (junk_t : nat -> byte) (junk_k junk_v : nat -> bytes) (flips : Z -> nat -> nat -> bool).
Hypothesis Hjunk : junk_ok junk_k junk_v.
Context (db : DBImpl) (rows : list row) (I : option (list row)) (R0 R1 : list (list row)) (n s : Z).
Hypothesis Hinv : db_inv db (Some rows) I R0 R1.
Hypothesis Hod : on_disk db bg_wait (Some rows) I R0 R1.
Hypothesis Hord : logs_ordered db.
Hypothesis Hbytes : db_bytes (Some rows) I R0 R1 <= n.
Hypothesis Hnum : next_number db <= 1 + s.
Hypothesis Hn : n < 2 ^ 60.
Hypothesis Hs : s + 6 < 2 ^ 31 - 2.

(** The destructor sees the memory table as the immutable one; an immutable table
    that was left is, for the directory, the table in use. *)
Definition closing_store : DBImpl :=
  mkDB (db_store db) (db_imm db) (db_mem db) (match db_imm db with Some _ => imm_wal_id db | None => active_wal_id db + 1 end)
    (active_wal_id db) (minor_compact_count db) true (bg_compaction_scheduled db).

Lemma closing_durable :
  rows <> [] -> bg_durable closing_store bg_prepare I (stack_view (opt_list I ++ rows :: disk_stack R0 R1)) n s.
Proof.
  intros Hne. exists (Some rows), R0, R1. pose proof Hinv as [H1 H2 H3 H4 H5 H6]. pose proof (inv_imm _ _ _ _ _ Hinv) as Himm.
  assert (Hids : active_wal_id db <> active_wal_id closing_store).
  { unfold closing_store. cbn [active_wal_id]. destruct (db_imm db) eqn:E; [|lia]. specialize (Hord ltac:(by rewrite E)). lia. }
  split; [|split; [|split; [done|split; [done|split; [|done]]]]].
  - split; cbn [closing_store db_mem db_imm db_store opt_list app] in *; try done; [| |congruence].
    + apply Forall_cons in H4 as [? ?]. apply Forall_app. split; [done|by apply Forall_cons].
    + apply Forall_cons in H5 as [? ?]. apply Forall_app. split; [done|by apply Forall_cons].
  - destruct Hod as (ids0 & ids1 & Hd & [Hm Hi _] & _). exists ids0, ids1. split; [|split; [|done]].
    + replace (db_wals closing_store) with (db_wals db); [done|]. unfold db_wals, closing_store.
      cbn [db_mem db_imm active_wal_id imm_wal_id]. destruct (db_imm db), (db_mem db); set_solver.
    + split; cbn [db_store closing_store db_mem db_imm active_wal_id imm_wal_id]; [|intros ? E; by apply Hm|done].
      intros rows_i E. destruct (db_imm db) as [imm|] eqn:Ei; [by apply Hi|]. by rewrite (proj1 Himm eq_refl) in E.
  - revert Hbytes. unfold db_bytes. rewrite !stack_bytes_app. lia.
Qed.

(** The memory table is flushed: the next start shows an immutable table that was
    left in front of it. *)
Lemma close_flushed mt m :
  db_mem db = Some mt -> 0 < MemTable_Count mt ->
  (forall k, stack_view (opt_list I ++ rows :: disk_stack R0 R1) k = m !! k) ->
  exists fs db', DBImpl_close db = Ret fs /\ DBImpl_open junk_t junk_k junk_v flips fs = Ret (Some db') /\
    represents db' m (2 * n).
Proof.
  intros Em Hc Hv. assert (Hne : rows <> []).
  { pose proof (di_mem _ _ _ _ _ Hinv) as Hm. rewrite Em in Hm. inversion Hm; subst. by eapply count_nonempty. }
  pose proof (closing_durable Hne) as Hd. pose proof Hd as (M0 & R2 & R3 & Hinv0 & Hod0 & _ & _ & Hb0 & Hn0).
  pose proof (si_next _ _ _ (di_store _ _ _ _ _ Hinv0)) as Hpos. fold (next_number closing_store) in Hpos.
  destruct (MinorCompaction_holds closing_store I M0 R2 R3 Hinv0 ltac:(lia) ltac:(lia))
    as (db1 & I1 & R0' & R1' & EM & Hinv1 & _ & _ & _ & Hhealthy).
  assert (Ei : db_imm db1 = None).
  { apply Hhealthy. destruct Hod0 as (ids0 & ids1 & Hd0 & _). apply (disk_healthy _ _ _ _ _ _ _ Hd0). }
  destruct (bg_moves_durable _ _ _ _ _ _ _ (minor_moves _ _ EM) Hd Hn ltac:(lia)) as (I2 & R4 & R5 & G1 & G2 & _ & G4 & G5 & G6).
  cbn [fst snd] in *. pose proof (si_next _ _ _ (di_store _ _ _ _ _ G1)) as Hpos1. fold (next_number db1) in Hpos1.
  assert (Ho : logs_ordered db1) by (intros Hx; by destruct Hx).
  destruct (restart_represents junk_t junk_k junk_v flips Hjunk db1 _ _ _ _ _ G1 G2 Ho
    ltac:(unfold small_db; lia) ltac:(lia) m n) as (db' & E & Hrep); [intros k; by rewrite G4|done|].
  exists (st_fs (db_store db1)), db'. split; [|done]. unfold DBImpl_close. rewrite Em, (proj2 (Z.ltb_lt _ _) Hc).
  assert (Hsame : store_of (MinorCompaction (mkDB (db_store db) None (Some mt) (active_wal_id db) (active_wal_id db)
    (minor_compact_count db) true (bg_compaction_scheduled db))) = Ret (db_store db1)).
  { rewrite (MinorCompaction_store _ _ (db_imm db) _ _ (active_wal_id closing_store) _ _ _ true _ (bg_compaction_scheduled db)).
    unfold closing_store in *. rewrite Em in EM. cbn [active_wal_id]. unfold store_of. by rewrite EM. }
  unfold store_of in Hsame. destruct (MinorCompaction (mkDB _ None _ _ _ _ _ _)) as [db2| |] eqn:E2; cbn [obind] in Hsame |- *; [|done..].
  assert (Hx : db_store db2 = db_store db1) by congruence. by rewrite Hx.
Qed.

(** Nothing was left to flush. *)
Lemma close_clean m :
  I = None -> (forall k, stack_view (db_stack (Some rows) None R0 R1) k = m !! k) ->
  exists fs db', DBImpl_close db = Ret fs /\ DBImpl_open junk_t junk_k junk_v flips fs = Ret (Some db') /\
    represents db' m (2 * n).
Proof.
  intros HI Hv. pose proof (di_mem _ _ _ _ _ Hinv) as Hm. inversion Hm as [mt rows' Hmt Em E|]; subst rows'.
  destruct (Z.ltb_spec 0 (MemTable_Count mt)) as [Hc|Hc].
  { apply (close_flushed mt); [done|done|]. by rewrite HI. }
  pose proof (si_next _ _ _ (di_store _ _ _ _ _ Hinv)) as Hpos. fold (next_number db) in Hpos.
  destruct (restart_represents junk_t junk_k junk_v flips Hjunk db _ _ _ _ _ Hinv Hod Hord
    ltac:(unfold small_db; lia) ltac:(lia) m n) as (db' & E & Hrep); [by rewrite HI|done|].
  exists (st_fs (db_store db)), db'. split; [|done]. unfold DBImpl_close. rewrite <- Em. by rewrite (proj2 (Z.ltb_ge _ _) Hc).
Qed.

End close.

(** ** The map of a stack *)

Lemma list_to_map_find {V} (l : list (bytes * V)) k : (list_to_map l : gmap bytes V) !! k = om_find k l.
Proof.
  induction l as [|[k' v] l IH]; [done|]. cbn [list_to_map foldr om_find fst snd uncurry].
  case_decide as Hk; [subst; apply lookup_insert_eq|]. rewrite lookup_insert_ne by congruence. exact IH.
Qed.

Lemma stack_map srcs : exists m : gmap bytes bytes, forall k, stack_view srcs k = m !! k.
Proof.
  assert (Hg : exists g : gmap bytes ValueRecord, forall k, stack_find k srcs = g !! k).
  { induction srcs as [|rows srcs [g IH]]; [by exists ∅|]. exists (list_to_map rows ∪ g). intros k. cbn [stack_find].
    rewrite lookup_union, list_to_map_find, <- IH. by destruct (om_find k rows), (stack_find k srcs). }
  destruct Hg as [g Hg]. exists (omap (fun r => visible_value (Some r)) g). intros k. unfold stack_view.
  rewrite lookup_omap, Hg. by destruct (g !! k).
Qed.

(** ** A shutdown before a flush *)

Definition deletion : ValueRecord := mkRecord kDeletion [].

Lemma om_insert_length_le {V} k (v : V) l : (0 < length (om_insert k v l) <= S (length l))%nat.
Proof. induction l as [|[k' v'] l IH]; cbn [om_insert length]; [lia|]. destruct (bytes_compare k k'); cbn [length]; lia. Qed.

(** The key is deleted while the table with its value waits for its flush. *)
Lemma waiting_delete c len next num rows R0 R1 sch :
  resting c len next num (Some rows) R0 R1 bg_wait sch -> Z.of_nat len < 10000 -> rows <> [] -> Forall small_row rows ->
  exists mrows db' k, leads 3 c (mkC db' bg_wait wr_idle) /\ length mrows = len /\
    db_inv db' (Some (om_insert k deletion mrows)) (Some rows) R0 R1 /\ om_find k rows = Some some_value.
Proof.
  intros Hr Hl Hne Hsm. destruct rows as [|[k v] rows]; [done|]. apply Forall_cons in Hsm as [[Ev Hk] _]. cbn [fst snd] in *. subst v.
  destruct (resting_put _ _ _ _ _ _ _ _ _ k deletion Hr Hl Hk ltac:(by vm_compute) ltac:(by right)) as (db' & E & L).
  destruct (re_rows _ _ _ _ _ _ _ _ _ Hr) as (mrows & Hinv & Hlen & _).
  destruct (put_mem_holds (c_db c) mrows _ R0 R1 k deletion (fun _ => false) Hinv) as (db1 & E1 & (Hinv' & _) & _);
    [split; cbn [fst snd]; [lia|by vm_compute]|by right|]. rewrite E in E1. injection E1 as <-.
  exists mrows, db', k. do 3 (split; [done|]). cbn [om_find]. by rewrite decide_True.
Qed.

(** * Properties *)

(** A clean shutdown loses nothing, if no flush is pending.  From a fresh start
    whose file operations succeed, after any interleaving of writes and flushes,
    when the background thread and the writer are at rest and there is no
    immutable table, the destructor and the next constructor bring back exactly
    the map that the writes built. *)
Theorem clean_shutdown_durable (junk_t junk_t' : nat -> byte) (junk_k junk_v junk_k' junk_v' : nat -> bytes)
    (flips flips' : Z -> nat -> nat -> bool) (db0 db : DBImpl) (ws : list (bytes * ValueRecord)) (n : nat) :
  junk_ok junk_k' junk_v' ->
  DBImpl_open junk_t junk_k junk_v flips no_directory = Ret (Some db0) ->
  creach (start db0) (mkC db bg_wait wr_idle) ws n -> db_imm db = None ->
  writes_bytes ws < 2 ^ 60 -> Z.of_nat n < 2 ^ 31 - 8 ->
  exists fs db', DBImpl_close db = Ret fs /\ DBImpl_open junk_t' junk_k' junk_v' flips' fs = Ret (Some db') /\
    shows db' (map_of_writes ws).
Proof.
  intros Hjunk Hopen Hreach Himm Hb Hn. destruct (open_fresh junk_t junk_k junk_v flips) as (db1 & E & Hr & Hnn).
  rewrite Hopen in E. injection E as <-. pose proof (start_holds db0 Hr Hnn) as H0.
  destruct (open_fresh_durable junk_t junk_k junk_v flips) as (db1 & E & Hd0). rewrite Hopen in E. injection E as <-.
  destruct (creach_holds _ _ _ _ _ _ H0 eq_refl eq_refl Hreach Hb ltac:(lia)) as (M & I & R0 & R1 & Hinv & Hne & Hv & Hb1 & Hn1 & _).
  destruct (creach_durable _ _ _ _ H0 Hd0 Hreach Hb ltac:(lia)) as (M' & I' & R0' & R1' & Hinv' & Hod & Hord).
  destruct (db_inv_unique _ _ _ _ _ _ _ _ _ Hinv Hinv') as (<- & <- & <- & <-). cbn [c_db c_bg] in *.
  apply (inv_imm _ _ _ _ _ Hinv) in Himm as ->. clear Hopen. destruct M' as [rows|]; [|by destruct Hne].
  destruct (close_clean junk_t' junk_k' junk_v' flips' Hjunk db rows None R0' R1' (writes_bytes ws) (Z.of_nat n)
    Hinv Hod Hord Hb1 Hn1 Hb ltac:(lia) (map_of_writes ws) eq_refl Hv) as (fs & db' & E1 & E2 & Hrep).
  exists fs, db'. split; [exact E1|]. split; [exact E2|]. by eapply represents_shows.
Qed.

Lemma clean_shutdown_durable_witness :
  exists fs db', DBImpl_close opened_put = Ret fs /\ open_plain fs = Ret (Some db') /\
    shows db' (map_of_writes [(str "k", some_value)]).
Proof.
  apply (clean_shutdown_durable (fun _ => x00) (fun _ => x00) zeros zeros zeros zeros (fun _ _ _ => false) (fun _ _ _ => false)
    opened opened_put _ 3).
  - by split.
  - vm_compute. reflexivity.
  - apply opened_put_reach.
  - vm_compute. reflexivity.
  - vm_compute. reflexivity.
  - vm_compute. reflexivity.
Defined.

(** C32: a shutdown before a flush brings old values back.  The destructor puts the
    memory table in the place of an immutable table whose flush was scheduled and
    not begun, and flushes it; the log of the forgotten table stays alive, and the
    next start replays it over the newer SSTable.  From a fresh store a state is
    reached, with both threads at rest, in which a key has been deleted; the store
    is closed and opened again without any failure, and the deleted key is there
    with its old value. *)
Theorem shutdown_resurrects :
  exists db0, open_plain no_directory = Ret (Some db0) /\
  exists db ws n k, creach (start db0) (mkC db bg_wait wr_idle) ws n /\ map_of_writes ws !! k = None /\
    exists fs db', DBImpl_close db = Ret fs /\ open_plain fs = Ret (Some db') /\
      DBImpl_Get db' k deletion = Ret (some_value, true).
Proof.
  destruct (open_fresh_inv (fun _ => x00) zeros zeros (fun _ _ _ => false)) as (db0 & Hopen & Hi0 & Hn0 & Hio0 & Hs0 & Hsch0).
  exists db0. split; [exact Hopen|].
  destruct (open_fresh_durable (fun _ => x00) zeros zeros (fun _ _ _ => false)) as (db1 & E & Hd0). rewrite Hopen in E. injection E as <-.
  destruct (open_fresh (fun _ => x00) zeros zeros (fun _ _ _ => false)) as (db1 & E & Hr0 & _). rewrite Hopen in E. injection E as <-.
  clear Hopen. pose proof (start_holds db0 Hr0 Hn0) as H0. pose proof (start_resting db0 Hi0 Hn0 Hio0 Hs0 Hsch0) as Hrest.
  set (full := Z.to_nat 10000).
  destruct (resting_fill full _ _ _ _ _ _ _ _ _ Hrest) as (c1 & L1 & R1); [lia..|].
  destruct (resting_switch _ _ _ _ _ _ _ _ R1) as (rows & c2 & L2 & R2 & Hlen & Hsm); [lia..|].
  destruct (waiting_delete _ _ _ _ _ _ _ _ R2) as (mrows & db & k & L3 & Hml & Hinv & Hk); [lia|by destruct rows; [cbn in Hlen; lia|]|done|].
  destruct (leads_trans _ _ _ _ _ (leads_trans _ _ _ _ _ L1 L2) L3 (start db0) [] 0%nat (cr_start _)) as (ws & Hreach & Hb).
  set (n := (0 + _)%nat) in Hreach. assert (Hn : Z.of_nat n = 30006) by (unfold n, full; lia).
  change (writes_bytes []) with 0 in Hb. assert (Hb' : writes_bytes ws < 2 ^ 60) by (unfold full in Hb; lia).
  exists db, ws, n, k. split; [exact Hreach|]. clear L1 L2 L3 R1 R2 Hrest.
  destruct (creach_holds _ _ _ _ _ _ H0 eq_refl eq_refl Hreach Hb' ltac:(lia)) as (M & I & R3 & R4 & G1 & _ & Gv & Gb & Gn & _).
  destruct (creach_durable _ _ _ _ H0 Hd0 Hreach Hb' ltac:(lia)) as (M' & I' & R5 & R6 & F1 & Hod & Hord). cbn [c_db c_bg] in *.
  destruct (db_inv_unique _ _ _ _ _ _ _ _ _ Hinv G1) as (E1 & E2 & E3 & E4).
  destruct (db_inv_unique _ _ _ _ _ _ _ _ _ Hinv F1) as (E5 & E6 & E7 & E8). subst.
  pose proof (db_inv_unique _ _ _ _ _ _ _ _ _ Hinv G1) as Hu. clear Hu.
  split.
  { rewrite <- Gv. unfold stack_view, db_stack. cbn [opt_list app stack_find]. by rewrite om_find_insert, decide_True. }
  destruct (stack_map (opt_list (Some rows) ++ om_insert k deletion mrows :: disk_stack [] [])) as [m Hm].
  pose proof (di_mem _ _ _ _ _ Hinv) as Hmem. inversion Hmem as [mt rows' Hmt Em Er|]; subst rows'.
  pose proof (om_insert_length_le k deletion mrows) as Hle.
  assert (Hc : 0 < MemTable_Count mt) by (rewrite (mem_count_small mt _ Hmt); lia).
  destruct (close_flushed (fun _ => x00) zeros zeros (fun _ _ _ => false) ltac:(by split) db _ _ _ _ (writes_bytes ws) (Z.of_nat n)
    Hinv Hod Hord Gb Gn Hb' ltac:(lia) mt m (eq_sym Em) Hc Hm) as (fs & db' & C1 & C2 & Hrep).
  exists fs, db'. split; [exact C1|]. split; [exact C2|].
  destruct (represents_shows _ _ _ Hrep) as [Hget _]. destruct (Hget k deletion) as (v & -> & Hv).
  assert (Hmk : m !! k = Some (str "v")).
  { rewrite <- Hm. unfold stack_view. cbn [opt_list app stack_find]. rewrite Hk. by vm_compute. }
  rewrite (Hv _ Hmk), Hmk. done.
Qed.
