(* ===== verification/Faults.v ===== *)
(** The sizes of the tables of a running store, and what becomes of it when the
    background thread fails to write an SSTable. *)
From S2P Require Import Prelude Storage OMap SSTableBuilder SSTableReader SSTable Files Crc Wal Manifest SkipList Table MemTable DBIterator Compaction Recovery DBImpl DBConc LongRuns Disk DiskSteps Durability Shutdown.

(** ** Sizes *)

(** The memory table is not above its threshold, and below it when a write is
    about to be made; the immutable table was full. *)
Record sized (c : cstate) : Prop := {
  sz_mem : forall mt rows, db_mem (c_db c) = Some mt -> mem_holds mt rows ->
    zlen rows <= kMemTableThreshold /\ (forall k v flips, c_wr c = wr_write k v flips -> zlen rows < kMemTableThreshold);
  sz_imm : forall imm rows, db_imm (c_db c) = Some imm -> mem_holds imm rows -> zlen rows = kMemTableThreshold;
}.

Lemma count_rows mt rows : mem_holds mt rows -> zlen rows <= kMemTableThreshold -> MemTable_Count mt = zlen rows.
Proof.
  intros H Hl. pose proof (zlen_nonneg rows). rewrite (MemTable_Count_holds _ _ H). unfold kMemTableThreshold in Hl.
  unfold i32. rewrite Z.mod_small; lia.
Qed.

(** The background thread never touches the memory table, and removes the immutable
    one at most. *)
Lemma bg_step_tables db bg db' bg' :
  bg_step db bg = Ret (Some (db', bg')) -> db_mem db' = db_mem db /\ (db_imm db' = db_imm db \/ db_imm db' = None).
Proof.
  intros HB. destruct bg as [| |ctx|ctx r| |ctx|ctx reader|]; cbn [bg_step] in HB.
  - destruct (_ && _); [|done]. injection HB as <- _. auto.
  - unfold minor_prepare in HB. destruct (db_imm db) as [imm|] eqn:Ei; [destruct (store_AllocateFileNumber _)|];
      injection HB as <- _; cbn; auto.
  - unfold minor_build in HB. destruct (BuildMinorSST _ _) as [[fs o]| |]; [|done..]. injection HB as <- _. auto.
  - injection HB as <- _. cbn. auto.
  - destruct (PrepareL0ToL1 _) as [[[st ctx] ok]| |]; [|done..]. injection HB as <- _. auto.
  - destruct (BuildL0ToL1SST _ _) as [[fs o]| |]; [|done..]. injection HB as <- _. auto.
  - destruct (InstallL0ToL1 _ _ _) as [st ok]. injection HB as <- _. auto.
  - injection HB as <- _. auto.
Qed.

Lemma sized_background db bg bg' wr db' :
  sized (mkC db bg wr) -> db_mem db' = db_mem db -> db_imm db' = db_imm db \/ db_imm db' = None -> sized (mkC db' bg' wr).
Proof.
  intros [H1 H2] Em Ei. split; cbn [c_db c_wr] in *; [by rewrite Em|]. intros imm rows E. apply H2.
  destruct Ei as [Ei|Ei]; congruence.
Qed.

Lemma sized_not_writing db bg wr wr' :
  sized (mkC db bg wr) -> (forall k v flips, wr' <> wr_write k v flips) -> sized (mkC db bg wr').
Proof.
  intros [H1 H2] Hw. split; [|done]. intros mt rows E H. split; [by apply (H1 mt)|]. intros k v f Ew. by destruct (Hw k v f).
Qed.

Lemma sized_writer db bg wr db' wr' w m n s :
  conc_inv (mkC db bg wr) m n s -> 2 + s < 2 ^ 64 -> sized (mkC db bg wr) ->
  wr_step db wr = Ret (Some (db', wr', w)) -> sized (mkC db' bg wr').
Proof.
  intros (M & I & R0 & R1 & Hinv & Hne & _ & _ & Hn & _ & Hwr) Hs Hz HW. pose proof Hz as [Hm Hi]. cbn [c_db c_wr] in *.
  destruct M as [rows|]; [|done]. pose proof (di_mem _ _ _ _ _ Hinv) as Hmem. inversion Hmem as [mt rows' Hmt Em E|]; subst rows'.
  destruct (Hm mt rows (eq_sym Em) Hmt) as [Hle Hlt].
  destruct wr as [|k v f|k v f|k v f]; cbn [wr_step wr_ready] in *; [done| | |].
  - rewrite <- Em, (count_rows mt rows Hmt Hle) in HW. destruct (Z.leb_spec kMemTableThreshold (zlen rows)) as [Hfull|Hroom].
    + destruct (db_imm db) as [imm|] eqn:Ei; injection HW as <- <- _; [by eapply sized_not_writing|].
      apply (inv_imm _ _ _ _ _ Hinv) in Ei as ->.
      destruct (switch_memtable_holds db rows R0 R1 Hinv) as [Hinv' _]; [intros ->; by vm_compute in Hfull|lia|].
      split; cbn [c_db c_wr]; intros t trows Et Ht.
      * pose proof (di_mem _ _ _ _ _ Hinv') as Hx. rewrite Et in Hx. inversion Hx as [? ? Ht'|]; subst.
        by rewrite (mem_holds_unique _ _ _ Ht Ht').
      * pose proof (di_imm _ _ _ _ _ Hinv') as Hx. rewrite Et in Hx. inversion Hx as [? ? Ht'|]; subst.
        rewrite (mem_holds_unique _ _ _ Ht Ht'). lia.
    + injection HW as <- <- _. split; cbn [c_db c_wr]; [|done]. intros t trows Et Ht. rewrite <- Em in Et. injection Et as <-.
      by rewrite (mem_holds_unique _ _ _ Ht Hmt).
  - injection HW as <- <- _. by eapply sized_not_writing.
  - destruct Hwr as [Hrow Hty]. specialize (Hlt _ _ _ eq_refl).
    destruct (put_mem_holds db rows I R0 R1 k v f Hinv Hrow Hty) as (db1 & E & (Hinv' & _) & _). rewrite E in HW. injection HW as <- <- _.
    destruct (put_mem_stable _ _ _ _ _ E) as (_ & Ei & _). split; cbn [c_db c_wr]; [|by rewrite Ei].
    intros t trows Et Ht. pose proof (di_mem _ _ _ _ _ Hinv') as Hx. rewrite Et in Hx. inversion Hx as [? ? Ht'|]; subst.
    rewrite (mem_holds_unique _ _ _ Ht Ht'). split; [|done]. pose proof (om_insert_length_le k v rows). unfold zlen in *. lia.
Qed.

Lemma cstep_sized c m n s w c' : conc_inv c m n s -> 2 + s < 2 ^ 64 -> sized c -> cstep c w c' -> sized c'.
Proof.
  intros Hc Hs Hz Hstep. pose proof Hc as (M & I & R0 & R1 & Hinv & _ & _ & _ & _ & Hbg & _).
  destruct Hstep as [db bg k v f _ _|db bg wr db' wr' w E|db bg wr db' bg' E|db bg wr db' Hf]; cbn [c_db c_bg] in *.
  - by eapply sized_not_writing.
  - by eapply sized_writer.
  - destruct (bg_step_tables _ _ _ _ E). by eapply sized_background.
  - destruct (bg_fault_effect _ _ _ _ _ _ _ Hinv Hbg Hf) as (id & cnt & _ & _ & ->). eapply sized_background; [done|done|by left].
Qed.

(** A state that a fresh store has reached. *)
Definition reached (c : cstate) (ws : list (bytes * ValueRecord)) (n : nat) : Prop :=
  conc_inv c (map_of_writes ws) (writes_bytes ws) (Z.of_nat n) /\ sized c.

Lemma creach_trans c0 c1 c2 ws1 ws2 n1 n2 :
  creach c0 c1 ws1 n1 -> creach c1 c2 ws2 n2 -> creach c0 c2 (ws1 ++ ws2) (n1 + n2).
Proof.
  intros H1 H2. induction H2 as [|c ws n c' w _ IH Hs]; [by rewrite app_nil_r, Nat.add_0_r|].
  rewrite app_assoc, Nat.add_succ_r. by eapply cr_step.
Qed.

Lemma writes_bytes_app ws1 ws2 : writes_bytes (ws1 ++ ws2) = writes_bytes ws1 + writes_bytes ws2.
Proof. unfold writes_bytes, encode_rows. by rewrite map_app, concat_app, zlen_app. Qed.

Lemma creach_reached junk_t junk_k junk_v flips db0 c ws n :
  DBImpl_open junk_t junk_k junk_v flips no_directory = Ret (Some db0) ->
  creach (start db0) c ws n -> writes_bytes ws < 2 ^ 60 -> Z.of_nat n < 2 ^ 60 -> reached c ws n.
Proof.
  intros Hopen Hr. destruct (open_fresh junk_t junk_k junk_v flips) as (db & E & Hrep & Hnn). rewrite Hopen in E. injection E as <-.
  destruct (open_fresh_inv junk_t junk_k junk_v flips) as (db & E & Hinv & _). rewrite Hopen in E. injection E as <-. clear Hopen.
  pose proof (start_holds db0 Hrep Hnn) as H0. induction Hr as [|c ws n c' w Hr IH Hs]; intros Hb Hn.
  - split; [exact H0|]. split; cbn [start c_db c_wr].
    + intros mt rows E H. pose proof (di_mem _ _ _ _ _ Hinv) as Hx. rewrite E in Hx. inversion Hx as [? ? Ht|]; subst.
      by rewrite (mem_holds_unique _ _ _ H Ht).
    + intros imm rows E. by rewrite (proj2 (inv_imm _ _ _ _ _ Hinv) eq_refl) in E.
  - rewrite writes_bytes_snoc in Hb. pose proof (write_bytes_nonneg w). destruct IH as [Hc Hz]; [lia..|].
    split; [|eapply cstep_sized; [exact Hc|lia|exact Hz|exact Hs]].
    rewrite map_of_writes_snoc, writes_bytes_snoc. rewrite Nat2Z.inj_succ, <- Z.add_1_r in *. by eapply cstep_holds; [exact Hc|lia|lia|].
Qed.

(** ** A flush that has failed *)

(** The background thread is done with an immutable table that is still there. *)
Definition forgotten (c : cstate) : Prop :=
  db_imm (c_db c) <> None /\ (c_bg c = bg_reset \/ c_bg c = bg_wait /\ bg_compaction_scheduled (c_db c) = false).

Lemma forgotten_step c w c' :
  forgotten c -> cstep c w c' -> forgotten c' /\ db_imm (c_db c') = db_imm (c_db c).
Proof.
  intros [Hi Hbg] Hstep. destruct Hstep as [db bg k v f _ _|db bg wr db' wr' w E|db bg wr db' bg' E|db bg wr db' (Hb & _)]; cbn [c_db c_bg] in *.
  - done.
  - assert (db_imm db' = db_imm db /\ bg_compaction_scheduled db' = bg_compaction_scheduled db) as [E1 E2].
    { destruct wr as [|k v f|k v f|k v f]; cbn [wr_step] in E; [done| |by injection E as <- _ _|].
      - destruct (db_mem db) as [mt|]; [|done]. destruct (_ <=? _); [|by injection E as <- _ _].
        destruct (db_imm db) eqn:Ei; [|done]. by injection E as <- _ _.
      - destruct (put_mem db k v f) as [db1| |] eqn:Ep; [|done..]. injection E as <- _ _.
        by destruct (put_mem_stable _ _ _ _ _ Ep) as (_ & ? & _ & ?). }
    split; [|done]. split; cbn [c_db c_bg]; [by rewrite E1|by rewrite E2].
  - destruct Hbg as [-> |[-> Hs]]; cbn [bg_step] in E.
    + injection E as <- <-. split; [|done]. split; [done|]. by right.
    + rewrite Hs, andb_false_r in E. done.
  - by destruct Hbg as [-> |[-> _]].
Qed.

Lemma forgotten_forever c c' ws n :
  forgotten c -> creach c c' ws n -> forgotten c' /\ db_imm (c_db c') = db_imm (c_db c).
Proof.
  intros Hf Hr. induction Hr as [|c1 ws n c2 w _ [IH <-] Hs]; [done|]. by eapply forgotten_step.
Qed.

(** Then a full memory table stops every write. *)
Definition stuck (c : cstate) : Prop :=
  forgotten c /\ (exists mt, db_mem (c_db c) = Some mt /\ kMemTableThreshold <= MemTable_Count mt) /\
  (forall k v flips, c_wr c <> wr_write k v flips).

Lemma stuck_step c w c' : stuck c -> cstep c w c' -> w = None /\ stuck c'.
Proof.
  intros (Hf & (mt & Em & Hfull) & Hw) Hstep. destruct (forgotten_step _ _ _ Hf Hstep) as [Hf' _]. pose proof (proj1 Hf) as Himm.
  destruct Hstep as [db bg k v f _ _|db bg wr db' wr' w E|db bg wr db' bg' E|db bg wr db' (Hb & _)]; cbn [c_db c_bg c_wr] in *.
  - split; [done|]. split; [done|]. split; [by exists mt|done].
  - assert (w = None /\ db' = db /\ forall k v flips, wr' <> wr_write k v flips) as (-> & -> & Hw').
    { destruct wr as [|k v f|k v f|k v f]; cbn [wr_step] in E; [done| |by injection E as <- <- <-|by destruct (Hw k v f)].
      rewrite Em, (proj2 (Z.leb_le _ _) Hfull) in E. destruct (db_imm db); [|done]. by injection E as <- <- <-. }
    split; [done|]. split; [done|]. split; [by exists mt|done].
  - split; [done|]. split; [done|]. destruct (bg_step_tables _ _ _ _ E) as [Em' _]. split; [exists mt; cbn [c_db]; by rewrite Em'|done].
  - destruct Hf as [_ [E|[E _]]]; cbn [c_bg] in E; by subst bg.
Qed.

Lemma stuck_forever c c' ws n : stuck c -> creach c c' ws n -> ws = [].
Proof.
  intros Hs Hr. assert (H : ws = [] /\ stuck c'); [|by destruct H].
  induction Hr as [|c1 ws n c2 w _ [-> IH] Hstep]; [done|]. by destruct (stuck_step _ _ _ IH Hstep) as [-> ?].
Qed.

(** ** A run with a flush that fails *)

Lemma write_and_open_refused d f path rows :
  exists fs, write_and_open (mkFS d f [io_open_fails]) path rows = Ret (fs, None).
Proof.
  set (fs := mkFS d f [io_open_fails]). unfold write_and_open.
  set (fs0 := if fs_exists fs path then fs_remove fs path else fs).
  assert (H0 : fs_io fs0 = [io_open_fails] /\ fs_read fs0 path = None).
  { unfold fs0, fs_exists, fs_read, fs. cbn [fs_files]. destruct (f !! path) eqn:E; cbn; [by rewrite lookup_delete_eq|done]. }
  destruct H0 as [Hio Hr]. unfold fs_append, fs_write, fs_next_io. rewrite Hio. unfold fs_read in *. cbn [fs_files].
  rewrite Hr. cbn. by eexists.
Qed.

(** Any flush may fail. *)
Lemma flush_may_fail db M rows R0 R1 ctx :
  db_inv db M (Some rows) R0 R1 -> minor_ready db ctx -> fs_io (st_fs (db_store db)) = [] ->
  exists db1, bg_fault db (bg_build ctx) db1.
Proof.
  intros [_ Hi _ _ _ _] [M1 M2 _ _] Hio. inversion Hi as [imm rows' Himm Ei|]; subst rows'.
  pose proof (th_scan _ _ (mem_table_holds _ _ Himm)) as Hscan. cbn in Hscan. unfold MemTable_Snapshot in Hscan.
  destruct (write_and_open_refused (fs_is_dir (st_fs (db_store db))) (fs_files (st_fs (db_store db))) (mc_new_sst_path ctx) rows)
    as [fs E]. eexists. split; [done|]. split; [done|]. exists io_open_fails. cbn [bg_step].
  unfold minor_build, BuildMinorSST. rewrite M1, M2, <- Ei, decide_False, Hscan by apply sst_name_nonempty. rewrite M2 in E.
  cbn [obind set_io with_store db_store with_fs st_fs]. rewrite E. cbn [obind]. reflexivity.
Qed.

(** The first flush, up to its build. *)
Lemma resting_build c len next num rows R0 R1 :
  resting c len next num (Some rows) R0 R1 bg_wait true -> num + 1 < 2 ^ 64 ->
  exists db ctx, leads 2 c (mkC db (bg_build ctx) wr_idle) /\ exists db1, bg_fault db (bg_build ctx) db1.
Proof.
  intros [(mrows & Hinv & _) Hn Hio [Hs Hsch] [Hbg Hw]] Hnum.
  destruct c as [db bg' wr]. cbn [c_db c_bg c_wr] in *. subst bg' wr.
  destruct (minor_prepare_holds db (Some mrows) rows R0 R1 Hinv ltac:(lia)) as (db1 & ctx & E1 & Hinv1 & Hr1 & _ & _ & Hs1).
  exists db1, ctx. split.
  - eapply leads_cons; [apply (cs_background _ _ _ db bg_prepare); cbn [bg_step]; by rewrite Hs, Hsch|].
    eapply leads_cons; [apply (cs_background _ _ _ db1 (bg_build ctx)); cbn [bg_step]; by rewrite E1|]. apply leads_refl.
  - eapply flush_may_fail; [exact Hinv1|exact Hr1|]. pose proof (ss_io _ _ Hs1) as Hx. rewrite Hio in Hx. by apply suffix_nil_inv in Hx.
Qed.

Lemma failed_flush_reachable db0 :
  resting (start db0) 0 0 1 None [] [] bg_wait false ->
  exists db ctx db1, leads (Z.to_nat 30005) (start db0) (mkC db (bg_build ctx) wr_idle) /\ bg_fault db (bg_build ctx) db1.
Proof.
  intros H0. set (full := Z.to_nat 10000).
  destruct (resting_fill full _ _ _ _ _ _ _ _ _ H0) as (c1 & L1 & H1); [lia..|].
  destruct (resting_switch _ _ _ _ _ _ _ _ H1) as (rows & c2 & L2 & H2 & _); [lia..|].
  destruct (resting_build _ _ _ _ _ _ _ H2) as (db & ctx & L3 & db1 & Hf); [lia|].
  exists db, ctx, db1. split; [|done]. replace (Z.to_nat 30005) with (3 * full + (3 + 2))%nat by lia.
  eapply leads_trans; [done|]. by eapply leads_trans.
Qed.

(** * Properties *)

(** C19: the memory of a store is bounded.  In every state that a fresh store reaches,
    whatever the interleaving and whichever SSTables cannot be written, there is a
    memory table, it has at most ten thousand entries, and an immutable table has
    exactly that many. *)
Theorem tables_bounded (junk_t : nat -> byte) (junk_k junk_v : nat -> bytes) (flips : Z -> nat -> nat -> bool)
    (db0 : DBImpl) (c : cstate) (ws : list (bytes * ValueRecord)) (n : nat) :
  DBImpl_open junk_t junk_k junk_v flips no_directory = Ret (Some db0) ->
  creach (start db0) c ws n -> writes_bytes ws < 2 ^ 60 -> Z.of_nat n < 2 ^ 60 ->
  (exists mt, db_mem (c_db c) = Some mt /\ 0 <= MemTable_Count mt <= kMemTableThreshold) /\
  (forall imm, db_imm (c_db c) = Some imm -> MemTable_Count imm = kMemTableThreshold).
Proof.
  intros Hopen Hr Hb Hn. destruct (creach_reached _ _ _ _ _ _ _ _ Hopen Hr Hb Hn) as [(M & I & R0 & R1 & Hinv & Hne & _) [Hm Hi]].
  clear Hopen.
  destruct Hinv as [Hmem Himm _ _ _ _]. split.
  - destruct Hmem as [mt rows Hmt|]; [|done]. destruct (Hm mt rows eq_refl Hmt) as [Hle _]. exists mt. split; [done|].
    rewrite (count_rows mt rows) by done. pose proof (zlen_nonneg rows). lia.
  - intros imm E. rewrite E in *. inversion Himm as [? rows Ht|]; subst. pose proof (Hi imm rows eq_refl Ht).
    rewrite (count_rows imm rows) by (done || lia). done.
Qed.

Lemma tables_bounded_witness :
  (exists mt, db_mem opened_put = Some mt /\ 0 <= MemTable_Count mt <= kMemTableThreshold) /\
  (forall imm, db_imm opened_put = Some imm -> MemTable_Count imm = kMemTableThreshold).
Proof.
  apply (tables_bounded (fun _ => x00) zeros zeros (fun _ _ _ => false) opened (mkC opened_put bg_wait wr_idle)
    [(str "k", some_value)] 3).
  - vm_compute. reflexivity.
  - apply opened_put_reach.
  - vm_compute. reflexivity.
  - vm_compute. reflexivity.
Defined.

(** C31: a flush that fails is never tried again.  When the SSTable of an immutable
    table cannot be written, the background thread forgets it: whatever the
    threads do afterwards, the table stays, what [Sync] waits for never becomes
    true, and as soon as the memory table is full no write completes any more.
    No data is lost: the store goes on to show all completed writes. *)
Theorem failed_flush_never_retried (junk_t : nat -> byte) (junk_k junk_v : nat -> bytes) (flips : Z -> nat -> nat -> bool)
    (db0 db db1 : DBImpl) (ctx : MinorCtx) (wr : wr_pc) (c : cstate) (ws ws' : list (bytes * ValueRecord)) (n n' : nat) :
  DBImpl_open junk_t junk_k junk_v flips no_directory = Ret (Some db0) ->
  creach (start db0) (mkC db (bg_build ctx) wr) ws n -> bg_fault db (bg_build ctx) db1 ->
  creach (mkC db1 bg_reset wr) c ws' n' ->
  writes_bytes (ws ++ ws') < 2 ^ 60 -> Z.of_nat (S n + n') < 2 ^ 60 ->
  shows (c_db c) (map_of_writes (ws ++ ws')) /\
  db_imm (c_db c) = db_imm db /\ Sync_done (c_db c) = false /\
  (forall mt, db_mem (c_db c) = Some mt -> MemTable_Count mt = kMemTableThreshold ->
    forall c' ws'' n'', creach c c' ws'' n'' -> ws'' = []).
Proof.
  intros Hopen Hr Hf Hr' Hb Hn.
  pose proof (cr_step _ _ _ _ _ _ Hr (cs_fault db (bg_build ctx) wr db1 Hf)) as Hr1. cbn [opt_list] in Hr1. rewrite app_nil_r in Hr1.
  pose proof (zlen_nonneg (encode_rows ws')) as Hpos. fold (writes_bytes ws') in Hpos. rewrite writes_bytes_app in Hb.
  destruct (creach_reached _ _ _ _ _ _ _ _ Hopen Hr ltac:(lia) ltac:(lia)) as [(M & I & R0 & R1 & Hinv & _ & _ & _ & _ & Hbg & _) _].
  cbn [c_db c_bg] in *.
  destruct (creach_reached _ _ _ _ _ _ _ _ Hopen (creach_trans _ _ _ _ _ _ _ Hr1 Hr') ltac:(rewrite writes_bytes_app; lia) Hn)
    as [Hc Hz]. clear Hopen.
  destruct (bg_fault_effect _ _ _ _ _ _ _ Hinv Hbg Hf) as (id & cnt & _ & _ & ->).
  assert (Hfg : forgotten (mkC (mkDB (with_fs (db_store db) (fs_remove (st_fs (db_store db)) (sst_name id))) (db_mem db) (db_imm db)
    (active_wal_id db) (imm_wal_id db) cnt (bg_stopped db) (bg_compaction_scheduled db)) bg_reset wr)).
  { split; [|by left]. cbn [c_db db_imm]. rewrite (inv_imm _ _ _ _ _ Hinv). apply Hbg. }
  destruct (forgotten_forever _ _ _ _ Hfg Hr') as [Hfg' Ei]. cbn [c_db db_imm] in Ei.
  split; [by eapply conc_inv_shows|]. split; [done|]. split; [destruct Hfg' as [Hne _]; unfold Sync_done; by destruct (db_imm (c_db c))|].
  intros mt Em Hfull c' ws'' n''. apply stuck_forever. split; [done|]. split; [exists mt; split; [done|lia]|].
  intros k v f Hw. destruct Hc as (M' & I' & R0' & R1' & Hinv' & _). pose proof (di_mem _ _ _ _ _ Hinv') as Hx. rewrite Em in Hx.
  inversion Hx as [? rows Hmt|]; subst. destruct (sz_mem _ Hz mt rows Em Hmt) as [Hle Hlt].
  rewrite (count_rows mt rows Hmt Hle) in Hfull. specialize (Hlt _ _ _ Hw). lia.
Qed.

Lemma failed_flush_never_retried_witness :
  exists db0, open_plain no_directory = Ret (Some db0) /\
  exists db ctx ws n db1, creach (start db0) (mkC db (bg_build ctx) wr_idle) ws n /\ bg_fault db (bg_build ctx) db1 /\
    shows db1 (map_of_writes (ws ++ [])) /\ db_imm db1 = db_imm db /\ Sync_done db1 = false /\
    (forall mt, db_mem db1 = Some mt -> MemTable_Count mt = kMemTableThreshold ->
      forall c' ws'' n'', creach (mkC db1 bg_reset wr_idle) c' ws'' n'' -> ws'' = []).
Proof.
  destruct (open_fresh_inv (fun _ => x00) zeros zeros (fun _ _ _ => false)) as (db0 & E & Hinv & Hn & Hio & Hs & Hsch).
  exists db0. split; [exact E|].
  destruct (failed_flush_reachable db0 (start_resting db0 Hinv Hn Hio Hs Hsch)) as (db & ctx & db1 & L & Hf).
  destruct (L (start db0) [] 0%nat (cr_start _)) as (ws & Hr & Hb). change (writes_bytes []) with 0 in Hb.
  exists db, ctx, ws, (Z.to_nat 30005), db1. split; [exact Hr|]. split; [exact Hf|].
  apply (failed_flush_never_retried (fun _ => x00) zeros zeros (fun _ _ _ => false) db0 db db1 ctx wr_idle
    (mkC db1 bg_reset wr_idle) ws [] (Z.to_nat 30005) 0).
  - exact E.
  - exact Hr.
  - exact Hf.
  - apply cr_start.
  - rewrite app_nil_r. lia.
  - lia.
Defined.
