(* ===== verification/NetBuffer.v ===== *)
(** The byte buffer of a connection ([include/network/NetworkBuffer.h],
    [src/network/NetworkBuffer.cpp]): a vector with a read and a write index,
    and its refinement of a queue of octets.

    A vector has at most 2^63 - 1 elements, so sums of two sizes do not wrap in
    [size_t] and sizes are plain integers here.  Memory is read and written
    through the bounds of the vector: an access outside is [Fault].  Running out
    of memory ([std::bad_alloc]) is not modelled. *)
From S2P Require Import Prelude.

Record NetworkBuffer := mkNB {
  nb_buffer : bytes;
  read_index : Z;
  write_index : Z;
}.

(** [NetworkBuffer::NetworkBuffer] *)
Definition NetworkBuffer_new (initial_size : nat) : NetworkBuffer :=
  mkNB (replicate initial_size x00) 0 0.

Definition ReadableBytes (nb : NetworkBuffer) : Z := write_index nb - read_index nb.
Definition WritableBytes (nb : NetworkBuffer) : Z := zlen (nb_buffer nb) - write_index nb.

(** [std::copy] into the vector at an offset. *)
Definition mem_write (data : bytes) (off : Z) (bs : bytes) : outcome bytes :=
  if (0 <=? off) && (off + zlen bs <=? zlen data)
  then Ret (take (Z.to_nat off) data ++ bs ++ drop (Z.to_nat (off + zlen bs)) data)
  else Fault.

(** [NetworkBuffer::MakeSpace]: grow, or move the readable part to the front. *)
Definition MakeSpace (nb : NetworkBuffer) (len : Z) : outcome NetworkBuffer :=
  if WritableBytes nb + read_index nb <? len then
    Ret (mkNB (resize (Z.to_nat (write_index nb + len)) x00 (nb_buffer nb))
           (read_index nb) (write_index nb))
  else
    let readable := ReadableBytes nb in
    let* moved := mem_read (nb_buffer nb) (read_index nb) readable in
    let* buffer := mem_write (nb_buffer nb) 0 moved in
    Ret (mkNB buffer 0 readable).

(** [NetworkBuffer::EnsureWritableBytes] *)
Definition EnsureWritableBytes (nb : NetworkBuffer) (len : Z) : outcome NetworkBuffer :=
  if WritableBytes nb <? len then MakeSpace nb len else Ret nb.

(** [NetworkBuffer::Append] *)
Definition Append (nb : NetworkBuffer) (data : bytes) : outcome NetworkBuffer :=
  let* nb := EnsureWritableBytes nb (zlen data) in
  let* buffer := mem_write (nb_buffer nb) (write_index nb) data in
  Ret (mkNB buffer (read_index nb) (write_index nb + zlen data)).

(** [NetworkBuffer::RetrieveAll] *)
Definition RetrieveAll (nb : NetworkBuffer) : NetworkBuffer := mkNB (nb_buffer nb) 0 0.

(** [NetworkBuffer::Retrieve] *)
Definition Retrieve (nb : NetworkBuffer) (len : Z) : NetworkBuffer :=
  if len <? ReadableBytes nb then mkNB (nb_buffer nb) (read_index nb + len) (write_index nb)
  else RetrieveAll nb.

(** The octets from [Peek()] on that may be looked at. *)
Definition Peek (nb : NetworkBuffer) : outcome bytes :=
  mem_read (nb_buffer nb) (read_index nb) (ReadableBytes nb).

(** [std::search] for carriage return and line feed. *)
Fixpoint search_crlf (i : Z) (s : bytes) : option Z :=
  match s with
  | a :: (b :: _) as s' =>
      if decide (a = x0d /\ b = x0a) then Some i else search_crlf (i + 1) s'
  | _ => None
  end.

(** [NetworkBuffer::FindCRLF]; the position relative to [Peek()]. *)
Definition FindCRLF (nb : NetworkBuffer) : outcome (option Z) :=
  let* s := Peek nb in Ret (search_crlf 0 s).

(** What [::readv] answers: an error number, or the octets received (none at the
    end of the stream). *)
Inductive readv_result : Type :=
| readv_error (errno : Z)
| readv_data (data : bytes).

Definition kExtraBuffer : Z := 65536.

(** [NetworkBuffer::ReadFromFd]: the result and [*savedErrno], which only an
    error sets.  Data behind the two buffers are a fault of the caller of
    this function, the kernel. *)
Definition ReadFromFd (nb : NetworkBuffer) (r : readv_result) (savedErrno : Z)
    : outcome (NetworkBuffer * Z * Z) :=
  let writable := WritableBytes nb in
  match r with
  | readv_error errno => Ret (nb, -1, errno)
  | readv_data data =>
      let n := zlen data in
      if writable + kExtraBuffer <? n then Fault
      else if n <=? writable then
        let* buffer := mem_write (nb_buffer nb) (write_index nb) data in
        Ret (mkNB buffer (read_index nb) (write_index nb + n), n, savedErrno)
      else
        let* buffer := mem_write (nb_buffer nb) (write_index nb) (take (Z.to_nat writable) data) in
        let* nb := Append (mkNB buffer (read_index nb) (zlen buffer)) (drop (Z.to_nat writable) data) in
        Ret (nb, n, savedErrno)
  end.

(** [NetworkBuffer::RetrieveAllAsString] *)
Definition RetrieveAllAsString (nb : NetworkBuffer) : outcome (bytes * NetworkBuffer) :=
  let* result := Peek nb in Ret (result, RetrieveAll nb).

(** ** The queue that a buffer is *)

(** The buffer holds the octets [s]. *)
Definition nb_holds (nb : NetworkBuffer) (s : bytes) : Prop :=
  exists before after, nb_buffer nb = before ++ s ++ after /\
    read_index nb = zlen before /\ write_index nb = zlen before + zlen s.

(** The indices are inside the vector. *)
Definition buffer_ok (nb : NetworkBuffer) : Prop :=
  0 <= read_index nb <= write_index nb /\ write_index nb <= zlen (nb_buffer nb).

(** Requests to a buffer and to a queue of octets. *)
Inductive nb_op : Type :=
| op_append (data : bytes)
| op_retrieve (len : Z)
| op_retrieve_all
| op_as_string
| op_find_crlf
| op_readable
| op_read_from_fd (r : readv_result).

Inductive nb_obs : Type :=
| obs_done
| obs_octets (s : bytes)
| obs_position (p : option Z)
| obs_size (n : Z)
| obs_read (n savedErrno : Z).

Definition run_nb_op (nb : NetworkBuffer) (op : nb_op) : outcome (NetworkBuffer * nb_obs) :=
  match op with
  | op_append data => let* nb := Append nb data in Ret (nb, obs_done)
  | op_retrieve len => Ret (Retrieve nb len, obs_done)
  | op_retrieve_all => Ret (RetrieveAll nb, obs_done)
  | op_as_string => let* (s, nb) := RetrieveAllAsString nb in Ret (nb, obs_octets s)
  | op_find_crlf => let* p := FindCRLF nb in Ret (nb, obs_position p)
  | op_readable => Ret (nb, obs_size (ReadableBytes nb))
  | op_read_from_fd r => let* (nb, n, e) := ReadFromFd nb r 0 in Ret (nb, obs_read n e)
  end.

Fixpoint run_nb_ops (nb : NetworkBuffer) (ops : list nb_op) : outcome (NetworkBuffer * list nb_obs) :=
  match ops with
  | [] => Ret (nb, [])
  | op :: ops =>
      let* (nb, o) := run_nb_op nb op in
      let* (nb, os) := run_nb_ops nb ops in Ret (nb, o :: os)
  end.

Definition queue_op (s : bytes) (op : nb_op) : bytes * nb_obs :=
  match op with
  | op_append data => (s ++ data, obs_done)
  | op_retrieve len => (drop (Z.to_nat len) s, obs_done)
  | op_retrieve_all => ([], obs_done)
  | op_as_string => ([], obs_octets s)
  | op_find_crlf => (s, obs_position (search_crlf 0 s))
  | op_readable => (s, obs_size (zlen s))
  | op_read_from_fd (readv_error e) => (s, obs_read (-1) e)
  | op_read_from_fd (readv_data data) => (s ++ data, obs_read (zlen data) 0)
  end.

Fixpoint queue_ops (s : bytes) (ops : list nb_op) : bytes * list nb_obs :=
  match ops with
  | [] => (s, [])
  | op :: ops =>
      let '(s, o) := queue_op s op in
      let '(s, os) := queue_ops s ops in (s, o :: os)
  end.

(** [size_t] arguments are not negative; [readv] fills at most the second buffer
    completely. *)
Definition nb_op_ok (op : nb_op) : Prop :=
  match op with
  | op_retrieve len => 0 <= len
  | op_read_from_fd (readv_data data) => zlen data <= kExtraBuffer
  | _ => True
  end.

(** * Lemmas *)

Lemma nb_holds_new n : nb_holds (NetworkBuffer_new n) [].
Proof. by exists [], (replicate n x00). Qed.

Lemma nb_holds_size nb s : nb_holds nb s -> ReadableBytes nb = zlen s.
Proof. intros (b & a & E & Hr & Hw). unfold ReadableBytes. lia. Qed.

Lemma nb_holds_read nb s : nb_holds nb s -> 0 <= read_index nb /\ 0 <= WritableBytes nb.
Proof.
  intros (b & a & E & Hr & Hw). unfold WritableBytes. rewrite E, Hr, Hw. rewrite !zlen_app.
  pose proof (zlen_nonneg a). pose proof (zlen_nonneg b). lia.
Qed.

Lemma Peek_holds nb s : nb_holds nb s -> Peek nb = Ret s.
Proof.
  intros H. unfold Peek. rewrite (nb_holds_size _ _ H). destruct H as (b & a & E & Hr & Hw).
  rewrite E, Hr. by apply mem_read_app.
Qed.

Lemma nb_holds_ok nb s : nb_holds nb s -> buffer_ok nb.
Proof.
  intros (b & a & E & Hr & Hw). unfold buffer_ok. rewrite E, Hr, Hw, !zlen_app.
  pose proof (zlen_nonneg a). pose proof (zlen_nonneg b). pose proof (zlen_nonneg s). lia.
Qed.

Lemma nb_holds_unique nb s s' : nb_holds nb s -> nb_holds nb s' -> s = s'.
Proof. intros H%Peek_holds H'%Peek_holds. rewrite H in H'. by injection H'. Qed.

(** A buffer that holds [s]. *)
Definition nb_of (s : bytes) : NetworkBuffer := mkNB s 0 (zlen s).

Lemma nb_of_holds s : nb_holds (nb_of s) s.
Proof. exists [], []. by rewrite app_nil_r. Qed.

Lemma mem_write_app before old after bs :
  zlen bs = zlen old -> mem_write (before ++ old ++ after) (zlen before) bs = Ret (before ++ bs ++ after).
Proof.
  intros Hl. unfold mem_write. pose proof (zlen_nonneg before). pose proof (zlen_nonneg after).
  rewrite (proj2 (andb_true_iff _ _)) by (rewrite Z.leb_le, Z.leb_le, !zlen_app; lia). f_equal.
  unfold zlen in *. rewrite Nat2Z.id, take_app_length. f_equal. f_equal.
  replace (Z.to_nat _) with (length before + length old)%nat by lia.
  by rewrite drop_app_add, drop_app_length.
Qed.

Lemma RetrieveAll_holds nb : nb_holds (RetrieveAll nb) [].
Proof. by exists [], (nb_buffer nb). Qed.

Lemma Retrieve_holds nb s len :
  nb_holds nb s -> 0 <= len -> nb_holds (Retrieve nb len) (drop (Z.to_nat len) s).
Proof.
  intros H Hl. unfold Retrieve. rewrite (nb_holds_size _ _ H). destruct (Z.ltb_spec len (zlen s)).
  - destruct H as (b & a & E & Hr & Hw). exists (b ++ take (Z.to_nat len) s), a. cbn.
    rewrite <- app_assoc, (app_assoc (take _ _)), take_drop. split; [done|].
    rewrite zlen_app. unfold zlen in *. rewrite length_take, length_drop. lia.
  - rewrite drop_ge by (unfold zlen in *; lia). apply RetrieveAll_holds.
Qed.

(** After making space there is room for the data. *)
Lemma EnsureWritableBytes_holds nb s len :
  nb_holds nb s -> 0 <= len ->
  exists nb', EnsureWritableBytes nb len = Ret nb' /\ nb_holds nb' s /\ len <= WritableBytes nb'.
Proof.
  intros H Hl. unfold EnsureWritableBytes. destruct (Z.ltb_spec (WritableBytes nb) len) as [Hlt|]; [|by exists nb].
  unfold MakeSpace. destruct (Z.ltb_spec (WritableBytes nb + read_index nb) len) as [Hbig|Hfit].
  - eexists. split; [reflexivity|]. destruct H as (b & a & E & Hr & Hw).
    unfold WritableBytes in *. cbn [nb_buffer read_index write_index].
    pose proof (zlen_nonneg b). pose proof (zlen_nonneg s). pose proof (zlen_nonneg a).
    rewrite E, !zlen_app in *.
    assert (Ha : (length (b ++ s ++ a) <= Z.to_nat (write_index nb + len))%nat)
      by (rewrite !length_app; unfold zlen in *; lia).
    rewrite (resize_spec (b ++ s ++ a)), take_ge by done. split.
    + exists b, (a ++ replicate (Z.to_nat (write_index nb + len) - length (b ++ s ++ a)) x00). cbn.
      by rewrite <- !app_assoc.
    + unfold zlen in *. rewrite length_app, length_replicate. lia.
  - pose proof (Peek_holds _ _ H) as Hp. unfold Peek in Hp. rewrite Hp. cbn [obind].
    pose proof (nb_holds_size _ _ H) as Hsz. destruct H as (b & a & E & Hr & Hw).
    pose proof (zlen_nonneg b). pose proof (zlen_nonneg s). pose proof (zlen_nonneg a).
    rewrite E. change 0 with (zlen (@nil byte)) at 1.
    set (old := take (length s) (b ++ s ++ a)). set (rest := drop (length s) (b ++ s ++ a)).
    assert (Hold : length old = length s).
    { unfold old. rewrite length_take, !length_app. lia. }
    assert (Hsplit : b ++ s ++ a = [] ++ old ++ rest) by (symmetry; apply take_drop).
    rewrite Hsplit. rewrite mem_write_app by (unfold zlen; by rewrite Hold). cbn [obind app].
    eexists. split; [reflexivity|]. split.
    + exists [], rest. cbn. by rewrite Hsz.
    + unfold WritableBytes in *. cbn [nb_buffer write_index]. rewrite E in *.
      assert (Hlen : zlen (s ++ rest) = zlen (b ++ s ++ a)).
      { rewrite Hsplit. cbn. rewrite !zlen_app. unfold zlen. by rewrite Hold. }
      rewrite Hlen, Hsz. rewrite !zlen_app in *. lia.
Qed.

Lemma write_holds nb s data :
  nb_holds nb s -> zlen data <= WritableBytes nb ->
  exists buffer, mem_write (nb_buffer nb) (write_index nb) data = Ret buffer /\
    zlen buffer = zlen (nb_buffer nb) /\
    nb_holds (mkNB buffer (read_index nb) (write_index nb + zlen data)) (s ++ data).
Proof.
  intros (b & a & E & Hr & Hw) Hroom. unfold WritableBytes in Hroom.
  rewrite E, Hw, !zlen_app in Hroom.
  assert (Ha : a = take (length data) a ++ drop (length data) a) by (by rewrite take_drop).
  assert (Hl : length (take (length data) a) = length data)
    by (rewrite length_take; unfold zlen in *; lia).
  exists ((b ++ s) ++ data ++ drop (length data) a). rewrite E, Hw, <- zlen_app, app_assoc. split.
  - rewrite Ha at 1. apply mem_write_app. unfold zlen. by rewrite Hl.
  - split.
    + apply (f_equal zlen) in Ha. rewrite zlen_app in Ha.
      unfold zlen at 2 in Ha. rewrite Hl in Ha. fold (zlen data) in Ha. rewrite !zlen_app. lia.
    + exists b, (drop (length data) a). cbn. rewrite <- !app_assoc, !zlen_app. split; [done|]. lia.
Qed.

Lemma Append_holds nb s data :
  nb_holds nb s -> exists nb', Append nb data = Ret nb' /\ nb_holds nb' (s ++ data).
Proof.
  intros H. unfold Append.
  destruct (EnsureWritableBytes_holds nb s (zlen data) H (zlen_nonneg data)) as (nb1 & -> & H1 & Hroom).
  cbn [obind]. destruct (write_holds nb1 s data H1 Hroom) as (buffer & -> & _ & H2). by eexists.
Qed.

Lemma FindCRLF_holds nb s : nb_holds nb s -> FindCRLF nb = Ret (search_crlf 0 s).
Proof. intros H. unfold FindCRLF. by rewrite (Peek_holds _ _ H). Qed.

Lemma ReadFromFd_data nb s data e :
  nb_holds nb s -> zlen data <= WritableBytes nb + kExtraBuffer ->
  exists nb', ReadFromFd nb (readv_data data) e = Ret (nb', zlen data, e) /\ nb_holds nb' (s ++ data).
Proof.
  intros H Hn. unfold ReadFromFd. pose proof (nb_holds_read _ _ H) as [_ Hw].
  destruct (Z.ltb_spec (WritableBytes nb + kExtraBuffer) (zlen data)); [lia|].
  destruct (Z.leb_spec (zlen data) (WritableBytes nb)) as [Hfit|Hover].
  - destruct (write_holds nb s data H Hfit) as (buffer & -> & _ & H2). by eexists.
  - set (d1 := take _ data). set (d2 := drop _ data).
    assert (Hd1 : zlen d1 = WritableBytes nb) by (unfold d1, zlen in *; rewrite length_take; lia).
    destruct (write_holds nb s d1 H) as (buffer & -> & Hl & H2); [lia|]. cbn [obind].
    replace (write_index nb + zlen d1) with (zlen buffer) in H2
      by (rewrite Hd1, Hl; unfold WritableBytes; lia).
    destruct (Append_holds _ _ d2 H2) as (nb2 & -> & H3). cbn [obind].
    eexists. split; [reflexivity|]. rewrite <- app_assoc in H3. unfold d1, d2 in H3. by rewrite take_drop in H3.
Qed.

Lemma run_nb_op_holds nb s op :
  nb_holds nb s -> nb_op_ok op ->
  exists nb', run_nb_op nb op = Ret (nb', (queue_op s op).2) /\ nb_holds nb' (queue_op s op).1.
Proof.
  intros H Hok. destruct op as [data|len| | | | |[e|data]]; cbn [run_nb_op queue_op fst snd nb_op_ok] in *.
  - destruct (Append_holds nb s data H) as (nb' & -> & H'). by exists nb'.
  - eexists. split; [reflexivity|]. by apply Retrieve_holds.
  - eexists. split; [reflexivity|]. apply RetrieveAll_holds.
  - unfold RetrieveAllAsString. rewrite (Peek_holds _ _ H). eexists. split; [reflexivity|].
    apply RetrieveAll_holds.
  - rewrite (FindCRLF_holds _ _ H). by exists nb.
  - rewrite (nb_holds_size _ _ H). by exists nb.
  - by exists nb.
  - pose proof (nb_holds_read _ _ H) as [_ Hw].
    destruct (ReadFromFd_data nb s data 0 H ltac:(lia)) as (nb' & -> & H'). by exists nb'.
Qed.

(** * Properties *)


