(* ===== verification/Resp.v ===== *)
(** The RESP protocol ([include/network/RESPParser.h],
    [src/network/RESPParser.cpp], [src/network/RESPEncoder.cpp]): the parser, a
    state machine that is fed from a network buffer, and the encoder.

    [int64_t] arithmetic that overflows is undefined behaviour: [Fault]. *)
From S2P Require Import Prelude Files NetBuffer.

Inductive ParseStatus : Type :=
| SUCCESS
| INCOMPLETE
| ERROR.

Inductive State : Type :=
| EXPECT_ARRAY_SIZE
| EXPECT_BULK_SIZE
| EXPECT_BULK_DATA.

Record RESPParser := mkParser {
  rp_state : State;
  array_size : Z;
  bulk_len : Z;
  current_command : list bytes;
}.

(** [RESPParser::RESPParser], and the effect of [RESPParser::Reset]. *)
Definition RESPParser_new : RESPParser := mkParser EXPECT_ARRAY_SIZE 0 0 [].
Definition Reset (p : RESPParser) : RESPParser := mkParser EXPECT_ARRAY_SIZE 0 0 [].

(** ** Numbers *)

Definition in_i64 (z : Z) : bool := (- 2 ^ 63 <=? z) && (z <? 2 ^ 63).
Definition i64_add (a b : Z) : outcome Z := if in_i64 (a + b) then Ret (a + b) else Fault.

Fixpoint split_digits (s : bytes) : bytes * bytes :=
  match s with
  | c :: t => if is_digit c then let '(ds, rest) := split_digits t in (c :: ds, rest) else ([], s)
  | [] => ([], [])
  end.

(** [std::from_chars] into an [int64_t]: the variable after the call, the octets
    not consumed, and whether the error code is [std::errc()]. *)
Definition from_chars (s : bytes) (value : Z) : Z * bytes * bool :=
  let '(neg, t) :=
    match s with
    | c :: t => if decide (c = x2d) then (true, t) else (false, s)
    | [] => (false, [])
    end in
  let '(ds, rest) := split_digits t in
  match ds with
  | [] => (value, s, false)
  | _ =>
      let z := if neg : bool then - parse_digits ds else parse_digits ds in
      if in_i64 z then (z, rest, true) else (value, rest, false)
  end.

(** [std::to_string] of an [int64_t]. *)
Definition to_string_i64 (z : Z) : bytes :=
  if z <? 0 then x2d :: to_string (- z) else to_string z.

(** ** The parser *)

(** What the first line of the buffer is: missing, empty, malformed (with the
    value that the number variable is left with), or a number with the position
    of the line's end. *)
Inductive header : Type :=
| hdr_incomplete
| hdr_empty
| hdr_bad (value : Z)
| hdr_number (value crlf : Z).

(** The line in front of the end [crlf], whose first octet has to be [marker]. *)
Definition header_of_line (marker : byte) (value crlf : Z) (line : bytes) : header :=
  match line with
  | [] => hdr_empty
  | c :: text =>
      if decide (c = marker) then
        let '(value, rest, ok) := from_chars text value in
        if ok : bool then
          match rest with [] => hdr_number value crlf | _ => hdr_bad value end
        else hdr_bad value
      else hdr_bad value
  end.

(** Steps 1 to 3 of the states [EXPECT_ARRAY_SIZE] and [EXPECT_BULK_SIZE]. *)
Definition parse_header (marker : byte) (value : Z) (nb : NetworkBuffer) : outcome header :=
  let* crlf := FindCRLF nb in
  match crlf with
  | None => Ret hdr_incomplete
  | Some crlf =>
      let* line := mem_read (nb_buffer nb) (read_index nb) crlf in
      Ret (header_of_line marker value crlf line)
  end.

(** How a turn of the parser's loop ends. *)
Inductive step_result : Type :=
| Continue (p : RESPParser) (nb : NetworkBuffer)
| Return (p : RESPParser) (nb : NetworkBuffer) (out : list bytes) (status : ParseStatus).

Definition set_state (p : RESPParser) (s : State) : RESPParser :=
  mkParser s (array_size p) (bulk_len p) (current_command p).
Definition set_array_size (p : RESPParser) (z : Z) : RESPParser :=
  mkParser (rp_state p) z (bulk_len p) (current_command p).
Definition set_bulk_len (p : RESPParser) (z : Z) : RESPParser :=
  mkParser (rp_state p) (array_size p) z (current_command p).
Definition push_argument (p : RESPParser) (s : bytes) : RESPParser :=
  mkParser (rp_state p) (array_size p) (bulk_len p) (current_command p ++ [s]).

Definition expect_array_size (p : RESPParser) (nb : NetworkBuffer) (out : list bytes)
    : outcome step_result :=
  let* h := parse_header x2a (array_size p) nb in
  Ret match h with
      | hdr_incomplete => Return p nb out INCOMPLETE
      | hdr_empty => Continue p (Retrieve nb 2)
      | hdr_bad value => Return (set_array_size p value) nb out ERROR
      | hdr_number value crlf =>
          let p := set_array_size p value in
          if value <? 0 then Return p nb out ERROR
          else if value =? 0 then Return (Reset p) (Retrieve nb (crlf + 2)) [] SUCCESS
          else Continue (set_state p EXPECT_BULK_SIZE) (Retrieve nb (crlf + 2))
      end.

(** The test for the last argument, which hands the command out. *)
Definition finish_argument (p : RESPParser) (nb : NetworkBuffer) (out : list bytes) : step_result :=
  if zlen (current_command p) =? u64 (array_size p)
  then Return (Reset p) nb (current_command p) SUCCESS
  else Continue (set_state p EXPECT_BULK_SIZE) nb.

Definition expect_bulk_size (p : RESPParser) (nb : NetworkBuffer) (out : list bytes)
    : outcome step_result :=
  let* h := parse_header x24 (bulk_len p) nb in
  Ret match h with
      | hdr_incomplete => Return p nb out INCOMPLETE
      | hdr_empty => Continue p (Retrieve nb 2)
      | hdr_bad value => Return (set_bulk_len p value) nb out ERROR
      | hdr_number value crlf =>
          let p := set_bulk_len p value in
          if value <? -1 then Return p nb out ERROR
          else if value =? -1
          then finish_argument (push_argument p []) (Retrieve nb (crlf + 2)) out
          else Continue (set_state p EXPECT_BULK_DATA) (Retrieve nb (crlf + 2))
      end.

Definition expect_bulk_data (p : RESPParser) (nb : NetworkBuffer) (out : list bytes)
    : outcome step_result :=
  let data_len := u64 (bulk_len p) in
  let* need := i64_add (bulk_len p) 2 in
  if ReadableBytes nb <? u64 need then Ret (Return p nb out INCOMPLETE)
  else
    let* cr := mem_read (nb_buffer nb) (read_index nb + data_len) 1 in
    if decide (cr <> [x0d]) then Ret (Return p nb out ERROR)
    else
      let* lf := mem_read (nb_buffer nb) (read_index nb + data_len + 1) 1 in
      if decide (lf <> [x0a]) then Ret (Return p nb out ERROR)
      else
        let* data := mem_read (nb_buffer nb) (read_index nb) data_len in
        Ret (finish_argument (push_argument p data) (Retrieve nb (u64 need)) out).

(** The [switch] of [RESPParser::Parse]. *)
Definition parse_step (p : RESPParser) (nb : NetworkBuffer) (out : list bytes) : outcome step_result :=
  match rp_state p with
  | EXPECT_ARRAY_SIZE => expect_array_size p nb out
  | EXPECT_BULK_SIZE => expect_bulk_size p nb out
  | EXPECT_BULK_DATA => expect_bulk_data p nb out
  end.

Fixpoint parse_loop (fuel : nat) (p : RESPParser) (nb : NetworkBuffer) (out : list bytes)
    : outcome (RESPParser * NetworkBuffer * list bytes * ParseStatus) :=
  match fuel with
  | O => NoFuel
  | S fuel =>
      if ReadableBytes nb =? 0 then Ret (p, nb, out, INCOMPLETE)
      else
        let* r := parse_step p nb out in
        match r with
        | Continue p nb => parse_loop fuel p nb out
        | Return p nb out status => Ret (p, nb, out, status)
        end
  end.

(** [RESPParser::Parse]: every turn consumes octets. *)
Definition Parse (p : RESPParser) (nb : NetworkBuffer) (out : list bytes)
    : outcome (RESPParser * NetworkBuffer * list bytes * ParseStatus) :=
  parse_loop (S (Z.to_nat (ReadableBytes nb))) p nb out.

(** The loop of [TcpServer::HandleRead]: all commands that are complete. *)
Fixpoint parse_commands_loop (fuel : nat) (p : RESPParser) (nb : NetworkBuffer)
    : outcome (list (list bytes) * RESPParser * NetworkBuffer * ParseStatus) :=
  match fuel with
  | O => NoFuel
  | S fuel =>
      let* (p, nb, command, status) := Parse p nb [] in
      match status with
      | SUCCESS =>
          let* (commands, p, nb, status) := parse_commands_loop fuel p nb in
          Ret (command :: commands, p, nb, status)
      | _ => Ret ([], p, nb, status)
      end
  end.

Definition parse_commands (p : RESPParser) (nb : NetworkBuffer)
    : outcome (list (list bytes) * RESPParser * NetworkBuffer * ParseStatus) :=
  parse_commands_loop (S (Z.to_nat (ReadableBytes nb))) p nb.

(** Octets that arrive in pieces; after a protocol error nothing more is read. *)
Fixpoint feed (p : RESPParser) (nb : NetworkBuffer) (chunks : list bytes)
    : outcome (list (list bytes) * RESPParser * NetworkBuffer * ParseStatus) :=
  match chunks with
  | [] => Ret ([], p, nb, INCOMPLETE)
  | c :: chunks =>
      let* nb := Append nb c in
      let* (commands, p, nb, status) := parse_commands p nb in
      match status with
      | INCOMPLETE =>
          let* (commands', p, nb, status) := feed p nb chunks in
          Ret (commands ++ commands', p, nb, status)
      | _ => Ret (commands, p, nb, status)
      end
  end.

(** ** The encoder *)

Definition kCRLF : bytes := [x0d; x0a].

(** [RESPEncoder::EncodeSimpleString] *)
Definition EncodeSimpleString (nb : NetworkBuffer) (s : bytes) : outcome NetworkBuffer :=
  let* nb := Append nb (str "+") in
  let* nb := Append nb s in
  Append nb kCRLF.

(** [RESPEncoder::EncodeError] *)
Definition EncodeError (nb : NetworkBuffer) (msg : bytes) : outcome NetworkBuffer :=
  let* nb := Append nb (str "-ERR ") in
  let* nb := Append nb msg in
  Append nb kCRLF.

(** [RESPEncoder::EncodeInteger] *)
Definition EncodeInteger (nb : NetworkBuffer) (val : Z) : outcome NetworkBuffer :=
  let s := to_string_i64 val in
  let* nb := Append nb (str ":") in
  let* nb := Append nb s in
  Append nb kCRLF.

(** [RESPEncoder::EncodeBulkString] *)
Definition EncodeBulkString (nb : NetworkBuffer) (s : bytes) : outcome NetworkBuffer :=
  let len_str := to_string (zlen s) in
  let* nb := Append nb (str "$") in
  let* nb := Append nb len_str in
  let* nb := Append nb kCRLF in
  let* nb := Append nb s in
  Append nb kCRLF.

(** [RESPEncoder::EncodeNull] *)
Definition EncodeNull (nb : NetworkBuffer) : outcome NetworkBuffer :=
  let* nb := Append nb (str "$-1") in
  Append nb kCRLF.

Fixpoint encode_elements (nb : NetworkBuffer) (elements : list bytes) : outcome NetworkBuffer :=
  match elements with
  | [] => Ret nb
  | e :: elements => let* nb := EncodeBulkString nb e in encode_elements nb elements
  end.

(** [RESPEncoder::EncodeArray] *)
Definition EncodeArray (nb : NetworkBuffer) (elements : list bytes) : outcome NetworkBuffer :=
  let len_str := to_string (zlen elements) in
  let* nb := Append nb (str "*") in
  let* nb := Append nb len_str in
  let* nb := Append nb kCRLF in
  encode_elements nb elements.

(** A pipeline of requests. *)
Fixpoint encode_requests (nb : NetworkBuffer) (commands : list (list bytes)) : outcome NetworkBuffer :=
  match commands with
  | [] => Ret nb
  | c :: commands => let* nb := EncodeArray nb c in encode_requests nb commands
  end.

(** ** Replies as octets *)

Inductive reply : Type :=
| re_simple (s : bytes)
| re_error (msg : bytes)
| re_integer (z : Z)
| re_bulk (s : bytes)
| re_null
| re_array (elements : list bytes).

Definition bulk_octets (s : bytes) : bytes := str "$" ++ to_string (zlen s) ++ kCRLF ++ s ++ kCRLF.
Definition array_octets (l : list bytes) : bytes :=
  str "*" ++ to_string (zlen l) ++ kCRLF ++ concat (map bulk_octets l).

Definition reply_octets (r : reply) : bytes :=
  match r with
  | re_simple s => str "+" ++ s ++ kCRLF
  | re_error msg => str "-ERR " ++ msg ++ kCRLF
  | re_integer z => str ":" ++ to_string_i64 z ++ kCRLF
  | re_bulk s => bulk_octets s
  | re_null => str "$-1" ++ kCRLF
  | re_array l => array_octets l
  end.

Definition encode_reply (nb : NetworkBuffer) (r : reply) : outcome NetworkBuffer :=
  match r with
  | re_simple s => EncodeSimpleString nb s
  | re_error msg => EncodeError nb msg
  | re_integer z => EncodeInteger nb z
  | re_bulk s => EncodeBulkString nb s
  | re_null => EncodeNull nb
  | re_array l => EncodeArray nb l
  end.

(** In [EXPECT_BULK_DATA] the length is not negative. *)
Definition parser_ok (p : RESPParser) : Prop :=
  (rp_state p = EXPECT_BULK_DATA -> 0 <= bulk_len p) /\ bulk_len p < 2 ^ 63.

(** Arguments whose lengths are within [int64_t], with the line end included. *)
Definition command_ok (c : list bytes) : Prop :=
  zlen c < 2 ^ 63 /\ Forall (fun s => zlen s + 2 < 2 ^ 63) c.

(** Two runs of the parser that agree on everything visible; what is left in
    the buffer matters only when more is read. *)
Definition same_run (r1 r2 : outcome (list (list bytes) * RESPParser * NetworkBuffer * ParseStatus))
    : Prop :=
  match r1, r2 with
  | Ret (c1, p1, nb1, s1), Ret (c2, p2, nb2, s2) =>
      c1 = c2 /\ p1 = p2 /\ s1 = s2 /\
      (s1 = INCOMPLETE -> exists s, nb_holds nb1 s /\ nb_holds nb2 s)
  | Fault, Fault => True
  | _, _ => False
  end.

(** * Lemmas *)

(** ** Lines *)

Lemma search_crlf_bound s i j : search_crlf i s = Some j -> i <= j /\ j - i + 2 <= zlen s.
Proof.
  revert i. induction s as [|a s IH]; intros i H; [done|]. cbn in H. destruct s as [|b s']; [done|].
  pose proof (zlen_nonneg s'). case_decide.
  - injection H as <-. rewrite !zlen_cons. lia.
  - apply IH in H. rewrite (zlen_cons a). lia.
Qed.

Lemma search_crlf_app s d i j : search_crlf i s = Some j -> search_crlf i (s ++ d) = Some j.
Proof.
  revert i. induction s as [|a s IH]; intros i H; [done|]. cbn in H |- *. destruct s as [|b s']; [done|].
  cbn [app] in *. case_decide; [done|]. by apply IH.
Qed.

Lemma search_crlf_first pre post i :
  x0d ∉ pre -> search_crlf i (pre ++ kCRLF ++ post) = Some (i + zlen pre).
Proof.
  revert i. induction pre as [|a pre IH]; intros i Hn.
  { rewrite zlen_nil, Z.add_0_r. cbn [app kCRLF search_crlf]. by rewrite decide_True. }
  apply not_elem_of_cons in Hn as [Ha Hn]. cbn [app]. specialize (IH (i + 1) Hn).
  rewrite zlen_cons, Z.add_assoc, <- IH. clear IH.
  destruct pre as [|b pre]; cbn [app search_crlf kCRLF];
    (rewrite decide_False; [done|]); by intros [-> _].
Qed.

Lemma nb_holds_mem nb s off n :
  nb_holds nb s -> 0 <= off -> 0 <= n -> off + n <= zlen s ->
  mem_read (nb_buffer nb) (read_index nb + off) n = Ret (take (Z.to_nat n) (drop (Z.to_nat off) s)).
Proof.
  intros (b & a & E & Hr & _) Ho Hn Hl. rewrite E, Hr.
  rewrite <- (take_drop (Z.to_nat off) s) at 1. rewrite <- (take_drop (Z.to_nat n) (drop (Z.to_nat off) s)) at 1.
  rewrite <- !app_assoc, (app_assoc b). apply mem_read_app.
  - rewrite zlen_app. f_equal. unfold zlen in *. rewrite length_take. lia.
  - unfold zlen in *. rewrite length_take, length_drop. lia.
Qed.

(** The first line of [s]. *)
Definition header_of (marker : byte) (value : Z) (s : bytes) : header :=
  match search_crlf 0 s with
  | None => hdr_incomplete
  | Some crlf => header_of_line marker value crlf (take (Z.to_nat crlf) s)
  end.

Lemma parse_header_holds marker value nb s :
  nb_holds nb s -> parse_header marker value nb = Ret (header_of marker value s).
Proof.
  intros H. unfold parse_header, header_of. rewrite (FindCRLF_holds _ _ H). cbn [obind].
  destruct (search_crlf 0 s) as [j|] eqn:E; [|done]. apply search_crlf_bound in E as [E1 E2].
  pose proof (nb_holds_mem nb s 0 j H) as Hm. rewrite Z.add_0_r in Hm. rewrite Hm by lia. done.
Qed.

Lemma header_of_app marker value s d :
  header_of marker value s <> hdr_incomplete -> header_of marker value (s ++ d) = header_of marker value s.
Proof.
  unfold header_of. destruct (search_crlf 0 s) as [j|] eqn:E; [|done]. intros _.
  rewrite (search_crlf_app _ d _ _ E). apply search_crlf_bound in E as [E1 E2].
  rewrite take_app_le; [done|]. unfold zlen in *. lia.
Qed.

Lemma from_chars_i64 s value z rest : from_chars s value = (z, rest, true) -> in_i64 z = true.
Proof.
  unfold from_chars. destruct (match s with [] => _ | _ => _ end) as [neg t].
  destruct (split_digits t) as [ds r]. destruct ds; [done|]. case_match eqn:E; by intros [= <- _].
Qed.

Lemma header_of_number marker value s z crlf :
  header_of marker value s = hdr_number z crlf -> 0 < crlf /\ crlf + 2 <= zlen s /\ in_i64 z = true.
Proof.
  unfold header_of. destruct (search_crlf 0 s) as [j|] eqn:E; [|done]. apply search_crlf_bound in E as [E1 E2].
  unfold header_of_line. destruct (take (Z.to_nat j) s) as [|c text] eqn:Et; [done|].
  case_decide; [|done]. destruct (from_chars text value) as [[z' rest] ok] eqn:Ef. destruct ok; [|done].
  destruct rest; [|done]. intros [= <- <-]. split; [|split; [lia|by eapply from_chars_i64]].
  destruct (decide (j = 0)) as [->|]; [done|lia].
Qed.

Lemma header_of_empty marker value s : header_of marker value s = hdr_empty -> 2 <= zlen s.
Proof.
  unfold header_of. destruct (search_crlf 0 s) as [j|] eqn:E; [|done]. intros _.
  apply search_crlf_bound in E. lia.
Qed.

(** ** One turn of the parser *)

(** Consuming octets of [s] from a buffer that holds [s] and from one that holds
    more. *)
Lemma Retrieve_both nb nb' s d n :
  nb_holds nb s -> nb_holds nb' (s ++ d) -> 0 < n -> n <= zlen s ->
  exists s1, nb_holds (Retrieve nb n) s1 /\ nb_holds (Retrieve nb' n) (s1 ++ d) /\
    (length s1 < length s)%nat.
Proof.
  intros H H' Hn Hl. exists (drop (Z.to_nat n) s).
  split; [apply Retrieve_holds; [done|lia]|]. split.
  - rewrite <- drop_app_le by (unfold zlen in *; lia). apply Retrieve_holds; [done|lia].
  - rewrite length_drop. unfold zlen in *. lia.
Qed.

(** A turn on a buffer that holds [s] and one on a buffer that holds more end in
    the same way, except that a missing line or argument may then be there. *)
Definition step_extends (p : RESPParser) (s d : bytes) (out : list bytes)
    (r r' : outcome step_result) : Prop :=
  match r with
  | Fault => r' = Fault
  | NoFuel => False
  | Ret (Continue p1 nb1) =>
      parser_ok p1 /\ exists s1 nb1', r' = Ret (Continue p1 nb1') /\
        nb_holds nb1 s1 /\ nb_holds nb1' (s1 ++ d) /\ (length s1 < length s)%nat
  | Ret (Return p1 nb1 o INCOMPLETE) => p1 = p /\ o = out /\ nb_holds nb1 s
  | Ret (Return p1 nb1 o st) =>
      exists s1 nb1', r' = Ret (Return p1 nb1' o st) /\ nb_holds nb1 s1 /\ nb_holds nb1' (s1 ++ d) /\
        (st = SUCCESS -> parser_ok p1 /\ (length s1 < length s)%nat)
  end.

Lemma parser_ok_Reset p : parser_ok (Reset p).
Proof. by split. Qed.

Lemma in_i64_spec z : in_i64 z = true <-> - 2 ^ 63 <= z < 2 ^ 63.
Proof. unfold in_i64. rewrite andb_true_iff, Z.leb_le, Z.ltb_lt. done. Qed.

Lemma step_extends_continue p p1 s d out nb nb' n :
  nb_holds nb s -> nb_holds nb' (s ++ d) -> 0 < n -> n <= zlen s -> parser_ok p1 ->
  step_extends p s d out (Ret (Continue p1 (Retrieve nb n))) (Ret (Continue p1 (Retrieve nb' n))).
Proof.
  intros H H' Hn Hl Hp. destruct (Retrieve_both nb nb' s d n H H' Hn Hl) as (s1 & H1 & H2 & H3).
  split; [done|]. by exists s1, (Retrieve nb' n).
Qed.

Lemma step_extends_finish p p1 s d out nb nb' n :
  nb_holds nb s -> nb_holds nb' (s ++ d) -> 0 < n -> n <= zlen s -> parser_ok p1 ->
  step_extends p s d out (Ret (finish_argument p1 (Retrieve nb n) out))
    (Ret (finish_argument p1 (Retrieve nb' n) out)).
Proof.
  intros H H' Hn Hl Hp. unfold finish_argument. destruct (_ =? _).
  - destruct (Retrieve_both nb nb' s d n H H' Hn Hl) as (s1 & H1 & H2 & H3).
    exists s1, (Retrieve nb' n). do 3 (split; [done|]). intros _. by split; [apply parser_ok_Reset|].
  - apply step_extends_continue; try done. by destruct Hp.
Qed.

Lemma step_extends_error p p1 s d out nb nb' :
  nb_holds nb s -> nb_holds nb' (s ++ d) ->
  step_extends p s d out (Ret (Return p1 nb out ERROR)) (Ret (Return p1 nb' out ERROR)).
Proof. intros H H'. by exists s, nb'. Qed.

Lemma expect_array_size_extends p nb nb' s d out :
  nb_holds nb s -> nb_holds nb' (s ++ d) -> parser_ok p -> rp_state p = EXPECT_ARRAY_SIZE ->
  step_extends p s d out (expect_array_size p nb out) (expect_array_size p nb' out).
Proof.
  intros H H' Hp Hst. unfold expect_array_size. rewrite (parse_header_holds _ _ _ _ H), (parse_header_holds _ _ _ _ H').
  cbn [obind]. destruct (header_of x2a (array_size p) s) as [| |v|v crlf] eqn:E.
  - done.
  - rewrite header_of_app, E by (by rewrite E). apply header_of_empty in E.
    apply step_extends_continue; (done || lia).
  - rewrite header_of_app, E by (by rewrite E). by apply step_extends_error.
  - rewrite header_of_app, E by (by rewrite E). apply header_of_number in E as (E1 & E2 & _).
    destruct (v <? 0); [by apply step_extends_error|]. destruct (v =? 0).
    + destruct (Retrieve_both nb nb' s d (crlf + 2) H H') as (s1 & H1 & H2 & H3); [lia..|].
      exists s1, (Retrieve nb' (crlf + 2)). do 3 (split; [done|]). intros _. split; [apply parser_ok_Reset|done].
    + apply step_extends_continue; try (done || lia). by split; [|apply Hp].
Qed.

Lemma expect_bulk_size_extends p nb nb' s d out :
  nb_holds nb s -> nb_holds nb' (s ++ d) -> parser_ok p -> rp_state p = EXPECT_BULK_SIZE ->
  step_extends p s d out (expect_bulk_size p nb out) (expect_bulk_size p nb' out).
Proof.
  intros H H' Hp Hst. unfold expect_bulk_size. rewrite (parse_header_holds _ _ _ _ H), (parse_header_holds _ _ _ _ H').
  cbn [obind]. destruct (header_of x24 (bulk_len p) s) as [| |v|v crlf] eqn:E.
  - done.
  - rewrite header_of_app, E by (by rewrite E). apply header_of_empty in E.
    apply step_extends_continue; (done || lia).
  - rewrite header_of_app, E by (by rewrite E). by apply step_extends_error.
  - rewrite header_of_app, E by (by rewrite E). apply header_of_number in E as (E1 & E2 & E3).
    apply in_i64_spec in E3. destruct (Z.ltb_spec v (-1)); [by apply step_extends_error|].
    destruct (Z.eqb_spec v (-1)) as [->|].
    + apply step_extends_finish; try (done || lia). split; cbn; [by rewrite Hst|lia].
    + apply step_extends_continue; try (done || lia). split; cbn; [|lia]. intros _. lia.
Qed.

Lemma expect_bulk_data_extends p nb nb' s d out :
  nb_holds nb s -> nb_holds nb' (s ++ d) -> parser_ok p -> rp_state p = EXPECT_BULK_DATA ->
  step_extends p s d out (expect_bulk_data p nb out) (expect_bulk_data p nb' out).
Proof.
  intros H H' [Hp1 Hp2] Hst. specialize (Hp1 Hst). unfold expect_bulk_data.
  rewrite (u64_small (bulk_len p)) by lia. unfold i64_add. destruct (in_i64 (bulk_len p + 2)) eqn:Ei; [|done].
  apply in_i64_spec in Ei. cbn [obind]. rewrite u64_small by lia.
  rewrite (nb_holds_size _ _ H), (nb_holds_size _ _ H'). pose proof (zlen_nonneg d).
  destruct (Z.ltb_spec (zlen s) (bulk_len p + 2)) as [|Hl]; [done|].
  destruct (Z.ltb_spec (zlen (s ++ d)) (bulk_len p + 2)) as [Hl'|Hl']; [rewrite zlen_app in Hl'; lia|].
  assert (Hmem : forall off n, 0 <= off -> 0 <= n -> off + n <= bulk_len p + 2 ->
    mem_read (nb_buffer nb') (read_index nb' + off) n = mem_read (nb_buffer nb) (read_index nb + off) n).
  { intros off n Ho Hn Hon. rewrite (nb_holds_mem nb s), (nb_holds_mem nb' (s ++ d)) by (done || lia).
    rewrite drop_app_le by (unfold zlen in *; lia). rewrite take_app_le; [done|].
    rewrite length_drop. unfold zlen in *. lia. }
  rewrite <- !Z.add_assoc, <- !Hmem by lia.
  pose proof (Hmem 0 (bulk_len p)) as Hm0. rewrite !Z.add_0_r in Hm0. rewrite <- Hm0 by lia.
  assert (Hret : forall off n, 0 <= off -> 0 <= n -> off + n <= bulk_len p + 2 ->
    exists x, mem_read (nb_buffer nb') (read_index nb' + off) n = Ret x).
  { intros off n Ho Hn Hon. rewrite (nb_holds_mem nb' (s ++ d)) by (done || lia). eauto. }
  destruct (Hret (bulk_len p) 1) as (cr & ->); [lia..|]. cbn [obind].
  case_decide; [by apply step_extends_error|].
  destruct (Hret (bulk_len p + 1) 1) as (lf & ->); [lia..|]. cbn [obind].
  case_decide; [by apply step_extends_error|].
  destruct (Hret 0 (bulk_len p)) as (data & Hd); [lia..|]. rewrite Z.add_0_r in Hd. rewrite Hd. cbn [obind].
  apply step_extends_finish; try (done || lia).
Qed.

Lemma parse_step_extends p nb nb' s d out :
  nb_holds nb s -> nb_holds nb' (s ++ d) -> parser_ok p ->
  step_extends p s d out (parse_step p nb out) (parse_step p nb' out).
Proof.
  intros H H' Hp. unfold parse_step. destruct (rp_state p) eqn:E.
  - by apply expect_array_size_extends.
  - by apply expect_bulk_size_extends.
  - by apply expect_bulk_data_extends.
Qed.

(** ** [Parse] *)

(** A turn that goes on leaves less. *)
Lemma parse_step_continue p nb s out p1 nb1 :
  nb_holds nb s -> parser_ok p -> parse_step p nb out = Ret (Continue p1 nb1) ->
  parser_ok p1 /\ exists s1, nb_holds nb1 s1 /\ (length s1 < length s)%nat.
Proof.
  intros H Hp E. pose proof (parse_step_extends p nb nb s [] out H) as Hx.
  rewrite app_nil_r, E in Hx. destruct (Hx H Hp) as (Hp1 & s1 & _ & _ & H1 & _ & Hl). eauto.
Qed.

Lemma parse_loop_fuel f1 f2 p nb s out :
  nb_holds nb s -> parser_ok p -> (length s < f1)%nat -> (length s < f2)%nat ->
  parse_loop f1 p nb out = parse_loop f2 p nb out.
Proof.
  revert f2 p nb s. induction f1 as [|f1 IH]; intros f2 p nb s H Hp H1 H2; [lia|].
  destruct f2 as [|f2]; [lia|]. cbn [parse_loop]. destruct (_ =? 0); [done|].
  destruct (parse_step p nb out) as [[p1 nb1|p1 nb1 o st]| |] eqn:E; try done. cbn [obind].
  destruct (parse_step_continue _ _ _ _ _ _ H Hp E) as (Hp1 & s1 & Hs1 & Hl). apply (IH _ _ _ s1); (done || lia).
Qed.

Lemma Parse_fuel nb s : nb_holds nb s -> S (Z.to_nat (ReadableBytes nb)) = S (length s).
Proof. intros H. rewrite (nb_holds_size _ _ H). unfold zlen. lia. Qed.

Lemma Parse_unfold p nb s out :
  nb_holds nb s -> parser_ok p ->
  Parse p nb out =
  match s with
  | [] => Ret (p, nb, out, INCOMPLETE)
  | _ =>
      let* r := parse_step p nb out in
      match r with
      | Continue p nb => Parse p nb out
      | Return p nb out status => Ret (p, nb, out, status)
      end
  end.
Proof.
  intros H Hp. unfold Parse at 1. cbn [parse_loop]. rewrite (nb_holds_size _ _ H).
  destruct s as [|c s]; [done|]. rewrite (proj2 (Z.eqb_neq _ _)) by (rewrite zlen_cons; pose proof (zlen_nonneg s); lia).
  destruct (parse_step p nb out) as [[p1 nb1|p1 nb1 o st]| |] eqn:E; try done. cbn [obind].
  destruct (parse_step_continue _ _ _ _ _ _ H Hp E) as (Hp1 & s1 & Hs1 & Hl). unfold Parse.
  rewrite (Parse_fuel _ _ Hs1). apply (parse_loop_fuel _ _ _ _ s1); unfold zlen; (done || lia).
Qed.

(** Nothing is left to do on the octets [s]. *)
Definition idle (p : RESPParser) (s : bytes) (out : list bytes) : Prop :=
  forall nb, nb_holds nb s -> exists nb', nb_holds nb' s /\ Parse p nb out = Ret (p, nb', out, INCOMPLETE).

Lemma idle_nil p out : parser_ok p -> idle p [] out.
Proof. intros Hp nb H. exists nb. split; [done|]. by rewrite (Parse_unfold p nb [] out H Hp). Qed.

Lemma idle_step p nb s out p1 nb1 o :
  nb_holds nb s -> parser_ok p -> s <> [] ->
  parse_step p nb out = Ret (Return p1 nb1 o INCOMPLETE) -> idle p s out.
Proof.
  intros H Hp Hs E nb' H'. rewrite (Parse_unfold p nb' s out H' Hp). destruct s as [|c t]; [done|].
  set (s := c :: t) in *. pose proof (parse_step_extends p nb' nb s [] out H') as Hx.
  rewrite app_nil_r, E in Hx. specialize (Hx H Hp).
  destruct (parse_step p nb' out) as [[p2 nb2|p2 nb2 o2 st]| |]; cbn [step_extends obind] in *; [| |done..].
  - by destruct Hx as (_ & ? & ? & ? & _).
  - destruct st.
    + by destruct Hx as (? & ? & ? & _).
    + destruct Hx as (-> & -> & H2). by exists nb2.
    + by destruct Hx as (? & ? & ? & _).
Qed.

(** What [Parse] does on a buffer that holds [s] says what it does on one that
    holds more: a complete command and an error come out the same, and where the
    first run waits, the second goes on from the same state. *)
Definition parse_extends (p : RESPParser) (nb : NetworkBuffer) (s d : bytes) (out : list bytes) : Prop :=
  match Parse p nb out with
  | Fault => forall nb', nb_holds nb' (s ++ d) -> Parse p nb' out = Fault
  | NoFuel => False
  | Ret (p1, nb1, o, INCOMPLETE) =>
      o = out /\ parser_ok p1 /\ exists s1, nb_holds nb1 s1 /\ idle p1 s1 out /\
        forall nb', nb_holds nb' (s ++ d) -> exists nb1', nb_holds nb1' (s1 ++ d) /\
          Parse p nb' out = Parse p1 nb1' out
  | Ret (p1, nb1, o, st) =>
      exists s1, nb_holds nb1 s1 /\ (st = SUCCESS -> parser_ok p1 /\ (length s1 < length s)%nat) /\
        forall nb', nb_holds nb' (s ++ d) -> exists nb1', nb_holds nb1' (s1 ++ d) /\
          Parse p nb' out = Ret (p1, nb1', o, st)
  end.

Lemma Parse_extends p nb s d out : nb_holds nb s -> parser_ok p -> parse_extends p nb s d out.
Proof.
  remember (length s) as n eqn:Hn. revert p nb s Hn.
  induction (lt_wf n) as [n _ IH]; intros p nb s -> H Hp. unfold parse_extends.
  rewrite (Parse_unfold p nb s out H Hp). destruct s as [|c t].
  { split; [done|]. split; [done|]. exists []. split; [done|]. split; [by apply idle_nil|].
    intros nb' H'. by exists nb'. }
  set (s := c :: t) in *.
  assert (Hun : forall nb', nb_holds nb' (s ++ d) -> Parse p nb' out =
    let* r := parse_step p nb' out in
    match r with Continue p nb => Parse p nb out | Return p nb out status => Ret (p, nb, out, status) end)
    by (intros nb' H'; by rewrite (Parse_unfold p nb' (s ++ d) out H' Hp)).
  pose proof (fun nb' H' => parse_step_extends p nb nb' s d out H H' Hp) as Hx.
  destruct (parse_step p nb out) as [[p1 nb1|p1 nb1 o st]| |] eqn:E; cbn [obind step_extends] in Hx |- *.
  - destruct (parse_step_continue _ _ _ _ _ _ H Hp E) as (Hp1 & s1 & Hs1 & Hl).
    assert (Hy : forall nb', nb_holds nb' (s ++ d) -> exists nb1', nb_holds nb1' (s1 ++ d) /\
      Parse p nb' out = Parse p1 nb1' out).
    { intros nb' H'. destruct (Hx nb' H') as (_ & s1' & nb1' & E' & Hs1' & Hn' & _).
      rewrite (Hun nb' H'), E'. cbn [obind]. exists nb1'. by rewrite (nb_holds_unique _ _ _ Hs1 Hs1'). }
    specialize (IH (length s1) Hl p1 nb1 s1 eq_refl Hs1 Hp1). unfold parse_extends in IH.
    destruct (Parse p1 nb1 out) as [[[[p2 nb2] o] st]| |]; [|by intros nb' (nb1' & Hn1 & ->)%Hy; apply IH|done].
    destruct st.
    + destruct IH as (s2 & Hs2 & Hok & IH). exists s2. split; [done|].
      split; [intros H0; specialize (Hok H0); split; [apply Hok|lia]|].
      intros nb' (nb1' & Hn1 & ->)%Hy. by apply IH.
    + destruct IH as (-> & Hp2 & s2 & Hs2 & Hi & IH). split; [done|]. split; [done|]. exists s2.
      split; [done|]. split; [done|]. intros nb' (nb1' & Hn1 & ->)%Hy. by apply IH.
    + destruct IH as (s2 & Hs2 & Hok & IH). exists s2. split; [done|]. split; [done|].
      intros nb' (nb1' & Hn1 & ->)%Hy. by apply IH.
  - pose proof (Hx _ (nb_of_holds _)) as Hfin. destruct st; cbn [step_extends] in Hx, Hfin.
    1,3: destruct Hfin as (s1 & _ & _ & Hs1 & _ & Hok); exists s1; split; [done|]; split; [done|];
      intros nb' H'; destruct (Hx nb' H') as (s1' & nb1' & E' & Hs1' & Hn' & _);
      rewrite (Hun nb' H'), E'; cbn [obind]; exists nb1'; by rewrite (nb_holds_unique _ _ _ Hs1 Hs1').
    destruct Hfin as (-> & -> & Hs). split; [done|]. split; [done|]. exists s. split; [done|].
    split; [by apply (idle_step _ _ _ _ _ _ _ H Hp ltac:(done) E)|].
    intros nb' H'. by exists nb'.
  - intros nb' H'. rewrite (Hun nb' H'). by rewrite (Hx nb' H').
  - by apply (Hx _ (nb_of_holds _)).
Qed.

(** ** All complete commands *)

Lemma Parse_success p nb s p1 nb1 c :
  nb_holds nb s -> parser_ok p -> Parse p nb [] = Ret (p1, nb1, c, SUCCESS) ->
  parser_ok p1 /\ exists s1, nb_holds nb1 s1 /\ (length s1 < length s)%nat.
Proof.
  intros H Hp E. pose proof (Parse_extends p nb s [] [] H Hp) as Hx. unfold parse_extends in Hx.
  rewrite E in Hx. destruct Hx as (s1 & Hs1 & Hok & _). destruct (Hok eq_refl). eauto.
Qed.

Lemma parse_commands_loop_fuel f1 f2 p nb s :
  nb_holds nb s -> parser_ok p -> (length s < f1)%nat -> (length s < f2)%nat ->
  parse_commands_loop f1 p nb = parse_commands_loop f2 p nb.
Proof.
  revert f2 p nb s. induction f1 as [|f1 IH]; intros f2 p nb s H Hp H1 H2; [lia|].
  destruct f2 as [|f2]; [lia|]. cbn [parse_commands_loop].
  destruct (Parse p nb []) as [[[[p1 nb1] c] st]| |] eqn:E; [|done..]. cbn [obind]. destruct st; [|done..].
  destruct (Parse_success _ _ _ _ _ _ H Hp E) as (Hp1 & s1 & Hs1 & Hl).
  by rewrite (IH f2 p1 nb1 s1) by (done || lia).
Qed.

Lemma parse_commands_unfold p nb s :
  nb_holds nb s -> parser_ok p ->
  parse_commands p nb =
  let* (p, nb, command, status) := Parse p nb [] in
  match status with
  | SUCCESS =>
      let* (commands, p, nb, status) := parse_commands p nb in
      Ret (command :: commands, p, nb, status)
  | _ => Ret ([], p, nb, status)
  end.
Proof.
  intros H Hp. unfold parse_commands at 1. cbn [parse_commands_loop].
  destruct (Parse p nb []) as [[[[p1 nb1] c] st]| |] eqn:E; [|done..]. cbn [obind]. destruct st; [|done..].
  destruct (Parse_success _ _ _ _ _ _ H Hp E) as (Hp1 & s1 & Hs1 & Hl).
  unfold parse_commands. rewrite (nb_holds_size _ _ H), (nb_holds_size _ _ Hs1). unfold zlen. rewrite !Nat2Z.id.
  by rewrite (parse_commands_loop_fuel _ (S (length s1)) p1 nb1 s1) by (done || lia).
Qed.

(** The commands of a stream are those of its beginning, then those of what the
    beginning left together with the rest. *)
Definition commands_extend (p : RESPParser) (nb : NetworkBuffer) (s d : bytes) : Prop :=
  match parse_commands p nb with
  | Fault => forall nb', nb_holds nb' (s ++ d) -> parse_commands p nb' = Fault
  | NoFuel => False
  | Ret (cs, p1, nb1, INCOMPLETE) =>
      parser_ok p1 /\ exists s1, nb_holds nb1 s1 /\ idle p1 s1 [] /\
        forall nb', nb_holds nb' (s ++ d) -> exists nb1', nb_holds nb1' (s1 ++ d) /\
          parse_commands p nb' =
          let* (cs', p2, nb2, st) := parse_commands p1 nb1' in Ret (cs ++ cs', p2, nb2, st)
  | Ret (cs, p1, nb1, st) =>
      st = ERROR /\ forall nb', nb_holds nb' (s ++ d) -> exists nb1', parse_commands p nb' = Ret (cs, p1, nb1', st)
  end.

Lemma parse_commands_extend p nb s d : nb_holds nb s -> parser_ok p -> commands_extend p nb s d.
Proof.
  remember (length s) as n eqn:Hn. revert p nb s Hn.
  induction (lt_wf n) as [n _ IH]; intros p nb s -> H Hp. unfold commands_extend.
  rewrite (parse_commands_unfold p nb s H Hp).
  assert (Hun : forall nb', nb_holds nb' (s ++ d) -> parse_commands p nb' = _)
    by (intros nb' H'; exact (parse_commands_unfold p nb' (s ++ d) H' Hp)).
  pose proof (Parse_extends p nb s d [] H Hp) as Hx. unfold parse_extends in Hx.
  destruct (Parse p nb []) as [[[[p1 nb1] c] st]| |] eqn:E; cbn [obind].
  2:{ intros nb' H'. by rewrite (Hun nb' H'), (Hx nb' H'). }
  2:{ done. }
  destruct st.
  - destruct Hx as (s1 & Hs1 & Hok & Hx). destruct (Hok eq_refl) as [Hp1 Hl].
    specialize (IH (length s1) Hl p1 nb1 s1 eq_refl Hs1 Hp1). unfold commands_extend in IH.
    destruct (parse_commands p1 nb1) as [[[[cs p2] nb2] st]| |]; cbn [obind]; [|
      intros nb' H'; destruct (Hx nb' H') as (nb1' & H1' & E'); by rewrite (Hun nb' H'), E'; cbn [obind]; rewrite IH|done].
    destruct st.
    + destruct IH. done.
    + destruct IH as (Hp2 & s2 & Hs2 & Hi & IH). split; [done|]. exists s2. split; [done|].
      split; [done|]. intros nb' H'.
      destruct (Hx nb' H') as (nb1' & H1' & E'). destruct (IH nb1' H1') as (nb2' & H2' & E2).
      exists nb2'. split; [done|]. rewrite (Hun nb' H'), E'. cbn [obind]. rewrite E2.
      by destruct (parse_commands p2 nb2') as [[[[? ?] ?] ?]| |].
    + destruct IH as [_ IH]. split; [done|]. intros nb' H'. destruct (Hx nb' H') as (nb1' & H1' & E').
      destruct (IH nb1' H1') as (nb2' & E2). exists nb2'. rewrite (Hun nb' H'), E'. cbn [obind]. by rewrite E2.
  - destruct Hx as (_ & Hp1 & s1 & Hs1 & Hi & Hx). split; [done|]. exists s1. split; [done|].
    split; [done|]. intros nb' H'. destruct (Hx nb' H') as (nb1' & H1' & E'). exists nb1'. split; [done|].
    rewrite (Hun nb' H'), E', (parse_commands_unfold p1 nb1' (s1 ++ d) H1' Hp1).
    destruct (Parse p1 nb1' []) as [[[[? ?] ?] st]| |]; cbn [obind]; [|done..]. destruct st; [|done..].
    by destruct (parse_commands _ _) as [[[[? ?] ?] ?]| |].
  - destruct Hx as (s1 & Hs1 & _ & Hx). split; [done|]. intros nb' H'.
    destruct (Hx nb' H') as (nb1' & _ & E'). exists nb1'. by rewrite (Hun nb' H'), E'.
Qed.

Lemma parse_commands_total p nb s :
  nb_holds nb s -> parser_ok p -> parse_commands p nb <> NoFuel.
Proof.
  intros H Hp E. pose proof (parse_commands_extend p nb s [] H Hp) as Hx. unfold commands_extend in Hx.
  by rewrite E in Hx.
Qed.

Lemma parse_commands_idle p nb s :
  nb_holds nb s -> parser_ok p -> idle p s [] ->
  exists nb', nb_holds nb' s /\ parse_commands p nb = Ret ([], p, nb', INCOMPLETE).
Proof.
  intros H Hp Hi. rewrite (parse_commands_unfold p nb s H Hp).
  destruct (Hi nb H) as (nb' & H' & ->). by exists nb'.
Qed.

(** Representations of the same octets give the same run. *)
Lemma parse_commands_same p nb nb' s :
  nb_holds nb s -> nb_holds nb' s -> parser_ok p -> same_run (parse_commands p nb) (parse_commands p nb').
Proof.
  intros H H' Hp. rewrite <- (app_nil_r s) in H'.
  pose proof (parse_commands_extend p nb s [] H Hp) as Hx. unfold commands_extend in Hx.
  destruct (parse_commands p nb) as [[[[cs p1] nb1] st]| |] eqn:E; cbn [same_run]; [|by rewrite (Hx nb' H')|done].
  destruct st.
  - by destruct Hx.
  - destruct Hx as (Hp1 & s1 & Hs1 & Hi & Hx). destruct (Hx nb' H') as (nb1' & H1' & ->).
    rewrite app_nil_r in H1'. destruct (parse_commands_idle p1 nb1' s1 H1' Hp1 Hi) as (nb2 & H2 & ->).
    cbn [obind]. rewrite app_nil_r. do 3 (split; [done|]). intros _. by exists s1.
  - destruct Hx as [_ Hx]. by destruct (Hx nb' H') as (nb1' & ->).
Qed.

(** ** Feeding in pieces *)

Lemma same_run_prefix cs r1 r2 :
  same_run r1 r2 ->
  same_run (let* (cs', p, nb, st) := r1 in Ret (cs ++ cs', p, nb, st))
    (let* (cs', p, nb, st) := r2 in Ret (cs ++ cs', p, nb, st)).
Proof.
  destruct r1 as [[[[c1 p1] nb1] s1]| |], r2 as [[[[c2 p2] nb2] s2]| |]; try done.
  cbn. intros (-> & -> & -> & H). done.
Qed.

Lemma feed_same chunks p nb nb' s :
  nb_holds nb s -> nb_holds nb' (s ++ concat chunks) -> parser_ok p -> idle p s [] ->
  same_run (feed p nb chunks) (parse_commands p nb').
Proof.
  revert p nb nb' s. induction chunks as [|c chunks IH]; intros p nb nb' s H H' Hp Hi; cbn [feed concat] in *.
  - rewrite app_nil_r in H'. destruct (parse_commands_idle p nb' s H' Hp Hi) as (nb2 & H2 & ->).
    cbn. do 3 (split; [done|]). intros _. by exists s.
  - destruct (Append_holds nb s c H) as (nb1 & -> & H1). cbn [obind]. rewrite app_assoc in H'.
    pose proof (parse_commands_extend p nb1 (s ++ c) (concat chunks) H1 Hp) as Hx. unfold commands_extend in Hx.
    destruct (parse_commands p nb1) as [[[[cs p1] nb2] st]| |]; cbn [obind]; [|by rewrite (Hx nb' H')|done].
    destruct st.
    + by destruct Hx.
    + destruct Hx as (Hp1 & s1 & Hs1 & Hi1 & Hx). destruct (Hx nb' H') as (nb1' & H1' & ->).
      apply same_run_prefix. by apply (IH _ _ _ s1).
    + destruct Hx as [_ Hx]. by destruct (Hx nb' H') as (nb1' & ->).
Qed.

Lemma feed_last r :
  (let* (commands, p, nb, status) := r in
   match status with
   | INCOMPLETE =>
       let* (commands', p, nb, status) := feed p nb [] in Ret (commands ++ commands', p, nb, status)
   | _ => Ret (commands, p, nb, status)
   end) = r.
Proof. destruct r as [[[[cs p] nb] []]| |]; cbn; by rewrite ?app_nil_r. Qed.

(** ** What the encoder writes *)

Ltac append :=
  match goal with
  | H : nb_holds ?nb ?s |- context [Append ?nb ?d] =>
      let nb' := fresh "nb" in let H' := fresh "H" in
      destruct (Append_holds nb s d H) as (nb' & -> & H'); clear H; cbn [obind]
  end.

Ltac appends := repeat append; eexists; split; [reflexivity|].

Lemma EncodeBulkString_holds nb s x :
  nb_holds nb s -> exists nb', EncodeBulkString nb x = Ret nb' /\ nb_holds nb' (s ++ bulk_octets x).
Proof. intros H. unfold EncodeBulkString. appends. unfold bulk_octets. by rewrite !app_assoc. Qed.

Lemma encode_elements_holds l nb s :
  nb_holds nb s ->
  exists nb', encode_elements nb l = Ret nb' /\ nb_holds nb' (s ++ concat (map bulk_octets l)).
Proof.
  revert nb s. induction l as [|e l IH]; intros nb s H; cbn [encode_elements map concat].
  { exists nb. by rewrite app_nil_r. }
  destruct (EncodeBulkString_holds nb s e H) as (nb1 & -> & H1). cbn [obind].
  destruct (IH nb1 _ H1) as (nb2 & -> & H2). exists nb2. by rewrite app_assoc.
Qed.

Lemma EncodeArray_holds nb s l :
  nb_holds nb s -> exists nb', EncodeArray nb l = Ret nb' /\ nb_holds nb' (s ++ array_octets l).
Proof.
  intros H. unfold EncodeArray. repeat append.
  match goal with H : nb_holds ?nb ?s |- _ => destruct (encode_elements_holds l nb s H) as (nb' & -> & H') end.
  exists nb'. split; [done|]. unfold array_octets. by rewrite !app_assoc in *.
Qed.

(** Every reply is appended whole. *)
Lemma encode_reply_holds nb s r :
  nb_holds nb s -> exists nb', encode_reply nb r = Ret nb' /\ nb_holds nb' (s ++ reply_octets r).
Proof.
  intros H. destruct r as [x|x|z|x| |l]; cbn [encode_reply reply_octets].
  - unfold EncodeSimpleString. appends. by rewrite !app_assoc.
  - unfold EncodeError. appends. by rewrite !app_assoc.
  - unfold EncodeInteger. appends. by rewrite !app_assoc.
  - by apply EncodeBulkString_holds.
  - unfold EncodeNull. appends. by rewrite !app_assoc.
  - by apply EncodeArray_holds.
Qed.

Lemma encode_requests_holds cs nb s :
  nb_holds nb s ->
  exists nb', encode_requests nb cs = Ret nb' /\ nb_holds nb' (s ++ concat (map array_octets cs)).
Proof.
  revert nb s. induction cs as [|c cs IH]; intros nb s H; cbn [encode_requests map concat].
  { exists nb. by rewrite app_nil_r. }
  destruct (EncodeArray_holds nb s c H) as (nb1 & -> & H1). cbn [obind].
  destruct (IH nb1 _ H1) as (nb2 & -> & H2). exists nb2. by rewrite app_assoc.
Qed.

(** ** Reading what was encoded *)

Lemma split_digits_all s : forallb is_digit s = true -> split_digits s = (s, []).
Proof.
  induction s as [|c s IH]; [done|]. cbn. intros [-> H]%andb_true_iff. by rewrite IH.
Qed.

Lemma digit_ne s c : forallb is_digit s = true -> is_digit c = false -> c ∉ s.
Proof.
  intros Hs Hc Hin. rewrite forallb_forall in Hs. apply list_elem_of_In, Hs in Hin. congruence.
Qed.

Lemma from_chars_to_string z v : 0 <= z < 2 ^ 63 -> from_chars (to_string z) v = (z, [], true).
Proof.
  intros Hz. pose proof (to_string_digits z ltac:(lia)) as Hd. pose proof (to_string_nonempty z) as Hne.
  pose proof (digit_ne _ x2d Hd eq_refl) as Hm. unfold from_chars.
  pose proof (parse_to_string z ltac:(lia)) as Hp. revert Hd Hne Hm Hp.
  destruct (to_string z) as [|c t]; [done|]. intros Hd _ [Hm _]%not_elem_of_cons Hp.
  rewrite decide_False by done. rewrite split_digits_all by done. rewrite Hp.
  by rewrite (proj2 (in_i64_spec z)) by lia.
Qed.

Lemma header_of_octets marker v z rest :
  0 <= z < 2 ^ 63 -> marker <> x0d ->
  header_of marker v ([marker] ++ to_string z ++ kCRLF ++ rest) = hdr_number z (1 + zlen (to_string z)).
Proof.
  intros Hz Hm. unfold header_of. rewrite app_assoc.
  rewrite search_crlf_first.
  2:{ intros [E|H]%elem_of_cons; [by apply Hm|].
      exact (digit_ne _ x0d (to_string_digits z ltac:(lia)) eq_refl H). }
  rewrite Z.add_0_l. unfold zlen at 2. rewrite Nat2Z.id, take_app_length, zlen_app.
  change (zlen [marker]) with 1. cbn [app header_of_line].
  rewrite decide_True by done. by rewrite from_chars_to_string.
Qed.

(** The octets behind the line. *)
Lemma Retrieve_line nb marker z rest :
  nb_holds nb ([marker] ++ to_string z ++ kCRLF ++ rest) ->
  nb_holds (Retrieve nb (1 + zlen (to_string z) + 2)) rest.
Proof.
  intros H. apply (Retrieve_holds _ _ (1 + zlen (to_string z) + 2)) in H; [|pose proof (zlen_nonneg (to_string z)); lia].
  rewrite !app_assoc in H. rewrite drop_app_ge in H.
  - rewrite (proj2 (Nat.sub_0_le _ _)) in H; [by rewrite drop_0 in H|].
    rewrite !length_app. cbn [length kCRLF]. unfold zlen. lia.
  - rewrite !length_app. cbn [length kCRLF]. unfold zlen. lia.
Qed.

Lemma Parse_next p nb s out :
  nb_holds nb s -> parser_ok p -> s <> [] ->
  Parse p nb out =
  let* r := parse_step p nb out in
  match r with
  | Continue p nb => Parse p nb out
  | Return p nb out status => Ret (p, nb, out, status)
  end.
Proof. intros H Hp Hs. rewrite (Parse_unfold p nb s out H Hp). by destruct s. Qed.

(** The data of an argument. *)
Lemma expect_bulk_data_octets n x cur nb rest out :
  nb_holds nb (x ++ kCRLF ++ rest) -> zlen x + 2 < 2 ^ 63 ->
  exists nb', nb_holds nb' rest /\
    expect_bulk_data (mkParser EXPECT_BULK_DATA n (zlen x) cur) nb out =
    Ret (finish_argument (mkParser EXPECT_BULK_DATA n (zlen x) (cur ++ [x])) nb' out).
Proof.
  intros H Hx. pose proof (zlen_nonneg x). pose proof (zlen_nonneg rest). exists (Retrieve nb (zlen x + 2)). split.
  { apply (Retrieve_holds _ _ (zlen x + 2)) in H; [|lia]. rewrite app_assoc, drop_app_ge in H
      by (rewrite length_app; cbn [length kCRLF]; unfold zlen; lia).
    rewrite (proj2 (Nat.sub_0_le _ _)) in H by (rewrite length_app; cbn [length kCRLF]; unfold zlen; lia).
    by rewrite drop_0 in H. }
  unfold expect_bulk_data. cbn [bulk_len]. rewrite (u64_small (zlen x)) by lia.
  unfold i64_add. rewrite (proj2 (in_i64_spec _)) by lia. cbn [obind]. rewrite u64_small by lia.
  rewrite (nb_holds_size _ _ H).
  assert (Hl : zlen (x ++ kCRLF ++ rest) = zlen x + 2 + zlen rest)
    by (rewrite !zlen_app; change (zlen kCRLF) with 2; lia).
  destruct (Z.ltb_spec (zlen (x ++ kCRLF ++ rest)) (zlen x + 2)); [lia|].
  pose proof (nb_holds_mem nb _ 0 (zlen x) H) as Hd. rewrite Z.add_0_r in Hd.
  rewrite <- Z.add_assoc, (nb_holds_mem nb _ (zlen x) 1 H), (nb_holds_mem nb _ (zlen x + 1) 1 H), Hd by lia.
  assert (Hto : Z.to_nat (zlen x) = length x) by (unfold zlen; lia).
  replace (Z.to_nat (zlen x + 1)) with (length x + 1)%nat by (unfold zlen; lia).
  by rewrite Hto, drop_app_length, drop_app_add, drop_0, take_app_length.
Qed.

(** The arguments of a command. *)
Lemma Parse_arguments args cur b nb rest :
  nb_holds nb (concat (map bulk_octets args) ++ rest) -> args <> [] ->
  zlen cur + zlen args < 2 ^ 63 -> Forall (fun s => zlen s + 2 < 2 ^ 63) args -> b < 2 ^ 63 ->
  exists nb', nb_holds nb' rest /\
    Parse (mkParser EXPECT_BULK_SIZE (zlen cur + zlen args) b cur) nb [] =
    Ret (RESPParser_new, nb', cur ++ args, SUCCESS).
Proof.
  revert cur b nb. induction args as [|x args IH]; intros cur b nb H Hne Hn Hok Hb; [done|]. clear Hne.
  apply Forall_cons in Hok as [Hx Hok]. pose proof (zlen_nonneg cur). pose proof (zlen_nonneg args).
  pose proof (zlen_nonneg x). cbn [map concat] in H. rewrite zlen_cons in *.
  unfold bulk_octets in H. rewrite <- !app_assoc in H.
  assert (Hp : forall st b' c, b' < 2 ^ 63 -> 0 <= b' -> parser_ok (mkParser st (zlen cur + (1 + zlen args)) b' c)) by (by split).
  rewrite (Parse_next _ nb _ [] H); [|by split|done]. unfold parse_step, expect_bulk_size. cbn [rp_state bulk_len].
  rewrite (parse_header_holds _ _ _ _ H). cbn [obind].
  rewrite (header_of_octets x24 b (zlen x)) by (done || lia).
  rewrite (proj2 (Z.ltb_ge _ _)), (proj2 (Z.eqb_neq _ _)) by lia.
  apply (Retrieve_line _ x24) in H. unfold set_bulk_len, set_state. cbn [array_size current_command rp_state bulk_len].
  rewrite (Parse_next _ _ _ [] H); [|apply Hp; lia|by destruct x].
  unfold parse_step. cbn [rp_state].
  destruct (expect_bulk_data_octets (zlen cur + (1 + zlen args)) x cur _ _ [] H Hx) as (nb1 & Hnb1 & ->).
  cbn [obind]. unfold finish_argument. cbn [current_command array_size]. rewrite u64_small by lia.
  rewrite zlen_app. change (zlen [x]) with 1. destruct args as [|y args].
  - rewrite zlen_nil, Z.add_0_r, Z.eqb_refl. by exists nb1.
  - rewrite (proj2 (Z.eqb_neq _ _)) by (rewrite zlen_cons; pose proof (zlen_nonneg args); lia).
    destruct (IH (cur ++ [x]) (zlen x) nb1 Hnb1) as (nb2 & Hnb2 & E); [done|rewrite zlen_app; change (zlen [x]) with 1; lia|done|lia|].
    exists nb2. split; [done|]. rewrite <- app_assoc in E. cbn [app] in E. rewrite <- E. unfold set_state.
    cbn [array_size current_command bulk_len]. do 2 f_equal. rewrite zlen_app, !zlen_cons, zlen_nil. lia.
Qed.

(** One command. *)
Lemma Parse_command c nb rest :
  nb_holds nb (array_octets c ++ rest) -> command_ok c ->
  exists nb', nb_holds nb' rest /\ Parse RESPParser_new nb [] = Ret (RESPParser_new, nb', c, SUCCESS).
Proof.
  intros H [Hn Hok]. pose proof (zlen_nonneg c). unfold array_octets in H. rewrite <- !app_assoc in H.
  rewrite (Parse_next _ nb _ [] H); [|by split|done]. unfold parse_step, expect_array_size. cbn [rp_state RESPParser_new array_size].
  rewrite (parse_header_holds _ _ _ _ H). cbn [obind].
  rewrite (header_of_octets x2a 0 (zlen c)) by (done || lia). apply (Retrieve_line _ x2a) in H.
  rewrite (proj2 (Z.ltb_ge _ _)) by lia. destruct c as [|x c].
  - rewrite zlen_nil. cbn [Z.eqb]. by eexists.
  - rewrite (proj2 (Z.eqb_neq _ _)) by (rewrite zlen_cons; pose proof (zlen_nonneg c); lia).
    unfold set_array_size, set_state. cbn [array_size current_command bulk_len rp_state RESPParser_new].
    destruct (Parse_arguments (x :: c) [] 0 _ rest H) as (nb' & H' & E); [done|by rewrite zlen_nil|done|lia|].
    rewrite zlen_nil, Z.add_0_l in E. rewrite E. by exists nb'.
Qed.

Lemma parse_requests cs nb :
  nb_holds nb (concat (map array_octets cs)) -> Forall command_ok cs ->
  exists nb', nb_holds nb' [] /\ parse_commands RESPParser_new nb = Ret (cs, RESPParser_new, nb', INCOMPLETE).
Proof.
  revert nb. induction cs as [|c cs IH]; intros nb H Hok; cbn [map concat] in H.
  - apply (parse_commands_idle _ _ [] H); [by split|by apply idle_nil].
  - apply Forall_cons in Hok as [Hc Hok]. rewrite (parse_commands_unfold _ _ _ H) by (by split).
    destruct (Parse_command c nb _ H Hc) as (nb1 & H1 & ->). cbn [obind].
    destruct (IH nb1 H1 Hok) as (nb2 & H2 & ->). by exists nb2.
Qed.

(** * Properties *)

(** C14: pieces do not matter.  However the octets of a stream are cut into
    pieces, feeding the parser piece by piece (as [HandleRead] does) yields the
    same commands in the same order, the same final status and the same parser
    state as feeding the whole stream at once, with the same octets left; and it
    runs into undefined behaviour in one case exactly when it does in the
    other.  The parser terminates on every input. *)
Theorem resp_chunking (initial_size : nat) (chunks : list bytes) :
  same_run (feed RESPParser_new (NetworkBuffer_new initial_size) chunks)
    (feed RESPParser_new (NetworkBuffer_new initial_size) [concat chunks]).
Proof.
  pose proof (nb_holds_new initial_size) as H. cbn [feed].
  destruct (Append_holds _ [] (concat chunks) H) as (nb' & -> & H'). cbn [obind].
  pose proof (feed_same chunks RESPParser_new _ nb' [] H H') as Hs.
  rewrite feed_last. apply Hs; [by split|by apply idle_nil].
Qed.

(** C15: what the encoder writes, the parser reads.  A pipeline of requests
    (arrays of bulk strings, with any octets in them, the empty array included)
    that [EncodeArray] has written arrives unchanged, in whatever pieces the
    octets are received; the parser is left in its initial state and the buffer
    empty. *)
Theorem resp_roundtrip (initial_size : nat) (requests : list (list bytes)) :
  Forall command_ok requests ->
  exists nb s, encode_requests (NetworkBuffer_new initial_size) requests = Ret nb /\ Peek nb = Ret s /\
    forall size chunks, concat chunks = s ->
    exists nb', feed RESPParser_new (NetworkBuffer_new size) chunks =
                Ret (requests, RESPParser_new, nb', INCOMPLETE) /\ Peek nb' = Ret [].
Proof.
  intros Hok. destruct (encode_requests_holds requests _ [] (nb_holds_new initial_size)) as (nb & -> & H).
  exists nb, (concat (map array_octets requests)). split; [done|]. split; [by apply Peek_holds|].
  intros size chunks E. destruct (parse_requests requests (nb_of (concat chunks))) as (nb' & H' & Ep);
    [rewrite E; apply nb_of_holds|done|].
  pose proof (feed_same chunks RESPParser_new _ _ [] (nb_holds_new size) (nb_of_holds (concat chunks))) as Hs.
  assert (Hp : parser_ok RESPParser_new) by (by split).
  rewrite Ep in Hs. specialize (Hs Hp (idle_nil _ _ Hp)).
  destruct (feed _ _ chunks) as [[[[c1 p1] nb1] s1]| |]; [|done..].
  destruct Hs as (-> & -> & -> & Hs). exists nb1. split; [done|].
  destruct (Hs eq_refl) as (s & H1 & H2). rewrite (nb_holds_unique _ _ _ H' H2). by apply Peek_holds.
Qed.

Lemma resp_roundtrip_witness :
  let requests := [[str "SET"; str "k"; [x0d; x0a; x00]]; []; [str "GET"; str "k"]] in
  exists nb s, encode_requests (NetworkBuffer_new 8) requests = Ret nb /\ Peek nb = Ret s /\
    forall size chunks, concat chunks = s ->
    exists nb', feed RESPParser_new (NetworkBuffer_new size) chunks =
                Ret (requests, RESPParser_new, nb', INCOMPLETE) /\ Peek nb' = Ret [].
Proof.
  apply resp_roundtrip.
  repeat apply Forall_cons_2; try apply Forall_nil_2;
    (split; [reflexivity|repeat apply Forall_cons_2; try apply Forall_nil_2; reflexivity]).
Defined.

(** A bulk length near the maximum of [int64_t] is undefined behaviour.
    [RESPParser::Parse] adds 2 to the length it has read without a bound, so the
    length 9223372036854775806 or 9223372036854775807 in a request makes the
    addition overflow as soon as one more octet has arrived. *)
Theorem bulk_length_overflow (z : Z) (rest : bytes) :
  2 ^ 63 - 2 <= z < 2 ^ 63 -> rest <> [] ->
  Parse RESPParser_new (nb_of (str "*" ++ to_string 1 ++ kCRLF ++ str "$" ++ to_string z ++ kCRLF ++ rest)) [] =
  Fault.
Proof.
  intros Hz Hr. set (s := str "*" ++ _). pose proof (nb_of_holds s) as H.
  rewrite (Parse_next _ _ _ [] H) by done. unfold parse_step, expect_array_size. cbn [rp_state RESPParser_new array_size].
  rewrite (parse_header_holds _ _ _ _ H). cbn [obind]. unfold s in *. rewrite (header_of_octets x2a 0 1) by done.
  apply (Retrieve_line _ x2a) in H. cbn [Z.ltb Z.eqb Z.compare].
  unfold set_array_size, set_state. cbn [array_size current_command bulk_len rp_state RESPParser_new].
  rewrite (Parse_next _ _ _ [] H) by done. unfold parse_step, expect_bulk_size. cbn [rp_state bulk_len].
  rewrite (parse_header_holds _ _ _ _ H). cbn [obind]. rewrite (header_of_octets x24 0 z) by (done || lia).
  apply (Retrieve_line _ x24) in H. rewrite (proj2 (Z.ltb_ge _ _)), (proj2 (Z.eqb_neq _ _)) by lia.
  unfold set_bulk_len, set_state. cbn [array_size current_command rp_state bulk_len].
  rewrite (Parse_next _ _ _ [] H); [|split; cbn; lia|done]. unfold parse_step, expect_bulk_data. cbn [rp_state bulk_len].
  unfold i64_add. destruct (in_i64 (z + 2)) eqn:Ei; [|done]. apply in_i64_spec in Ei. lia.
Qed.

Lemma bulk_length_overflow_witness :
  Parse RESPParser_new (nb_of (str "*" ++ to_string 1 ++ kCRLF ++ str "$" ++ to_string (2 ^ 63 - 1) ++ kCRLF ++ str "x")) [] =
  Fault.
Proof. apply bulk_length_overflow; [lia|discriminate]. Defined.
