(* ===== verification/Command.v ===== *)
(** The command executor ([src/network/CommandExecutor.cpp]): the requests [SET],
    [GET], [DEL] and [RSCAN] on a store, and its refinement of a finite map.

    A [SET] or [DEL] that has to wait for the background thread is a separate
    result, as in [DBImpl].  Log lines are left out. *)
From S2P Require Import Prelude OMap Storage SSTableBuilder Table Files Compaction DBIterator DBImpl NetBuffer Resp.

(** [std::toupper] in the C locale. *)
Definition toupper (c : byte) : byte :=
  if (97 <=? byte_to_Z c) && (byte_to_Z c <=? 122) then Z_to_byte (byte_to_Z c - 32) else c.

(** [CommandExecutor::NormalizeCommandName] *)
Definition NormalizeCommandName (command_name : bytes) : bytes := map toupper command_name.

(** The message of [ExpectArgCount]. *)
Definition wrong_arguments (cmd : bytes) : bytes :=
  str "wrong number of arguments for '" ++ cmd ++ str "' command".

(** [CommandExecutor::ExpectArgCount] *)
Definition ExpectArgCount (command : list bytes) (expected_argc : Z) (nb : NetworkBuffer)
    : outcome (NetworkBuffer * bool) :=
  if zlen command =? expected_argc then Ret (nb, true)
  else
    match command with
    | [] => Fault
    | name :: _ =>
        let* nb := EncodeError nb (wrong_arguments (NormalizeCommandName name)) in Ret (nb, false)
    end.

(** [command[i]] *)
Definition argument (command : list bytes) (i : nat) : outcome bytes :=
  match command !! i with Some s => Ret s | None => Fault end.

Inductive exec_result : Type :=
| ExecDone (db : DBImpl) (nb : NetworkBuffer)
| ExecWaits
| ExecNull (nb : NetworkBuffer).

Section handlers.
Context (flips : nat -> bool).

(** [CommandExecutor::HandleSet] *)
Definition HandleSet (db : DBImpl) (command : list bytes) (nb : NetworkBuffer) : outcome exec_result :=
  let* (nb, ok) := ExpectArgCount command 3 nb in
  if negb ok then Ret (ExecDone db nb)
  else
    let* key := argument command 1 in
    let* value := argument command 2 in
    let* r := DBImpl_Put db key (mkRecord kValue value) flips in
    match r with
    | PutWaits => Ret ExecWaits
    | PutDone db => let* nb := EncodeSimpleString nb (str "OK") in Ret (ExecDone db nb)
    end.

(** [CommandExecutor::HandleGet] *)
Definition HandleGet (db : DBImpl) (command : list bytes) (nb : NetworkBuffer) : outcome exec_result :=
  let* (nb, ok) := ExpectArgCount command 2 nb in
  if negb ok then Ret (ExecDone db nb)
  else
    let* key := argument command 1 in
    let* (record, found) := DBImpl_Get db key (mkRecord kValue []) in
    let* nb := if found : bool then EncodeBulkString nb (vr_value record) else EncodeNull nb in
    Ret (ExecDone db nb).

(** [CommandExecutor::HandleDel] *)
Definition HandleDel (db : DBImpl) (command : list bytes) (nb : NetworkBuffer) : outcome exec_result :=
  let* (nb, ok) := ExpectArgCount command 2 nb in
  if negb ok then Ret (ExecDone db nb)
  else
    let* key := argument command 1 in
    let* r := DBImpl_Put db key (mkRecord kDeletion []) flips in
    match r with
    | PutWaits => Ret ExecWaits
    | PutDone db => let* nb := EncodeSimpleString nb (str "OK") in Ret (ExecDone db nb)
    end.

(** The loop of [CommandExecutor::HandleRScan]. *)
Fixpoint rscan_loop (fuel : nat) (it : DBIterator) (elements : list bytes) : outcome (list bytes) :=
  match fuel with
  | O => NoFuel
  | S fuel =>
      if Valid it then
        let* k := it_key it in
        let* v := it_value it in
        rscan_loop fuel (Next it) (elements ++ [k; v])
      else Ret elements
  end.

(** [CommandExecutor::HandleRScan] *)
Definition HandleRScan (db : DBImpl) (command : list bytes) (nb : NetworkBuffer) : outcome exec_result :=
  let* (nb, ok) := ExpectArgCount command 2 nb in
  if negb ok then Ret (ExecDone db nb)
  else
    let* start_key := argument command 1 in
    let* iter := NewIterator db in
    let iter := Seek iter start_key in
    let* elements := rscan_loop (S (length (it_rows iter))) iter [] in
    let* nb := EncodeArray nb elements in
    Ret (ExecDone db nb).

(** The message for a command that does not exist. *)
Definition unknown_command (name : bytes) : bytes := str "unknown command '" ++ name ++ str "'".

(** [CommandExecutor::Execute] on a store. *)
Definition Execute_db (db : DBImpl) (command : list bytes) (nb : NetworkBuffer) : outcome exec_result :=
  match command with
  | [] => let* nb := EncodeError nb (str "empty command") in Ret (ExecDone db nb)
  | name :: _ =>
      let cmd := NormalizeCommandName name in
      if decide (cmd = str "SET") then HandleSet db command nb
      else if decide (cmd = str "GET") then HandleGet db command nb
      else if decide (cmd = str "DEL") then HandleDel db command nb
      else if decide (cmd = str "RSCAN") then HandleRScan db command nb
      else let* nb := EncodeError nb (unknown_command name) in Ret (ExecDone db nb)
  end.

(** [CommandExecutor::Execute] : [None] is the null pointer. *)
Definition Execute (db : option DBImpl) (command : list bytes) (nb : NetworkBuffer) : outcome exec_result :=
  match db with
  | None => let* nb := EncodeError nb (str "db is not initialized") in Ret (ExecNull nb)
  | Some db => Execute_db db command nb
  end.

End handlers.

(** ** Specification *)

(** The rows of a map in ascending order. *)
Definition map_rows (m : gmap bytes bytes) : list (bytes * bytes) :=
  om_emplace_all (map_to_list m) [].

Definition flat_rows (rows : list (bytes * bytes)) : list bytes := concat (map (fun r => [r.1; r.2]) rows).

(** The same requests on a map: the new map and the reply. *)
Definition spec_command (m : gmap bytes bytes) (command : list bytes) : gmap bytes bytes * reply :=
  match command with
  | [] => (m, re_error (str "empty command"))
  | name :: args =>
      let cmd := NormalizeCommandName name in
      let wrong := (m, re_error (wrong_arguments cmd)) in
      if decide (cmd = str "SET") then
        match args with [k; v] => (<[k := v]> m, re_simple (str "OK")) | _ => wrong end
      else if decide (cmd = str "GET") then
        match args with
        | [k] => (m, match m !! k with Some v => re_bulk v | None => re_null end)
        | _ => wrong
        end
      else if decide (cmd = str "DEL") then
        match args with [k] => (delete k m, re_simple (str "OK")) | _ => wrong end
      else if decide (cmd = str "RSCAN") then
        match args with [k] => (m, re_array (flat_rows (rows_from k (map_rows m)))) | _ => wrong end
      else (m, re_error (unknown_command name))
  end.

(** Keys and values that the log and the tables can hold. *)
Definition request_ok (command : list bytes) : Prop := Forall (fun s => zlen s < 2 ^ 32) command.

(** The octets that a request can add to the store. *)
Definition request_bytes (command : list bytes) : Z := 9 + zlen (concat command).

(** * Lemmas *)

Lemma map_rows_sorted m : om_sorted (map_rows m).
Proof. apply om_emplace_all_sorted, om_sorted_nil. Qed.

Lemma map_rows_find m k : om_find k (map_rows m) = m !! k.
Proof.
  unfold map_rows. rewrite om_find_emplace_all by apply om_sorted_nil. cbn [om_find].
  destruct (m !! k) as [v|] eqn:E.
  - apply elem_of_map_to_list in E. pose proof (NoDup_fst_map_to_list m) as Hd.
    revert E Hd. induction (map_to_list m) as [|[k' v'] l IH]; [set_solver|]. cbn [om_find].
    intros [[= -> ->]|H]%elem_of_cons [Hn Hd]%NoDup_cons; [by rewrite decide_True|].
    rewrite decide_False; [by apply IH|]. intros ->. apply Hn. cbn. apply list_elem_of_fmap. by exists (k', v).
  - destruct (om_find k (map_to_list m)) as [v|] eqn:Ef; [|done].
    apply om_find_elem, elem_of_map_to_list in Ef. congruence.
Qed.

(** The rows of an iterator that shows a map. *)
Lemma shown_rows (rows : list (bytes * bytes)) (m : gmap bytes bytes) :
  om_sorted rows -> (forall k, om_find k rows = m !! k) -> rows = map_rows m.
Proof.
  intros Hs Hf. apply om_ext; [done|apply map_rows_sorted|]. intros k. by rewrite map_rows_find.
Qed.

Lemma visible_rows_length (rows : list row) : zlen (visible_rows rows) <= zlen rows.
Proof.
  induction rows as [|r rows IH]; [done|]. rewrite visible_rows_cons, zlen_app, zlen_cons.
  case_decide; rewrite ?zlen_cons, ?zlen_nil; lia.
Qed.

Lemma db_stack_bytes M I R0 R1 : stack_bytes (db_stack M I R0 R1) = db_bytes M I R0 R1.
Proof.
  unfold db_stack, disk_stack, db_bytes. by rewrite !stack_bytes_app, !stack_bytes_rev.
Qed.

(** The map of a store is no larger than its tables. *)
Lemma map_rows_length db m n : represents db m n -> zlen (map_rows m) <= n.
Proof.
  intros Hr. pose proof Hr as (M & I & R0 & R1 & Hinv & _ & _ & Hb).
  destruct (represents_shows _ _ _ Hr) as [_ (it & E & _ & Hs & Hf)].
  rewrite (NewIterator_holds _ _ _ _ _ Hinv) in E. injection E as <-. cbn [it_rows DBIterator_new] in *.
  rewrite <- (shown_rows _ _ Hs Hf). pose proof (visible_rows_length (stack_merge (db_stack M I R0 R1) [])) as H1.
  pose proof (encode_rows_length_ge (stack_merge (db_stack M I R0 R1) [])) as H2.
  pose proof (stack_merge_bytes (db_stack M I R0 R1) []) as H3. change (zlen (encode_rows [])) with 0 in H3.
  rewrite db_stack_bytes in H3. pose proof (zlen_nonneg (stack_merge (db_stack M I R0 R1) [])). lia.
Qed.

(** The loop of [RSCAN] collects what draining the iterator yields. *)
Lemma rscan_loop_drain fuel it acc :
  rscan_loop fuel it acc = let* rows := drain fuel it in Ret (acc ++ flat_rows rows).
Proof.
  revert it acc. induction fuel as [|fuel IH]; intros it acc; [done|]. cbn [rscan_loop drain].
  destruct (Valid it); [|cbn; by rewrite app_nil_r].
  destruct (it_key it) as [k| |]; [|done..]. cbn [obind].
  destruct (it_value it) as [v| |]; [|done..]. cbn [obind]. rewrite IH.
  destruct (drain fuel (Next it)) as [rows| |]; [|done..]. cbn [obind flat_rows map concat fst snd].
  by rewrite <- app_assoc.
Qed.

Lemma ExpectArgCount_ok command n nb : zlen command = n -> ExpectArgCount command n nb = Ret (nb, true).
Proof. intros <-. unfold ExpectArgCount. by rewrite Z.eqb_refl. Qed.

Lemma ExpectArgCount_wrong name args n nb s :
  zlen (name :: args) <> n -> nb_holds nb s ->
  exists nb', ExpectArgCount (name :: args) n nb = Ret (nb', false) /\
    nb_holds nb' (s ++ reply_octets (re_error (wrong_arguments (NormalizeCommandName name)))).
Proof.
  intros Hn H. unfold ExpectArgCount. rewrite (proj2 (Z.eqb_neq _ _)) by done.
  destruct (encode_reply_holds nb s (re_error (wrong_arguments (NormalizeCommandName name))) H) as (nb' & E & H').
  cbn [encode_reply] in E. rewrite E. by exists nb'.
Qed.

(** What executing a request does, [m'] and [r] being what the specification
    says. *)
Definition exec_post (db : DBImpl) (n : Z) (s : bytes) (command : list bytes)
    (m' : gmap bytes bytes) (r : reply) (res : outcome exec_result) : Prop :=
  exists db' nb', res = Ret (ExecDone db' nb') /\
    represents db' m' (n + request_bytes command) /\
    next_number db <= next_number db' <= next_number db + 1 /\ nb_holds nb' (s ++ reply_octets r).

Lemma request_bytes_pos command : 0 <= request_bytes command.
Proof. unfold request_bytes. pose proof (zlen_nonneg (concat command)). lia. Qed.

Lemma represents_mono db m n n' : represents db m n -> n <= n' -> represents db m n'.
Proof. intros (M & I & R0 & R1 & H1 & H2 & H3 & H4) Hle. exists M, I, R0, R1. do 3 (split; [done|]). lia. Qed.

(** A request that only answers. *)
Lemma exec_post_reply db m n s command r nb :
  represents db m n -> nb_holds nb s ->
  exec_post db n s command m r (let* nb := encode_reply nb r in Ret (ExecDone db nb)).
Proof.
  intros Hr H. destruct (encode_reply_holds nb s r H) as (nb' & -> & H'). exists db, nb'. split; [done|].
  split; [|split; [lia|done]]. eapply represents_mono; [done|]. pose proof (request_bytes_pos command). lia.
Qed.

(** Anything but the expected number of arguments. *)
Lemma exec_post_wrong db m n s name args k nb next :
  represents db m n -> nb_holds nb s -> zlen (name :: args) <> k ->
  exec_post db n s (name :: args) m (re_error (wrong_arguments (NormalizeCommandName name)))
    (let* (nb, ok) := ExpectArgCount (name :: args) k nb in
     if negb ok then Ret (ExecDone db nb) else next nb).
Proof.
  intros Hr H Hk. destruct (ExpectArgCount_wrong name args k nb s Hk H) as (nb' & -> & H').
  exists db, nb'. split; [done|]. split; [|split; [lia|done]].
  eapply represents_mono; [done|]. pose proof (request_bytes_pos (name :: args)). lia.
Qed.

Ltac wrong_count :=
  try left; apply exec_post_wrong; [assumption|assumption|zlen_lia].

(** A write that is answered with [+OK], or has to wait. *)
Lemma exec_put db m n s command key value nb flips :
  represents db m n -> nb_holds nb s -> row_ok (key, value) -> record_typed value ->
  zlen (encode_row (key, value)) <= request_bytes command -> next_number db + 1 < 2 ^ 64 ->
  let res :=
    let* r := DBImpl_Put db key value flips in
    match r with
    | PutWaits => Ret ExecWaits
    | PutDone db => let* nb := EncodeSimpleString nb (str "OK") in Ret (ExecDone db nb)
    end in
  exec_post db n s command (spec_put m key value) (re_simple (str "OK")) res \/
  (res = Ret ExecWaits /\ db_imm db <> None).
Proof.
  intros (M & I & R0 & R1 & Hinv & Hne & Hv & Hb) H Hrow Hty Hbytes Hn.
  destruct M as [rows|]; [|done].
  destruct (DBImpl_Put_holds db rows I R0 R1 key value flips Hinv Hrow Hty Hn)
    as [[-> HI]|(db' & M' & I' & -> & (Hinv' & Hne' & Hv' & Hb') & Hn')]; cbn [obind].
  - right. split; [done|]. destruct Hinv as [_ Hi _ _ _ _]. by inversion Hi; subst.
  - left. destruct (encode_reply_holds nb s (re_simple (str "OK")) H) as (nb' & E & H').
    cbn [encode_reply] in E. rewrite E. exists db', nb'. split; [done|]. split; [|done].
    exists M', I', R0, R1. split; [done|]. split; [done|]. split; [|lia].
    intros j. by rewrite Hv', spec_put_lookup, Hv.
Qed.

Lemma HandleGet_holds db m n s name k nb :
  represents db m n -> nb_holds nb s ->
  exec_post db n s [name; k] m (match m !! k with Some v => re_bulk v | None => re_null end)
    (HandleGet db [name; k] nb).
Proof.
  intros Hr H. unfold HandleGet. rewrite ExpectArgCount_ok by done. cbn [obind negb].
  change (argument [name; k] 1) with (Ret k). cbn [obind].
  destruct (represents_shows _ _ _ Hr) as [Hg _]. destruct (Hg k (mkRecord kValue [])) as (v & -> & Hv).
  cbn [obind]. destruct (m !! k) as [x|]; cbn [is_Some].
  - rewrite bool_decide_eq_true_2 by done. rewrite (Hv x eq_refl). by apply (exec_post_reply db m n s _ (re_bulk x)).
  - rewrite bool_decide_eq_false_2 by (by intros [? ?]). by apply (exec_post_reply db m n s _ re_null).
Qed.

Lemma HandleRScan_holds db m n s name k nb :
  represents db m n -> nb_holds nb s -> n < 2 ^ 60 ->
  exec_post db n s [name; k] m (re_array (flat_rows (rows_from k (map_rows m)))) (HandleRScan db [name; k] nb).
Proof.
  intros Hr H Hn. unfold HandleRScan. rewrite ExpectArgCount_ok by done. cbn [obind negb].
  change (argument [name; k] 1) with (Ret k). cbn [obind].
  destruct (represents_shows _ _ _ Hr) as [_ ([rows pos] & -> & Hpos & Hs & Hf)]. cbn [it_rows it_pos] in *.
  subst pos. rewrite (shown_rows _ _ Hs Hf) in *. cbn [obind]. rewrite rscan_loop_drain.
  change (mkIterator (map_rows m) 0) with (DBIterator_new (map_rows m)).
  pose proof (map_rows_length _ _ _ Hr). rewrite seek_drain by (apply map_rows_sorted || lia || apply Nat.lt_succ_diag_r). cbn [obind app].
  by apply (exec_post_reply db m n s _ (re_array _)).
Qed.

Lemma request_bytes_row name k v t :
  zlen (encode_row (k, mkRecord t v)) <= request_bytes [name; k; v].
Proof.
  rewrite zlen_encode_row. unfold request_bytes. cbn [fst snd vr_value concat]. rewrite !zlen_app, zlen_nil.
  pose proof (zlen_nonneg name). lia.
Qed.

Lemma request_bytes_key name k t : zlen (encode_row (k, mkRecord t [])) <= request_bytes [name; k].
Proof.
  rewrite zlen_encode_row. unfold request_bytes. cbn [fst snd vr_value concat]. rewrite !zlen_app, zlen_nil.
  pose proof (zlen_nonneg name). lia.
Qed.

(** What [Execute] does, on every branch. *)
Lemma execute_holds (db : DBImpl) (m : gmap bytes bytes) (n : Z) (s : bytes)
    (command : list bytes) (nb : NetworkBuffer) (flips : nat -> bool) :
  represents db m n -> nb_holds nb s -> request_ok command ->
  n + request_bytes command < 2 ^ 60 -> next_number db + 1 < 2 ^ 64 ->
  (exists db' nb', Execute flips (Some db) command nb = Ret (ExecDone db' nb') /\
    represents db' (spec_command m command).1 (n + request_bytes command) /\
    next_number db <= next_number db' <= next_number db + 1 /\
    nb_holds nb' (s ++ reply_octets (spec_command m command).2)) \/
  (Execute flips (Some db) command nb = Ret ExecWaits /\ db_imm db <> None).
Proof.
  intros Hr H Hok Hn Hnext. pose proof (request_bytes_pos command).
  change (exec_post db n s command (spec_command m command).1 (spec_command m command).2
    (Execute flips (Some db) command nb) \/ (Execute flips (Some db) command nb = Ret ExecWaits /\ db_imm db <> None)).
  destruct command as [|name args]; [left; by apply (exec_post_reply db m n s [] (re_error _))|].
  cbn [Execute Execute_db spec_command].
  repeat case_decide.
  - destruct args as [|k [|v [|x l]]]; try wrong_count. unfold request_ok in Hok. rewrite !Forall_cons in Hok.
    unfold HandleSet. rewrite ExpectArgCount_ok by done. cbn [obind negb].
    change (argument [name; k; v] 1) with (Ret k). change (argument [name; k; v] 2) with (Ret v). cbn [obind].
    apply (exec_put db m n s _ k (mkRecord kValue v)); try done; [|by left|apply request_bytes_row].
    by destruct Hok as (_ & ? & ? & _).
  - left. destruct args as [|k [|x l]]; try wrong_count. by apply HandleGet_holds.
  - destruct args as [|k [|x l]]; try wrong_count. unfold request_ok in Hok. rewrite !Forall_cons in Hok.
    unfold HandleDel. rewrite ExpectArgCount_ok by done. cbn [obind negb].
    change (argument [name; k] 1) with (Ret k). cbn [obind].
    apply (exec_put db m n s _ k (mkRecord kDeletion [])); try done; [|by right|apply request_bytes_key].
    split; [apply Hok|done].
  - left. destruct args as [|k [|x l]]; try wrong_count. apply HandleRScan_holds; (done || lia).
  - left. by apply (exec_post_reply db m n s _ (re_error _)).
Qed.

(** * Properties *)

(** C4: the server's requests act on a map.  On a store that shows the map [m],
    [Execute] appends to the response buffer exactly the reply that the
    specification gives for the request on [m] (values, [nil], the rows from a
    key on, and every error message), and leaves a store that shows the map
    after the request; it has no undefined behaviour.  Only a [SET] or [DEL] may
    have to wait instead, and only while an immutable table is being flushed. *)
Theorem execute_refines_map (db : DBImpl) (m : gmap bytes bytes) (n : Z) (s : bytes)
    (command : list bytes) (nb : NetworkBuffer) (flips : nat -> bool) :
  represents db m n -> nb_holds nb s -> request_ok command ->
  n + request_bytes command < 2 ^ 60 -> next_number db + 1 < 2 ^ 64 ->
  (exists db' nb', Execute flips (Some db) command nb = Ret (ExecDone db' nb') /\
    represents db' (spec_command m command).1 (n + request_bytes command) /\
    next_number db <= next_number db' <= next_number db + 1 /\
    nb_holds nb' (s ++ reply_octets (spec_command m command).2)) \/
  (Execute flips (Some db) command nb = Ret ExecWaits /\ db_imm db <> None).
Proof. apply execute_holds. Qed.

Lemma sample_db_represents : represents sample_db {[str "b" := str "2"; str "c" := str "3"]} 1000.
Proof.
  exists (Some []), (Some sample_imm), [sample_sst], []. split; [apply sample_db_inv|]. split; [done|].
  split; [|by vm_compute]. intros k. unfold stack_view, db_stack. cbn. repeat case_decide; subst; simplify_map_eq; done.
Qed.

Lemma execute_refines_map_witness :
  let command := [str "Set"; str "k"; str "v"] in
  (exists db' nb', Execute (fun _ => true) (Some sample_db) command (NetworkBuffer_new 4) = Ret (ExecDone db' nb') /\
    represents db' (spec_command {[str "b" := str "2"; str "c" := str "3"]} command).1 (1000 + request_bytes command) /\
    next_number sample_db <= next_number db' <= next_number sample_db + 1 /\
    nb_holds nb' ([] ++ reply_octets (spec_command {[str "b" := str "2"; str "c" := str "3"]} command).2)) \/
  (Execute (fun _ => true) (Some sample_db) command (NetworkBuffer_new 4) = Ret ExecWaits /\ db_imm sample_db <> None).
Proof.
  apply execute_refines_map.
  - apply sample_db_represents.
  - apply nb_holds_new.
  - repeat apply Forall_cons_2; try apply Forall_nil_2; reflexivity.
  - vm_compute. reflexivity.
  - vm_compute. reflexivity.
Defined.

(** A reply can be forged.  The reply to an unknown command contains the name
    as it was received, line ends included, so one request can produce the
    octets of several replies; everything behind it on the connection is then
    attributed to the wrong request.  (The names in the other error messages
    are those of known commands.) *)
Theorem unknown_command_splits_reply (db : DBImpl) (flips : nat -> bool) (nb : NetworkBuffer) (s : bytes) :
  nb_holds nb s ->
  exists nb', Execute flips (Some db) [str "X" ++ kCRLF ++ str "+OK" ++ kCRLF ++ str "+"] nb = Ret (ExecDone db nb') /\
    nb_holds nb' (s ++ concat (map reply_octets
      [re_error (str "unknown command 'X"); re_simple (str "OK"); re_simple (str "'")])).
Proof.
  intros H. set (name := str "X" ++ _).
  destruct (encode_reply_holds nb s (re_error (unknown_command name)) H) as (nb' & E & H').
  exists nb'. split; [|exact H']. cbn [encode_reply] in E.
  change (Execute flips (Some db) [name] nb) with
    (let* nb := EncodeError nb (unknown_command name) in Ret (ExecDone db nb)). by rewrite E.
Qed.

Lemma unknown_command_splits_reply_witness :
  exists nb', Execute (fun _ => true) (Some sample_db) [str "X" ++ kCRLF ++ str "+OK" ++ kCRLF ++ str "+"]
      (NetworkBuffer_new 4) = Ret (ExecDone sample_db nb') /\
    nb_holds nb' ([] ++ concat (map reply_octets
      [re_error (str "unknown command 'X"); re_simple (str "OK"); re_simple (str "'")])).
Proof. apply unknown_command_splits_reply, nb_holds_new. Defined.
