(* ===== verification/ThreadPool.v ===== *)
(** The thread pool ([include/network/ThreadPool.h]): a queue of tasks behind a
    mutex and a condition variable, and workers that run them.

    One action is what a thread does between two synchronisation points: a stretch
    under the lock, a notification, a task.  The effect of a task is left to the
    client ([Server]); the future that [enqueue] returns is not used by the
    program and left out. *)
From S2P Require Import Prelude.

(** Where a worker is: about to lock and test the condition, asleep in
    [condition.wait], running a task outside the lock, or gone. *)
Inductive worker (T : Type) : Type :=
| w_lock
| w_wait
| w_run (t : T)
| w_done.
Arguments w_lock {T}.
Arguments w_wait {T}.
Arguments w_run {T} t.
Arguments w_done {T}.

(** [notifies] : calls of [notify_one] that are due, one per task pushed;
    [notify_all_due] : [Shutdown] has set [stop] and is about to notify. *)
Record ThreadPool (T : Type) := mkPool {
  workers : list (worker T);
  tasks : list T;
  stop : bool;
  notifies : nat;
  notify_all_due : bool;
}.
Arguments mkPool {T} workers tasks stop notifies notify_all_due.
Arguments workers {T} t.
Arguments tasks {T} t.
Arguments stop {T} t.
Arguments notifies {T} t.
Arguments notify_all_due {T} t.

Inductive pool_action (T : Type) : Type :=
| act_enqueue (t : T)
| act_notify_one (i : nat)   (* which waiter is woken *)
| act_spurious (i : nat)
| act_worker (i : nat)
| act_stop
| act_notify_all.
Arguments act_enqueue {T} t.
Arguments act_notify_one {T} i.
Arguments act_spurious {T} i.
Arguments act_worker {T} i.
Arguments act_stop {T}.
Arguments act_notify_all {T}.

Inductive pool_event (T : Type) : Type :=
| pe_enqueue (t : T)
| pe_start (t : T)
| pe_finish (t : T)
| pe_quiet.
Arguments pe_enqueue {T} t.
Arguments pe_start {T} t.
Arguments pe_finish {T} t.
Arguments pe_quiet {T}.

Section pool.
Context {T : Type}.

(** [ThreadPool::ThreadPool] *)
Definition ThreadPool_new (threads : nat) : ThreadPool T := mkPool (replicate threads w_lock) [] false 0 false.

Definition set_worker (p : ThreadPool T) (i : nat) (w : worker T) : ThreadPool T :=
  mkPool (<[i := w]> (workers p)) (tasks p) (stop p) (notifies p) (notify_all_due p).

Definition is_waiting (w : worker T) : bool := match w with w_wait => true | _ => false end.
Definition is_done (w : worker T) : bool := match w with w_done => true | _ => false end.

(** The locked part of [enqueue]; [None] is the exception of a stopped pool. *)
Definition enqueue (p : ThreadPool T) (t : T) : option (ThreadPool T) :=
  if stop p then None
  else Some (mkPool (workers p) (tasks p ++ [t]) (stop p) (S (notifies p)) (notify_all_due p)).

(** The locked part of a worker's loop: wait, return, or take the first task. *)
Definition worker_locked (p : ThreadPool T) (i : nat) : ThreadPool T * pool_event T :=
  match tasks p with
  | [] => (set_worker p i (if stop p then w_done else w_wait), pe_quiet)
  | t :: ts =>
      (set_worker (mkPool (workers p) ts (stop p) (notifies p) (notify_all_due p)) i (w_run t), pe_start t)
  end.

Definition wake (w : worker T) : worker T := match w with w_wait => w_lock | _ => w end.

(** What an action does; [None] when it is not possible. *)
Definition pool_step (p : ThreadPool T) (a : pool_action T) : option (ThreadPool T * pool_event T) :=
  match a with
  | act_enqueue t => p' ← enqueue p t; Some (p', pe_enqueue t)
  | act_notify_one i =>
      match notifies p with
      | O => None
      | S n =>
          let p' := mkPool (workers p) (tasks p) (stop p) n (notify_all_due p) in
          match workers p !! i with
          | Some w_wait => Some (set_worker p' i w_lock, pe_quiet)
          | _ => if existsb is_waiting (workers p) then None else Some (p', pe_quiet)
          end
      end
  | act_spurious i =>
      match workers p !! i with Some w_wait => Some (set_worker p i w_lock, pe_quiet) | _ => None end
  | act_worker i =>
      match workers p !! i with
      | Some w_lock => Some (worker_locked p i)
      | Some (w_run t) => Some (set_worker p i w_lock, pe_finish t)
      | _ => None
      end
  | act_stop =>
      if stop p then None else Some (mkPool (workers p) (tasks p) true (notifies p) true, pe_quiet)
  | act_notify_all =>
      if notify_all_due p
      then Some (mkPool (map wake (workers p)) (tasks p) (stop p) (notifies p) false, pe_quiet)
      else None
  end.

(** [worker.join()] for all workers returns. *)
Definition joined (p : ThreadPool T) : bool := forallb is_done (workers p).

(** ** Runs *)

Inductive pool_run (p0 : ThreadPool T) : ThreadPool T -> list (pool_event T) -> Prop :=
| pr_start : pool_run p0 p0 []
| pr_step p tr a p' e :
    pool_run p0 p tr -> pool_step p a = Some (p', e) -> pool_run p0 p' (tr ++ [e]).

Definition enqueued (tr : list (pool_event T)) : list T :=
  concat (map (fun e => match e with pe_enqueue t => [t] | _ => [] end) tr).
Definition started (tr : list (pool_event T)) : list T :=
  concat (map (fun e => match e with pe_start t => [t] | _ => [] end) tr).
Definition finished (tr : list (pool_event T)) : list T :=
  concat (map (fun e => match e with pe_finish t => [t] | _ => [] end) tr).
Definition running (ws : list (worker T)) : list T :=
  concat (map (fun w => match w with w_run t => [t] | _ => [] end) ws).

(** How much is left to do once the pool has been stopped. *)
Definition weight (w : worker T) : nat :=
  match w with w_lock => 1 | w_wait => 2 | w_run _ => 2 | w_done => 0 end.
Definition sum_weights (ws : list (worker T)) : nat := fold_right (fun w n => weight w + n)%nat 0%nat ws.
Definition work_left (p : ThreadPool T) : nat :=
  (2 * length (tasks p) + sum_weights (workers p) + notifies p + (if notify_all_due p then 1 else 0))%nat.

(** Workers that will test the condition. *)
Definition is_locking (w : worker T) : bool := match w with w_lock => true | _ => false end.
Definition awake (ws : list (worker T)) : nat := length (List.filter is_locking ws).

(** What keeps the workers going: a waiter is left alone only while there are
    enough notifications and awake workers for the queued tasks (or, once the
    pool is stopped, the final notification is due); workers leave only an empty
    stopped pool. *)
Record pool_inv (p : ThreadPool T) : Prop := {
  pi_waiters : existsb is_waiting (workers p) = true ->
    if stop p then notify_all_due p = true
    else (length (tasks p) <= notifies p + awake (workers p))%nat;
  pi_done : existsb is_done (workers p) = true -> stop p = true /\ tasks p = [];
}.

(** * Lemmas *)

Lemma worker_split (ws : list (worker T)) i w0 :
  ws !! i = Some w0 -> exists l1 l2, ws = l1 ++ w0 :: l2 /\ forall w, <[i := w]> ws = l1 ++ w :: l2.
Proof.
  intros H. exists (take i ws), (drop (S i) ws). split; [by rewrite take_drop_middle|].
  intros w. apply insert_take_drop. by eapply lookup_lt_Some.
Qed.

Lemma awake_app l1 w l2 :
  awake (l1 ++ w :: l2) = (awake l1 + (if is_locking w then 1 else 0) + awake l2)%nat.
Proof.
  unfold awake. rewrite List.filter_app, length_app. cbn [List.filter]. destruct (is_locking w); cbn [length]; lia.
Qed.

Lemma sum_weights_app l1 w l2 : sum_weights (l1 ++ w :: l2) = (sum_weights l1 + weight w + sum_weights l2)%nat.
Proof. unfold sum_weights. induction l1 as [|x l1 IH]; cbn [app fold_right] in *; lia. Qed.

Lemma running_app l1 w l2 : running (l1 ++ w :: l2) ≡ₚ running [w] ++ running l1 ++ running l2.
Proof.
  unfold running. rewrite map_app, concat_app. cbn [map concat]. rewrite app_nil_r.
  rewrite !app_assoc. apply Permutation_app_tail, Permutation_app_comm.
Qed.

Lemma map_wake_waiting ws : existsb is_waiting (map wake ws) = false.
Proof. induction ws as [|w ws IH]; [done|]. cbn. rewrite IH. by destruct w. Qed.

Lemma map_wake_done ws : existsb is_done (map wake ws) = existsb is_done ws.
Proof. induction ws as [|w ws IH]; [done|]. cbn. rewrite IH. by destruct w. Qed.

Lemma map_wake_running ws : running (map wake ws) = running ws.
Proof. unfold running. induction ws as [|w ws IH]; [done|]. cbn. rewrite IH. by destruct w. Qed.

Lemma map_wake_weights ws : (sum_weights (map wake ws) <= sum_weights ws)%nat.
Proof. unfold sum_weights. induction ws as [|w ws IH]; [done|]. cbn. destruct w; cbn in *; lia. Qed.

Lemma pool_inv_new n : pool_inv (ThreadPool_new n).
Proof.
  assert (H : forall f : worker T -> bool, f w_lock = false -> existsb f (replicate n w_lock) = false)
    by (intros f Hf; induction n as [|n IH]; [done|]; cbn; by rewrite Hf).
  split; cbn [ThreadPool_new workers]; by rewrite H.
Qed.

(** The invariant after worker [i] has changed: open both sides. *)
Ltac worker_changes Hw Hd E Ei :=
  unfold set_worker; split; cbn [workers tasks stop notifies notify_all_due]; rewrite Ei;
  rewrite E in Hw, Hd; rewrite !existsb_app in *; cbn [existsb is_waiting is_done orb] in *;
  try done; try (intros H; specialize (Hw H)); try specialize (Hw (orb_true_r _)).

(** Every action keeps the invariant. *)
Lemma pool_step_inv p a p' e : pool_inv p -> pool_step p a = Some (p', e) -> pool_inv p'.
Proof.
  intros [Hw Hd] Hs. destruct a as [t|i|i|i| |]; cbn [pool_step] in Hs.
  - unfold enqueue in Hs. destruct (stop p) eqn:Es; [done|]. cbn in Hs. injection Hs as <- <-.
    split; cbn [workers tasks stop notifies notify_all_due]; rewrite ?Es; [intros H|intros [? ?]%Hd]; [|congruence].
    rewrite length_app. specialize (Hw H). cbn. lia.
  - destruct (notifies p) as [|n] eqn:En; [done|].
    assert (Hnone : existsb is_waiting (workers p) = false ->
      pool_inv (mkPool (workers p) (tasks p) (stop p) n (notify_all_due p))) by (intros Ex; split; cbn; [congruence|done]).
    destruct (workers p !! i) as [[]|] eqn:Ew;
      try (destruct (existsb is_waiting (workers p)); [done|]; injection Hs as <- <-; by apply Hnone).
    injection Hs as <- <-. destruct (worker_split _ _ _ Ew) as (l1 & l2 & E & Ei). clear Hnone.
    worker_changes Hw Hd E Ei. destruct (stop p); [done|]. rewrite awake_app in *. cbn in *. lia.
  - destruct (workers p !! i) as [[]|] eqn:Ew; try done. injection Hs as <- <-.
    destruct (worker_split _ _ _ Ew) as (l1 & l2 & E & Ei).
    worker_changes Hw Hd E Ei. destruct (stop p); [done|]. rewrite awake_app in *. cbn in *. lia.
  - destruct (workers p !! i) as [[| |t|]|] eqn:Ew; try done; destruct (worker_split _ _ _ Ew) as (l1 & l2 & E & Ei).
    + unfold worker_locked in Hs. destruct (tasks p) as [|t ts] eqn:Et; injection Hs as <- <-.
      * destruct (stop p) eqn:Es; worker_changes Hw Hd E Ei; rewrite ?Es, ?Et in *; try done.
        intros _. cbn [length]. lia.
      * worker_changes Hw Hd E Ei; [|by intros [? ?]%Hd].
        destruct (stop p); [done|]. rewrite awake_app in *. cbn in *. lia.
    + injection Hs as <- <-. worker_changes Hw Hd E Ei. destruct (stop p); [done|]. rewrite awake_app in *. cbn in *. lia.
  - destruct (stop p) eqn:Es; [done|]. injection Hs as <- <-. split; cbn; [done|]. intros [? ?]%Hd. congruence.
  - destruct (notify_all_due p); [|done]. injection Hs as <- <-. split; cbn.
    + by rewrite map_wake_waiting.
    + by rewrite map_wake_done.
Qed.

(** ** Histories *)

Lemma enqueued_snoc (tr : list (pool_event T)) e :
  enqueued (tr ++ [e]) = enqueued tr ++ match e with pe_enqueue t => [t] | _ => [] end.
Proof. unfold enqueued. rewrite map_app, concat_app. cbn. by rewrite app_nil_r. Qed.

Lemma started_snoc (tr : list (pool_event T)) e :
  started (tr ++ [e]) = started tr ++ match e with pe_start t => [t] | _ => [] end.
Proof. unfold started. rewrite map_app, concat_app. cbn. by rewrite app_nil_r. Qed.

Lemma finished_snoc (tr : list (pool_event T)) e :
  finished (tr ++ [e]) = finished tr ++ match e with pe_finish t => [t] | _ => [] end.
Proof. unfold finished. rewrite map_app, concat_app. cbn. by rewrite app_nil_r. Qed.

(** What an action does to the queue and to the running tasks. *)
Definition step_effect (p p' : ThreadPool T) (e : pool_event T) : Prop :=
  match e with
  | pe_enqueue t => tasks p' = tasks p ++ [t] /\ running (workers p') ≡ₚ running (workers p)
  | pe_start t => tasks p = t :: tasks p' /\ running (workers p') ≡ₚ t :: running (workers p)
  | pe_finish t => tasks p' = tasks p /\ running (workers p) ≡ₚ t :: running (workers p')
  | pe_quiet => tasks p' = tasks p /\ running (workers p') ≡ₚ running (workers p)
  end.

(** Worker [i] changing from [w0] to [w] changes the running tasks accordingly. *)
Lemma running_set (ws : list (worker T)) i w0 w :
  ws !! i = Some w0 -> exists rest, running ws ≡ₚ running [w0] ++ rest /\ running (<[i := w]> ws) ≡ₚ running [w] ++ rest.
Proof.
  intros H. destruct (worker_split _ _ _ H) as (l1 & l2 & E & Ei). exists (running l1 ++ running l2).
  rewrite Ei, E, !running_app. done.
Qed.

Lemma pool_step_effect p a p' e : pool_step p a = Some (p', e) -> step_effect p p' e.
Proof.
  intros Hs. destruct a as [t|i|i|i| |]; cbn [pool_step] in Hs.
  - unfold enqueue in Hs. destruct (stop p); [done|]. cbn in Hs. by injection Hs as <- <-.
  - destruct (notifies p); [done|].
    destruct (workers p !! i) as [[]|] eqn:Ew;
      try (destruct (existsb is_waiting (workers p)); [done|]; by injection Hs as <- <-).
    injection Hs as <- <-. split; [done|]. destruct (running_set _ _ _ w_lock Ew) as (r & H1 & H2).
    cbn [set_worker workers]. by rewrite H1, H2.
  - destruct (workers p !! i) as [[]|] eqn:Ew; try done. injection Hs as <- <-. split; [done|].
    destruct (running_set _ _ _ w_lock Ew) as (r & H1 & H2). cbn [set_worker workers]. by rewrite H1, H2.
  - destruct (workers p !! i) as [[| |t|]|] eqn:Ew; try done.
    + unfold worker_locked in Hs. destruct (tasks p) as [|t ts] eqn:Et; injection Hs as <- <-;
        (split; [done|]); cbn [set_worker workers].
      * destruct (running_set _ _ _ (if stop p then w_done else w_wait) Ew) as (r & H1 & H2).
        rewrite H1, H2. by destruct (stop p).
      * destruct (running_set _ _ _ (w_run t) Ew) as (r & H1 & H2). by rewrite H1, H2.
    + injection Hs as <- <-. split; [done|]. destruct (running_set _ _ _ w_lock Ew) as (r & H1 & H2).
      cbn [set_worker workers]. by rewrite H1, H2.
  - destruct (stop p); [done|]. by injection Hs as <- <-.
  - destruct (notify_all_due p); [|done]. injection Hs as <- <-. split; [done|]. cbn [workers]. by rewrite map_wake_running.
Qed.

Lemma running_new n : running (workers (ThreadPool_new n)) = [].
Proof. unfold running. cbn. induction n as [|n IH]; [done|]. cbn. by rewrite IH. Qed.

Lemma pool_run_history n p tr :
  pool_run (ThreadPool_new n) p tr ->
  enqueued tr = started tr ++ tasks p /\ started tr ≡ₚ finished tr ++ running (workers p).
Proof.
  induction 1 as [|p tr a p' e Hr [IH1 IH2] Hs]; [split; [done|]; by rewrite running_new|].
  rewrite enqueued_snoc, started_snoc, finished_snoc. apply pool_step_effect in Hs.
  destruct e as [t|t|t|]; cbn [step_effect] in Hs; destruct Hs as [H1 H2]; rewrite ?app_nil_r.
  - rewrite IH1, H1, app_assoc. split; [done|]. by rewrite H2.
  - rewrite IH1, H1, <- app_assoc. split; [done|]. rewrite IH2, H2. solve_Permutation.
  - rewrite IH1, H1. split; [done|]. rewrite IH2, H2. solve_Permutation.
  - rewrite IH1, H1. split; [done|]. by rewrite H2.
Qed.

Lemma pool_run_inv n p tr : pool_run (ThreadPool_new n) p tr -> pool_inv p.
Proof. induction 1; [apply pool_inv_new|by eapply pool_step_inv]. Qed.

(** ** After [Shutdown] *)

Lemma insert_weights (ws : list (worker T)) i w0 w :
  ws !! i = Some w0 -> exists n, sum_weights ws = (weight w0 + n)%nat /\ sum_weights (<[i := w]> ws) = (weight w + n)%nat.
Proof.
  intros H. destruct (worker_split _ _ _ H) as (l1 & l2 & E & Ei). exists (sum_weights l1 + sum_weights l2)%nat.
  rewrite Ei, E, !sum_weights_app. lia.
Qed.

(** Every action of a stopped pool leaves less to do. *)
Lemma pool_step_decreases p a p' e :
  stop p = true -> pool_step p a = Some (p', e) -> stop p' = true /\ (work_left p' < work_left p)%nat.
Proof.
  intros Hst Hs. unfold work_left. destruct a as [t|i|i|i| |]; cbn [pool_step] in Hs.
  - unfold enqueue in Hs. by rewrite Hst in Hs.
  - destruct (notifies p) as [|n]; [done|].
    destruct (workers p !! i) as [[]|] eqn:Ew;
      try (destruct (existsb is_waiting (workers p)); [done|]; injection Hs as <- <-; cbn [workers tasks stop notifies notify_all_due]; split; [done|lia]).
    injection Hs as <- <-. destruct (insert_weights _ _ _ w_lock Ew) as (k & H1 & H2). cbn [set_worker workers tasks stop notifies notify_all_due].
    rewrite H1, H2. cbn [weight]. split; [done|lia].
  - destruct (workers p !! i) as [[]|] eqn:Ew; try done. injection Hs as <- <-.
    destruct (insert_weights _ _ _ w_lock Ew) as (k & H1 & H2). cbn [set_worker workers tasks stop notifies notify_all_due].
    rewrite H1, H2. cbn [weight]. split; [done|lia].
  - destruct (workers p !! i) as [[| |t|]|] eqn:Ew; try done.
    + unfold worker_locked in Hs. destruct (tasks p) as [|t ts] eqn:Et; injection Hs as <- <-;
        cbn [set_worker workers tasks stop notifies notify_all_due].
      * rewrite Hst. destruct (insert_weights _ _ _ w_done Ew) as (k & H1 & H2). rewrite H1, H2, Et. cbn [weight length]. split; [done|lia].
      * destruct (insert_weights _ _ _ (w_run t) Ew) as (k & H1 & H2). rewrite H1, H2. cbn [weight length]. split; [done|lia].
    + injection Hs as <- <-. destruct (insert_weights _ _ _ w_lock Ew) as (k & H1 & H2).
      cbn [set_worker workers tasks stop notifies notify_all_due]. rewrite H1, H2. cbn [weight]. split; [done|lia].
  - by rewrite Hst in Hs.
  - destruct (notify_all_due p); [|done]. injection Hs as <- <-. cbn [workers tasks stop notifies notify_all_due].
    pose proof (map_wake_weights (workers p)). split; [done|lia].
Qed.

Lemma existsb_lookup (f : worker T -> bool) ws : existsb f ws = true -> exists i w, ws !! i = Some w /\ f w = true.
Proof.
  intros (w & Hin%list_elem_of_In & Hf)%existsb_exists. apply list_elem_of_lookup in Hin as [i Hi]. eauto.
Qed.

(** Actions of the pool itself: not a request, nor a spurious wake-up. *)
Definition internal (a : pool_action T) : Prop :=
  match a with act_enqueue _ | act_spurious _ | act_stop => False | _ => True end.

Lemma existsb_false (f : worker T -> bool) ws i w : existsb f ws = false -> ws !! i = Some w -> f w = false.
Proof.
  intros H Hi. destruct (f w) eqn:E; [|done]. rewrite <- H. symmetry. apply existsb_exists. exists w.
  split; [|done]. apply list_elem_of_In. by eapply list_elem_of_lookup_2.
Qed.

(** When every worker is one or the other and none is the other. *)
Lemma forallb_other (f g : worker T -> bool) ws :
  (forall w, negb (f w || g w) = true -> negb (is_waiting w || is_done w) = true) ->
  existsb (fun w => negb (is_waiting w || is_done w)) ws = false -> existsb g ws = false -> forallb f ws = true.
Proof.
  intros Hfg H Hg. apply forallb_forall. intros w Hin. apply list_elem_of_In, list_elem_of_lookup in Hin as [i Hi].
  apply (existsb_false _ _ i w) in H; [|done]. apply (existsb_false _ _ i w) in Hg; [|done].
  specialize (Hfg w). rewrite Hg, H in Hfg. destruct (f w); [done|]. by destruct Hfg.
Qed.

Lemma notify_possible p :
  notifies p <> 0%nat -> exists a p' e, pool_step p a = Some (p', e) /\ internal a.
Proof.
  intros Hn. destruct (existsb is_waiting (workers p)) eqn:E.
  - apply existsb_lookup in E as (i & w & Hi & Hwt). exists (act_notify_one i). cbn [pool_step].
    destruct (notifies p); [done|]. rewrite Hi. destruct w; try done. by eexists _, _.
  - exists (act_notify_one (length (workers p))). cbn [pool_step]. destruct (notifies p); [done|].
    rewrite lookup_ge_None_2 by lia. rewrite E. by eexists _, _.
Qed.

Lemma awake_waiting ws : forallb is_waiting ws = true -> awake ws = 0%nat.
Proof.
  unfold awake. induction ws as [|w ws IH]; [done|]. cbn. intros [H1 H2]%andb_true_iff.
  destruct w; try done. cbn. by apply IH.
Qed.

(** In a pool that is neither at rest nor joined something other than a spurious
    wake-up or a request can happen. *)
Lemma pool_progress p :
  pool_inv p ->
  (exists a p' e, pool_step p a = Some (p', e) /\ internal a) \/
  (stop p = true /\ joined p = true) \/
  (stop p = false /\ (workers p <> [] -> tasks p = [])).
Proof.
  intros [Hw Hd].
  destruct (existsb (fun w => negb (is_waiting w || is_done w)) (workers p)) eqn:Ex.
  { apply existsb_lookup in Ex as (i & w & Hi & Hn). left. exists (act_worker i). cbn [pool_step]. rewrite Hi.
    destruct w; try done; [destruct (worker_locked p i) as [p' e]|]; by eexists _, _. }
  destruct (decide (notifies p = 0%nat)) as [En|En]; [|by left; apply notify_possible].
  destruct (existsb is_waiting (workers p)) eqn:E.
  - specialize (Hw eq_refl). destruct (stop p) eqn:Es.
    + left. exists act_notify_all. cbn [pool_step]. rewrite Hw. by eexists _, _.
    + right; right. split; [done|]. intros _.
      assert (Hnd : existsb is_done (workers p) = false)
        by (destruct (existsb is_done (workers p)); [destruct (Hd eq_refl); congruence|done]).
      rewrite En, (awake_waiting _ (forallb_other _ _ _ (fun _ H => H) Ex Hnd)) in Hw. destruct (tasks p); [done|cbn in Hw; lia].
  - assert (Hj : joined p = true).
    { apply (forallb_other is_done is_waiting); [|done..]. intros w. by rewrite orb_comm. }
    destruct (stop p) eqn:Es; [by right; left|]. right; right. split; [done|]. intros Hne.
    unfold joined in Hj. destruct (workers p) as [|w ws]; [done|]. cbn in Hj, Hd.
    apply andb_true_iff in Hj as [Hj _]. rewrite Hj in Hd. by destruct (Hd eq_refl).
Qed.

Lemma pool_step_length p a p' e : pool_step p a = Some (p', e) -> length (workers p') = length (workers p).
Proof.
  intros Hs. destruct a as [t|i|i|i| |]; cbn [pool_step] in Hs; unfold enqueue, worker_locked in Hs;
    repeat (case_match; cbn in Hs; try done); simplify_eq; cbn; rewrite ?length_insert, ?length_map; done.
Qed.

Lemma pool_run_length n p tr : pool_run (ThreadPool_new n) p tr -> length (workers p) = n.
Proof.
  induction 1 as [|p tr a p' e _ IH Hs]; [apply length_replicate|]. by rewrite (pool_step_length _ _ _ _ Hs).
Qed.

End pool.

(** A number of further actions. *)
Inductive pool_steps {T} : ThreadPool T -> nat -> ThreadPool T -> Prop :=
| ps_refl p : pool_steps p 0 p
| ps_next p a p1 e n p2 : pool_step p a = Some (p1, e) -> pool_steps p1 n p2 -> pool_steps p (S n) p2.

(** * Properties *)

(** No task is lost, repeated or overtaken.  In every reachable state of a
    pool the tasks enqueued so far are, in this order, those that have been
    started, followed by those in the queue; and those started are the finished
    ones and the ones running, each exactly once. *)
Theorem pool_fifo {T} (threads : nat) (p : ThreadPool T) (tr : list (pool_event T)) :
  pool_run (ThreadPool_new threads) p tr ->
  enqueued tr = started tr ++ tasks p /\ started tr ≡ₚ finished tr ++ running (workers p).
Proof. apply pool_run_history. Qed.

(** C28: no wake-up is lost.  Whenever a task is in the queue of a pool with
    workers, or the pool has been stopped and a worker is left, a worker or a
    pending notification can make progress, without relying on spurious
    wake-ups. *)
Theorem pool_no_lost_wakeup {T} (threads : nat) (p : ThreadPool T) (tr : list (pool_event T)) :
  pool_run (ThreadPool_new threads) p tr ->
  (tasks p <> [] /\ workers p <> [] /\ stop p = false) \/ (stop p = true /\ joined p = false) ->
  exists a p' e, pool_step p a = Some (p', e) /\ internal a.
Proof.
  intros Hr H. apply pool_run_inv in Hr. destruct (pool_progress p Hr) as [Hp|[[H1 H2]|[H1 H2]]]; [done| |].
  - destruct H as [(_ & _ & ?)|[_ ?]]; congruence.
  - destruct H as [(Ht & Hne & _)|[? _]]; [by destruct Ht; apply H2|congruence].
Qed.

(** [Shutdown] ends and drains the queue.  Once a pool with workers has been
    stopped, no run of it is longer than the work left, a run that cannot be
    continued has joined every worker, and then every task that was ever
    enqueued has been finished exactly once. *)
Theorem pool_shutdown {T} (threads : nat) (p : ThreadPool T) (tr : list (pool_event T)) :
  pool_run (ThreadPool_new threads) p tr -> stop p = true -> (0 < threads)%nat ->
  (forall n p', pool_steps p n p' -> (n <= work_left p)%nat) /\
  ((forall a, pool_step p a = None) -> joined p = true) /\
  (joined p = true -> tasks p = [] /\ finished tr ≡ₚ enqueued tr).
Proof.
  intros Hr Hst Hth. split; [|split].
  - clear -Hst. intros n p' Hsteps. induction Hsteps as [p|p a p1 e n p2 Hs _ IH]; [lia|].
    destruct (pool_step_decreases _ _ _ _ Hst Hs) as [Hst1 Hlt]. specialize (IH Hst1). lia.
  - intros Hstuck. destruct (pool_progress p (pool_run_inv _ _ _ Hr)) as [(a & p' & e & Hs & _)|[[_ H]|[H _]]];
      [by rewrite Hstuck in Hs|done|congruence].
  - intros Hj. pose proof (pool_run_history _ _ _ Hr) as [H1 H2]. pose proof (pool_run_inv _ _ _ Hr) as [_ Hd].
    pose proof (pool_run_length _ _ _ Hr) as Hl.
    assert (Hrun : running (workers p) = []).
    { unfold joined in Hj. unfold running. clear -Hj. induction (workers p) as [|w ws IH]; [done|]. cbn in *.
      apply andb_true_iff in Hj as [Hj1 Hj2]. rewrite IH by done. by destruct w. }
    assert (Ht : tasks p = []).
    { unfold joined in Hj. destruct (workers p) as [|w ws]; [cbn in Hl; lia|]. cbn in Hj, Hd.
      apply andb_true_iff in Hj as [Hj _]. apply Hd. by rewrite Hj. }
    split; [done|]. rewrite H1, H2, Ht, Hrun, !app_nil_r. done.
Qed.

(** A run of a pool of two workers with three tasks that is shut down. *)
Fixpoint run_actions {T} (p : ThreadPool T) (acts : list (pool_action T))
    : option (ThreadPool T * list (pool_event T)) :=
  match acts with
  | [] => Some (p, [])
  | a :: acts =>
      match pool_step p a with
      | None => None
      | Some (p, e) =>
          match run_actions p acts with Some (p, es) => Some (p, e :: es) | None => None end
      end
  end.

Lemma run_actions_run {T} (p0 : ThreadPool T) acts p tr p' es :
  pool_run p0 p tr -> run_actions p acts = Some (p', es) -> pool_run p0 p' (tr ++ es).
Proof.
  revert p tr es. induction acts as [|a acts IH]; intros p tr es Hr; cbn [run_actions].
  { intros [= <- <-]. by rewrite app_nil_r. }
  destruct (pool_step p a) as [[p1 e]|] eqn:Es; [|done].
  destruct (run_actions p1 acts) as [[p2 es']|] eqn:Er; [|done]. intros [= <- <-].
  replace (tr ++ e :: es') with ((tr ++ [e]) ++ es') by (by rewrite <- app_assoc).
  apply (IH p1); [by eapply pr_step|done].
Qed.

Definition sample_actions : list (pool_action nat) :=
  [act_worker 0; act_enqueue 10; act_worker 1; act_notify_one 0; act_enqueue 11; act_enqueue 12;
   act_worker 0; act_notify_one 5; act_worker 1]%nat.

Definition sample_shutdown : list (pool_action nat) :=
  sample_actions ++ [act_stop; act_worker 1; act_worker 0; act_worker 0; act_worker 1; act_notify_all;
                     act_notify_one 0; act_worker 1]%nat.

Definition run_sample (acts : list (pool_action nat)) : ThreadPool nat * list (pool_event nat) :=
  default (ThreadPool_new 0, []) (run_actions (ThreadPool_new 2) acts).

Lemma run_sample_run acts :
  run_actions (ThreadPool_new 2) acts <> None ->
  pool_run (ThreadPool_new 2) (run_sample acts).1 (run_sample acts).2.
Proof.
  unfold run_sample. destruct (run_actions _ acts) as [[p es]|] eqn:E; [|done]. intros _. cbn.
  by eapply (run_actions_run _ _ _ [] _ es (pr_start _)) in E.
Qed.

Lemma pool_fifo_witness :
  let p := (run_sample sample_actions).1 in let tr := (run_sample sample_actions).2 in
  enqueued tr = started tr ++ tasks p /\ started tr ≡ₚ finished tr ++ running (workers p).
Proof. apply (pool_fifo 2). apply run_sample_run. vm_compute. discriminate. Defined.

Lemma pool_no_lost_wakeup_witness :
  exists a p' e, pool_step (run_sample sample_actions).1 a = Some (p', e) /\ internal a.
Proof.
  apply (pool_no_lost_wakeup 2 _ (run_sample sample_actions).2).
  - apply run_sample_run. vm_compute. discriminate.
  - left. vm_compute. split; [discriminate|]. split; [discriminate|reflexivity].
Defined.

Lemma pool_shutdown_witness :
  let p := (run_sample sample_shutdown).1 in let tr := (run_sample sample_shutdown).2 in
  (forall n p', pool_steps p n p' -> (n <= work_left p)%nat) /\
  ((forall a, pool_step p a = None) -> joined p = true) /\
  (joined p = true -> tasks p = [] /\ finished tr ≡ₚ enqueued tr).
Proof.
  apply (pool_shutdown 2).
  - apply run_sample_run. vm_compute. discriminate.
  - vm_compute. reflexivity.
  - lia.
Defined.

Example sample_shutdown_drains :
  joined (run_sample sample_shutdown).1 = true /\ finished (run_sample sample_shutdown).2 = [10; 11; 12]%nat.
Proof. split; vm_compute; reflexivity. Qed.
