(* ===== verification/Server.v ===== *)
(** The TCP server ([src/network/TcpServer.cpp], [include/network/Connection.h]):
    an event loop that owns the connections, and the workers that execute
    requests.

    System calls are answered by arguments of the handlers: what [readv], [write],
    [accept] and [epoll_ctl] return.  The kernel's view (open descriptors, the
    events each is registered for, whether the eventfd can be read) is part of
    the state, so is a log of what happened, which no code reads.  The handlers
    run one after the other in the event loop; each worker runs a task in one
    step; [Stop] may come between any two steps (a signal that interrupts a
    handler is not modelled).  Requests are executed through the interface
    [Executor], which [ServerDB] implements with the command executor. *)
From S2P Require Import Prelude NetBuffer Resp ThreadPool.

(** What the server needs from the command executor: to append the reply to a
    command to a buffer, with [true] when an exception was thrown on the way
    ([None]: the call waits), and what other threads may do to the store
    meanwhile. *)
Class Executor (D : Type) := {
  exec : (nat -> bool) -> D -> list bytes -> NetworkBuffer -> outcome (option (D * NetworkBuffer * bool));
  exec_background : D -> D -> Prop;
  exec_buffer : forall flips d command nb s d' nb' threw,
    nb_holds nb s -> exec flips d command nb = Ret (Some (d', nb', threw)) -> exists s', nb_holds nb' s';
}.

(** ** Kernel *)

Definition EPOLLIN : Z := 1.
Definition EPOLLOUT : Z := 4.
Definition EPOLLERR : Z := 8.
Definition EPOLLHUP : Z := 16.
Definition EPOLLRDHUP : Z := 8192.
Definition EINTR : Z := 4.
Definition EAGAIN : Z := 11.

Record Kernel := mkKernel {
  open_fds : gset Z;
  interest : gmap Z Z;
  wake_ready : bool;  (* the counter of the eventfd is not zero *)
}.

Definition k_open (fd : Z) (k : Kernel) : Kernel :=
  mkKernel ({[fd]} ∪ open_fds k) (interest k) (wake_ready k).
Definition k_close (fd : Z) (k : Kernel) : Kernel :=
  mkKernel (open_fds k ∖ {[fd]}) (delete fd (interest k)) (wake_ready k).
Definition k_del (fd : Z) (k : Kernel) : Kernel :=
  mkKernel (open_fds k) (delete fd (interest k)) (wake_ready k).
Definition k_ctl (fd events : Z) (ok : bool) (k : Kernel) : Kernel :=
  if ok then mkKernel (open_fds k) (<[fd := events]> (interest k)) (wake_ready k) else k.
Definition k_wake (b : bool) (k : Kernel) : Kernel := mkKernel (open_fds k) (interest k) b.

(** ** State *)

Record Connection := mkConn {
  generation : Z;
  input_buffer : NetworkBuffer;
  output_buffer : NetworkBuffer;
  parser : RESPParser;
  closing : bool;
  next_request_seq : Z;
  next_write_seq : Z;
  pending_responses : gmap Z bytes;
}.

(** [Connection::Connection] *)
Definition Connection_new (client_generation : Z) : Connection :=
  mkConn client_generation (NetworkBuffer_new 1024) (NetworkBuffer_new 1024) RESPParser_new false 0 0 ∅.

Record WorkerTask := mkTask {
  wt_fd : Z;
  wt_generation : Z;
  wt_seq : Z;
  wt_command : list bytes;
}.

Record CompletedTask := mkCompleted {
  ct_fd : Z;
  ct_generation : Z;
  ct_seq : Z;
  ct_response : bytes;
}.

(** The log; a connection is named by its generation, which is not 0. *)
Inductive log_event : Type :=
| lg_accept (g : Z)
| lg_received (g : Z) (octets : bytes)
| lg_request (g seq : Z) (command : list bytes)
| lg_error (g seq : Z)                                    (* protocol error *)
| lg_executed (g seq : Z) (command : list bytes) (response : bytes)
| lg_sent (g : Z) (octets : bytes)
| lg_closed (g : Z)
| lg_background.                                          (* the store by itself *)

Record TcpServer (D : Type) := mkServer {
  listen_fd : Z;
  epoll_fd : Z;
  wake_fd : Z;
  is_running : bool;
  stopping : bool;
  connections : gmap Z Connection;
  next_generation : Z;
  completed_queue : list CompletedTask;
  thread_pool : ThreadPool WorkerTask;
  sv_db : D;
  kernel : Kernel;
  log : list log_event;
}.
Arguments mkServer {D}.
Arguments listen_fd {D} t.
Arguments epoll_fd {D} t.
Arguments wake_fd {D} t.
Arguments is_running {D} t.
Arguments stopping {D} t.
Arguments connections {D} t.
Arguments next_generation {D} t.
Arguments completed_queue {D} t.
Arguments thread_pool {D} t.
Arguments sv_db {D} t.
Arguments kernel {D} t.
Arguments log {D} t.

Section server.
Context {D : Type} `{Executor D}.
Notation server := (TcpServer D).

(** [TcpServer::TcpServer] *)
Definition TcpServer_new (db : D) : server :=
  mkServer (-1) (-1) (-1) false false ∅ 1 [] (ThreadPool_new 8) db (mkKernel ∅ ∅ false) [].

Definition with_fds (sv : server) (l e w : Z) : server :=
  mkServer l e w (is_running sv) (stopping sv) (connections sv) (next_generation sv)
    (completed_queue sv) (thread_pool sv) (sv_db sv) (kernel sv) (log sv).
Definition with_flags (sv : server) (r s : bool) : server :=
  mkServer (listen_fd sv) (epoll_fd sv) (wake_fd sv) r s (connections sv) (next_generation sv)
    (completed_queue sv) (thread_pool sv) (sv_db sv) (kernel sv) (log sv).
Definition with_connections (sv : server) (cs : gmap Z Connection) : server :=
  mkServer (listen_fd sv) (epoll_fd sv) (wake_fd sv) (is_running sv) (stopping sv) cs (next_generation sv)
    (completed_queue sv) (thread_pool sv) (sv_db sv) (kernel sv) (log sv).
Definition with_generation (sv : server) (g : Z) : server :=
  mkServer (listen_fd sv) (epoll_fd sv) (wake_fd sv) (is_running sv) (stopping sv) (connections sv) g
    (completed_queue sv) (thread_pool sv) (sv_db sv) (kernel sv) (log sv).
Definition with_completed (sv : server) (q : list CompletedTask) : server :=
  mkServer (listen_fd sv) (epoll_fd sv) (wake_fd sv) (is_running sv) (stopping sv) (connections sv)
    (next_generation sv) q (thread_pool sv) (sv_db sv) (kernel sv) (log sv).
Definition with_pool (sv : server) (p : ThreadPool WorkerTask) : server :=
  mkServer (listen_fd sv) (epoll_fd sv) (wake_fd sv) (is_running sv) (stopping sv) (connections sv)
    (next_generation sv) (completed_queue sv) p (sv_db sv) (kernel sv) (log sv).
Definition with_db (sv : server) (db : D) : server :=
  mkServer (listen_fd sv) (epoll_fd sv) (wake_fd sv) (is_running sv) (stopping sv) (connections sv)
    (next_generation sv) (completed_queue sv) (thread_pool sv) db (kernel sv) (log sv).
Definition with_kernel (sv : server) (k : Kernel) : server :=
  mkServer (listen_fd sv) (epoll_fd sv) (wake_fd sv) (is_running sv) (stopping sv) (connections sv)
    (next_generation sv) (completed_queue sv) (thread_pool sv) (sv_db sv) k (log sv).
Definition note (sv : server) (e : log_event) : server :=
  mkServer (listen_fd sv) (epoll_fd sv) (wake_fd sv) (is_running sv) (stopping sv) (connections sv)
    (next_generation sv) (completed_queue sv) (thread_pool sv) (sv_db sv) (kernel sv) (log sv ++ [e]).

Definition put_connection (sv : server) (fd : Z) (conn : Connection) : server :=
  with_connections sv (<[fd := conn]> (connections sv)).

(** [TcpServer::UpdateEpollEvent] and [TcpServer::AddEpollEvent], [ok] being the
    kernel's answer; [TcpServer::RemoveEpollEvent]. *)
Definition UpdateEpollEvent (sv : server) (fd events : Z) (ok : bool) : server :=
  with_kernel sv (k_ctl fd events ok (kernel sv)).
Definition RemoveEpollEvent (sv : server) (fd : Z) : server := with_kernel sv (k_del fd (kernel sv)).
Definition close_fd (sv : server) (fd : Z) : server := with_kernel sv (k_close fd (kernel sv)).

(** [TcpServer::WakeEventLoop]: a write that fails otherwise than by an
    interruption finds the counter at its maximum. *)
Definition WakeEventLoop (sv : server) : server :=
  if wake_fd sv <? 0 then sv else with_kernel sv (k_wake true (kernel sv)).

(** ** Closing *)

(** [TcpServer::MaybeFinishShutdown] *)
Definition MaybeFinishShutdown (sv : server) : server :=
  if negb (stopping sv) then sv
  else if 0 <=? listen_fd sv then sv
  else if bool_decide (connections sv <> ∅) then sv
  else WakeEventLoop (with_flags sv false (stopping sv)).

(** [TcpServer::CloseConnection] *)
Definition CloseConnection (sv : server) (fd : Z) : server :=
  match connections sv !! fd with
  | None => sv
  | Some conn =>
      let sv := RemoveEpollEvent sv fd in
      let sv := close_fd sv fd in
      let sv := with_connections sv (delete fd (connections sv)) in
      MaybeFinishShutdown (note sv (lg_closed (generation conn)))
  end.

(** [TcpServer::IsConnectionDrained] *)
Definition IsConnectionDrained (conn : Connection) : bool :=
  (ReadableBytes (output_buffer conn) =? 0) && bool_decide (pending_responses conn = ∅) &&
  (next_write_seq conn =? next_request_seq conn).

(** ** Connections *)

(** What [accept] and the calls behind it answer. *)
Inductive accept_answer : Type :=
| acc_client (fd : Z) (nonblocking added : bool)
| acc_eintr
| acc_none.  (* [EAGAIN], or an error *)

(** [TcpServer::HandleAccept]; the end of the list is [EAGAIN]. *)
Fixpoint HandleAccept (sv : server) (answers : list accept_answer) : server :=
  if negb (is_running sv) then sv
  else
  match answers with
  | [] | acc_none :: _ => sv
  | acc_eintr :: answers => HandleAccept sv answers
  | acc_client fd nonblocking added :: answers =>
      let sv := with_kernel sv (k_open fd (kernel sv)) in
      if negb nonblocking then HandleAccept (close_fd sv fd) answers
      else
        let g := next_generation sv in
        let sv := with_generation sv (u64 (g + 1)) in
        match connections sv !! fd with
        | Some _ => HandleAccept (close_fd sv fd) answers
        | None =>
            let sv := note (put_connection sv fd (Connection_new g)) (lg_accept g) in
            let sv := UpdateEpollEvent sv fd (Z.lor EPOLLIN EPOLLRDHUP) added in
            if added : bool then HandleAccept sv answers
            else
              let sv := with_connections sv (delete fd (connections sv)) in
              HandleAccept (close_fd sv fd) answers
        end
  end.

Definition with_output (c : Connection) (nb : NetworkBuffer) : Connection :=
  mkConn (generation c) (input_buffer c) nb (parser c) (closing c) (next_request_seq c)
    (next_write_seq c) (pending_responses c).
Definition with_input (c : Connection) (nb : NetworkBuffer) (p : RESPParser) : Connection :=
  mkConn (generation c) nb (output_buffer c) p (closing c) (next_request_seq c)
    (next_write_seq c) (pending_responses c).
Definition with_closing (c : Connection) : Connection :=
  mkConn (generation c) (RetrieveAll (input_buffer c)) (output_buffer c) (parser c) true
    (next_request_seq c) (next_write_seq c) (pending_responses c).
Definition with_request_seq (c : Connection) (n : Z) : Connection :=
  mkConn (generation c) (input_buffer c) (output_buffer c) (parser c) (closing c) n
    (next_write_seq c) (pending_responses c).
(** [pending_responses.emplace] *)
Definition emplace_response (c : Connection) (seq : Z) (response : bytes) : Connection :=
  mkConn (generation c) (input_buffer c) (output_buffer c) (parser c) (closing c) (next_request_seq c)
    (next_write_seq c)
    (match pending_responses c !! seq with
     | Some _ => pending_responses c
     | None => <[seq := response]> (pending_responses c)
     end).

(** The loop that moves the responses whose turn has come to the output buffer;
    the result says whether there was one. *)
Fixpoint flush_responses (fuel : nat) (c : Connection) (appended : bool) : outcome (Connection * bool) :=
  match pending_responses c !! next_write_seq c with
  | None => Ret (c, appended)
  | Some response =>
      match fuel with
      | O => NoFuel
      | S fuel =>
          let* nb := Append (output_buffer c) response in
          flush_responses fuel
            (mkConn (generation c) (input_buffer c) nb (parser c) (closing c) (next_request_seq c)
               (u64 (next_write_seq c + 1)) (delete (next_write_seq c) (pending_responses c)))
            true
      end
  end.

Definition flush_ready (c : Connection) : outcome (Connection * bool) :=
  flush_responses (size (pending_responses c)) c false.

(** [TcpServer::FailConnectionProtocol]; [conn] is the connection of [fd]. *)
Definition FailConnectionProtocol (sv : server) (conn : Connection) (fd : Z) (msg : bytes) (ctl : bool)
    : outcome server :=
  let* nb := EncodeError (NetworkBuffer_new 1024) msg in
  let* (response, _) := RetrieveAllAsString nb in
  let seq := next_request_seq conn in
  let conn := with_request_seq conn (u64 (seq + 1)) in
  let conn := emplace_response conn seq response in
  let conn := with_closing conn in
  let* (conn, appended) := flush_ready conn in
  let sv := note (put_connection sv fd conn) (lg_error (generation conn) seq) in
  let events := if appended : bool then Z.lor EPOLLOUT EPOLLRDHUP else EPOLLRDHUP in
  let sv := UpdateEpollEvent sv fd events ctl in
  Ret (if ctl then sv else CloseConnection sv fd).

(** The parsing loop of [TcpServer::HandleRead]. *)
Fixpoint read_loop (fuel : nat) (sv : server) (conn : Connection) (fd : Z) (ctl : bool) : outcome server :=
  match fuel with
  | O => NoFuel
  | S fuel =>
      let* (p, nb, command, status) := Parse (parser conn) (input_buffer conn) [] in
      let conn := with_input conn nb p in
      match status with
      | SUCCESS =>
          let seq := next_request_seq conn in
          let conn := with_request_seq conn (u64 (seq + 1)) in
          let sv := put_connection sv fd conn in
          match enqueue (thread_pool sv) (mkTask fd (generation conn) seq command) with
          | Some pool => read_loop fuel (note (with_pool sv pool) (lg_request (generation conn) seq command)) conn fd ctl
          | None => Ret (CloseConnection sv fd)
          end
      | INCOMPLETE => Ret (put_connection sv fd conn)
      | ERROR => FailConnectionProtocol (put_connection sv fd conn) conn fd (str "protocol error") ctl
      end
  end.

(** [TcpServer::HandleRead] : [r] is the answer of [readv], [ctl] that of
    [epoll_ctl]. *)
Definition HandleRead (sv : server) (fd : Z) (r : readv_result) (ctl : bool) : outcome server :=
  match connections sv !! fd with
  | None => Ret sv
  | Some conn =>
      if closing conn then Ret sv
      else
        let* (nb, n, savedErrno) := ReadFromFd (input_buffer conn) r 0 in
        let conn := with_input conn nb (parser conn) in
        let sv := put_connection sv fd conn in
        let sv := match r with readv_data octets => note sv (lg_received (generation conn) octets) | _ => sv end in
        if n =? 0 then Ret (CloseConnection sv fd)
        else if n <? 0 then
          if (savedErrno =? EAGAIN) || (savedErrno =? EINTR) then Ret sv
          else Ret (CloseConnection sv fd)
        else read_loop (S (Z.to_nat (ReadableBytes nb))) sv conn fd ctl
  end.

(** What [write] answers: a number of octets taken, or an error number. *)
Inductive write_answer : Type :=
| wr_count (n : Z)
| wr_errno (e : Z).

(** The loop of [TcpServer::HandleWrite]: the octets sent, the buffer, and
    whether writing went well; the end of the list is [EAGAIN]. *)
Fixpoint write_loop (answers : list write_answer) (nb : NetworkBuffer) : outcome (bytes * NetworkBuffer * bool) :=
  if ReadableBytes nb <=? 0 then Ret ([], nb, true)
  else
    match answers with
    | wr_count n :: answers =>
        if 0 <? n then
          let* s := Peek nb in
          let* (sent, nb, ok) := write_loop answers (Retrieve nb n) in
          Ret (take (Z.to_nat n) s ++ sent, nb, ok)
        else Ret ([], nb, true)
    | wr_errno e :: answers =>
        if e =? EINTR then write_loop answers nb
        else Ret ([], nb, e =? EAGAIN)
    | [] => Ret ([], nb, true)
    end.

(** [TcpServer::HandleWrite] *)
Definition HandleWrite (sv : server) (fd : Z) (answers : list write_answer) (ctl : bool) : outcome server :=
  match connections sv !! fd with
  | None => Ret sv
  | Some conn =>
      let* (sent, nb, ok) := write_loop answers (output_buffer conn) in
      let conn := with_output conn nb in
      let sv := note (put_connection sv fd conn) (lg_sent (generation conn) sent) in
      if negb ok then Ret (CloseConnection sv fd)
      else if ReadableBytes (output_buffer conn) =? 0 then
        if closing conn then
          if IsConnectionDrained conn then Ret (CloseConnection sv fd)
          else
            let sv := UpdateEpollEvent sv fd EPOLLRDHUP ctl in
            Ret (if ctl then sv else CloseConnection sv fd)
        else
          let sv := UpdateEpollEvent sv fd (Z.lor EPOLLIN EPOLLRDHUP) ctl in
          Ret (if ctl then sv else CloseConnection sv fd)
      else Ret sv
  end.

(** The answers of the kernel during one event. *)
Record answers := mkAnswers {
  an_accept : list accept_answer;
  an_read : readv_result;
  an_read_ctl : bool;
  an_write : list write_answer;
  an_write_ctl : bool;
  an_ctl : nat -> bool;  (* per completed task *)
}.

Definition has_event (events flag : Z) : bool := negb (Z.land events flag =? 0).

(** [TcpServer::HandleConnectionEvent] *)
Definition HandleConnectionEvent (sv : server) (fd events : Z) (an : answers) : outcome server :=
  if negb (is_running sv) then Ret sv
  else if has_event events (Z.lor EPOLLERR EPOLLHUP) then Ret (CloseConnection sv fd)
  else
    let* sv := if has_event events EPOLLIN then HandleRead sv fd (an_read an) (an_read_ctl an) else Ret sv in
    if has_event events EPOLLOUT then HandleWrite sv fd (an_write an) (an_write_ctl an) else Ret sv.

(** ** Completed tasks *)

(** One turn of the loop of [TcpServer::HandleWorkerCompletions]. *)
Definition complete_task (sv : server) (task : CompletedTask) (ctl : bool) : outcome server :=
  match connections sv !! ct_fd task with
  | None => Ret sv
  | Some conn =>
      if negb (generation conn =? ct_generation task) then Ret sv
      else
        let conn := emplace_response conn (ct_seq task) (ct_response task) in
        let* (conn, appended) := flush_ready conn in
        let sv := put_connection sv (ct_fd task) conn in
        if appended : bool then
          let events := if closing conn then Z.lor EPOLLOUT EPOLLRDHUP
                        else Z.lor (Z.lor EPOLLIN EPOLLRDHUP) EPOLLOUT in
          let sv := UpdateEpollEvent sv (ct_fd task) events ctl in
          Ret (if ctl then sv else CloseConnection sv (ct_fd task))
        else Ret sv
  end.

Fixpoint complete_tasks (i : nat) (sv : server) (local : list CompletedTask) (ctl : nat -> bool)
    : outcome server :=
  match local with
  | [] => Ret sv
  | task :: local => let* sv := complete_task sv task (ctl i) in complete_tasks (S i) sv local ctl
  end.

(** [TcpServer::HandleWorkerCompletions] *)
Definition HandleWorkerCompletions (sv : server) (ctl : nat -> bool) : outcome server :=
  let sv := with_kernel sv (k_wake false (kernel sv)) in
  let local := completed_queue sv in
  let* sv := complete_tasks 0 (with_completed sv []) local ctl in
  Ret (MaybeFinishShutdown sv).

(** One event of [TcpServer::Run]. *)
Definition dispatch (sv : server) (fd events : Z) (an : answers) : outcome server :=
  if negb (is_running sv) then Ret sv
  else if fd =? listen_fd sv then Ret (HandleAccept sv (an_accept an))
  else if fd =? wake_fd sv then HandleWorkerCompletions sv (an_ctl an)
  else HandleConnectionEvent sv fd events an.

(** The task that [HandleRead] enqueues, run by worker [i]: execute the command,
    queue the reply, wake the event loop; [None] while the store makes it wait. *)
Definition run_task (sv : server) (i : nat) (flips : nat -> bool) : outcome (option server) :=
  match workers (thread_pool sv) !! i, pool_step (thread_pool sv) (act_worker i) with
  | Some (w_run t), Some (pool, _) =>
      let* r := exec flips (sv_db sv) (wt_command t) (NetworkBuffer_new 1024) in
      match r with
      | None => Ret None
      | Some (db, nb, threw) =>
          let* nb := if threw : bool then EncodeError nb (str "internal server error") else Ret nb in
          let* (response, _) := RetrieveAllAsString nb in
          let sv := with_db (with_pool sv pool) db in
          let sv := with_completed sv (completed_queue sv ++ [mkCompleted (wt_fd t) (wt_generation t) (wt_seq t) response]) in
          let sv := note sv (lg_executed (wt_generation t) (wt_seq t) (wt_command t) response) in
          Ret (Some (WakeEventLoop sv))
      end
  | _, _ => Ret None
  end.

(** ** Start and stop *)

(** Closing the listening socket, in [Stop] and [Cleanup]. *)
Definition close_listen (sv : server) : server :=
  if 0 <=? listen_fd sv
  then with_fds (close_fd (RemoveEpollEvent sv (listen_fd sv)) (listen_fd sv)) (-1) (epoll_fd sv) (wake_fd sv)
  else sv.

(** What the loop of [Stop] does with one connection: it is drained and to be
    closed, or it stays and is registered anew, [ctl] being the answer; the
    result says whether it is to be closed. *)
Definition stop_connection (sv : server) (fd : Z) (conn : Connection) (ctl : bool) : server * bool :=
  let conn := with_closing conn in
  let sv := put_connection sv fd conn in
  if IsConnectionDrained conn then (sv, true)
  else (UpdateEpollEvent sv fd (Z.lor EPOLLRDHUP EPOLLOUT) ctl, negb ctl).

Fixpoint stop_connections (sv : server) (conns : list (Z * Connection)) (ctl : Z -> bool) : server * list Z :=
  match conns with
  | [] => (sv, [])
  | (fd, conn) :: conns =>
      let '(sv, close) := stop_connection sv fd conn (ctl fd) in
      let '(sv, to_close) := stop_connections sv conns ctl in
      (sv, if close : bool then fd :: to_close else to_close)
  end.

(** [TcpServer::Stop] : [ctl fd] is the kernel's answer for the connection. *)
Definition Stop (sv : server) (ctl : Z -> bool) : server :=
  if negb (is_running sv) then sv
  else if stopping sv then WakeEventLoop sv
  else
    let sv := close_listen (with_flags sv (is_running sv) true) in
    let '(sv, to_close) := stop_connections sv (map_to_list (connections sv)) ctl in
    let sv := foldl CloseConnection sv to_close in
    MaybeFinishShutdown (WakeEventLoop sv).

(** [TcpServer::Cleanup] in two parts: up to the notification of the workers in
    [Shutdown], and behind [Shutdown], which waits until they have left. *)
Definition Cleanup_begin (sv : server) : server :=
  let sv := close_listen sv in
  match pool_step (thread_pool sv) act_stop with Some (p, _) => with_pool sv p | None => sv end.

Definition Cleanup_end (sv : server) : server :=
  let sv := with_completed sv [] in
  let sv := foldl (fun sv fd => close_fd (RemoveEpollEvent sv fd) fd) sv (map_to_list (connections sv)).*1 in
  let sv := with_connections sv ∅ in
  let sv :=
    if 0 <=? wake_fd sv
    then with_fds (close_fd (RemoveEpollEvent sv (wake_fd sv)) (wake_fd sv)) (listen_fd sv) (epoll_fd sv) (-1)
    else sv in
  if 0 <=? epoll_fd sv
  then with_fds (close_fd sv (epoll_fd sv)) (listen_fd sv) (-1) (wake_fd sv)
  else sv.

(** The kernel's answers to the calls of [Start]: new descriptors (negative on
    failure) and successes. *)
Record start_answers := mkStart {
  sa_socket : Z;
  sa_setsockopt : bool;
  sa_nonblock : bool;
  sa_bind : bool;
  sa_listen : bool;
  sa_epoll : Z;
  sa_add_listen : bool;
  sa_eventfd : Z;
  sa_add_wake : bool;
}.

(** [TcpServer::InitListenSocket] *)
Definition InitListenSocket (sv : server) (sa : start_answers) : server * bool :=
  if sa_socket sa <? 0 then (with_fds sv (sa_socket sa) (epoll_fd sv) (wake_fd sv), false)
  else
    let sv := with_fds (with_kernel sv (k_open (sa_socket sa) (kernel sv))) (sa_socket sa) (epoll_fd sv) (wake_fd sv) in
    if sa_setsockopt sa && sa_nonblock sa && sa_bind sa && sa_listen sa then (sv, true)
    else (with_fds (close_fd sv (listen_fd sv)) (-1) (epoll_fd sv) (wake_fd sv), false).

(** [TcpServer::InitEpoll] *)
Definition InitEpoll (sv : server) (sa : start_answers) : server * bool :=
  if sa_epoll sa <? 0 then (with_fds sv (listen_fd sv) (-1) (wake_fd sv), false)
  else (with_fds (with_kernel sv (k_open (sa_epoll sa) (kernel sv))) (listen_fd sv) (sa_epoll sa) (wake_fd sv), true).

(** [TcpServer::InitWakeFd] *)
Definition InitWakeFd (sv : server) (sa : start_answers) : server * bool :=
  if sa_eventfd sa <? 0 then (with_fds sv (listen_fd sv) (epoll_fd sv) (-1), false)
  else
    let sv := with_fds (with_kernel sv (k_open (sa_eventfd sa) (kernel sv))) (listen_fd sv) (epoll_fd sv) (sa_eventfd sa) in
    let sv := UpdateEpollEvent sv (wake_fd sv) EPOLLIN (sa_add_wake sa) in
    if sa_add_wake sa then (sv, true)
    else (with_fds (close_fd sv (wake_fd sv)) (listen_fd sv) (epoll_fd sv) (-1), false).

(** How [Start] ends: listening, failed, or failed with [Cleanup_end] still to
    come, once the workers have left. *)
Inductive start_result : Type :=
| started_ok
| start_failed
| start_cleanup.

(** [TcpServer::Start] *)
Definition Start (sv : server) (sa : start_answers) : server * start_result :=
  let '(sv, ok) := InitListenSocket sv sa in
  if negb ok then (sv, start_failed)
  else
    let '(sv, ok) := InitEpoll sv sa in
    if negb ok then (Cleanup_begin sv, start_cleanup)
    else
      let sv := UpdateEpollEvent sv (listen_fd sv) EPOLLIN (sa_add_listen sa) in
      if negb (sa_add_listen sa) then (Cleanup_begin sv, start_cleanup)
      else
        let '(sv, ok) := InitWakeFd sv sa in
        if negb ok then (Cleanup_begin sv, start_cleanup)
        else (with_flags sv true false, started_ok).

End server.
