(* ===== verification/ServerDB.v ===== *)
(** The server's [Executor] is the command executor on a store. *)
From S2P Require Import Prelude DBImpl DBConc NetBuffer Resp Command Server.

(** ** Every handler leaves a well-formed response buffer *)

Lemma encode_reply_some nb s r nb' :
  nb_holds nb s -> encode_reply nb r = Ret nb' -> exists s', nb_holds nb' s'.
Proof. intros H E. destruct (encode_reply_holds nb s r H) as (nb1 & E1 & H1). rewrite E1 in E. injection E as <-. eauto. Qed.

(** The result of a handler that started with a well-formed buffer. *)
Definition holds_result (r : outcome exec_result) : Prop :=
  match r with Ret (ExecDone _ nb) | Ret (ExecNull nb) => exists s, nb_holds nb s | _ => True end.

Lemma holds_done nb s r (k : NetworkBuffer -> exec_result) :
  nb_holds nb s -> (forall nb', (exists s', nb_holds nb' s') -> holds_result (Ret (k nb'))) ->
  holds_result (let* nb := encode_reply nb r in Ret (k nb)).
Proof.
  intros H Hk. destruct (encode_reply_holds nb s r H) as (nb1 & -> & H1). cbn [obind]. apply Hk. by eexists.
Qed.

Lemma holds_args command n nb s (k : NetworkBuffer -> bool -> outcome exec_result) :
  nb_holds nb s -> (forall nb' ok, (exists s', nb_holds nb' s') -> holds_result (k nb' ok)) ->
  holds_result (let* (nb, ok) := ExpectArgCount command n nb in k nb ok).
Proof.
  intros H Hk. unfold ExpectArgCount. destruct (_ =? n); [apply Hk; by eexists|]. destruct command as [|name args]; [done|].
  destruct (encode_reply_holds nb s (re_error (wrong_arguments (NormalizeCommandName name))) H) as (nb1 & E & H1).
  cbn [encode_reply] in E. rewrite E. cbn [obind]. apply Hk. by eexists.
Qed.

Lemma holds_obind {A} (m : outcome A) (k : A -> outcome exec_result) :
  (forall a, holds_result (k a)) -> holds_result (obind m k).
Proof. intros Hk. by destruct m as [a| |]; cbn. Qed.

Lemma Execute_buffer flips db command nb s :
  nb_holds nb s -> holds_result (Execute flips db command nb).
Proof.
  intros H. destruct db as [db|]; cbn [Execute]; [|by apply (holds_done _ s (re_error _) ExecNull)].
  destruct command as [|name args]; cbn [Execute_db]; [by apply (holds_done _ s (re_error _) (ExecDone db))|].
  repeat case_decide; [| | | |by apply (holds_done _ s (re_error _) (ExecDone db))];
    unfold HandleSet, HandleGet, HandleDel, HandleRScan;
    (apply (holds_args _ _ nb s); [done|]; intros nb1 ok [s1 Hn1]; destruct ok; cbn [negb]; [|by exists s1]).
  - do 3 (apply holds_obind; intros ?). destruct a1 as [db'|]; [|done].
    by apply (holds_done _ s1 (re_simple (str "OK")) (ExecDone db')).
  - apply holds_obind; intros k. apply holds_obind; intros [record found].
    destruct found; [by apply (holds_done _ s1 (re_bulk _) (ExecDone db))|by apply (holds_done _ s1 re_null (ExecDone db))].
  - do 2 (apply holds_obind; intros ?). destruct a0 as [db'|]; [|done].
    by apply (holds_done _ s1 (re_simple (str "OK")) (ExecDone db')).
  - do 3 (apply holds_obind; intros ?). by apply (holds_done _ s1 (re_array _) (ExecDone db)).
Qed.

(** ** The instance *)

(** [CommandExecutor::Execute] called by a worker.  No function of the store that
    it calls throws. *)
Definition exec_command (flips : nat -> bool) (db : DBImpl) (command : list bytes) (nb : NetworkBuffer)
    : outcome (option (DBImpl * NetworkBuffer * bool)) :=
  let* r := Execute flips (Some db) command nb in
  match r with
  | ExecDone db nb => Ret (Some (db, nb, false))
  | ExecWaits => Ret None
  | ExecNull nb => Ret (Some (db, nb, false))
  end.

(** The same on a store whose background thread may be anywhere in its work
    ([DBConc]).  The calls of the workers are atomic; the program counter of the
    writer is not used. *)
Definition live_exec (flips : nat -> bool) (c : cstate) (command : list bytes) (nb : NetworkBuffer)
    : outcome (option (cstate * NetworkBuffer * bool)) :=
  let* r := exec_command flips (c_db c) command nb in
  match r with
  | None => Ret None
  | Some (db, nb, threw) => Ret (Some (mkC db (c_bg c) (c_wr c), nb, threw))
  end.

(** What happens to the store between two calls: a step of the background thread,
    one that fails to write its SSTable, or the first critical section of a [Put],
    whose write comes later. *)
Inductive store_step : cstate -> cstate -> Prop :=
| st_background db bg wr db' bg' :
    bg_step db bg = Ret (Some (db', bg')) -> store_step (mkC db bg wr) (mkC db' bg' wr)
| st_fault db bg wr db' :
    bg_fault db bg db' -> store_step (mkC db bg wr) (mkC db' bg_reset wr)
| st_switch db bg wr k v flips db' :
    wr_step db (wr_enter k v flips) = Ret (Some (db', wr_write k v flips, None)) ->
    store_step (mkC db bg wr) (mkC db' bg wr).

#[export] Program Instance db_executor : Executor cstate := {
  exec := live_exec;
  exec_background := store_step;
}.
Next Obligation.
  intros flips c command nb s c' nb' threw H E. unfold live_exec, exec_command in E.
  pose proof (Execute_buffer flips (Some (c_db c)) command nb s H) as Hx.
  destruct (Execute flips (Some (c_db c)) command nb) as [[db1 nb1| |nb1]| |]; cbn [obind] in E; try done; by injection E as _ <- <-.
Qed.
