(* ===== verification/ServerFrame.v ===== *)
(** What every handler of the server ([Server]) leaves alone: it appends to the
    log, uses the pool only to enqueue, and does not touch the store. *)
From S2P Require Import Prelude NetBuffer Resp ThreadPool Server.

Definition pool_ok (p : ThreadPool WorkerTask) : Prop := pool_inv p /\ length (workers p) = 8%nat.

Lemma pool_ok_step p a p' e : pool_ok p -> pool_step p a = Some (p', e) -> pool_ok p'.
Proof. intros [H1 H2] Hs. split; [by eapply pool_step_inv|]. by rewrite (pool_step_length _ _ _ _ Hs). Qed.

(** Events that are not the store's. *)
Definition front_event (e : log_event) : Prop :=
  match e with lg_executed _ _ _ _ | lg_background => False | _ => True end.

Section frame.
Context {D : Type} `{Executor D}.
Implicit Types (sv : TcpServer D) (c : Connection).

Definition advances sv sv' : Prop :=
  (exists es, log sv' = log sv ++ es /\ Forall front_event es) /\
  ((pool_ok (thread_pool sv) -> pool_ok (thread_pool sv')) /\ stop (thread_pool sv') = stop (thread_pool sv)) /\
  sv_db sv' = sv_db sv.

#[export] Instance advances_preorder : PreOrder advances.
Proof.
  split.
  - intros sv. split; [exists []; by rewrite app_nil_r|done].
  - intros sv1 sv2 sv3 ((es1 & E1 & F1) & [P1 S1] & D1) ((es2 & E2 & F2) & [P2 S2] & D2).
    split; [|split; [split; [auto|]|]; congruence].
    exists (es1 ++ es2). rewrite E2, E1, app_assoc. split; [done|]. by apply Forall_app.
Qed.

Lemma advances_log sv sv' : advances sv sv' -> log sv `prefix_of` log sv'.
Proof. intros ((es & -> & _) & _). by eexists. Qed.

Lemma advances_stop sv sv' : advances sv sv' -> stop (thread_pool sv') = stop (thread_pool sv).
Proof. by intros (_ & [_ ->] & _). Qed.

Lemma advances_same sv sv' : log sv' = log sv -> thread_pool sv' = thread_pool sv -> sv_db sv' = sv_db sv -> advances sv sv'.
Proof. intros El Ep Ed. split; [exists []; by rewrite app_nil_r|]. by rewrite Ep. Qed.

Lemma advances_note sv sv' e :
  log sv' = log sv ++ [e] -> front_event e -> thread_pool sv' = thread_pool sv -> sv_db sv' = sv_db sv -> advances sv sv'.
Proof. intros El He Ep Ed. split; [exists [e]; by repeat constructor|]. by rewrite Ep. Qed.

Lemma WakeEventLoop_log sv : log (WakeEventLoop sv) = log sv.
Proof. unfold WakeEventLoop. by case_match. Qed.

Lemma MaybeFinishShutdown_log sv : log (MaybeFinishShutdown sv) = log sv.
Proof. unfold MaybeFinishShutdown. repeat case_match; try done. by rewrite WakeEventLoop_log. Qed.

Lemma WakeEventLoop_advances sv : advances sv (WakeEventLoop sv).
Proof. apply advances_same; unfold WakeEventLoop; by case_match. Qed.

Lemma MaybeFinishShutdown_advances sv : advances sv (MaybeFinishShutdown sv).
Proof.
  unfold MaybeFinishShutdown. repeat case_match; try done.
  etrans; [|apply WakeEventLoop_advances]. by apply advances_same.
Qed.

Lemma CloseConnection_advances sv fd : advances sv (CloseConnection sv fd).
Proof.
  unfold CloseConnection. destruct (connections sv !! fd) as [c|]; [|done].
  etrans; [|apply MaybeFinishShutdown_advances]. by apply (advances_note _ _ (lg_closed (generation c))).
Qed.

(** After [sv1], which extends [sv], possibly with the connection closed. *)
Lemma advances_closed sv sv1 sv2 fd :
  advances sv sv1 -> log sv2 = log sv1 -> thread_pool sv2 = thread_pool sv1 -> sv_db sv2 = sv_db sv1 ->
  advances sv (CloseConnection sv2 fd).
Proof.
  intros Ha El Ep Ed. etrans; [exact Ha|]. etrans; [by apply (advances_same sv1 sv2)|apply CloseConnection_advances].
Qed.

Lemma advances_register sv sv1 fd fd' events (ctl : bool) :
  advances sv sv1 ->
  advances sv (if ctl then UpdateEpollEvent sv1 fd events ctl else CloseConnection (UpdateEpollEvent sv1 fd events ctl) fd').
Proof. intros Ha. destruct ctl; [exact Ha|]. by apply (advances_closed _ sv1). Qed.

Lemma FailConnectionProtocol_advances sv c fd msg ctl sv' :
  FailConnectionProtocol sv c fd msg ctl = Ret sv' -> advances sv sv'.
Proof.
  unfold FailConnectionProtocol. destruct (EncodeError _ _) as [nb| |]; [|done..]. cbn [obind].
  destruct (RetrieveAllAsString nb) as [[r nb']| |]; [|done..]. cbn [obind].
  destruct (flush_ready _) as [[c' app]| |]; [|done..]. cbn [obind]. intros [= <-].
  apply advances_register. by apply (advances_note _ _ (lg_error (generation c') (next_request_seq c))).
Qed.

Lemma read_loop_advances fuel sv c fd ctl sv' : read_loop fuel sv c fd ctl = Ret sv' -> advances sv sv'.
Proof.
  revert sv c. induction fuel as [|fuel IH]; intros sv c; [done|]. cbn [read_loop].
  destruct (Parse _ _ _) as [[[[p nb] command] st]| |]; [|done..]. cbn [obind]. destruct st.
  - destruct (enqueue _ _) as [pool|] eqn:Ee.
    + intros HR%IH. etrans; [|exact HR]. split; [by eexists [_]; repeat constructor|]. split; [|done].
      split; [|unfold enqueue in Ee; destruct (stop _) eqn:Es; [done|]; by injection Ee as <-]. intros Hp. refine (pool_ok_step (thread_pool sv) (act_enqueue _) _ (pe_enqueue _) Hp _).
      cbn [pool_step]. cbn [put_connection with_connections thread_pool] in Ee. by rewrite Ee.
    + intros [= <-]. by apply (advances_closed _ sv).
  - intros [= <-]. by apply advances_same.
  - apply FailConnectionProtocol_advances.
Qed.

Lemma HandleRead_advances sv fd r ctl sv' : HandleRead sv fd r ctl = Ret sv' -> advances sv sv'.
Proof.
  unfold HandleRead. destruct (connections sv !! fd) as [c|]; [|by intros [= <-]].
  destruct (closing c); [by intros [= <-]|].
  destruct (ReadFromFd _ _ _) as [[[nb n] e]| |]; [|done..]. cbn [obind].
  set (sv1 := match r with readv_error _ => _ | _ => _ end).
  assert (H1 : advances sv sv1).
  { unfold sv1. destruct r as [|data]; [by apply advances_same|]. by apply (advances_note _ _ (lg_received (generation c) data)). }
  clearbody sv1. assert (H2 : advances sv (CloseConnection sv1 fd)) by (by apply (advances_closed _ sv1)).
  destruct (n =? 0); [by intros [= <-]|]. destruct (n <? 0).
  - destruct (_ || _); by intros [= <-].
  - intros HR%read_loop_advances. etrans; [exact H1|exact HR].
Qed.

Lemma HandleWrite_advances sv fd an ctl sv' : HandleWrite sv fd an ctl = Ret sv' -> advances sv sv'.
Proof.
  unfold HandleWrite. destruct (connections sv !! fd) as [c|]; [|by intros [= <-]].
  destruct (write_loop _ _) as [[[o nb] ok]| |]; [|done..]. cbn [obind]. set (sv1 := note _ _).
  assert (H1 : advances sv sv1) by (by apply (advances_note _ _ (lg_sent (generation c) o))). clearbody sv1.
  destruct (negb ok); [intros [= <-]; by apply (advances_closed _ sv1)|].
  destruct (_ =? 0); [|by intros [= <-]].
  destruct (closing _); [destruct (IsConnectionDrained _); [intros [= <-]; by apply (advances_closed _ sv1)|]|];
    intros [= <-]; by apply advances_register.
Qed.

Lemma HandleConnectionEvent_advances sv fd events an sv' :
  HandleConnectionEvent sv fd events an = Ret sv' -> advances sv sv'.
Proof.
  unfold HandleConnectionEvent. destruct (negb _); [by intros [= <-]|].
  destruct (has_event events (Z.lor EPOLLERR EPOLLHUP)); [intros [= <-]; apply CloseConnection_advances|].
  destruct (if has_event events EPOLLIN then _ else _) as [sv1| |] eqn:E1; [|done..]. cbn [obind].
  assert (H1 : advances sv sv1).
  { destruct (has_event events EPOLLIN); [by eapply HandleRead_advances|by injection E1 as <-]. }
  destruct (has_event events EPOLLOUT); [|by intros [= <-]].
  intros HW%HandleWrite_advances. etrans; [exact H1|exact HW].
Qed.

Lemma complete_task_advances sv task ctl sv' : complete_task sv task ctl = Ret sv' -> advances sv sv'.
Proof.
  unfold complete_task. destruct (connections sv !! ct_fd task) as [c|]; [|by intros [= <-]].
  destruct (negb _); [by intros [= <-]|]. destruct (flush_ready _) as [[c2 app]| |]; [|done..]. cbn [obind].
  destruct app; intros [= <-]; [apply advances_register|]; by apply advances_same.
Qed.

Lemma complete_tasks_advances local i sv ctl sv' : complete_tasks i sv local ctl = Ret sv' -> advances sv sv'.
Proof.
  revert i sv. induction local as [|task local IH]; intros i sv; cbn [complete_tasks]; [by intros [= <-]|].
  destruct (complete_task sv task (ctl i)) as [sv1| |] eqn:E; [|done..]. cbn [obind].
  intros HR%IH. etrans; [by eapply complete_task_advances|exact HR].
Qed.

Lemma HandleWorkerCompletions_advances sv ctl sv' : HandleWorkerCompletions sv ctl = Ret sv' -> advances sv sv'.
Proof.
  unfold HandleWorkerCompletions. destruct (complete_tasks _ _ _ _) as [sv1| |] eqn:E; [|done..]. cbn [obind].
  intros [= <-]. etrans; [|apply MaybeFinishShutdown_advances]. etrans; [|exact (complete_tasks_advances _ _ _ _ _ E)].
  by apply advances_same.
Qed.

Lemma HandleAccept_advances an sv : advances sv (HandleAccept sv an).
Proof.
  revert sv. induction an as [|a an IH]; intros sv; cbn [HandleAccept]; (destruct (is_running sv); cbn [negb]; [|done]); [done|].
  destruct a as [fd nonblocking added| |]; [|apply IH|done].
  destruct nonblocking; cbn [negb]; [|etrans; [|apply IH]; by apply advances_same].
  cbn [connections with_generation with_kernel].
  destruct (connections sv !! fd); [etrans; [|apply IH]; by apply advances_same|].
  destruct added; (etrans; [|apply IH]); by apply (advances_note _ _ (lg_accept (next_generation sv))).
Qed.

Lemma dispatch_advances sv fd events an sv' : dispatch sv fd events an = Ret sv' -> advances sv sv'.
Proof.
  unfold dispatch. destruct (negb _); [by intros [= <-]|].
  destruct (fd =? listen_fd sv); [intros [= <-]; apply HandleAccept_advances|].
  destruct (fd =? wake_fd sv); [apply HandleWorkerCompletions_advances|apply HandleConnectionEvent_advances].
Qed.

Lemma stop_connections_advances ctl L sv : advances sv (stop_connections sv L ctl).1.
Proof.
  revert sv. induction L as [|[fd c] L IH]; intros sv; [done|]. cbn [stop_connections]. unfold stop_connection.
  destruct (IsConnectionDrained _); match goal with |- context [stop_connections ?s L ctl] => specialize (IH s) end;
    destruct (stop_connections _ L ctl); (etrans; [|exact IH]); by apply advances_same.
Qed.

Lemma close_all_advances tc sv : advances sv (foldl CloseConnection sv tc).
Proof. revert sv. induction tc as [|fd tc IH]; intros sv; [done|]. etrans; [apply CloseConnection_advances|apply IH]. Qed.

Lemma Stop_advances sv ctl : advances sv (Stop sv ctl).
Proof.
  unfold Stop. destruct (negb _); [done|]. destruct (stopping sv); [apply WakeEventLoop_advances|].
  set (sv0 := close_listen _). assert (H0 : advances sv sv0).
  { unfold sv0, close_listen. case_match; by apply advances_same. }
  pose proof (stop_connections_advances ctl (map_to_list (connections sv0)) sv0) as H1.
  destruct (stop_connections _ _ ctl) as [sv2 tc]. cbn [fst] in H1. etrans; [exact H0|]. etrans; [exact H1|].
  etrans; [apply close_all_advances|]. etrans; [apply WakeEventLoop_advances|apply MaybeFinishShutdown_advances].
Qed.

End frame.
