(* ===== verification/ServerInv.v ===== *)
(** The runs of the server ([Server]) and what holds in all of them: the
    invariant of the sessions, of the log and of the kernel's registrations, and
    the lemmas that every handler keeps it. *)
From S2P Require Import Prelude NetBuffer Resp ThreadPool Server ServerFrame.

(** ** Histories of a connection *)

Definition protocol_error : bytes := reply_octets (re_error (str "protocol error")).

Definition event_generation (e : log_event) : Z :=
  match e with
  | lg_accept g | lg_received g _ | lg_request g _ _ | lg_error g _ | lg_executed g _ _ _
  | lg_sent g _ | lg_closed g => g
  | lg_background => 0
  end.

(** The numbers given out on connection [g], in order; the commands among them. *)
Definition numbers (g : Z) (lg : list log_event) : list Z :=
  omap (fun e => match e with
                 | lg_request g' k _ | lg_error g' k => if decide (g' = g) then Some k else None
                 | _ => None
                 end) lg.
Definition commands (g : Z) (lg : list log_event) : list (list bytes) :=
  omap (fun e => match e with
                 | lg_request g' _ c => if decide (g' = g) then Some c else None
                 | _ => None
                 end) lg.

(** The octets received and sent. *)
Definition received (g : Z) (lg : list log_event) : bytes :=
  concat (omap (fun e => match e with
                         | lg_received g' s => if decide (g' = g) then Some s else None
                         | _ => None
                         end) lg).
Definition sent (g : Z) (lg : list log_event) : bytes :=
  concat (omap (fun e => match e with
                         | lg_sent g' s => if decide (g' = g) then Some s else None
                         | _ => None
                         end) lg).

(** Requests made and executed, on all connections. *)
Definition requests (lg : list log_event) : list (Z * Z * list bytes) :=
  omap (fun e => match e with lg_request g k c => Some (g, k, c) | _ => None end) lg.
Definition executed (lg : list log_event) : list (Z * Z * list bytes) :=
  omap (fun e => match e with lg_executed g k c _ => Some (g, k, c) | _ => None end) lg.

(** [r] is the reply to request [k] of connection [g]. *)
Definition answered (lg : list log_event) (g k : Z) (r : bytes) : Prop :=
  (exists c, lg_request g k c ∈ lg /\ lg_executed g k c r ∈ lg) \/
  (lg_error g k ∈ lg /\ r = protocol_error).

(** [rs] are replies to the requests [0], [1], ... of connection [g]. *)
Definition replies (lg : list log_event) (g : Z) (rs : list bytes) : Prop :=
  forall i r, rs !! i = Some r -> answered lg g (Z.of_nat i) r.

(** ** Work under way *)

Section runs.
Context {D : Type} `{Executor D}.
Notation server := (TcpServer D).

(** Tasks queued or being run. *)
Definition tasks_of (sv : server) : list WorkerTask :=
  tasks (thread_pool sv) ++ running (workers (thread_pool sv)).

Definition task_request (t : WorkerTask) : Z * Z * list bytes := (wt_generation t, wt_seq t, wt_command t).

(** The numbers of connection [g] on [fd] that are with the workers or completed. *)
Definition outstanding (ts : list WorkerTask) (cs : list CompletedTask) (fd g : Z) : list Z :=
  omap (fun t => if decide (wt_fd t = fd /\ wt_generation t = g) then Some (wt_seq t) else None) ts ++
  omap (fun c => if decide (ct_fd c = fd /\ ct_generation c = g) then Some (ct_seq c) else None) cs.

(** ** Runs *)

(** What the kernel promises of [accept]: a descriptor that is not open. *)
Fixpoint accept_fresh (opened : gset Z) (answers : list accept_answer) : Prop :=
  match answers with
  | acc_client fd nonblocking added :: answers =>
      0 <= fd /\ fd ∉ opened /\
      accept_fresh (if nonblocking && added then ({[fd]} ∪ opened) else opened) answers
  | acc_eintr :: answers => accept_fresh opened answers
  | _ => True
  end.

(** What the pool does by itself: waking up, and taking tasks from the queue. *)
Definition scheduling (a : pool_action WorkerTask) (e : pool_event WorkerTask) : Prop :=
  match e with pe_start _ => True | pe_quiet => a <> act_stop | _ => False end.

(** One step of the running server.  The event loop has ended once the pool has
    been stopped; an event may be of a descriptor that has been closed or given
    out anew since it was reported. *)
Inductive sstep : server -> server -> Prop :=
| ss_event sv fd events an sv' :
    stop (thread_pool sv) = false -> 0 <= fd -> accept_fresh (open_fds (kernel sv)) (an_accept an) ->
    dispatch sv fd events an = Ret sv' -> sstep sv sv'
| ss_pool sv a p e :
    pool_step (thread_pool sv) a = Some (p, e) -> scheduling a e -> sstep sv (with_pool sv p)
| ss_task sv i flips sv' : run_task sv i flips = Ret (Some sv') -> sstep sv sv'
| ss_store sv db : exec_background (sv_db sv) db -> sstep sv (note (with_db sv db) lg_background)
| ss_stop sv ctl : sstep sv (Stop sv ctl)
| ss_cleanup sv : sstep sv (Cleanup_begin sv)
| ss_cleaned sv :
    stop (thread_pool sv) = true -> joined (thread_pool sv) = true -> sstep sv (Cleanup_end sv).

(** Descriptors that the kernel gives to [Start]. *)
Definition start_fresh (sa : start_answers) : Prop :=
  sa_socket sa <> sa_epoll sa /\ sa_socket sa <> sa_eventfd sa /\ sa_epoll sa <> sa_eventfd sa.

Inductive sreach (db : D) : server -> Prop :=
| sr_start sa sv : start_fresh sa -> Start (TcpServer_new db) sa = (sv, started_ok) -> sreach db sv
| sr_step sv sv' : sreach db sv -> sstep sv sv' -> sreach db sv'.

(** ** The invariant *)

(** Requests are numbered like the commands; a protocol error comes last. *)
Definition indexed (lg : list log_event) (g : Z) : Prop :=
  (forall k c, lg_request g k c ∈ lg -> 0 <= k /\ commands g lg !! Z.to_nat k = Some c) /\
  (forall k, lg_error g k ∈ lg -> k = zlen (commands g lg)).

(** The commands of the connection are those of the octets received; the parser
    has consumed all of them but [s]. *)
Definition stream_at (lg : list log_event) (g : Z) (p : RESPParser) (s : bytes) : Prop :=
  parser_ok p /\ idle p s [] /\ (forall k, lg_error g k ∉ lg) /\ indexed lg g /\ exists nb, nb_holds nb s /\
    parse_commands RESPParser_new (nb_of (received g lg)) = Ret (commands g lg, p, nb, INCOMPLETE).

(** The requests of a connection are the commands in the octets received, and
    there is a protocol error where the parser finds one. *)
Definition stream_ok (lg : list log_event) (g : Z) : Prop :=
  exists p nb st, parse_commands RESPParser_new (nb_of (received g lg)) = Ret (commands g lg, p, nb, st) /\
    (st = ERROR <-> exists k, lg_error g k ∈ lg) /\ indexed lg g.

(** A connection of which the requests [out] are under way. *)
Record session (lg : list log_event) (out : list Z) (c : Connection) : Prop := {
  se_output : exists rs s, zlen rs = next_write_seq c /\ replies lg (generation c) rs /\
    nb_holds (output_buffer c) s /\ sent (generation c) lg ++ s = concat rs;
  se_numbers : next_request_seq c = zlen (numbers (generation c) lg);
  se_under_way : out ++ (map_to_list (pending_responses c)).*1 ≡ₚ
    seqZ (next_write_seq c) (next_request_seq c - next_write_seq c);
  se_order : next_write_seq c <= next_request_seq c;
  se_pending : forall k r, pending_responses c !! k = Some r -> answered lg (generation c) k r;
}.

Definition reading (lg : list log_event) (c : Connection) : Prop :=
  exists s, nb_holds (input_buffer c) s /\
    (closing c = false -> stream_at lg (generation c) (parser c) s).

(** Between two handlers no reply is left whose turn has come. *)
Definition session_ok (lg : list log_event) (out : list Z) (c : Connection) : Prop :=
  session lg out c /\ reading lg c /\ pending_responses c !! next_write_seq c = None.

(** The events a connection is registered for suffice: to read, and to write what
    is there to be written; to write or close it in the end, once it is being
    closed. *)
Definition suits (e : Z) (c : Connection) : Prop :=
  if closing c then has_event e EPOLLOUT = true \/ next_write_seq c < next_request_seq c
  else has_event e EPOLLIN = true /\ (ReadableBytes (output_buffer c) <> 0 -> has_event e EPOLLOUT = true).

Definition watched (k : Kernel) (fd : Z) (c : Connection) : Prop :=
  exists e, interest k !! fd = Some e /\ suits e c.

Record log_inv (lg : list log_event) (ts : list WorkerTask) (cs : list CompletedTask) (ng : Z) : Prop := {
  li_generations : Forall (fun e => event_generation e < ng) lg;
  li_executed : map task_request ts ++ executed lg ≡ₚ requests lg;
  li_completed : Forall (fun c => answered lg (ct_generation c) (ct_seq c) (ct_response c)) cs;
  li_numbers : forall g, numbers g lg = seqZ 0 (zlen (numbers g lg));
  li_sent : forall g, exists rs, replies lg g rs /\ sent g lg `prefix_of` concat rs;
  li_next : 1 <= ng <= 1 + zlen lg;
}.

(** The descriptors that the server holds. *)
Definition nonneg (fd : Z) : gset Z := if 0 <=? fd then {[fd]} else ∅.
Definition held (sv : server) : gset Z :=
  dom (connections sv) ∪ nonneg (listen_fd sv) ∪ nonneg (epoll_fd sv) ∪ nonneg (wake_fd sv).

Record kernel_inv (sv : server) : Prop := {
  ki_open : open_fds (kernel sv) = held sv;
  ki_conns : forall fd, is_Some (connections sv !! fd) ->
    0 <= fd /\ fd <> listen_fd sv /\ fd <> epoll_fd sv /\ fd <> wake_fd sv;
  ki_listen : 0 <= listen_fd sv -> listen_fd sv <> epoll_fd sv /\ listen_fd sv <> wake_fd sv /\
    interest (kernel sv) !! listen_fd sv = Some EPOLLIN;
  ki_wake : 0 <= wake_fd sv -> wake_fd sv <> epoll_fd sv /\ interest (kernel sv) !! wake_fd sv = Some EPOLLIN;
  ki_running : stop (thread_pool sv) = false -> 0 <= wake_fd sv /\ 0 <= epoll_fd sv /\
    (listen_fd sv < 0 -> stopping sv = true);
  ki_stopping : stopping sv = true \/ stop (thread_pool sv) = true -> listen_fd sv < 0;
}.

(** [local] : completed tasks that [HandleWorkerCompletions] has taken and not
    handled yet; [X] : the descriptors whose connections are being changed. *)
Record inv_but (X : list Z) (sv : server) (local : list CompletedTask) : Prop := {
  ib_sessions : forall fd c, connections sv !! fd = Some c ->
    (fd ∉ X ->
     session_ok (log sv) (outstanding (tasks_of sv) (local ++ completed_queue sv) fd (generation c)) c /\
     watched (kernel sv) fd c /\ (stopping sv = true -> closing c = true)) /\
    generation c < next_generation sv;
  ib_generations : forall fd fd' c c', connections sv !! fd = Some c -> connections sv !! fd' = Some c' ->
    generation c = generation c' -> fd = fd';
  ib_streams : forall g, (forall fd c, fd ∈ X -> connections sv !! fd = Some c -> generation c <> g) ->
    stream_ok (log sv) g;
  ib_log : log_inv (log sv) (tasks_of sv) (local ++ completed_queue sv) (next_generation sv);
  ib_kernel : kernel_inv sv;
  ib_completed : completed_queue sv <> [] -> 0 <= wake_fd sv -> wake_ready (kernel sv) = true;
  ib_stopped : X = [] -> stopping sv = true -> is_running sv = true -> stop (thread_pool sv) = false ->
    connections sv <> ∅;
}.

End runs.

Abbreviation server_inv := (inv_but []).

(** * Lemmas *)

(** ** Histories *)

(** Events that say nothing about connection [g]'s requests and octets. *)
Definition quiet (g : Z) (e : log_event) : Prop :=
  match e with
  | lg_accept _ | lg_executed _ _ _ _ | lg_closed _ | lg_background => True
  | _ => event_generation e <> g
  end.

Lemma omap_quiet {A} (f : log_event -> option A) lg es :
  Forall (fun e => f e = None) es -> omap f (lg ++ es) = omap f lg.
Proof.
  intros Hf. rewrite omap_app. replace (omap f es) with (@nil A); [by rewrite app_nil_r|].
  induction Hf as [|e es He _ IH]; [done|]. cbn. by rewrite He.
Qed.

Lemma quiet_histories g lg es :
  Forall (quiet g) es ->
  numbers g (lg ++ es) = numbers g lg /\ commands g (lg ++ es) = commands g lg /\
  received g (lg ++ es) = received g lg /\ sent g (lg ++ es) = sent g lg.
Proof.
  intros Hq. unfold numbers, commands, received, sent.
  split; [|split; [|split; f_equal]]; apply omap_quiet; (eapply Forall_impl; [exact Hq|]);
    intros [] Hx; cbn in *; try done; by rewrite decide_False.
Qed.

Lemma answered_mono lg es g k r : answered lg g k r -> answered (lg ++ es) g k r.
Proof. intros [(c & H1 & H2)|[H1 H2]]; [left; exists c|right]; rewrite !elem_of_app; auto. Qed.

Lemma replies_mono lg es g rs : replies lg g rs -> replies (lg ++ es) g rs.
Proof. intros Hr i r Hi. by apply answered_mono, Hr. Qed.

Lemma replies_snoc lg g rs r :
  replies lg g rs -> answered lg g (zlen rs) r -> replies lg g (rs ++ [r]).
Proof.
  intros Hr Ha i r' Hi. apply lookup_app_Some in Hi as [Hi|[Hle Hi]]; [by apply Hr|].
  apply list_lookup_singleton_Some in Hi as [Hi <-]. replace i with (length rs) by lia. exact Ha.
Qed.

Lemma answered_generation lg g k r ng :
  Forall (fun e => event_generation e < ng) lg -> answered lg g k r -> g < ng.
Proof.
  rewrite Forall_forall. intros Hf [(c & _ & Hin)|[Hin _]]; exact (Hf _ Hin).
Qed.

(** Events that say nothing about what has been read from it. *)
Definition still (g : Z) (e : log_event) : Prop := match e with lg_sent _ _ => True | _ => quiet g e end.

Lemma quiet_still g es : Forall (quiet g) es -> Forall (still g) es.
Proof. intros Hq. eapply Forall_impl; [exact Hq|]. by intros []. Qed.

Lemma still_histories g lg es :
  Forall (still g) es ->
  commands g (lg ++ es) = commands g lg /\ received g (lg ++ es) = received g lg /\
  (forall k, lg_error g k ∈ lg ++ es <-> lg_error g k ∈ lg) /\
  (forall k c, lg_request g k c ∈ lg ++ es <-> lg_request g k c ∈ lg).
Proof.
  intros Hq. split; [|split; [unfold received; f_equal|]].
  1, 2: apply omap_quiet; (eapply Forall_impl; [exact Hq|]); intros [] Hx; cbn in *; try done; by rewrite decide_False.
  split; [intros k|intros k c]; rewrite elem_of_app; (split; [|by left]); (intros [?|Hin]; [done|]);
    rewrite Forall_forall in Hq; by destruct (Hq _ Hin).
Qed.

Lemma indexed_mono lg es g : Forall (still g) es -> indexed lg g -> indexed (lg ++ es) g.
Proof.
  intros Hq [H1 H2]. destruct (still_histories g lg es Hq) as (E1 & _ & E3 & E4). split.
  - intros k c Hin%E4. rewrite E1. by apply H1.
  - intros k Hin%E3. rewrite E1. by apply H2.
Qed.

Lemma stream_mono lg es g p s : Forall (still g) es -> stream_at lg g p s -> stream_at (lg ++ es) g p s.
Proof.
  intros Hq (H1 & H2 & He & Hx & nb & H3 & H4). destruct (still_histories g lg es Hq) as (E1 & E2 & E3 & _).
  split; [done|]. split; [done|]. split; [intros k; by rewrite E3|]. split; [by apply indexed_mono|]. exists nb. by rewrite E1, E2.
Qed.

Lemma stream_ok_mono lg es g : Forall (still g) es -> stream_ok lg g -> stream_ok (lg ++ es) g.
Proof.
  intros Hq (p & nb & st & H1 & H2 & Hx). destruct (still_histories g lg es Hq) as (E1 & E2 & E3 & _).
  exists p, nb, st. rewrite E1, E2. split; [done|]. split; [|by apply indexed_mono]. rewrite H2. by setoid_rewrite E3.
Qed.

Lemma stream_at_ok lg g p s : stream_at lg g p s -> stream_ok lg g.
Proof.
  intros (_ & _ & He & Hx & nb & _ & E). exists p, nb, INCOMPLETE. split; [done|]. split; [|done]. split; [done|].
  by intros [k Hk%He].
Qed.

Lemma elem_of_commands lg g k c : lg_request g k c ∈ lg -> c ∈ commands g lg.
Proof.
  intros Hin. unfold commands. apply list_elem_of_omap. eexists. split; [exact Hin|]. cbn. by rewrite decide_True.
Qed.

(** As long as there is no protocol error, all numbers are those of commands. *)
Lemma numbers_commands lg g : (forall k, lg_error g k ∉ lg) -> zlen (numbers g lg) = zlen (commands g lg).
Proof.
  unfold zlen. intros He. f_equal. revert He. unfold numbers, commands. induction lg as [|e lg IH]; intros He; [done|].
  assert (Hrest : forall k, lg_error g k ∉ lg) by (intros k Hin; apply (He k); by right).
  specialize (IH Hrest). destruct e as [| |g' k c|g' k| | | |]; cbn; try done; (case_decide as Eg; [|done]); cbn; [by rewrite IH|].
  subst g'. destruct (He k). apply list_elem_of_here.
Qed.

(** A connection is not affected by events of others. *)
Lemma session_mono lg es out c : Forall (quiet (generation c)) es -> session lg out c -> session (lg ++ es) out c.
Proof.
  intros Hq [(rs & s' & H1 & H2 & H3 & H4) Hn Hu Ho Hp].
  destruct (quiet_histories _ lg es Hq) as (E1 & E2 & E3 & E4).
  split; [|by rewrite E1|done|done|intros k r Hk; by apply answered_mono, Hp].
  exists rs, s'. rewrite E4. split; [done|]. split; [by apply replies_mono|done].
Qed.

Lemma reading_mono lg es c : Forall (still (generation c)) es -> reading lg c -> reading (lg ++ es) c.
Proof.
  intros Hq (s & Hs1 & Hs2). exists s. split; [done|]. intros Hc. by apply stream_mono, Hs2.
Qed.

Lemma session_perm lg out out' c : out ≡ₚ out' -> session lg out c -> session lg out' c.
Proof. intros Hp [? ? Hu ? ?]. split; try done. by rewrite <- Hp. Qed.

Lemma numbers_length g lg : zlen (numbers g lg) <= zlen lg.
Proof.
  unfold numbers, zlen. induction lg as [|e lg IH]; [done|]. cbn.
  case_match; cbn [length]; lia.
Qed.

Lemma session_bound lg out c : session lg out c -> 0 <= next_write_seq c /\ next_request_seq c <= zlen lg.
Proof.
  intros [(rs & s & <- & _) -> _ _ _]. pose proof (numbers_length (generation c) lg). unfold zlen at 1. lia.
Qed.

(** ** Replies whose turn has come *)

Lemma seqZ_first n m : n < m -> seqZ n (m - n) = n :: seqZ (n + 1) (m - (n + 1)).
Proof. intros Hl. rewrite seqZ_cons by lia. f_equal. f_equal; lia. Qed.

Lemma seqZ_last n m : n <= m -> seqZ n (m + 1 - n) = seqZ n (m - n) ++ [m].
Proof.
  intros Hl. replace (m + 1 - n) with ((m - n) + 1) by lia. rewrite seqZ_app by lia. f_equal.
  replace (n + (m - n)) with m by lia. rewrite seqZ_cons by lia. done.
Qed.

Lemma fst_delete (m : gmap Z bytes) k r :
  m !! k = Some r -> (map_to_list m).*1 ≡ₚ k :: (map_to_list (delete k m)).*1.
Proof.
  intros Hk. rewrite <- (insert_delete_id m k r Hk) at 1. rewrite map_to_list_insert by apply lookup_delete_eq. done.
Qed.

Lemma fst_insert (m : gmap Z bytes) k r :
  m !! k = None -> (map_to_list (<[k := r]> m)).*1 ≡ₚ k :: (map_to_list m).*1.
Proof. intros Hk. by rewrite map_to_list_insert. Qed.

Lemma elem_of_fst (m : gmap Z bytes) k : k ∈ (map_to_list m).*1 <-> is_Some (m !! k).
Proof.
  rewrite list_elem_of_fmap. split.
  - intros ([k' r] & -> & Hin%elem_of_map_to_list). by exists r.
  - intros [r Hr]. exists (k, r). split; [done|]. by apply elem_of_map_to_list.
Qed.

Lemma pending_range lg out c k :
  session lg out c -> is_Some (pending_responses c !! k) -> next_write_seq c <= k < next_request_seq c.
Proof.
  intros Hs Hk. apply elem_of_fst in Hk.
  assert (Hin : k ∈ out ++ (map_to_list (pending_responses c)).*1) by (rewrite elem_of_app; by right).
  rewrite (se_under_way _ _ _ Hs), elem_of_seqZ in Hin. lia.
Qed.

(** What [flush_responses] leaves alone. *)
Definition same_frame (c c' : Connection) : Prop :=
  generation c' = generation c /\ closing c' = closing c /\ parser c' = parser c /\
  input_buffer c' = input_buffer c /\ next_request_seq c' = next_request_seq c.

(** One turn of the loop. *)
Lemma flush_turn lg out c r :
  session lg out c -> next_request_seq c < 2 ^ 64 -> pending_responses c !! next_write_seq c = Some r ->
  exists nb, Append (output_buffer c) r = Ret nb /\
    session lg out (mkConn (generation c) (input_buffer c) nb (parser c) (closing c) (next_request_seq c)
      (u64 (next_write_seq c + 1)) (delete (next_write_seq c) (pending_responses c))).
Proof.
  intros Hs Hb Hr. destruct (session_bound _ _ _ Hs) as [Hn0 Hn1].
  destruct (pending_range _ _ _ (next_write_seq c) Hs) as [_ Hlt]; [by exists r|].
  pose proof (se_pending _ _ _ Hs _ _ Hr) as Ha.
  destruct Hs as [(rs & s & Hl & Hrs & Ho & Hsent) Hnum Hu Hle Hp].
  destruct (Append_holds _ _ r Ho) as (nb & E & Hnb). exists nb. split; [done|].
  unfold u64. rewrite Z.mod_small by lia.
  split; cbn [generation output_buffer next_request_seq next_write_seq pending_responses].
  - exists (rs ++ [r]), (s ++ r). rewrite zlen_app, Hl. split; [done|].
    split; [apply replies_snoc; [done|by rewrite Hl]|]. split; [done|].
    rewrite concat_app, app_assoc, Hsent. cbn. by rewrite app_nil_r.
  - done.
  - apply (Permutation_cons_inv (a := next_write_seq c)). rewrite <- seqZ_first by done.
    rewrite <- Hu, (fst_delete _ _ _ Hr). apply Permutation_middle.
  - lia.
  - intros k r'. rewrite lookup_delete_Some. intros [_ Hk]. by apply Hp.
Qed.

Lemma flush_session lg out fuel c appended :
  session lg out c -> next_request_seq c < 2 ^ 64 -> (size (pending_responses c) <= fuel)%nat ->
  exists c' appended', flush_responses fuel c appended = Ret (c', appended') /\
    session lg out c' /\ pending_responses c' !! next_write_seq c' = None /\ same_frame c c' /\
    (appended' = false -> c' = c) /\ (appended = true -> appended' = true).
Proof.
  revert c appended. induction fuel as [|fuel IH]; intros c appended Hs Hb Hsz;
    cbn [flush_responses]; destruct (pending_responses c !! next_write_seq c) as [r|] eqn:E.
  1: { assert (Hz : size (pending_responses c) = 0%nat) by lia. apply map_size_empty_iff in Hz.
       by rewrite Hz, lookup_empty in E. }
  1, 3: exists c, appended; do 3 (split; [done|]); by split; [repeat split|].
  destruct (flush_turn _ _ _ _ Hs Hb E) as (nb & -> & Hs1). cbn [obind].
  match goal with |- context [flush_responses fuel ?c1 true] => destruct (IH c1 true Hs1 Hb) as (c' & a' & E1 & H1 & H2 & H3 & _ & H5) end.
  { cbn [pending_responses]. rewrite map_size_delete, E. lia. }
  exists c', a'. split; [done|]. split; [done|]. split; [done|]. split; [done|].
  rewrite (H5 eq_refl). done.
Qed.

(** ** Changes of a session *)

Lemma numbers_snoc g lg e :
  numbers g (lg ++ [e]) = numbers g lg ++
    match e with lg_request g' k _ | lg_error g' k => if decide (g' = g) then [k] else [] | _ => [] end.
Proof. unfold numbers. rewrite omap_app. cbn. destruct e; try done; by case_decide. Qed.

Lemma commands_snoc g lg e :
  commands g (lg ++ [e]) = commands g lg ++
    match e with lg_request g' _ c => if decide (g' = g) then [c] else [] | _ => [] end.
Proof. unfold commands. rewrite omap_app. cbn. destruct e; try done; by case_decide. Qed.

Lemma received_snoc g lg e :
  received g (lg ++ [e]) = received g lg ++
    match e with lg_received g' s => if decide (g' = g) then s else [] | _ => [] end.
Proof.
  unfold received. rewrite omap_app, concat_app. f_equal. destruct e; try done. cbn.
  case_decide; cbn; by rewrite ?app_nil_r.
Qed.

Lemma sent_snoc g lg e :
  sent g (lg ++ [e]) = sent g lg ++
    match e with lg_sent g' s => if decide (g' = g) then s else [] | _ => [] end.
Proof.
  unfold sent. rewrite omap_app, concat_app. f_equal. destruct e; try done. cbn.
  case_decide; cbn; by rewrite ?app_nil_r.
Qed.

Lemma session_new lg g : numbers g lg = [] -> sent g lg = [] -> session lg [] (Connection_new g).
Proof.
  intros Hn Hs. split; cbn; [|by rewrite Hn|done|done|done].
  exists [], []. rewrite Hs. split; [done|]. split; [done|]. split; [apply nb_holds_new|done].
Qed.

(** The next number, for a request ([HandleRead]) or a protocol error. *)
Lemma session_submit lg out c command :
  session lg out c -> zlen lg < 2 ^ 63 ->
  session (lg ++ [lg_request (generation c) (next_request_seq c) command]) (next_request_seq c :: out)
    (with_request_seq c (u64 (next_request_seq c + 1))).
Proof.
  intros Hs Hb. destruct (session_bound _ _ _ Hs) as [Hn0 Hn1].
  destruct Hs as [(rs & s & Hl & Hrs & Ho & Hsent) Hnum Hu Hle Hp].
  rewrite u64_small by lia.
  split; cbn [generation output_buffer next_request_seq next_write_seq pending_responses with_request_seq].
  - exists rs, s. rewrite sent_snoc, app_nil_r. split; [done|]. split; [by apply replies_mono|done].
  - rewrite numbers_snoc, decide_True, zlen_app by done. rewrite Hnum. done.
  - rewrite seqZ_last, <- Hu by done. cbn. by rewrite Permutation_cons_append.
  - lia.
  - intros k r Hk. by apply answered_mono, Hp.
Qed.

Lemma session_error lg out c :
  session lg out c -> zlen lg < 2 ^ 63 ->
  session (lg ++ [lg_error (generation c) (next_request_seq c)]) out
    (with_closing (emplace_response (with_request_seq c (u64 (next_request_seq c + 1)))
      (next_request_seq c) protocol_error)).
Proof.
  intros Hs Hb. destruct (session_bound _ _ _ Hs) as [Hn0 Hn1].
  assert (Hfree : pending_responses c !! next_request_seq c = None).
  { destruct (pending_responses c !! next_request_seq c) eqn:E; [|done].
    destruct (pending_range _ _ _ (next_request_seq c) Hs); [by eexists|lia]. }
  destruct Hs as [(rs & s & Hl & Hrs & Ho & Hsent) Hnum Hu Hle Hp].
  rewrite u64_small by lia.
  split; cbn [generation output_buffer next_request_seq next_write_seq pending_responses with_request_seq
    emplace_response with_closing]; rewrite ?Hfree.
  - exists rs, s. rewrite sent_snoc, app_nil_r. split; [done|]. split; [by apply replies_mono|done].
  - rewrite numbers_snoc, decide_True, zlen_app by done. rewrite Hnum. done.
  - rewrite seqZ_last, <- Hu by done. rewrite fst_insert by done. solve_Permutation.
  - lia.
  - intros k r. rewrite lookup_insert_Some. intros [[<- <-]|[_ Hk]]; [|by apply answered_mono, Hp].
    right. split; [|done]. apply elem_of_app. right. by apply list_elem_of_singleton.
Qed.

(** A reply comes back from the workers. *)
Lemma session_complete lg out c k r :
  session lg (k :: out) c -> answered lg (generation c) k r ->
  session lg out (emplace_response c k r).
Proof.
  intros Hs Ha. assert (Hfree : pending_responses c !! k = None).
  { destruct (pending_responses c !! k) eqn:E; [|done].
    pose proof (NoDup_seqZ (next_write_seq c) (next_request_seq c - next_write_seq c)) as Hd.
    rewrite <- (se_under_way _ _ _ Hs) in Hd. cbn [app] in Hd. apply NoDup_cons in Hd as [Hni _].
    destruct Hni. apply elem_of_app. right. apply elem_of_fst. by eexists. }
  destruct Hs as [Ho Hnum Hu Hle Hp].
  split; cbn [emplace_response generation output_buffer next_request_seq next_write_seq pending_responses]; rewrite ?Hfree;
    [done|done| |done|].
  - rewrite <- Hu, fst_insert by done. solve_Permutation.
  - intros k' r'. rewrite lookup_insert_Some. intros [[<- <-]|[_ Hk]]; [done|by apply Hp].
Qed.

Lemma session_input lg out c nb p : session lg out c -> session lg out (with_input c nb p).
Proof. by intros [? ? ? ? ?]. Qed.

Lemma session_closing lg out c : session lg out c -> session lg out (with_closing c).
Proof. by intros [? ? ? ? ?]. Qed.

(** ** Writing *)

Lemma write_loop_holds answers nb s :
  nb_holds nb s ->
  exists octets nb' ok s', write_loop answers nb = Ret (octets, nb', ok) /\ s = octets ++ s' /\ nb_holds nb' s'.
Proof.
  revert nb s. induction answers as [|[n|e] answers IH]; intros nb s H; cbn [write_loop];
    (destruct (ReadableBytes nb <=? 0); [by exists [], nb, true, s|]).
  - by exists [], nb, true, s.
  - destruct (Z.ltb_spec 0 n); [|by exists [], nb, true, s].
    rewrite (Peek_holds _ _ H). cbn [obind].
    destruct (IH _ _ (Retrieve_holds _ _ n H ltac:(lia))) as (o & nb' & ok & s' & -> & E & H'). cbn [obind].
    exists (take (Z.to_nat n) s ++ o), nb', ok, s'. split; [done|]. split; [|done].
    rewrite <- app_assoc, <- E. by rewrite take_drop.
  - destruct (e =? EINTR); [by apply IH|]. by exists [], nb, (e =? EAGAIN), s.
Qed.

Lemma session_written lg out c octets nb s s' :
  session lg out c -> nb_holds (output_buffer c) s -> s = octets ++ s' -> nb_holds nb s' ->
  session (lg ++ [lg_sent (generation c) octets]) out (with_output c nb).
Proof.
  intros [(rs & s1 & Hl & Hrs & Ho & Hsent) Hnum Hu Hle Hp] Hs -> Hnb.
  rewrite (nb_holds_unique _ _ _ Ho Hs) in Hsent.
  split; cbn [with_output generation output_buffer next_request_seq next_write_seq pending_responses]; [| |done|done|].
  - exists rs, s'. rewrite sent_snoc, decide_True, <- app_assoc by done.
    split; [done|]. split; [by apply replies_mono|done].
  - by rewrite numbers_snoc, app_nil_r.
  - intros k r Hk. by apply answered_mono, Hp.
Qed.

(** ** The log *)

Lemma log_inv_perm lg ts ts' cs cs' ng :
  ts ≡ₚ ts' -> cs ≡ₚ cs' -> log_inv lg ts cs ng -> log_inv lg ts' cs' ng.
Proof. intros Ht Hc [? ? ? ? ? ?]. split; rewrite <- ?Ht, <- ?Hc; done. Qed.

(** Completed tasks may be dropped. *)
Lemma log_inv_drop lg ts cs cs' ng : log_inv lg ts (cs ++ cs') ng -> log_inv lg ts cs' ng.
Proof. intros [? ? Hc ? ? ?]. apply Forall_app in Hc as [_ Hc]. by split. Qed.

Lemma requests_snoc lg e :
  requests (lg ++ [e]) = requests lg ++ match e with lg_request g k c => [(g, k, c)] | _ => [] end.
Proof. unfold requests. rewrite omap_app. by destruct e. Qed.

Lemma executed_snoc lg e :
  executed (lg ++ [e]) = executed lg ++ match e with lg_executed g k c _ => [(g, k, c)] | _ => [] end.
Proof. unfold executed. rewrite omap_app. by destruct e. Qed.

(** What every further event keeps. *)
Lemma log_inv_snoc lg e ts ts' cs cs' ng ng' :
  log_inv lg ts cs ng -> event_generation e < ng' -> ng <= ng' <= 1 + zlen (lg ++ [e]) ->
  map task_request ts' ++ executed (lg ++ [e]) ≡ₚ requests (lg ++ [e]) ->
  Forall (fun c => answered (lg ++ [e]) (ct_generation c) (ct_seq c) (ct_response c)) cs' ->
  (forall g, numbers g (lg ++ [e]) = seqZ 0 (zlen (numbers g (lg ++ [e])))) ->
  (forall g s, e = lg_sent g s -> exists rs, replies lg g rs /\ sent g (lg ++ [e]) `prefix_of` concat rs) ->
  log_inv (lg ++ [e]) ts' cs' ng'.
Proof.
  intros [Hg Hx Hc Hn Hs Hnx] He Hng Hx' Hc' Hn' Hs'. split; [|done|done|done| |lia].
  - apply Forall_app. split; [|by repeat constructor]. eapply Forall_impl; [exact Hg|]. cbn. lia.
  - intros g. assert (Hcase : sent g (lg ++ [e]) = sent g lg \/ exists s, e = lg_sent g s).
    { rewrite sent_snoc. destruct e; rewrite ?app_nil_r; try by left. case_decide; subst; [by right; eexists|].
      rewrite app_nil_r. by left. }
    destruct Hcase as [E|[s ->]].
    + destruct (Hs g) as (rs & H1 & H2). exists rs. split; [by apply replies_mono|]. by rewrite E.
    + destruct (Hs' g s eq_refl) as (rs & H1 & H2). exists rs. split; [by apply replies_mono|done].
Qed.

(** Events that are neither requests nor answers. *)
Definition plain (e : log_event) : Prop :=
  match e with lg_accept _ | lg_received _ _ | lg_closed _ | lg_sent _ _ | lg_background => True | _ => False end.

Lemma completed_mono lg es cs :
  Forall (fun c => answered lg (ct_generation c) (ct_seq c) (ct_response c)) cs ->
  Forall (fun c => answered (lg ++ es) (ct_generation c) (ct_seq c) (ct_response c)) cs.
Proof. intros Hc. eapply Forall_impl; [exact Hc|]. intros c. apply answered_mono. Qed.

Lemma log_inv_plain lg e ts cs ng ng' :
  log_inv lg ts cs ng -> plain e -> event_generation e < ng' -> ng <= ng' <= 1 + zlen (lg ++ [e]) ->
  (forall g s, e = lg_sent g s -> exists rs, replies lg g rs /\ sent g (lg ++ [e]) `prefix_of` concat rs) ->
  log_inv (lg ++ [e]) ts cs ng'.
Proof.
  intros Hl He Hg Hng Hs. eapply log_inv_snoc; try done.
  - rewrite requests_snoc, executed_snoc. destruct e; try done; rewrite !app_nil_r; apply Hl.
  - apply completed_mono, Hl.
  - intros g. rewrite numbers_snoc. destruct e; try done; rewrite app_nil_r; apply Hl.
Qed.

(** A new number. *)
Lemma numbers_next g0 lg e k :
  (forall g, numbers g lg = seqZ 0 (zlen (numbers g lg))) -> k = zlen (numbers g0 lg) ->
  (e = lg_error g0 k \/ exists c, e = lg_request g0 k c) ->
  forall g, numbers g (lg ++ [e]) = seqZ 0 (zlen (numbers g (lg ++ [e]))).
Proof.
  intros Hn -> He g. rewrite numbers_snoc.
  assert (E : match e with lg_request g' k _ | lg_error g' k => if decide (g' = g) then [k] else [] | _ => [] end =
    if decide (g0 = g) then [zlen (numbers g0 lg)] else []) by (by destruct He as [->|[c ->]]).
  rewrite E. case_decide as Eg; [|rewrite app_nil_r; apply Hn]. subst g0.
  rewrite zlen_app. change (zlen [_]) with 1. rewrite Hn at 1.
  pose proof (zlen_nonneg (numbers g lg)). rewrite seqZ_app by lia. by rewrite Z.add_0_l.
Qed.

Lemma log_inv_request lg ts cs ng t :
  log_inv lg ts cs ng -> wt_generation t < ng -> wt_seq t = zlen (numbers (wt_generation t) lg) ->
  log_inv (lg ++ [lg_request (wt_generation t) (wt_seq t) (wt_command t)]) (t :: ts) cs ng.
Proof.
  intros Hl Hg Hk. eapply log_inv_snoc; try done.
  - pose proof (li_next _ _ _ _ Hl). rewrite zlen_app. change (zlen [_]) with 1. lia.
  - rewrite requests_snoc, executed_snoc, app_nil_r. cbn [map app].
    rewrite <- (li_executed _ _ _ _ Hl), <- Permutation_cons_append. done.
  - apply completed_mono, Hl.
  - eapply numbers_next; [apply Hl|exact Hk|right; by eexists].
Qed.

Lemma log_inv_error lg ts cs ng g k :
  log_inv lg ts cs ng -> g < ng -> k = zlen (numbers g lg) -> log_inv (lg ++ [lg_error g k]) ts cs ng.
Proof.
  intros Hl Hg Hk. eapply log_inv_snoc; try done.
  - pose proof (li_next _ _ _ _ Hl). rewrite zlen_app. change (zlen [_]) with 1. lia.
  - rewrite requests_snoc, executed_snoc, !app_nil_r. apply Hl.
  - apply completed_mono, Hl.
  - eapply numbers_next; [apply Hl|exact Hk|by left].
Qed.

Lemma elem_of_requests lg g k c : (g, k, c) ∈ requests lg -> lg_request g k c ∈ lg.
Proof.
  unfold requests. rewrite list_elem_of_omap. intros (e & Hin & He). destruct e; try done. by injection He as -> -> ->.
Qed.

(** A worker has run the task [t]. *)
Lemma log_inv_executed lg t ts cs ng r :
  log_inv lg (t :: ts) cs ng ->
  log_inv (lg ++ [lg_executed (wt_generation t) (wt_seq t) (wt_command t) r]) ts
    (mkCompleted (wt_fd t) (wt_generation t) (wt_seq t) r :: cs) ng.
Proof.
  intros Hl. assert (Hreq : lg_request (wt_generation t) (wt_seq t) (wt_command t) ∈ lg).
  { apply elem_of_requests. rewrite <- (li_executed _ _ _ _ Hl). cbn [map app]. apply list_elem_of_here. }
  eapply log_inv_snoc; try done.
  - pose proof (li_generations _ _ _ _ Hl) as Hg. rewrite Forall_forall in Hg. exact (Hg _ Hreq).
  - pose proof (li_next _ _ _ _ Hl). rewrite zlen_app. change (zlen [_]) with 1. lia.
  - rewrite requests_snoc, executed_snoc, app_nil_r. rewrite <- (li_executed _ _ _ _ Hl). cbn [map].
    unfold task_request at 3. rewrite app_assoc, <- Permutation_cons_append. done.
  - constructor; [|apply completed_mono, Hl]. left. exists (wt_command t). rewrite !elem_of_app.
    split; [by left|right; by apply list_elem_of_singleton].
  - intros g. rewrite numbers_snoc, app_nil_r. apply Hl.
Qed.

(** ** Work under way *)

Lemma outstanding_perm ts ts' cs cs' fd g :
  ts ≡ₚ ts' -> cs ≡ₚ cs' -> outstanding ts cs fd g ≡ₚ outstanding ts' cs' fd g.
Proof. intros Ht Hc. unfold outstanding. by rewrite Ht, Hc. Qed.

Lemma outstanding_task t ts cs fd g :
  outstanding (t :: ts) cs fd g =
  (if decide (wt_fd t = fd /\ wt_generation t = g) then [wt_seq t] else []) ++ outstanding ts cs fd g.
Proof. unfold outstanding. cbn. by case_decide. Qed.

Lemma outstanding_completed c ts cs fd g :
  outstanding ts (c :: cs) fd g ≡ₚ
  (if decide (ct_fd c = fd /\ ct_generation c = g) then [ct_seq c] else []) ++ outstanding ts cs fd g.
Proof. unfold outstanding. cbn. case_decide; cbn [app]; [|done]. by rewrite <- Permutation_middle. Qed.

(** The number of a new connection has not been used. *)
Lemma outstanding_fresh lg ts cs ng fd :
  log_inv lg ts cs ng -> outstanding ts cs fd ng = [].
Proof.
  intros Hl. unfold outstanding. pose proof (li_generations _ _ _ _ Hl) as Hg.
  assert (Ht : forall t, t ∈ ts -> wt_generation t < ng).
  { intros t Hin. assert (Hr : task_request t ∈ requests lg).
    { rewrite <- (li_executed _ _ _ _ Hl), elem_of_app. left. by apply list_elem_of_fmap_2. }
    apply elem_of_requests in Hr. rewrite Forall_forall in Hg. exact (Hg _ Hr). }
  assert (Hc : forall c, c ∈ cs -> ct_generation c < ng).
  { intros c Hin. pose proof (li_completed _ _ _ _ Hl) as Hcs. rewrite Forall_forall in Hcs.
    eapply answered_generation; [done|by apply Hcs]. }
  replace (omap _ ts) with (@nil Z); [replace (omap _ cs) with (@nil Z); [done|]|].
  - clear -Hc. induction cs as [|c cs IH]; [done|]. cbn. rewrite decide_False.
    + apply IH. intros c' Hin. apply Hc. by right.
    + intros [_ E]. specialize (Hc c (list_elem_of_here _ _)). lia.
  - clear -Ht. induction ts as [|t ts IH]; [done|]. cbn. rewrite decide_False.
    + apply IH. intros t' Hin. apply Ht. by right.
    + intros [_ E]. specialize (Ht t (list_elem_of_here _ _)). lia.
Qed.

(** The histories of a connection that does not exist yet are empty. *)
Lemma fresh_histories lg ng g :
  Forall (fun e => event_generation e < ng) lg -> ng <= g ->
  numbers g lg = [] /\ commands g lg = [] /\ received g lg = [] /\ sent g lg = [] /\ forall k, lg_error g k ∉ lg.
Proof.
  intros Hf Hle. assert (Hq : Forall (quiet g) lg).
  { eapply Forall_impl; [exact Hf|]. intros [] Hx; cbn in *; try done; lia. }
  destruct (quiet_histories g [] lg Hq) as (E1 & E2 & E3 & E4). do 4 (split; [done|]).
  intros k Hin. rewrite <- (app_nil_l lg) in Hin. apply (still_histories g [] lg (quiet_still _ _ Hq)) in Hin. by apply not_elem_of_nil in Hin.
Qed.

(** ** Steps on one connection *)

Section steps.
Context {D : Type} `{Executor D}.
Implicit Types (sv : TcpServer D) (c : Connection) (l : list CompletedTask).

Lemma inv_open X sv l : server_inv sv l -> inv_but X sv l.
Proof.
  intros [Hs Hg Hst Hl Hk Hc Hp]. split; try done.
  - intros fd' c' E. destruct (Hs fd' c' E) as (H1 & H2). split; [intros _; apply H1, not_elem_of_nil|done].
  - intros g _. apply Hst. by intros ? ? ?%not_elem_of_nil.
  - intros _. by apply Hp.
Qed.

Lemma inv_session sv l fd c :
  server_inv sv l -> connections sv !! fd = Some c ->
  session_ok (log sv) (outstanding (tasks_of sv) (l ++ completed_queue sv) fd (generation c)) c /\
  watched (kernel sv) fd c /\ generation c < next_generation sv /\ (stopping sv = true -> closing c = true) /\
  stream_ok (log sv) (generation c).
Proof.
  intros [Hs Hg Hst _ _ _ _] E. destruct (Hs fd c E) as (H1 & H2). destruct (H1 (not_elem_of_nil _)) as (? & ? & ?).
  do 4 (split; [done|]). apply Hst. by intros ? ? ?%not_elem_of_nil.
Qed.

Lemma inv_streams sv l g : server_inv sv l -> stream_ok (log sv) g.
Proof. intros Hi. apply (ib_streams _ _ _ Hi). by intros ? ? ?%not_elem_of_nil. Qed.

Lemma inv_close fd X sv l c :
  inv_but (fd :: X) sv l -> connections sv !! fd = Some c ->
  session_ok (log sv) (outstanding (tasks_of sv) (l ++ completed_queue sv) fd (generation c)) c ->
  watched (kernel sv) fd c -> (stopping sv = true -> closing c = true) -> stream_ok (log sv) (generation c) ->
  inv_but X sv l.
Proof.
  intros [Hs Hg Hst Hl Hk Hc _] E H1 H2 Hcl H3. split; try done.
  - intros fd' c' E'. destruct (Hs fd' c' E') as (Ha & Hb). split; [|done]. intros Hx.
    destruct (decide (fd' = fd)) as [->|Hne]; [|apply Ha; set_solver].
    rewrite E in E'. by injection E' as <-.
  - intros g Hx. destruct (decide (g = generation c)) as [->|Hne]; [done|]. apply Hst.
    intros fd' c' [->|Hin]%elem_of_cons E'; [|by apply (Hx fd')]. rewrite E in E'. injection E' as <-. done.
  - intros _ _ _ _ E0. by rewrite E0, lookup_empty in E.
Qed.

Lemma kernel_inv_put sv fd c : kernel_inv sv -> is_Some (connections sv !! fd) -> kernel_inv (put_connection sv fd c).
Proof.
  intros [Ho Hc Hl Hw Hr Hs] [c0 E]. split; try done.
  - cbn. rewrite Ho. unfold held. cbn. by rewrite (dom_insert_lookup_L _ _ _ (ex_intro _ _ E)).
  - intros fd' Hi. apply Hc. cbn in Hi. destruct (decide (fd = fd')) as [<-|Hne]; [by exists c0|].
    by rewrite lookup_insert_ne in Hi.
Qed.

Lemma inv_put fd X sv l c0 c :
  inv_but (fd :: X) sv l -> connections sv !! fd = Some c0 -> generation c = generation c0 ->
  inv_but (fd :: X) (put_connection sv fd c) l.
Proof.
  intros [Hs Hg Hst Hl Hk Hc _] E Eg.
  assert (Hfrom : forall fd' c', connections (put_connection sv fd c) !! fd' = Some c' ->
    exists c1, connections sv !! fd' = Some c1 /\ generation c' = generation c1 /\
      (fd' = fd /\ c' = c \/ fd' <> fd /\ c1 = c')).
  { intros fd' c'. cbn. rewrite lookup_insert_Some. intros [[<- <-]|[Hne E']]; [by exists c0; auto|].
    exists c'. auto. }
  split; try done.
  - intros fd' c' E'. destruct (Hfrom fd' c' E') as (c1 & E1 & Eg1 & [[-> ->]|[Hne ->]]).
    + split; [intros Hx; destruct Hx; apply list_elem_of_here|]. rewrite Eg1. apply (Hs fd c1 E1).
    + apply (Hs fd' c' E1).
  - intros fd1 fd2 c1 c2 E1 E2 Eq. destruct (Hfrom _ _ E1) as (c1' & E1' & G1 & _).
    destruct (Hfrom _ _ E2) as (c2' & E2' & G2 & _). apply (Hg _ _ _ _ E1' E2'). congruence.
  - intros g Hne. apply Hst. intros fd' c' Hin E'. destruct (decide (fd' = fd)) as [->|Hf].
    + rewrite E in E'. injection E' as <-. rewrite <- Eg. apply (Hne fd); [done|]. apply lookup_insert_eq.
    + apply (Hne fd'); [done|]. cbn. by rewrite lookup_insert_ne.
  - apply kernel_inv_put; [done|by eexists].
Qed.

Lemma inv_ctl fd X sv l events ok :
  inv_but (fd :: X) sv l -> is_Some (connections sv !! fd) -> inv_but (fd :: X) (UpdateEpollEvent sv fd events ok) l.
Proof.
  intros [Hs Hg Hst Hl [Ho Hcn Hli Hw Hr Hsp] Hc _] Hi. destruct ok; [|by split].
  destruct (Hcn fd Hi) as (H0 & Hn1 & Hn2 & Hn3). split; try done.
  - intros fd' c' E. destruct (Hs fd' c' E) as (Ha & Hb). split; [|done]. intros Hne. specialize (Ha Hne).
    split; [apply Ha|]. destruct Ha as [_ ((e & He & Hx) & Hcl)]. split; [|done]. exists e. cbn.
    rewrite lookup_insert_ne by (intros ->; apply Hne, list_elem_of_here). done.
  - split; try done; cbn; intros Hx; rewrite lookup_insert_ne by done; auto.
Qed.

Lemma quiet_other sv l fd c fd' c' e :
  inv_but [fd] sv l -> connections sv !! fd = Some c -> connections sv !! fd' = Some c' -> fd' <> fd ->
  event_generation e = generation c -> quiet (generation c') e.
Proof.
  intros Hi E E' Hne Ee. assert (Hx : event_generation e <> generation c').
  { rewrite Ee. intros Eq. by apply Hne, (ib_generations _ _ _ Hi _ _ _ _ E' E). }
  destruct e; done.
Qed.

(** An event of the connection on [fd], with a change of the work under way that
    concerns this connection alone. *)
Lemma inv_event fd sv sv' l l' c e :
  inv_but [fd] sv l -> connections sv !! fd = Some c -> event_generation e = generation c ->
  connections sv' = connections sv -> kernel sv' = kernel sv -> next_generation sv' = next_generation sv ->
  stopping sv' = stopping sv -> log sv' = log sv ++ [e] -> wake_fd sv' = wake_fd sv ->
  (completed_queue sv' <> [] -> completed_queue sv <> []) ->
  (forall fd' g, fd' <> fd ->
    outstanding (tasks_of sv') (l' ++ completed_queue sv') fd' g ≡ₚ
    outstanding (tasks_of sv) (l ++ completed_queue sv) fd' g) ->
  log_inv (log sv') (tasks_of sv') (l' ++ completed_queue sv') (next_generation sv') ->
  kernel_inv sv' -> inv_but [fd] sv' l'.
Proof.
  intros Hi E Ee Ec Ek En Es El Ew Hq Ho Hl Hk. pose proof Hi as [Hs Hg Hst _ _ Hc _]. split; try done.
  - intros fd' c'. rewrite Ec, En, Es. intros E'. destruct (Hs fd' c' E') as (Ha & Hb). split; [|done].
    intros Hne. destruct (Ha Hne) as [(H1 & H2 & H3) H4]. apply not_elem_of_cons in Hne as [Hf _].
    assert (Hqt : Forall (quiet (generation c')) [e]) by (constructor; [by eapply quiet_other|done]).
    rewrite El, Ek. split; [|done]. split; [|split; [apply reading_mono; [by apply quiet_still|done]|done]].
    apply session_mono; [done|]. by eapply session_perm; [symmetry; apply Ho|].
  - by rewrite Ec.
  - intros g Hne. rewrite El, Ec in *. apply stream_ok_mono; [|by apply Hst].
    constructor; [|done]. specialize (Hne fd c (list_elem_of_here _ _) E). destruct e; cbn in *; first [done|congruence].
  - rewrite Ek, Ew. auto.
Qed.

Lemma inv_note fd sv l c e :
  inv_but [fd] sv l -> connections sv !! fd = Some c -> event_generation e = generation c ->
  log_inv (log sv ++ [e]) (tasks_of sv) (l ++ completed_queue sv) (next_generation sv) ->
  inv_but [fd] (note sv e) l.
Proof. intros Hi E Ee Hl. eapply inv_event; try done. destruct (ib_kernel _ _ _ Hi). by split. Qed.

(** ** Closing *)

Lemma inv_wake x sv l : inv_but x sv l -> inv_but x (WakeEventLoop sv) l.
Proof.
  intros Hi. unfold WakeEventLoop. destruct (Z.ltb_spec (wake_fd sv) 0); [done|].
  destruct Hi as [Hs Hg Hst Hl Hk Hc Hp]. split; try done. destruct Hk. by split.
Qed.

(** The end of a shutdown, when the connection that was being changed is gone. *)
Lemma inv_finish fd X sv l :
  inv_but (fd :: X) sv l -> connections sv !! fd = None -> inv_but X (MaybeFinishShutdown sv) l.
Proof.
  intros Hi E. assert (Hkeep : (X = [] -> is_running sv = true -> stop (thread_pool sv) = false -> stopping sv = true ->
    connections sv <> ∅) -> inv_but X sv l).
  { intros Hn. destruct Hi as [Hs Hg Hst Hl Hk Hc _]. split; try done; [| |auto].
    - intros fd' c' E'. destruct (Hs fd' c' E') as (Ha & Hb). split; [|done]. intros Hx. apply Ha.
      intros [->|?]%elem_of_cons; [congruence|done].
    - intros g Hx. apply Hst. intros fd' c' [->|Hin]%elem_of_cons E'; [congruence|by apply (Hx fd')]. }
  unfold MaybeFinishShutdown. destruct (stopping sv) eqn:Es; cbn [negb]; [|by apply Hkeep].
  pose proof (ki_stopping _ (ib_kernel _ _ _ Hi) (or_introl Es)) as Hli. destruct (Z.leb_spec 0 (listen_fd sv)); [lia|].
  case_bool_decide as Ec; [by apply Hkeep|]. apply inv_wake.
  destruct Hi as [Hs Hg Hst Hl [Ho Hcn Hli' Hw Hr Hsp] Hc _]. split; try done.
  - intros fd' c' E'. cbn in E'. by rewrite Ec in E'.
  - intros g Hx. apply Hst. intros fd' c' [->|Hin]%elem_of_cons E'; [congruence|by apply (Hx fd')].
  - split; try done; cbn; auto. intros Hrun. by destruct (Hr Hrun) as (? & ? & _).
Qed.

Lemma held_delete sv fd : (forall fd', fd' = fd -> fd' <> listen_fd sv /\ fd' <> epoll_fd sv /\ fd' <> wake_fd sv) ->
  held sv ∖ {[fd]} = held (with_connections sv (delete fd (connections sv))).
Proof.
  intros Hne. destruct (Hne fd eq_refl) as (H1 & H2 & H3). unfold held. cbn. rewrite dom_delete_L.
  unfold nonneg. destruct (0 <=? listen_fd sv), (0 <=? epoll_fd sv), (0 <=? wake_fd sv); set_solver.
Qed.

Lemma inv_closed fd X sv l c :
  inv_but (fd :: X) sv l -> connections sv !! fd = Some c -> stream_ok (log sv) (generation c) ->
  inv_but X (CloseConnection sv fd) l.
Proof.
  intros Hi E Hok. unfold CloseConnection. rewrite E.
  apply (inv_finish fd); [|cbn; apply lookup_delete_eq].
  pose proof Hi as [Hs Hg Hst Hl [Ho Hcn Hli Hw Hr Hsp] Hc _]. destruct (Hs fd c E) as (_ & Hgen).
  destruct (Hcn fd ltac:(by eexists)) as (H0 & Hn1 & Hn2 & Hn3).
  split; cbn [log note tasks_of thread_pool completed_queue connections with_connections close_fd with_kernel RemoveEpollEvent
    stopping next_generation kernel wake_fd].
  - intros fd' c' [Hne E']%lookup_delete_Some. destruct (Hs fd' c' E') as (Ha & Hb). split; [|done].
    intros Hx. destruct (Ha Hx) as [(Hs1 & Hs2 & Hs3) [Hw' Hcl]]. split; [|split; [|done]].
    + split; [apply session_mono; [by constructor|done]|]. split; [apply reading_mono; [by constructor|done]|done].
    + destruct Hw' as (e & He & Hw'). exists e. split; [|done]. cbn. by rewrite !lookup_delete_ne by done.
  - intros fd1 fd2 c1 c2 [_ E1]%lookup_delete_Some [_ E2]%lookup_delete_Some. by apply Hg.
  - intros g Hx. apply stream_ok_mono; [by constructor|].
    destruct (decide (g = generation c)) as [->|Hne]; [done|]. apply Hst. intros fd' c' Hin E'.
    destruct (decide (fd' = fd)) as [->|Hf]; [congruence|]. apply (Hx fd'); [done|]. by rewrite lookup_delete_ne.
  - apply (log_inv_plain _ _ _ _ _ _ Hl); cbn; try done. pose proof (li_next _ _ _ _ Hl).
    rewrite zlen_app. change (zlen [_]) with 1. lia.
  - split; cbn; try done.
    + rewrite Ho. apply held_delete. by intros ? ->.
    + intros fd' [c' [_ E']%lookup_delete_Some]. apply Hcn. by eexists.
    + intros Hx. destruct (Hli Hx) as (? & ? & ?). by rewrite !lookup_delete_ne by done.
    + intros Hx. destruct (Hw Hx). by rewrite !lookup_delete_ne by done.
  - done.
  - done.
Qed.

(** ** Reading *)

Lemma enqueue_stop {T} (p : ThreadPool T) t p' : enqueue p t = Some p' -> stop p = false /\ stop p' = false /\
  tasks p' = tasks p ++ [t] /\ workers p' = workers p.
Proof. unfold enqueue. destruct (stop p) eqn:E; [done|]. by intros [= <-]. Qed.

Lemma inv_submit fd sv l c0 c command p :
  inv_but [fd] sv l -> connections sv !! fd = Some c0 -> generation c = generation c0 ->
  session (log sv) (outstanding (tasks_of sv) (l ++ completed_queue sv) fd (generation c)) c ->
  zlen (log sv) < 2 ^ 63 ->
  enqueue (thread_pool sv) (mkTask fd (generation c) (next_request_seq c) command) = Some p ->
  let sv' := note (with_pool sv p) (lg_request (generation c) (next_request_seq c) command) in
  inv_but [fd] sv' l /\
  session (log sv') (outstanding (tasks_of sv') (l ++ completed_queue sv') fd (generation c))
    (with_request_seq c (u64 (next_request_seq c + 1))).
Proof.
  intros Hi E Eg Hs Hb He sv'. set (t := mkTask _ _ _ _) in He.
  destruct (enqueue_stop _ _ _ He) as (Hst0 & Hst & Ht & Hw).
  assert (Hts : tasks_of sv' ≡ₚ t :: tasks_of sv).
  { unfold tasks_of. cbn. rewrite Ht, Hw. solve_Permutation. }
  split.
  - apply (inv_event fd sv sv' l l c0 (lg_request (generation c) (next_request_seq c) command)); try done.
    + intros fd' g Hne. cbn [completed_queue sv' note with_pool].
      rewrite (outstanding_perm _ _ _ _ fd' g Hts (Permutation_refl _)), outstanding_task.
      by rewrite decide_False by (by intros [<- _]).
    + eapply log_inv_perm; [symmetry; exact Hts|reflexivity|].
      apply (log_inv_request _ _ _ _ t (ib_log _ _ _ Hi)); cbn.
      * rewrite Eg. by apply (ib_sessions _ _ _ Hi fd).
      * apply Hs.
    + destruct (ib_kernel _ _ _ Hi) as [? ? ? ? Hr Hd]. split; try done; cbn; rewrite Hst.
      * intros _. by apply Hr.
      * intros [Hx|?]; [apply Hd; by left|done].
  - eapply session_perm; [|by apply session_submit].
    rewrite (outstanding_perm _ _ _ _ fd (generation c) Hts (Permutation_refl _)), outstanding_task.
    by rewrite decide_True by done.
Qed.

(** The connection is done with; register it, or close it when that fails. *)
Lemma inv_register fd sv l c events (ctl : bool) :
  inv_but [fd] sv l -> connections sv !! fd = Some c ->
  session_ok (log sv) (outstanding (tasks_of sv) (l ++ completed_queue sv) fd (generation c)) c ->
  stream_ok (log sv) (generation c) -> (stopping sv = true -> closing c = true) -> suits events c ->
  let sv' := UpdateEpollEvent sv fd events ctl in server_inv (if ctl then sv' else CloseConnection sv' fd) l.
Proof.
  intros Hi E Hs Hst Hcl Hsu sv'. assert (Hi' : inv_but [fd] sv' l) by (apply inv_ctl; [done|by eexists]).
  destruct ctl; [|by apply (inv_closed fd [] sv' l c)].
  apply (inv_close fd [] sv' l c); try done. exists events. split; [|done]. cbn. apply lookup_insert_eq.
Qed.

(** The response buffer of a protocol error. *)
Lemma protocol_error_encoded :
  exists nb, EncodeError (NetworkBuffer_new 1024) (str "protocol error") = Ret nb /\ nb_holds nb protocol_error.
Proof.
  destruct (encode_reply_holds _ _ (re_error (str "protocol error")) (nb_holds_new 1024)) as (nb & E & H'). by exists nb.
Qed.

Lemma waiting_reply lg out c k :
  session lg out c -> is_Some (pending_responses c !! k) -> next_write_seq c < next_request_seq c.
Proof. intros Hs Hk. pose proof (pending_range _ _ _ _ Hs Hk). lia. Qed.

(** A protocol error. *)
Lemma inv_fail fd sv l c ctl sv' :
  inv_but [fd] sv l -> connections sv !! fd = Some c ->
  session (log sv) (outstanding (tasks_of sv) (l ++ completed_queue sv) fd (generation c)) c ->
  (exists s, nb_holds (input_buffer c) s) ->
  stream_ok (log sv ++ [lg_error (generation c) (next_request_seq c)]) (generation c) ->
  FailConnectionProtocol sv c fd (str "protocol error") ctl = Ret sv' -> zlen (log sv') < 2 ^ 63 ->
  server_inv sv' l.
Proof.
  intros Hi E Hs [si Hin] Hok HF Hb. destruct (advances_log _ _ (FailConnectionProtocol_advances _ _ _ _ _ _ HF)) as [es Hlog].
  unfold FailConnectionProtocol in HF.
  destruct protocol_error_encoded as (nb & Ee & Hnb). rewrite Ee in HF. cbn [obind] in HF.
  unfold RetrieveAllAsString in HF. rewrite (Peek_holds _ _ Hnb) in HF. cbn [obind] in HF.
  assert (Hb0 : zlen (log sv) < 2 ^ 63) by (rewrite Hlog, zlen_app in Hb; pose proof (zlen_nonneg es); lia).
  pose proof (session_error _ _ _ Hs Hb0) as Hs1. set (e := lg_error (generation c) (next_request_seq c)) in *.
  set (c1 := with_closing _) in *.
  assert (Hn1 : next_request_seq c1 < 2 ^ 64) by (cbn; unfold u64; apply Z.mod_pos_bound; lia).
  destruct (flush_session _ _ _ c1 false Hs1 Hn1 (le_n _)) as (c2 & app & Ef & Hs2 & Hnone & (G & C & _ & I & N) & Happ & _).
  unfold flush_ready in HF. rewrite Ef in HF. cbn [obind] in HF. injection HF as <-.
  replace (generation c2) with (generation c) by (by rewrite G). fold e.
  apply (inv_register fd (note (put_connection sv fd c2) e) l c2).
  - apply (inv_note fd _ _ c2); [|apply lookup_insert_eq|by rewrite G|].
    + apply (inv_put fd [] sv l c); done.
    + apply (log_inv_error _ _ _ _ _ _ (ib_log _ _ _ Hi)); [by apply (ib_sessions _ _ _ Hi fd)|apply Hs].
  - apply lookup_insert_eq.
  - rewrite G. split; [exact Hs2|]. split; [|done]. exists []. rewrite C, I. split; [apply RetrieveAll_holds|done].
  - rewrite G. apply Hok.
  - by rewrite C.
  - unfold suits. rewrite C. cbn [closing c1 with_closing]. destruct app; [by left|]. right.
    rewrite (Happ eq_refl). apply (waiting_reply _ _ _ (next_request_seq c) Hs1).
    cbn. destruct (pending_responses c !! next_request_seq c) eqn:Ep; [by eexists|]. rewrite lookup_insert_eq. by eexists.
Qed.

(** In the middle of [HandleRead]: what the parser will find in the buffer is the
    rest of the commands in the octets received. *)
Definition streaming (lg : list log_event) (g : Z) (p : RESPParser) (nb : NetworkBuffer) : Prop :=
  (exists s, nb_holds nb s) /\ parser_ok p /\ (forall k, lg_error g k ∉ lg) /\ indexed lg g /\
  same_run (parse_commands RESPParser_new (nb_of (received g lg)))
    (let* (cs, p, nb, st) := parse_commands p nb in Ret (commands g lg ++ cs, p, nb, st)).

(** New octets behind those the parser has consumed. *)
Lemma streaming_received lg g p s nb d :
  stream_at lg g p s -> nb_holds nb (s ++ d) -> streaming (lg ++ [lg_received g d]) g p nb.
Proof.
  intros (Hp & Hi & He & Hidx & nb0 & H0 & E) Hnb. split; [by eexists|]. split; [done|].
  split. { intros k. rewrite elem_of_app, list_elem_of_singleton. by intros [?%He|?]. }
  split.
  { destruct Hidx as [I1 I2]. split; [intros k c|intros k]; rewrite elem_of_app, list_elem_of_singleton, commands_snoc, app_nil_r;
      (intros [?|?]; [auto|done]). }
  rewrite commands_snoc, received_snoc, app_nil_r, decide_True by done.
  assert (Hnew : parser_ok RESPParser_new) by (by split).
  pose proof (parse_commands_extend _ _ _ d (nb_of_holds (received g lg)) Hnew) as Hx.
  unfold commands_extend in Hx. rewrite E in Hx. destruct Hx as (_ & s1 & Hs1 & _ & Hx).
  rewrite (nb_holds_unique _ _ _ Hs1 H0) in Hx.
  destruct (Hx _ (nb_of_holds (received g lg ++ d))) as (nb1 & H1 & ->). apply same_run_prefix.
  by apply (parse_commands_same _ _ _ (s ++ d)).
Qed.

(** A command is taken from the buffer. *)
Lemma streaming_success lg g p nb p1 nb1 (command : list bytes) k :
  streaming lg g p nb -> Parse p nb [] = Ret (p1, nb1, command, SUCCESS) -> k = zlen (numbers g lg) ->
  streaming (lg ++ [lg_request g k command]) g p1 nb1.
Proof.
  intros ((s & Hnb) & Hp & He & [I1 I2] & Hr) E Hk. destruct (Parse_success _ _ _ _ _ _ Hnb Hp E) as (Hp1 & s1 & H1 & _).
  split; [by eexists|]. split; [done|].
  split. { intros j. rewrite elem_of_app, list_elem_of_singleton. by intros [?%He|?]. }
  split.
  { rewrite numbers_commands in Hk by done. subst k. pose proof (zlen_nonneg (commands g lg)). split.
    - intros j cmd. rewrite elem_of_app, list_elem_of_singleton, commands_snoc, decide_True by done. intros [Hin|[= -> ->]].
      + destruct (I1 _ _ Hin). split; [done|]. by apply lookup_app_l_Some.
      + split; [done|]. unfold zlen. rewrite Nat2Z.id. by apply list_lookup_middle.
    - intros j. rewrite elem_of_app, list_elem_of_singleton. by intros [?%He|?]. }
  rewrite commands_snoc, received_snoc, app_nil_r, decide_True by done.
  rewrite (parse_commands_unfold _ _ _ Hnb Hp), E in Hr. cbn [obind] in Hr.
  destruct (parse_commands p1 nb1) as [[[[cs p2] nb2] st]| |]; cbn [obind] in *; [|done..].
  by rewrite <- app_assoc.
Qed.

(** The buffer holds no further command. *)
Lemma streaming_incomplete lg g p nb p1 nb1 (out : list bytes) :
  streaming lg g p nb -> Parse p nb [] = Ret (p1, nb1, out, INCOMPLETE) ->
  exists s, nb_holds nb1 s /\ stream_at lg g p1 s.
Proof.
  intros ((s & Hnb) & Hp & He & Hidx & Hr) E. pose proof (Parse_extends p nb s [] [] Hnb Hp) as Hx.
  unfold parse_extends in Hx. rewrite E in Hx. destruct Hx as (_ & Hp1 & s1 & H1 & Hi & _).
  exists s1. split; [done|]. do 4 (split; [done|]).
  rewrite (parse_commands_unfold _ _ _ Hnb Hp), E in Hr. cbn [obind] in Hr.
  destruct (parse_commands RESPParser_new _) as [[[[cs p2] nb2] st]| |]; cbn [same_run] in Hr; [|done..].
  destruct Hr as (-> & -> & -> & Hs). destruct (Hs eq_refl) as (s2 & Ha & Hb).
  rewrite app_nil_r. exists nb2. split; [|done]. by rewrite (nb_holds_unique _ _ _ H1 Hb).
Qed.

(** The next octets are not a command. *)
Lemma streaming_error lg g p nb p1 nb1 (out : list bytes) k :
  streaming lg g p nb -> Parse p nb [] = Ret (p1, nb1, out, ERROR) -> k = zlen (numbers g lg) -> stream_ok (lg ++ [lg_error g k]) g.
Proof.
  intros ((s & Hnb) & Hp & He & [I1 I2] & Hr) E Hk. rewrite (parse_commands_unfold _ _ _ Hnb Hp), E in Hr. cbn [obind] in Hr.
  unfold stream_ok. rewrite commands_snoc, received_snoc, !app_nil_r.
  destruct (parse_commands RESPParser_new _) as [[[[cs p2] nb2] st]| |]; cbn [same_run] in Hr; [|done..].
  destruct Hr as (-> & -> & -> & _). rewrite app_nil_r. exists p1, nb2, ERROR. split; [done|].
  split; [split; [intros _|done]; exists k; apply elem_of_app; right; by apply list_elem_of_singleton|].
  rewrite numbers_commands in Hk by done. split; [intros j cmd|intros j];
    rewrite elem_of_app, list_elem_of_singleton, commands_snoc, app_nil_r; [by intros [?%I1|?]|].
  intros [?%He|[= ->]]; [done|exact Hk].
Qed.

Lemma bound_prefix (lg lg' : list log_event) n : lg `prefix_of` lg' -> zlen lg' < n -> zlen lg < n.
Proof. intros [es ->]. rewrite zlen_app. pose proof (zlen_nonneg es). lia. Qed.

Lemma read_loop_inv fuel sv l c c0 fd ctl sv' :
  inv_but [fd] sv l -> connections sv !! fd = Some c0 -> generation c = generation c0 ->
  closing c = false -> stopping sv = false -> stop (thread_pool sv) = false ->
  session (log sv) (outstanding (tasks_of sv) (l ++ completed_queue sv) fd (generation c)) c ->
  pending_responses c !! next_write_seq c = None ->
  streaming (log sv) (generation c) (parser c) (input_buffer c) ->
  watched (kernel sv) fd c ->
  read_loop fuel sv c fd ctl = Ret sv' -> zlen (log sv') < 2 ^ 63 -> server_inv sv' l.
Proof.
  revert sv c c0. induction fuel as [|fuel IH]; intros sv c c0 Hi E Eg Hcl Hst Hpool Hs Hnone Hstr Hwat HR Hb; [done|].
  pose proof (bound_prefix _ _ _ (advances_log _ _ (read_loop_advances _ _ _ _ _ _ HR)) Hb) as Hb0.
  cbn [read_loop] in HR. destruct (Parse (parser c) (input_buffer c) []) as [[[[p nb] command] st]| |] eqn:EP; [|done..].
  cbn [obind] in HR. apply (session_input _ _ _ nb p) in Hs. set (c1 := with_input c nb p) in *.
  assert (Hput : forall c', generation c' = generation c -> closing c' = false -> inv_but [fd] (put_connection sv fd c') l).
  { intros c' G' C'. apply (inv_put fd [] sv l c0); [done|done|congruence]. }
  destruct st.
  - unfold enqueue in HR. cbn [thread_pool put_connection with_connections] in HR. rewrite Hpool in HR.
    set (c2 := with_request_seq c1 _) in *.
    destruct (inv_submit fd (put_connection sv fd c2) l c2 c1 command _ (Hput c2 eq_refl Hcl)
      (lookup_insert_eq _ _ _) eq_refl Hs Hb0 ltac:(unfold enqueue; cbn; by rewrite Hpool)) as [Hi2 Hs2].
    eapply (IH _ c2 c2 Hi2); try done; [apply lookup_insert_eq|eapply streaming_success; [exact Hstr|exact EP|apply Hs]|].
    destruct Hwat as (e & He & Hsu). exists e. split; [done|]. unfold suits in *. cbn. by rewrite Hcl in *.
  - injection HR as <-. destruct (streaming_incomplete _ _ _ _ _ _ _ Hstr EP) as (s & Hnb & Hat).
    apply (inv_close fd [] _ _ c1); [by apply Hput|apply lookup_insert_eq| |done|cbn; by rewrite Hst|by eapply stream_at_ok].
    split; [done|]. split; [|done]. by exists s.
  - eapply (inv_fail fd (put_connection sv fd c1) l c1 ctl); try done; [by apply Hput|apply lookup_insert_eq| |].
    + destruct Hstr as ((s & Hnb) & Hp & _). pose proof (Parse_extends _ _ _ [] [] Hnb Hp) as Hx.
      unfold parse_extends in Hx. rewrite EP in Hx. destruct Hx as (s1 & Hs1 & _). by exists s1.
    + eapply streaming_error; [exact Hstr|exact EP|apply Hs].
Qed.

Lemma session_received lg out c d : session lg out c -> session (lg ++ [lg_received (generation c) d]) out c.
Proof.
  intros [(rs & s & Hl & Hrs & Hrest) Hnum Hu Hle Hp]. split; [| |done|done|].
  - exists rs, s. rewrite sent_snoc, app_nil_r. split; [done|]. split; [by apply replies_mono|done].
  - by rewrite numbers_snoc, app_nil_r.
  - intros k r Hk. by apply answered_mono, Hp.
Qed.

Lemma li_next_snoc lg (e : log_event) ts cs ng : log_inv lg ts cs ng -> ng <= ng <= 1 + zlen (lg ++ [e]).
Proof. intros Hl. pose proof (li_next _ _ _ _ Hl). rewrite zlen_app. change (zlen [e]) with 1. lia. Qed.

Lemma stream_received_nil lg g : stream_ok lg g -> stream_ok (lg ++ [lg_received g []]) g.
Proof.
  intros (p & nb & st & E & He & I1 & I2). exists p, nb, st. unfold indexed.
  rewrite commands_snoc, received_snoc, decide_True, !app_nil_r by done. split; [done|].
  split; [|split; [intros k c|intros k]; rewrite elem_of_app, list_elem_of_singleton; (intros [?|?]; [auto|done])].
  rewrite He. split; intros [k Hk]; exists k; rewrite elem_of_app, list_elem_of_singleton in *; [by left|].
  by destruct Hk.
Qed.

Lemma HandleRead_inv sv fd r ctl sv' l :
  server_inv sv l -> stop (thread_pool sv) = false ->
  HandleRead sv fd r ctl = Ret sv' -> zlen (log sv') < 2 ^ 63 -> server_inv sv' l.
Proof.
  intros Hi Hpool HR Hb. pose proof (bound_prefix _ _ _ (advances_log _ _ (HandleRead_advances _ _ _ _ _ HR)) Hb) as Hb0.
  unfold HandleRead in HR. destruct (connections sv !! fd) as [c|] eqn:E; [|by injection HR as <-].
  destruct (inv_session _ _ _ _ Hi E) as ((Hs & (s & Hin & Hat) & Hnone) & Hw & Hg & Hcl & Hok).
  destruct (closing c) eqn:Ec; [by injection HR as <-|]. specialize (Hat eq_refl).
  assert (Hst : stopping sv = false) by (destruct (stopping sv); [by discriminate Hcl|done]).
  apply (inv_open [fd]) in Hi.
  assert (Hput : forall nb, inv_but [fd] (put_connection sv fd (with_input c nb (parser c))) l)
    by (intros nb; by apply (inv_put fd [] sv l c)).
  destruct r as [errno|data].
  - cbn [ReadFromFd obind Z.eqb] in HR. change (-1 <? 0) with true in HR. cbv iota in HR.
    destruct ((errno =? EAGAIN) || (errno =? EINTR)); injection HR as <-.
    + apply (inv_close fd [] _ _ (with_input c (input_buffer c) (parser c))); try done; [apply lookup_insert_eq| |cbn; by rewrite Hst].
      split; [by apply session_input|]. split; [by exists s|done].
    + eapply (inv_closed fd [] _ l (with_input c (input_buffer c) (parser c))); [done|apply lookup_insert_eq|done].
  - destruct (Z.ltb_spec (WritableBytes (input_buffer c) + kExtraBuffer) (zlen data)) as [Hbig|Hfit].
    { unfold ReadFromFd in HR. by rewrite (proj2 (Z.ltb_lt _ _) Hbig) in HR. }
    destruct (ReadFromFd_data _ _ _ 0 Hin Hfit) as (nb & ER & Hnb). rewrite ER in HR. cbn [obind] in HR.
    set (c1 := with_input c nb (parser c)) in *.
    assert (Hi1 : inv_but [fd] (note (put_connection sv fd c1) (lg_received (generation c1) data)) l).
    { apply (inv_note fd _ _ c1); [apply Hput|apply lookup_insert_eq|done|].
      apply (log_inv_plain _ _ _ _ _ _ (ib_log _ _ _ Hi)); try done. eapply li_next_snoc, Hi. }
    destruct (Z.eqb_spec (zlen data) 0) as [Ez|Hz].
    { injection HR as <-. apply (inv_closed fd [] _ l c1); [done|apply lookup_insert_eq|].
      replace data with (@nil byte) by (destruct data; [done|]; rewrite zlen_cons in Ez; pose proof (zlen_nonneg data); lia).
      by apply stream_received_nil. }
    pose proof (zlen_nonneg data). destruct (Z.ltb_spec (zlen data) 0); [lia|].
    eapply (read_loop_inv _ _ _ c1 c1 _ _ _ Hi1); try done.
    + apply lookup_insert_eq.
    + apply session_received. by apply session_input.
    + cbn. by eapply streaming_received.
Qed.

(** ** Writing to the connection *)

Lemma HandleWrite_inv sv fd an ctl sv' l :
  server_inv sv l -> HandleWrite sv fd an ctl = Ret sv' -> server_inv sv' l.
Proof.
  intros Hi HW. unfold HandleWrite in HW. destruct (connections sv !! fd) as [c|] eqn:E; [|by injection HW as <-].
  destruct (inv_session _ _ _ _ Hi E) as ((Hs & Hread & Hnone) & Hw & Hg & Hcl & Hok). apply (inv_open [fd]) in Hi.
  pose proof (se_output _ _ _ Hs) as (rs & s & _ & Hrs & Hout & Hsent).
  destruct (write_loop_holds an _ _ Hout) as (octets & nb & ok & s' & EW & Es & Hnb). rewrite EW in HW. cbn [obind] in HW.
  pose proof (session_written _ _ _ octets nb s s' Hs Hout Es Hnb) as Hs1.
  set (c1 := with_output c nb) in *. change (generation c1) with (generation c) in HW.
  set (sv1 := note (put_connection sv fd c1) (lg_sent (generation c) octets)) in *.
  assert (E1 : connections sv1 !! fd = Some c1) by apply lookup_insert_eq.
  assert (Hi1 : inv_but [fd] sv1 l).
  { apply (inv_note fd _ _ c1); [by apply (inv_put fd [] sv l c)|exact E1|done|].
    apply (log_inv_plain _ _ _ _ _ _ (ib_log _ _ _ Hi)); try done; [eapply li_next_snoc, Hi|].
    intros g o [= <- <-]. exists rs. split; [done|]. rewrite sent_snoc, decide_True, <- Hsent, Es by done. rewrite app_assoc. by eexists. }
  assert (Hst : stream_ok (log sv1) (generation c1)) by (apply stream_ok_mono; [by repeat constructor|done]).
  assert (Hso : session_ok (log sv1) (outstanding (tasks_of sv1) (l ++ completed_queue sv1) fd (generation c1)) c1).
  { split; [done|]. split; [|done]. apply reading_mono; [by repeat constructor|exact Hread]. }
  destruct ok; cbn [negb] in HW; [|injection HW as <-; by apply (inv_closed fd [] _ l c1)].
  change (output_buffer c1) with nb in HW. change (closing c1) with (closing c) in HW.
  destruct (Z.eqb_spec (ReadableBytes nb) 0) as [Hz|Hz].
  - destruct (closing c) eqn:Ec; [destruct (IsConnectionDrained c1) eqn:Ed|]; injection HW as <-;
      [by apply (inv_closed fd [] _ l c1)| |]; apply (inv_register fd _ _ c1); try done; try (by cbn; rewrite Ec); unfold suits; cbn; rewrite Ec.
    + right. unfold IsConnectionDrained in Ed. change (output_buffer c1) with nb in Ed. rewrite Hz in Ed. cbn in Ed.
      destruct (decide (pending_responses c = ∅)) as [Hp|Hp].
      * rewrite bool_decide_eq_true_2 in Ed by done. apply Z.eqb_neq in Ed. pose proof (se_order _ _ _ Hs). lia.
      * apply map_choose in Hp as (k & r & Hk). by apply (waiting_reply _ _ _ k Hs).
    + done.
  - injection HW as <-. apply (inv_close fd [] _ _ c1); try done.
    destruct Hw as (e & He & Hsu). exists e. split; [done|]. unfold suits in *. cbn.
    destruct (closing c); [done|]. split; [apply Hsu|]. intros _. apply Hsu.
    rewrite (nb_holds_size _ _ Hout), Es, zlen_app. rewrite (nb_holds_size _ _ Hnb) in Hz.
    pose proof (zlen_nonneg octets). pose proof (zlen_nonneg s'). lia.
Qed.


Lemma HandleConnectionEvent_inv sv fd events an sv' l :
  server_inv sv l -> stop (thread_pool sv) = false ->
  HandleConnectionEvent sv fd events an = Ret sv' -> zlen (log sv') < 2 ^ 63 -> server_inv sv' l.
Proof.
  intros Hi Hpool HC Hb. unfold HandleConnectionEvent in HC. destruct (is_running sv); cbn [negb] in HC; [|by injection HC as <-].
  destruct (has_event events (Z.lor EPOLLERR EPOLLHUP)).
  { injection HC as <-. unfold CloseConnection. destruct (connections sv !! fd) as [c|] eqn:E; [|done].
    pose proof (inv_session _ _ _ _ Hi E) as (_ & _ & _ & _ & Hst).
    pose proof (inv_closed fd [] sv l c (inv_open _ _ _ Hi) E Hst) as Hx. unfold CloseConnection in Hx. by rewrite E in Hx. }
  destruct (if has_event events EPOLLIN then _ else _) as [sv1| |] eqn:E1; [|done..]. cbn [obind] in HC.
  assert (Hlog : log sv1 `prefix_of` log sv').
  { destruct (has_event events EPOLLOUT); [by eapply advances_log, HandleWrite_advances|by injection HC as <-]. }
  assert (Hi1 : server_inv sv1 l).
  { destruct (has_event events EPOLLIN); [|by injection E1 as <-].
    eapply HandleRead_inv; [exact Hi|exact Hpool|exact E1|by eapply bound_prefix]. }
  destruct (has_event events EPOLLOUT); [by eapply HandleWrite_inv|by injection HC as <-].
Qed.

(** ** Completed tasks *)

(** A completed task concerns the connection with its descriptor and generation
    alone. *)
Lemma inv_pop x sv task l :
  inv_but x sv (task :: l) ->
  (forall c, ct_fd task ∉ x -> connections sv !! ct_fd task = Some c -> generation c <> ct_generation task) ->
  inv_but x sv l.
Proof.
  intros [Hs Hg Hst Hl Hk Hc Hp] Hx. split; try done.
  - intros fd c E. destruct (Hs fd c E) as (Ha & Hb). split; [|done]. intros Hne. destruct (Ha Hne) as [(H1 & H2 & H3) H4].
    split; [|done]. split; [|done]. eapply session_perm; [|exact H1]. cbn [app]. rewrite outstanding_completed.
    rewrite decide_False; [done|]. intros [<- Eg]. by apply (Hx c Hne E).
  - by eapply (log_inv_drop _ _ [task]).
Qed.

Lemma complete_task_inv sv task l ctl sv' :
  server_inv sv (task :: l) -> complete_task sv task ctl = Ret sv' -> zlen (log sv) < 2 ^ 63 -> server_inv sv' l.
Proof.
  intros Hi HC Hb. unfold complete_task in HC.
  destruct (connections sv !! ct_fd task) as [c|] eqn:E; [|injection HC as <-; apply (inv_pop _ _ task _ Hi); congruence].
  destruct (Z.eqb_spec (generation c) (ct_generation task)) as [Eg|Hne]; cbn [negb] in HC;
    [|injection HC as <-; apply (inv_pop _ _ task _ Hi); congruence].
  destruct (inv_session _ _ _ _ Hi E) as ((Hs & Hread & Hnone) & Hw & Hg & Hcl & Hst).
  pose proof (li_completed _ _ _ _ (ib_log _ _ _ Hi)) as Ha. cbn [app] in Ha. apply Forall_cons in Ha as [Ha _].
  assert (Hs1 : session (log sv) (outstanding (tasks_of sv) (l ++ completed_queue sv) (ct_fd task) (generation c))
    (emplace_response c (ct_seq task) (ct_response task))).
  { apply session_complete; [|by rewrite Eg]. eapply session_perm; [|exact Hs]. cbn [app].
    rewrite outstanding_completed. by rewrite decide_True. }
  set (c1 := emplace_response _ _ _) in *.
  apply (inv_open [ct_fd task]), inv_pop in Hi; [|set_solver].
  assert (Hn1 : next_request_seq c1 < 2 ^ 64) by (pose proof (session_bound _ _ _ Hs1); lia).
  destruct (flush_session _ _ _ c1 false Hs1 Hn1 (le_n _)) as (c2 & app & Ef & Hs2 & Hnone2 & (G & C & P & I & N) & Happ & _).
  unfold flush_ready in HC. rewrite Ef in HC. cbn [obind] in HC.
  assert (E2 : connections (put_connection sv (ct_fd task) c2) !! ct_fd task = Some c2) by apply lookup_insert_eq.
  assert (Hi2 : inv_but [ct_fd task] (put_connection sv (ct_fd task) c2) l).
  { by apply (inv_put _ [] sv l c). }
  assert (Hcl2 : stopping sv = true -> closing c2 = true) by (intros Hx; rewrite C; by apply Hcl).
  assert (Hso : session_ok (log sv) (outstanding (tasks_of sv) (l ++ completed_queue sv) (ct_fd task) (generation c2)) c2).
  { rewrite G. split; [exact Hs2|]. split; [|done]. unfold reading. by rewrite I, P, C, G. }
  destruct app; injection HC as <-.
  - apply (inv_register _ _ _ c2); try done; [by rewrite G|]. unfold suits. destruct (closing c2); [by left|done].
  - apply (inv_close (ct_fd task) [] _ _ c2); try done; [|by rewrite G]. rewrite (Happ eq_refl).
    destruct Hw as (e & He & Hsu). by exists e.
Qed.

Lemma complete_tasks_inv local i sv ctl sv' l :
  server_inv sv (local ++ l) -> complete_tasks i sv local ctl = Ret sv' -> zlen (log sv') < 2 ^ 63 -> server_inv sv' l.
Proof.
  revert i sv. induction local as [|task local IH]; intros i sv Hi; cbn [complete_tasks]; [by intros [= <-]|].
  destruct (complete_task sv task (ctl i)) as [sv1| |] eqn:E; [|done..]. cbn [obind]. intros HR Hb.
  pose proof (advances_log _ _ (complete_tasks_advances _ _ _ _ _ HR)) as H1.
  eapply (IH _ sv1); [|exact HR|done].
  eapply complete_task_inv; [exact Hi|exact E|]. by eapply bound_prefix; [|exact Hb]; etrans; [apply advances_log; by eapply complete_task_advances|].
Qed.

Lemma MaybeFinishShutdown_inv sv l : server_inv sv l -> server_inv (MaybeFinishShutdown sv) l.
Proof.
  intros Hi. unfold MaybeFinishShutdown. destruct (negb (stopping sv)); [done|].
  destruct (0 <=? listen_fd sv); [done|]. case_bool_decide as Ec; [done|]. apply inv_wake.
  destruct Hi as [Hs Hg Hst Hl Hk Hc Hp]. split; try done. destruct Hk. by split.
Qed.

Lemma HandleWorkerCompletions_inv sv ctl sv' :
  server_inv sv [] -> HandleWorkerCompletions sv ctl = Ret sv' -> zlen (log sv') < 2 ^ 63 -> server_inv sv' [].
Proof.
  intros Hi HC Hb. unfold HandleWorkerCompletions in HC.
  destruct (complete_tasks _ _ _ _) as [sv1| |] eqn:E; [|done..]. cbn [obind] in HC. injection HC as <-.
  rewrite MaybeFinishShutdown_log in Hb. apply MaybeFinishShutdown_inv.
  eapply complete_tasks_inv; [|exact E|exact Hb]. rewrite app_nil_r.
  destruct Hi as [Hs Hg Hst Hl Hk Hc Hp]. cbn [app] in *. split; try done; cbn; rewrite ?app_nil_r; try done.
  destruct Hk. by split.
Qed.

(** ** Accepting *)

Lemma held_listen sv : kernel_inv sv -> 0 <= listen_fd sv -> listen_fd sv ∈ open_fds (kernel sv).
Proof. intros Hk Hl. rewrite (ki_open _ Hk). unfold held, nonneg. rewrite (proj2 (Z.leb_le _ _) Hl). set_solver. Qed.

Lemma held_wake sv : kernel_inv sv -> 0 <= wake_fd sv -> wake_fd sv ∈ open_fds (kernel sv).
Proof. intros Hk Hl. rewrite (ki_open _ Hk). unfold held, nonneg. rewrite (proj2 (Z.leb_le _ _) Hl). set_solver. Qed.

Lemma held_epoll sv : kernel_inv sv -> 0 <= epoll_fd sv -> epoll_fd sv ∈ open_fds (kernel sv).
Proof. intros Hk Hl. rewrite (ki_open _ Hk). unfold held, nonneg. rewrite (proj2 (Z.leb_le _ _) Hl). set_solver. Qed.

Lemma held_conn sv fd c : kernel_inv sv -> connections sv !! fd = Some c -> fd ∈ open_fds (kernel sv).
Proof. intros Hk E. rewrite (ki_open _ Hk). unfold held. rewrite !elem_of_union. do 3 left. by apply elem_of_dom. Qed.

(** A kernel that agrees on the open descriptors will do. *)
Lemma inv_kernel sv l k :
  server_inv sv l -> open_fds k = open_fds (kernel sv) -> wake_ready k = wake_ready (kernel sv) ->
  (forall fd, fd ∈ open_fds (kernel sv) -> interest k !! fd = interest (kernel sv) !! fd) ->
  server_inv (with_kernel sv k) l.
Proof.
  intros [Hs Hg Hst Hl Hk Hc Hp] Ho Hw Hi. split; try done.
  - intros fd c E. destruct (Hs fd c E) as (Ha & Hb). split; [|done]. intros Hne. destruct (Ha Hne) as [H1 [(e & He & H2) Hcl]].
    split; [done|]. split; [|done]. exists e. split; [|done]. cbn. by rewrite Hi by (by eapply held_conn).
  - pose proof Hk as [Ho' Hcn Hli Hwk Hr Hsp]. split; cbn; try done.
    + by rewrite Ho.
    + intros Hx. rewrite Hi by (by apply held_listen). auto.
    + intros Hx. rewrite Hi by (by apply held_wake). auto.
  - cbn. by rewrite Hw.
Qed.

(** A descriptor that is opened and closed again. *)
Lemma inv_open_close sv l fd :
  server_inv sv l -> fd ∉ open_fds (kernel sv) -> server_inv (with_kernel sv (k_close fd (k_open fd (kernel sv)))) l.
Proof.
  intros Hi Hf. apply inv_kernel; [done| |done|]; cbn; [set_solver|].
  intros fd' Hin. rewrite lookup_delete_ne; [done|]. by intros ->.
Qed.

(** A generation is given out. *)
Lemma inv_accepted sv l :
  server_inv sv l -> zlen (log sv) < 2 ^ 63 ->
  server_inv (note (with_generation sv (u64 (next_generation sv + 1))) (lg_accept (next_generation sv))) l.
Proof.
  intros [Hs Hg Hst Hl Hk Hc Hp] Hb. pose proof (li_next _ _ _ _ Hl). rewrite u64_small by lia.
  split; cbn [log note next_generation with_generation connections kernel stopping wake_fd completed_queue]; try done.
  - intros fd c E. destruct (Hs fd c E) as (Ha & Hb'). split; [|lia]. intros Hne.
    destruct (Ha Hne) as [(H1 & H2 & H3) H4]. split; [|done].
    split; [apply session_mono; [by constructor|done]|]. split; [apply reading_mono; [by constructor|done]|done].
  - intros g Hx. apply stream_ok_mono; [by constructor|by apply Hst].
  - apply (log_inv_plain _ _ _ _ _ _ Hl); try done; cbn; [lia|]. rewrite zlen_app. change (zlen [_]) with 1. lia.
  - destruct Hk. by split.
Qed.

Lemma held_insert sv fd c :
  held (with_connections sv (<[fd := c]> (connections sv))) = {[fd]} ∪ held sv.
Proof. unfold held. cbn. rewrite dom_insert_L. set_solver. Qed.

(** A connection on a new descriptor whose generation has no history. *)
Lemma inv_connected sv l fd g :
  server_inv sv l -> 0 <= fd -> fd ∉ open_fds (kernel sv) -> g < next_generation sv -> stopping sv = false ->
  numbers g (log sv) = [] -> commands g (log sv) = [] -> received g (log sv) = [] -> sent g (log sv) = [] ->
  (forall k, lg_error g k ∉ log sv) -> outstanding (tasks_of sv) (l ++ completed_queue sv) fd g = [] ->
  (forall fd' c, connections sv !! fd' = Some c -> generation c <> g) ->
  server_inv (UpdateEpollEvent (put_connection (with_kernel sv (k_open fd (kernel sv))) fd (Connection_new g)) fd
    (Z.lor EPOLLIN EPOLLRDHUP) true) l.
Proof.
  intros Hi H0 Hf Hg' Hst' Hnum Hcom Hrec Hsent Herr Hout Hfresh.
  pose proof Hi as [Hs Hg Hst Hl Hk Hc Hp]. pose proof Hk as [Ho Hcn Hli Hw Hr Hsp].
  assert (Hstream : stream_at (log sv) g RESPParser_new []).
  { split; [by split|]. split; [apply idle_nil; by split|]. split; [done|].
    split. { split; [|by intros k Hin%Herr]. intros k c Hin%elem_of_commands. rewrite Hcom in Hin. by apply not_elem_of_nil in Hin. }
    rewrite Hrec, Hcom.
    exists (nb_of []). split; [apply nb_of_holds|]. by vm_compute. }
  assert (Hdisj : forall fd', fd' ∈ open_fds (kernel sv) -> fd' <> fd) by (by intros ? ? ->).
  split; cbn [log UpdateEpollEvent put_connection with_kernel with_connections connections stopping next_generation kernel wake_fd completed_queue]; try done.
  - intros fd' c. rewrite lookup_insert_Some. intros [[<- <-]|[Hne E]].
    + split; [|done]. intros _. split; [|split; [|by rewrite Hst']].
      * split; [replace (outstanding _ _ _ _) with (@nil Z) by (symmetry; exact Hout); by apply session_new|]. split; [|done]. exists []. split; [apply nb_holds_new|done].
      * exists (Z.lor EPOLLIN EPOLLRDHUP). cbn. rewrite lookup_insert_eq. done.
    + destruct (Hs fd' c E) as (Ha & Hb). split; [|done]. intros Hx. destruct (Ha Hx) as [H1 [(e & He & H2) Hcl]].
      split; [done|]. split; [|done]. exists e. split; [|done]. cbn. by rewrite lookup_insert_ne.
  - intros fd1 fd2 c1 c2. rewrite !lookup_insert_Some. intros [[<- <-]|[Hn1 E1]] [[<- <-]|[Hn2 E2]] Eq; cbn in Eq; [done| | |].
    + by destruct (Hfresh _ _ E2).
    + by destruct (Hfresh _ _ E1).
    + by eapply Hg.
  - intros g' _. apply (inv_streams _ _ _ Hi).
  - split; cbn; try done.
    + rewrite Ho. symmetry. apply (held_insert sv fd).
    + intros fd' [c [[<- <-]|[Hne E]]%lookup_insert_Some]; [|apply Hcn; by eexists].
      split; [done|]. split; [|split]; intros ->.
      * by apply (Hdisj (listen_fd sv)); [apply held_listen|].
      * by apply (Hdisj (epoll_fd sv)); [apply held_epoll|].
      * by apply (Hdisj (wake_fd sv)); [apply held_wake|].
    + intros Hx. rewrite lookup_insert_ne; [auto|]. intros ->. by apply (Hdisj (listen_fd sv)); [apply held_listen|].
    + intros Hx. rewrite lookup_insert_ne; [auto|]. intros ->. by apply (Hdisj (wake_fd sv)); [apply held_wake|].
  - intros _ _ _ _. apply insert_non_empty.
Qed.

Lemma HandleAccept_inv an sv l :
  server_inv sv l -> 0 <= listen_fd sv -> accept_fresh (open_fds (kernel sv)) an ->
  zlen (log (HandleAccept sv an)) < 2 ^ 63 -> server_inv (HandleAccept sv an) l.
Proof.
  revert sv. induction an as [|a an IH]; intros sv Hi Hli Hf Hb; cbn [HandleAccept] in *;
    (destruct (is_running sv) eqn:Er; cbn [negb] in *; [|done]); [done|].
  destruct a as [fd nonblocking added| |]; [|by apply IH|done].
  destruct Hf as (H0 & Hnew & Hf).
  assert (Hclose : forall sv1, server_inv sv1 l -> open_fds (kernel sv1) = open_fds (kernel sv) -> listen_fd sv1 = listen_fd sv ->
    accept_fresh (open_fds (kernel sv)) an ->
    let sv2 := with_kernel sv1 (k_close fd (k_open fd (kernel sv1))) in
    zlen (log (HandleAccept sv2 an)) < 2 ^ 63 -> server_inv (HandleAccept sv2 an) l).
  { intros sv1 Hi1 Eo El Hf1 sv2 Hb1. apply IH; try done; [apply inv_open_close; [done|by rewrite Eo]|cbn; lia|].
    cbn. rewrite Eo. replace (({[fd]} ∪ open_fds (kernel sv)) ∖ {[fd]}) with (open_fds (kernel sv)) by set_solver. done. }
  destruct nonblocking; cbn [negb] in *; [|by apply (Hclose sv)].
  cbn [connections with_generation with_kernel next_generation] in *.
  destruct (connections sv !! fd) as [c|] eqn:E.
  { destruct Hnew. eapply held_conn; [apply Hi|done]. }
  assert (Hb0 : zlen (log sv) < 2 ^ 63).
  { eapply bound_prefix; [|exact Hb]. destruct added; (etrans; [|apply advances_log, HandleAccept_advances]); by eexists. }
  pose proof (inv_accepted _ _ Hi Hb0) as Hi1. set (g := next_generation sv) in *. set (sv1 := note _ _) in Hi1.
  destruct added; cbn [andb] in Hf.
  - apply IH; [|done|done|done].
    destruct (fresh_histories (log sv) g g (li_generations _ _ _ _ (ib_log _ _ _ Hi)) (Z.le_refl _)) as (F1 & F2 & F3 & F4 & F5).
    assert (El : log sv1 = log sv ++ [lg_accept g]) by done.
    apply (inv_connected sv1 l fd g Hi1); try done; rewrite ?El.
    + change (next_generation sv1) with (u64 (g + 1)). pose proof (li_next _ _ _ _ (ib_log _ _ _ Hi)) as Hn.
      fold g in Hn. rewrite u64_small; lia.
    + change (stopping sv1) with (stopping sv). destruct (stopping sv) eqn:Es; [|done].
      pose proof (ki_stopping _ (ib_kernel _ _ _ Hi) (or_introl Es)). lia.
    + by rewrite numbers_snoc, app_nil_r.
    + by rewrite commands_snoc, app_nil_r.
    + by rewrite received_snoc, app_nil_r.
    + by rewrite sent_snoc, app_nil_r.
    + intros k. rewrite elem_of_app, list_elem_of_singleton. by intros [?%F5|?].
    + exact (outstanding_fresh _ _ _ _ fd (ib_log _ _ _ Hi)).
    + intros fd' c E'. pose proof (ib_sessions _ _ _ Hi fd' c E') as (_ & Hlt). unfold g. lia.
  - replace (close_fd _ fd) with (with_kernel sv1 (k_close fd (k_open fd (kernel sv1)))) in *.
    { by apply (Hclose sv1). }
    unfold sv1, close_fd, with_kernel, with_connections, note, with_generation, put_connection, UpdateEpollEvent. cbn.
    by rewrite delete_insert_id.
Qed.

End steps.
