(* ===== verification/ServerRun.v ===== *)
(** All runs of the server: the workers, starting, stopping and cleaning up keep
    the invariant of [ServerInv]; the properties of the server. *)
From S2P Require Import Prelude DBImpl DBConc NetBuffer Resp Command ThreadPool Server ServerDB ServerFrame ServerInv.

Section steps.
Context {D : Type} `{Executor D}.
Implicit Types (sv : TcpServer D) (c : Connection) (l : list CompletedTask).

(** ** The workers *)

(** A change of the work under way that concerns no connection, with events that
    concern none. *)
Lemma inv_work sv sv' l es :
  server_inv sv l -> connections sv' = connections sv -> next_generation sv' = next_generation sv ->
  (forall fd, is_Some (connections sv !! fd) -> interest (kernel sv') !! fd = interest (kernel sv) !! fd) ->
  stopping sv' = stopping sv -> is_running sv' = is_running sv ->
  (stop (thread_pool sv') = false -> stop (thread_pool sv) = false) ->
  log sv' = log sv ++ es -> (forall g, Forall (quiet g) es) ->
  (forall fd g, outstanding (tasks_of sv') (l ++ completed_queue sv') fd g ≡ₚ
    outstanding (tasks_of sv) (l ++ completed_queue sv) fd g) ->
  log_inv (log sv') (tasks_of sv') (l ++ completed_queue sv') (next_generation sv') ->
  kernel_inv sv' ->
  (completed_queue sv' <> [] -> 0 <= wake_fd sv' -> wake_ready (kernel sv') = true) ->
  server_inv sv' l.
Proof.
  intros Hi Ec En Ei Es Er Hpool El Hq Ho Hl Hk Hc. split; try done.
  - intros fd c. rewrite Ec, En, Es, El. intros E.
    destruct (inv_session _ _ _ _ Hi E) as ((H1 & H2 & H3) & Hw & Hg & Hcl & _). split; [|done]. intros _.
    split; [|split; [|done]].
    + split; [|split; [apply reading_mono; [apply quiet_still, Hq|done]|done]].
      apply session_mono; [apply Hq|]. by eapply session_perm; [symmetry; apply Ho|].
    + destruct Hw as (e & He & Hsu). exists e. by rewrite Ei by (by eexists).
  - rewrite Ec. apply (ib_generations _ _ _ Hi).
  - intros g _. rewrite El. apply stream_ok_mono; [apply quiet_still, Hq|]. by eapply inv_streams.
  - intros _. rewrite Ec, Es, Er. intros H1 H2 H3. apply (ib_stopped _ _ _ Hi); auto.
Qed.

Lemma pool_step_stop {T} (p : ThreadPool T) a p' e :
  pool_step p a = Some (p', e) -> a <> act_stop -> stop p' = stop p.
Proof.
  intros Hs Ha. destruct a as [t|i|i|i| |]; cbn [pool_step] in Hs; unfold enqueue, worker_locked in Hs;
    repeat (case_match; cbn in Hs; try done); simplify_eq; cbn; congruence.
Qed.

Lemma kernel_inv_pool sv p :
  kernel_inv sv -> stop p = stop (thread_pool sv) -> kernel_inv (with_pool sv p).
Proof. intros [? ? ? ? Hr ?] Hp. split; try done; cbn; by rewrite Hp. Qed.

(** Scheduling moves tasks from the queue to the workers. *)
Lemma scheduling_tasks (p : ThreadPool WorkerTask) a p' e :
  pool_step p a = Some (p', e) -> scheduling a e ->
  tasks p' ++ running (workers p') ≡ₚ tasks p ++ running (workers p) /\ stop p' = stop p.
Proof.
  intros Hs Hsch. split.
  - apply pool_step_effect in Hs. destruct e as [t|t|t|]; cbn in Hs, Hsch; try done; destruct Hs as [E1 E2].
    + rewrite E1, E2. cbn. by rewrite <- Permutation_middle.
    + by rewrite E1, E2.
  - eapply pool_step_stop; [done|]. intros ->. destruct e; try done. cbn in Hs. by destruct (stop p).
Qed.

Lemma pool_inv_step sv a p e l :
  server_inv sv l -> pool_step (thread_pool sv) a = Some (p, e) -> scheduling a e -> server_inv (with_pool sv p) l.
Proof.
  intros Hi Hs Hsch. destruct (scheduling_tasks _ _ _ _ Hs Hsch) as [Hp Hst].
  apply (inv_work sv _ l []); try done; cbn; rewrite ?Hst, ?app_nil_r; try done.
  - intros fd g. apply outstanding_perm; [exact Hp|done].
  - eapply log_inv_perm; [symmetry; exact Hp|reflexivity|apply (ib_log _ _ _ Hi)].
  - apply kernel_inv_pool; [apply Hi|done].
  - apply (ib_completed _ _ _ Hi).
Qed.

Lemma background_inv sv db l : server_inv sv l -> server_inv (note (with_db sv db) lg_background) l.
Proof.
  intros Hi. apply (inv_work sv _ l [lg_background]); try done; [by constructor|..].
  - pose proof (li_next _ _ _ _ (ib_log _ _ _ Hi)). apply (log_inv_plain _ _ _ _ _ _ (ib_log _ _ _ Hi)); cbn; try done; [lia|].
    rewrite zlen_app. change (zlen [_]) with 1. lia.
  - destruct (ib_kernel _ _ _ Hi). by split.
  - apply (ib_completed _ _ _ Hi).
Qed.

(** What [run_task] does. *)
Lemma run_task_spec sv i flips sv' :
  run_task sv i flips = Ret (Some sv') ->
  exists t pool db nb threw nb' response, workers (thread_pool sv) !! i = Some (w_run t) /\
    pool_step (thread_pool sv) (act_worker i) = Some (pool, pe_finish t) /\
    exec flips (sv_db sv) (wt_command t) (NetworkBuffer_new 1024) = Ret (Some (db, nb, threw)) /\
    (if threw : bool then EncodeError nb (str "internal server error") else Ret nb) = Ret nb' /\
    nb_holds nb' response /\
    sv' = WakeEventLoop (note (with_completed (with_db (with_pool sv pool) db)
      (completed_queue sv ++ [mkCompleted (wt_fd t) (wt_generation t) (wt_seq t) response]))
      (lg_executed (wt_generation t) (wt_seq t) (wt_command t) response)).
Proof.
  unfold run_task. destruct (workers (thread_pool sv) !! i) as [[| |t|]|] eqn:Ew; [done..| |done|done].
  assert (Ep : pool_step (thread_pool sv) (act_worker i) = Some (set_worker (thread_pool sv) i w_lock, pe_finish t))
    by (cbn; by rewrite Ew).
  rewrite Ep.
  destruct (exec flips (sv_db sv) (wt_command t) (NetworkBuffer_new 1024)) as [[[[db nb] threw]|]| |] eqn:Ex; [|done..]. cbn [obind].
  destruct (exec_buffer _ _ _ _ _ _ _ _ (nb_holds_new 1024) Ex) as [s Hnb].
  assert (Hnb' : exists nb' s', (if threw then EncodeError nb (str "internal server error") else Ret nb) = Ret nb' /\ nb_holds nb' s').
  { destruct threw; [|by exists nb, s].
    destruct (encode_reply_holds nb s (re_error (str "internal server error")) Hnb) as (nb' & E & Hn). by eexists _, _. }
  destruct Hnb' as (nb' & s' & Ee & Hn). rewrite Ee. cbn [obind]. unfold RetrieveAllAsString. rewrite (Peek_holds _ _ Hn).
  cbn [obind]. intros [= <-]. by exists t, (set_worker (thread_pool sv) i w_lock), db, nb, threw, nb', s'.
Qed.

Lemma run_task_inv sv i flips sv' l :
  server_inv sv l -> run_task sv i flips = Ret (Some sv') -> server_inv sv' l.
Proof.
  intros Hi HT. destruct (run_task_spec _ _ _ _ HT) as (t & pool & db & nb & threw & nb' & r & Ew & Hs & _ & _ & _ & ->).
  pose proof (pool_step_stop _ _ _ _ Hs ltac:(done)) as Hst.
  pose proof (pool_step_effect _ _ _ _ Hs) as [Et Er]. set (done_task := mkCompleted _ _ _ _). set (sv1 := note _ _).
  assert (Hts : tasks_of sv ≡ₚ t :: tasks_of sv1).
  { unfold tasks_of. cbn. rewrite Er, Et. by rewrite Permutation_middle. }
  assert (Hcs : l ++ completed_queue sv1 ≡ₚ done_task :: l ++ completed_queue sv).
  { cbn. rewrite app_assoc. by rewrite <- Permutation_cons_append. }
  assert (Hk : kernel_inv sv1).
  { destruct (kernel_inv_pool sv pool (ib_kernel _ _ _ Hi)) as [? ? ? ? ? ?]; [done|]. by split. }
  apply (inv_work sv _ l [lg_executed (wt_generation t) (wt_seq t) (wt_command t) r]); unfold WakeEventLoop;
    destruct (Z.ltb_spec (wake_fd sv1) 0) as [Hw|Hw]; try done; try (by constructor); try (cbn in *; lia);
    try (by cbn; rewrite Hst).
  1, 2: intros fd g; rewrite (outstanding_perm _ _ _ _ fd g (Permutation_refl _) Hcs), outstanding_completed;
    rewrite (outstanding_perm _ _ _ _ fd g Hts (Permutation_refl _)), outstanding_task; done.
  1, 2: eapply log_inv_perm; [reflexivity|symmetry; exact Hcs|]; apply log_inv_executed;
    eapply log_inv_perm; [exact Hts|reflexivity|apply (ib_log _ _ _ Hi)].
  destruct Hk. by split.
Qed.

(** ** Stopping *)

(** The descriptor of the listening socket is given back. *)
Lemma kernel_close_listen sv :
  open_fds (kernel sv) = held sv ->
  (forall fd, is_Some (connections sv !! fd) -> 0 <= fd /\ fd <> listen_fd sv /\ fd <> epoll_fd sv /\ fd <> wake_fd sv) ->
  (0 <= listen_fd sv -> listen_fd sv <> epoll_fd sv /\ listen_fd sv <> wake_fd sv) ->
  (0 <= wake_fd sv -> wake_fd sv <> epoll_fd sv /\ interest (kernel sv) !! wake_fd sv = Some EPOLLIN) ->
  (stop (thread_pool sv) = false -> 0 <= wake_fd sv /\ 0 <= epoll_fd sv /\ stopping sv = true) ->
  kernel_inv (close_listen sv).
Proof.
  intros Ho Hcn Hli Hw Hr. unfold close_listen. destruct (Z.leb_spec 0 (listen_fd sv)) as [Hl|Hl].
  - destruct (Hli Hl) as [Hn1 Hn2]. split; cbn.
    + rewrite Ho. unfold held, nonneg. cbn. rewrite (proj2 (Z.leb_le _ _) Hl).
      assert (Hd : listen_fd sv ∉ dom (connections sv)).
      { intros Hin%elem_of_dom. by destruct (Hcn _ Hin) as (_ & ? & _). }
      destruct (0 <=? epoll_fd sv), (0 <=? wake_fd sv); set_solver.
    + intros fd Hin. destruct (Hcn _ Hin) as (? & ? & ? & ?). lia.
    + lia.
    + intros Hx. destruct (Hw Hx). split; [done|]. by rewrite !lookup_delete_ne by done.
    + intros Hx. destruct (Hr Hx) as (? & ? & ?). done.
    + lia.
  - split; try done; try lia. intros Hx. destruct (Hr Hx) as (? & ? & ?). done.
Qed.

Lemma close_listen_same sv :
  let sv' := close_listen sv in
  connections sv' = connections sv /\ log sv' = log sv /\ thread_pool sv' = thread_pool sv /\
  completed_queue sv' = completed_queue sv /\ next_generation sv' = next_generation sv /\ stopping sv' = stopping sv /\
  is_running sv' = is_running sv /\ wake_fd sv' = wake_fd sv /\ wake_ready (kernel sv') = wake_ready (kernel sv) /\
  (forall fd, fd <> listen_fd sv \/ listen_fd sv < 0 -> interest (kernel sv') !! fd = interest (kernel sv) !! fd).
Proof.
  cbn. unfold close_listen. destruct (Z.leb_spec 0 (listen_fd sv)); cbn; repeat split; try done.
  intros fd Hne. rewrite !lookup_delete_ne by lia. done.
Qed.

Lemma Cleanup_begin_pool sv :
  exists p, Cleanup_begin sv = close_listen (with_pool sv p) /\ stop p = true /\
    tasks p = tasks (thread_pool sv) /\ workers p = workers (thread_pool sv).
Proof.
  unfold Cleanup_begin. destruct (close_listen_same sv) as (_ & _ & -> & _). cbn [pool_step].
  unfold close_listen. set (p := thread_pool sv).
  destruct (stop p) eqn:Es; [exists p|exists (mkPool (workers p) (tasks p) true (notifies p) true)].
  - split; [|done]. cbn. destruct (0 <=? listen_fd sv); by destruct sv.
  - split; [|done]. cbn. by destruct (0 <=? listen_fd sv).
Qed.

Lemma Cleanup_begin_inv sv l : server_inv sv l -> server_inv (Cleanup_begin sv) l.
Proof.
  intros Hi. destruct (Cleanup_begin_pool sv) as (p & -> & Hst & Ht & Hw).
  pose proof (ib_kernel _ _ _ Hi) as [Ho Hcn Hli Hwk Hr Hsp].
  destruct (close_listen_same (with_pool sv p)) as (E1 & E2 & E3 & E4 & E5 & E6 & E7 & E8 & E9 & E10).
  assert (Ets : tasks_of (close_listen (with_pool sv p)) = tasks_of sv) by (unfold tasks_of; rewrite E3; cbn; by rewrite Ht, Hw).
  apply (inv_work sv _ l []); rewrite ?E1, ?E2, ?E3, ?E4, ?E5, ?E6, ?E7, ?E8, ?E9, ?Ets, ?app_nil_r; try done.
  - intros fd Hin. apply E10. destruct (Hcn fd Hin) as (? & ? & _). by left.
  - cbn. by rewrite Hst.
  - apply (ib_log _ _ _ Hi).
  - apply kernel_close_listen; try done.
    + intros Hx. by destruct (Hli Hx) as (? & ? & _).
    + cbn. by rewrite Hst.
  - apply (ib_completed _ _ _ Hi).
Qed.

Lemma inv_ext X X' sv l : (forall fd, fd ∈ X <-> fd ∈ X') -> (X = [] <-> X' = []) -> inv_but X sv l -> inv_but X' sv l.
Proof.
  intros Hx He [Hs Hg Hst Hl Hk Hc Hp]. split; try done.
  - intros fd c E. destruct (Hs fd c E) as (Ha & Hb). split; [|done]. by rewrite <- Hx.
  - intros g Hn. apply Hst. intros fd c Hin. by apply Hn, Hx.
  - intros E. by apply Hp, He.
Qed.

Lemma stop_connections_inv ctl l L sv X :
  NoDup L.*1 ->
  (forall fd c, (fd, c) ∈ L -> connections sv !! fd = Some c /\
    session_ok (log sv) (outstanding (tasks_of sv) (l ++ completed_queue sv) fd (generation c)) c) ->
  (forall g, stream_ok (log sv) g) -> inv_but (L.*1 ++ X) sv l ->
  let '(sv', tc) := stop_connections sv L ctl in
  inv_but (tc ++ X) sv' l /\ log sv' = log sv /\ NoDup tc /\ tc ⊆ L.*1 /\
  (forall fd, is_Some (connections sv !! fd) -> is_Some (connections sv' !! fd)).
Proof.
  revert sv X. induction L as [|[fd c] L IH]; intros sv X Hnd HL Hst Hi; cbn [stop_connections].
  { split; [done|]. split; [done|]. split; [constructor|done]. }
  cbn [fmap list_fmap fst app] in Hi, Hnd. apply NoDup_cons in Hnd as [Hn Hnd].
  destruct (HL fd c (list_elem_of_here _ _)) as [E [Hs [Hread Hnone]]].
  set (c1 := with_closing c). assert (Hi1 : inv_but (fd :: L.*1 ++ X) (put_connection sv fd c1) l) by (by apply (inv_put _ _ _ _ c)).
  assert (Hothers : forall sv1, connections sv1 = <[fd := c1]> (connections sv) -> log sv1 = log sv ->
    tasks_of sv1 = tasks_of sv -> completed_queue sv1 = completed_queue sv ->
    (forall fd' c', (fd', c') ∈ L -> connections sv1 !! fd' = Some c' /\
      session_ok (log sv1) (outstanding (tasks_of sv1) (l ++ completed_queue sv1) fd' (generation c')) c')).
  { intros sv1 E1 E2 E3 E4 fd' c' Hin. destruct (HL fd' c' (list_elem_of_further _ _ _ Hin)) as [E' Hs'].
    rewrite E1, E2, E3, E4, lookup_insert_ne; [done|]. intros ->. apply Hn, list_elem_of_fmap. by exists (fd', c'). }
  assert (Hdom : forall sv', (forall fd', is_Some (connections (put_connection sv fd c1) !! fd') -> is_Some (connections sv' !! fd')) ->
    forall fd', is_Some (connections sv !! fd') -> is_Some (connections sv' !! fd')).
  { intros sv' Hx fd' Hin. apply Hx. cbn. destruct (decide (fd' = fd)) as [->|Hne]; [rewrite lookup_insert_eq; by eexists|].
    by rewrite lookup_insert_ne. }
  assert (Hclosed : let '(sv', tc) := stop_connections (put_connection sv fd c1) L ctl in
    inv_but ((fd :: tc) ++ X) sv' l /\ log sv' = log sv /\ NoDup (fd :: tc) /\ fd :: tc ⊆ fd :: L.*1 /\
    (forall fd', is_Some (connections sv !! fd') -> is_Some (connections sv' !! fd'))).
  { specialize (IH (put_connection sv fd c1) (fd :: X) Hnd (Hothers (put_connection sv fd c1) eq_refl eq_refl eq_refl eq_refl) Hst).
    destruct (stop_connections (put_connection sv fd c1) L ctl) as [sv' tc].
    destruct IH as (I1 & I2 & I3 & I4 & I5).
    { eapply inv_ext; [| |exact Hi1]; [set_solver|]. split; intros Ex; [done|]. by destruct (L.*1). }
    split. { eapply inv_ext; [| |exact I1]; [set_solver|]. split; intros Ex; [by destruct tc|done]. }
    split; [done|]. split; [constructor; set_solver|]. split; [set_solver|]. by apply Hdom. }
  unfold stop_connection. fold c1. destruct (IsConnectionDrained c1).
  { by destruct (stop_connections (put_connection sv fd c1) L ctl). }
  destruct (ctl fd) eqn:Ectl; cbn [negb].
  - set (sv1 := UpdateEpollEvent _ _ _ _). assert (Hi2 : inv_but (L.*1 ++ X) sv1 l).
    { apply (inv_close fd _ sv1 l c1); try done.
      - apply inv_ctl; [done|]. cbn. rewrite lookup_insert_eq. by eexists.
      - cbn. apply lookup_insert_eq.
      - split; [by apply session_closing|]. split; [|done]. exists []. split; [apply RetrieveAll_holds|done].
      - exists (Z.lor EPOLLRDHUP EPOLLOUT). cbn. rewrite lookup_insert_eq. split; [done|]. by left. }
    specialize (IH sv1 X Hnd (Hothers sv1 eq_refl eq_refl eq_refl eq_refl) Hst Hi2).
    destruct (stop_connections sv1 L ctl) as [sv' tc]. destruct IH as (I1 & I2 & I3 & I4 & I5).
    do 3 (split; [done|]). split; [set_solver|]. by apply Hdom.
  - assert (Eu : UpdateEpollEvent (put_connection sv fd c1) fd (Z.lor EPOLLRDHUP EPOLLOUT) false = put_connection sv fd c1)
      by (by destruct sv).
    rewrite Eu. by destruct (stop_connections (put_connection sv fd c1) L ctl).
Qed.

Lemma CloseConnection_connections sv fd : connections (CloseConnection sv fd) = delete fd (connections sv).
Proof.
  unfold CloseConnection. destruct (connections sv !! fd) as [c|] eqn:E; [|by rewrite delete_id].
  unfold MaybeFinishShutdown, WakeEventLoop. by repeat case_match.
Qed.

Lemma CloseConnection_events sv fd : exists es, log (CloseConnection sv fd) = log sv ++ es /\ forall g, Forall (quiet g) es.
Proof.
  unfold CloseConnection. destruct (connections sv !! fd) as [c|]; [|exists []; by rewrite app_nil_r].
  rewrite MaybeFinishShutdown_log. exists [lg_closed (generation c)]. split; [done|]. by constructor.
Qed.

Lemma close_all_inv l tc sv X :
  NoDup tc -> (forall fd, fd ∈ tc -> is_Some (connections sv !! fd)) -> (forall g, stream_ok (log sv) g) ->
  inv_but (tc ++ X) sv l -> inv_but X (foldl CloseConnection sv tc) l.
Proof.
  revert sv. induction tc as [|fd tc IH]; intros sv Hnd Hin Hst Hi; [done|]. apply NoDup_cons in Hnd as [Hn Hnd].
  cbn [foldl]. destruct (Hin fd (list_elem_of_here _ _)) as [c E]. apply IH; [done| | |].
  - intros fd' Hin'. rewrite CloseConnection_connections, lookup_delete_ne; [apply Hin; by right|]. by intros ->.
  - intros g. destruct (CloseConnection_events sv fd) as (es & -> & Hq). apply stream_ok_mono; [apply quiet_still, Hq|done].
  - by apply (inv_closed _ _ _ _ c).
Qed.

Lemma close_all_absent tc sv fd :
  connections sv !! fd = None -> connections (foldl CloseConnection sv tc) !! fd = None.
Proof.
  revert sv. induction tc as [|fd' tc IH]; intros sv E; [done|]. apply IH.
  rewrite CloseConnection_connections. apply lookup_delete_None. by right.
Qed.

Lemma stop_connections_absent ctl L sv fd :
  fd ∉ L.*1 -> connections sv !! fd = None -> connections (stop_connections sv L ctl).1 !! fd = None.
Proof.
  revert sv. induction L as [|[fd' c] L IH]; intros sv Hn E; [done|]. cbn [stop_connections].
  apply not_elem_of_cons in Hn as [Hne Hn]. unfold stop_connection.
  destruct (IsConnectionDrained _); match goal with |- context [stop_connections ?s L ctl] => specialize (IH s Hn) end;
    destruct (stop_connections _ L ctl); apply IH; cbn; by rewrite lookup_insert_ne.
Qed.

Lemma Stop_inv sv ctl l : server_inv sv l -> server_inv (Stop sv ctl) l.
Proof.
  intros Hi. unfold Stop. destruct (is_running sv) eqn:Er; cbn [negb]; [|done].
  destruct (stopping sv) eqn:Es; [by apply inv_wake|].
  pose proof Hi as [Hs Hg Hst Hl [Ho Hcn Hli Hw Hr Hd] Hc Hp].
  set (svf := with_flags sv true true). destruct (close_listen_same svf) as (E1 & E2 & E3 & E4 & E5 & E6 & E7 & E8 & E9 & E10).
  assert (Hk : kernel_inv (close_listen svf)).
  { apply kernel_close_listen; try done.
    - intros Hx. by destruct (Hli Hx) as (? & ? & _).
    - intros Hx. by destruct (Hr Hx) as (? & ? & _). }
  assert (Ets : tasks_of (close_listen svf) = tasks_of sv) by (unfold tasks_of; by rewrite E3).
  set (sv0 := close_listen svf) in *. cbn in E1, E2, E3, E4, E5, E6, E7, E8, E9.
  assert (Hi0 : inv_but ((map_to_list (connections sv0)).*1 ++ [-1]) sv0 l).
  { split; rewrite ?E1, ?E2, ?E4, ?E5, ?Ets, ?E8, ?E9; try done.
    - intros fd c E. destruct (Hs fd c E) as [_ Hgen]. split; [|done]. intros Hn. destruct Hn.
      apply elem_of_app. left. apply list_elem_of_fmap. exists (fd, c). split; [done|]. by apply elem_of_map_to_list.
    - intros g _. by eapply inv_streams.
    - intros Ex. by destruct (map_to_list (connections sv)). }
  pose proof (stop_connections_inv ctl l (map_to_list (connections sv0)) sv0 [-1] (NoDup_fst_map_to_list _)) as Hsc.
  pose proof (stop_connections_absent ctl (map_to_list (connections sv0)) sv0 (-1)) as Habs.
  destruct (stop_connections sv0 (map_to_list (connections sv0)) ctl) as [sv2 tc].
  assert (Hneg : connections sv0 !! (-1) = None).
  { rewrite E1. destruct (connections sv !! (-1)) eqn:E; [|done]. destruct (Hcn (-1)); [by eexists|lia]. }
  destruct Hsc as (I1 & I2 & I3 & I4 & I5).
  - intros fd c Hin%elem_of_map_to_list. split; [done|]. rewrite E1 in Hin. rewrite E2, E4, Ets. by apply inv_session.
  - intros g. rewrite E2. by eapply inv_streams.
  - done.
  - apply (inv_finish (-1)).
    + apply inv_wake, close_all_inv; [done| | |done].
      * intros fd Hin. apply I5. apply I4, list_elem_of_fmap in Hin as ([fd' c] & -> & Hin%elem_of_map_to_list). by eexists.
      * intros g. rewrite I2, E2. by eapply inv_streams.
    + assert (Hf : connections (foldl CloseConnection sv2 tc) !! (-1) = None).
      { apply close_all_absent, Habs; [|done]. intros Hin. apply list_elem_of_fmap in Hin as ([fd c] & Efd & Hin%elem_of_map_to_list).
        cbn in Efd. congruence. }
      unfold WakeEventLoop. by case_match.
Qed.

(** ** Cleaning up *)

Lemma close_fds_kernel L sv :
  foldl (fun sv fd => close_fd (RemoveEpollEvent sv fd) fd) sv L =
  with_kernel sv (foldl (fun k fd => k_close fd (k_del fd k)) (kernel sv) L).
Proof. revert sv. induction L as [|fd L IH]; intros sv; cbn [foldl]; [by destruct sv|]. by rewrite IH. Qed.

Lemma close_fds_open L k :
  open_fds (foldl (fun k fd => k_close fd (k_del fd k)) k L) = open_fds k ∖ list_to_set L.
Proof.
  revert k. induction L as [|fd L IH]; intros k; cbn [foldl list_to_set]; [set_solver|]. rewrite IH. cbn. set_solver.
Qed.

Lemma connection_keys sv : list_to_set (map_to_list (connections sv)).*1 = dom (connections sv).
Proof.
  apply set_eq. intros fd. rewrite elem_of_list_to_set, elem_of_dom, list_elem_of_fmap. split.
  - intros ([fd' c] & -> & Hin%elem_of_map_to_list). by eexists.
  - intros [c E]. exists (fd, c). split; [done|]. by apply elem_of_map_to_list.
Qed.

(** What is left after [Cleanup]: nothing. *)
Lemma Cleanup_end_spec sv :
  open_fds (kernel sv) = held sv -> listen_fd sv < 0 ->
  let sv' := Cleanup_end sv in
  open_fds (kernel sv') = ∅ /\ connections sv' = ∅ /\ completed_queue sv' = [] /\
  listen_fd sv' = listen_fd sv /\ wake_fd sv' < 0 /\ epoll_fd sv' < 0 /\ log sv' = log sv /\ thread_pool sv' = thread_pool sv /\
  next_generation sv' = next_generation sv /\ stopping sv' = stopping sv /\ is_running sv' = is_running sv.
Proof.
  intros Ho Hl. unfold Cleanup_end. cbv zeta. rewrite close_fds_kernel. cbn [connections with_completed].
  set (k := foldl _ _ _). assert (Hk : open_fds k = nonneg (epoll_fd sv) ∪ nonneg (wake_fd sv) ∪ ∅ ∖ dom (connections sv) \/
    open_fds k ⊆ nonneg (epoll_fd sv) ∪ nonneg (wake_fd sv)).
  { right. unfold k. rewrite close_fds_open, connection_keys. cbn. rewrite Ho. unfold held, nonneg.
    rewrite (proj2 (Z.leb_gt _ _) Hl). set_solver. }
  assert (Hk' : open_fds k ⊆ nonneg (epoll_fd sv) ∪ nonneg (wake_fd sv)) by (destruct Hk; set_solver).
  clearbody k. clear Hk. unfold nonneg in Hk'.
  cbn [wake_fd with_connections with_kernel with_completed].
  destruct (Z.leb_spec 0 (wake_fd sv)); cbn [epoll_fd with_fds close_fd RemoveEpollEvent with_kernel with_connections with_completed];
    (destruct (Z.leb_spec 0 (epoll_fd sv)); cbn; repeat split; try done; try lia; set_solver).
Qed.

Lemma Cleanup_end_inv sv l :
  server_inv sv l -> stop (thread_pool sv) = true -> server_inv (Cleanup_end sv) l.
Proof.
  intros Hi Hst. pose proof Hi as [Hs Hg Hstr Hl [Ho Hcn Hli Hw Hr Hd] Hc Hp].
  pose proof (Hd (or_intror Hst)) as Hneg.
  destruct (Cleanup_end_spec sv Ho Hneg) as (E1 & E2 & E3 & E4 & E5 & E6 & E7 & E8 & E9 & E10 & E11).
  assert (Ets : tasks_of (Cleanup_end sv) = tasks_of sv) by (unfold tasks_of; by rewrite E8).
  split; rewrite ?E2, ?E3, ?E7, ?Ets, ?E8, ?E9, ?E10, ?E11; try done.
  - intros g _. by eapply inv_streams.
  - rewrite app_nil_r. eapply log_inv_drop, log_inv_perm; [reflexivity| |exact Hl]. apply Permutation_app_comm.
  - split; rewrite ?E2, ?E4, ?E8, ?E10; try lia.
    + rewrite E1. unfold held, nonneg. rewrite E2, E4.
      rewrite (proj2 (Z.leb_gt _ _) E5), (proj2 (Z.leb_gt _ _) E6), (proj2 (Z.leb_gt _ _) Hneg). set_solver.
    + intros fd [c Hx]. by rewrite lookup_empty in Hx.
    + congruence.
  - congruence.
Qed.

(** ** Starting *)

Lemma Start_inv db sa sv : start_fresh sa -> Start (TcpServer_new db) sa = (sv, started_ok) -> server_inv sv [].
Proof.
  intros (F1 & F2 & F3). unfold Start, InitListenSocket.
  destruct (Z.ltb_spec (sa_socket sa) 0) as [|Hs]; [done|]. destruct (_ && sa_listen sa); [|done]. cbn [negb].
  unfold InitEpoll. destruct (Z.ltb_spec (sa_epoll sa) 0) as [|He]; [done|]. cbn [negb].
  destruct (sa_add_listen sa); [|done]. cbn [negb].
  unfold InitWakeFd. destruct (Z.ltb_spec (sa_eventfd sa) 0) as [|Hw]; [done|].
  destruct (sa_add_wake sa); [|done]. cbn [negb]. intros [= <-].
  split; cbn; try done.
  - intros g _. exists RESPParser_new, (nb_of []), INCOMPLETE. split; [by vm_compute|].
    split; [split; [done|by intros [k Hk%not_elem_of_nil]]|]. split; [intros k c|intros k]; by intros Hx%not_elem_of_nil.
  - split; cbn; try done. intros g. exists []. split; [done|]. done.
  - split; cbn; try done.
    + unfold held, nonneg. cbn. rewrite !(proj2 (Z.leb_le _ _)) by done. set_solver.
    + intros fd [c Hx]. by rewrite lookup_empty in Hx.
    + intros _. split; [done|]. split; [done|]. rewrite lookup_insert_ne by done. by rewrite lookup_insert_eq.
    + intros _. split; [done|]. by rewrite lookup_insert_eq.
    + intros _. split; [done|]. split; [done|lia].
    + by intros [|].
Qed.

(** ** Runs *)

Lemma Cleanup_begin_log sv : log (Cleanup_begin sv) = log sv /\ sv_db (Cleanup_begin sv) = sv_db sv.
Proof. unfold Cleanup_begin, close_listen. destruct (0 <=? listen_fd sv); repeat case_match; done. Qed.

Lemma Cleanup_end_log sv : log (Cleanup_end sv) = log sv /\ sv_db (Cleanup_end sv) = sv_db sv.
Proof. unfold Cleanup_end. rewrite close_fds_kernel. by destruct (0 <=? _), (0 <=? _). Qed.

Lemma sstep_log sv sv' : sstep sv sv' -> log sv `prefix_of` log sv'.
Proof.
  intros Hs. destruct Hs as [sv fd events an sv' _ _ _ HD|sv a p e _ _|sv i flips sv' HT|sv db _|sv ctl|sv|sv _ _].
  - by eapply advances_log, dispatch_advances.
  - done.
  - destruct (run_task_spec _ _ _ _ HT) as (t & pool & db & nb & threw & nb' & r & _ & _ & _ & _ & _ & ->).
    rewrite WakeEventLoop_log. by eexists.
  - by eexists.
  - apply advances_log, Stop_advances.
  - by destruct (Cleanup_begin_log sv) as [-> _].
  - by destruct (Cleanup_end_log sv) as [-> _].
Qed.

Lemma dispatch_inv sv fd events an sv' :
  server_inv sv [] -> stop (thread_pool sv) = false -> 0 <= fd -> accept_fresh (open_fds (kernel sv)) (an_accept an) ->
  dispatch sv fd events an = Ret sv' -> zlen (log sv') < 2 ^ 63 -> server_inv sv' [].
Proof.
  intros Hi Hpool H0 Hf HD Hb. unfold dispatch in HD. destruct (is_running sv); cbn [negb] in HD; [|by injection HD as <-].
  destruct (Z.eqb_spec fd (listen_fd sv)) as [->|_]; [injection HD as <-; by apply HandleAccept_inv|].
  destruct (fd =? wake_fd sv); [by eapply HandleWorkerCompletions_inv|by eapply HandleConnectionEvent_inv].
Qed.

Lemma sstep_inv sv sv' : server_inv sv [] -> sstep sv sv' -> zlen (log sv') < 2 ^ 63 -> server_inv sv' [].
Proof.
  intros Hi Hs Hb. destruct Hs as [sv fd events an sv' H1 H2 H3 HD|sv a p e H1 H2|sv i flips sv' HT|sv db _|sv ctl|sv|sv Hst _].
  - by eapply dispatch_inv.
  - by eapply pool_inv_step.
  - by eapply run_task_inv.
  - by apply background_inv.
  - by apply Stop_inv.
  - by apply Cleanup_begin_inv.
  - by apply Cleanup_end_inv.
Qed.

Lemma sreach_inv db sv : sreach db sv -> zlen (log sv) < 2 ^ 63 -> server_inv sv [].
Proof.
  induction 1 as [sa sv Hf HS|sv sv' Hr IH Hs]; intros Hb; [by eapply Start_inv|].
  eapply sstep_inv; [apply IH|exact Hs|exact Hb]. eapply bound_prefix; [by eapply sstep_log|exact Hb].
Qed.

(** ** Handlers come to an end *)

Definition ends {A} (o : outcome A) : Prop := o <> NoFuel.

Lemma ends_obind {A B} (m : outcome A) (k : A -> outcome B) :
  ends m -> (forall a, m = Ret a -> ends (k a)) -> ends (obind m k).
Proof. intros Hm Hk. destruct m as [a| |]; cbn; [by apply Hk|done|done]. Qed.

Lemma ends_ret {A} (a : A) : ends (Ret a).
Proof. done. Qed.

Lemma mem_read_ends data off n : ends (mem_read data off n).
Proof. unfold mem_read. by case_match. Qed.

Lemma Append_ends nb data : ends (Append nb data).
Proof.
  unfold Append, EnsureWritableBytes, MakeSpace, mem_write.
  apply ends_obind; [|intros nb' _; apply ends_obind; [by case_match|done]].
  destruct (_ <? _); [|done]. destruct (_ <? _); [done|].
  apply ends_obind; [apply mem_read_ends|]. intros moved _. apply ends_obind; [by case_match|done].
Qed.

Lemma EncodeError_ends nb msg : ends (EncodeError nb msg).
Proof. unfold EncodeError. repeat (apply ends_obind; [apply Append_ends|intros ? _]). apply Append_ends. Qed.

Lemma RetrieveAllAsString_ends nb : ends (RetrieveAllAsString nb).
Proof. apply ends_obind; [apply mem_read_ends|done]. Qed.

Lemma flush_ends fuel c app : (size (pending_responses c) <= fuel)%nat -> ends (flush_responses fuel c app).
Proof.
  revert c app. induction fuel as [|fuel IH]; intros c app Hs; cbn [flush_responses];
    destruct (pending_responses c !! next_write_seq c) as [r|] eqn:E; try done.
  - assert (Hz : size (pending_responses c) = 0%nat) by lia. apply map_size_empty_iff in Hz. by rewrite Hz, lookup_empty in E.
  - apply ends_obind; [apply Append_ends|]. intros nb _. apply IH. cbn [pending_responses]. rewrite map_size_delete, E. lia.
Qed.

Lemma FailConnectionProtocol_ends sv c fd msg ctl : ends (FailConnectionProtocol sv c fd msg ctl).
Proof.
  unfold FailConnectionProtocol. apply ends_obind; [apply EncodeError_ends|intros nb _].
  apply ends_obind; [apply RetrieveAllAsString_ends|intros [r nb'] _].
  apply ends_obind; [by apply flush_ends|by intros [c' app] _].
Qed.

Lemma write_loop_ends an nb : ends (write_loop an nb).
Proof.
  revert nb. induction an as [|[n|e] an IH]; intros nb; cbn [write_loop]; (destruct (_ <=? 0); [done|]); [done| |].
  - destruct (0 <? n); [|done]. apply ends_obind; [apply mem_read_ends|intros s _]. apply ends_obind; [apply IH|by intros [[? ?] ?] _].
  - destruct (e =? EINTR); [apply IH|done].
Qed.

Lemma HandleWrite_ends sv fd an ctl : ends (HandleWrite sv fd an ctl).
Proof.
  unfold HandleWrite. destruct (connections sv !! fd); [|done]. apply ends_obind; [apply write_loop_ends|].
  intros [[o nb] ok] _. by repeat case_match.
Qed.

(** The parsing loop consumes the buffer. *)
Lemma read_loop_ends fuel sv c fd ctl s :
  nb_holds (input_buffer c) s -> parser_ok (parser c) -> (length s < fuel)%nat -> ends (read_loop fuel sv c fd ctl).
Proof.
  revert sv c s. induction fuel as [|fuel IH]; intros sv c s Hn Hp Hl; [lia|]. cbn [read_loop].
  pose proof (Parse_extends (parser c) (input_buffer c) s [] [] Hn Hp) as Hx. unfold parse_extends in Hx.
  destruct (Parse (parser c) (input_buffer c) []) as [[[[p nb] command] st]| |] eqn:E; cbn [obind]; [|done|done].
  destruct st; [|done|apply FailConnectionProtocol_ends].
  destruct (Parse_success _ _ _ _ _ _ Hn Hp E) as (Hp1 & s1 & Hn1 & Hl1).
  destruct (enqueue _ _); [|done]. apply (IH _ _ s1); cbn; (done || lia).
Qed.

Lemma ReadFromFd_ends nb r e : ends (ReadFromFd nb r e).
Proof.
  unfold ReadFromFd. destruct r as [errno|data]; [done|]. destruct (_ <? _); [done|]. destruct (_ <=? _).
  - unfold mem_write. apply ends_obind; [by case_match|done].
  - unfold mem_write. apply ends_obind; [by case_match|intros b _]. apply ends_obind; [apply Append_ends|done].
Qed.

Lemma HandleRead_ends sv fd r ctl l : server_inv sv l -> ends (HandleRead sv fd r ctl).
Proof.
  intros Hi. unfold HandleRead. destruct (connections sv !! fd) as [c|] eqn:E; [|done].
  destruct (inv_session _ _ _ _ Hi E) as ((_ & (s & Hin & Hat) & _) & _).
  destruct (closing c) eqn:Ec; [done|]. destruct (Hat eq_refl) as (Hp & _).
  apply ends_obind; [apply ReadFromFd_ends|]. intros [[nb n] e] ER.
  destruct (n =? 0); [done|]. destruct (n <? 0) eqn:En; [by destruct (_ || _)|].
  assert (Hnb : exists s', nb_holds nb s').
  { destruct r as [errno|data]; [cbn in ER; injection ER as <- <- <-; by exists s|].
    destruct (Z.ltb_spec (WritableBytes (input_buffer c) + kExtraBuffer) (zlen data)) as [Hbig|Hfit].
    - unfold ReadFromFd in ER. by rewrite (proj2 (Z.ltb_lt _ _) Hbig) in ER.
    - destruct (ReadFromFd_data _ _ _ 0 Hin Hfit) as (nb' & E' & Hnb'). rewrite E' in ER. injection ER as <- _ _. by eexists. }
  destruct Hnb as [s' Hnb]. apply (read_loop_ends _ _ _ _ _ s'); [done|done|].
  rewrite (nb_holds_size _ _ Hnb). unfold zlen. lia.
Qed.

Lemma complete_tasks_ends local i sv ctl : ends (complete_tasks i sv local ctl).
Proof.
  revert i sv. induction local as [|task local IH]; intros i sv; cbn [complete_tasks]; [done|].
  apply ends_obind; [|intros sv1 _; apply IH]. unfold complete_task. destruct (connections sv !! ct_fd task); [|done].
  destruct (negb _); [done|]. apply ends_obind; [by apply flush_ends|]. intros [c2 app] _. by destruct app.
Qed.

Lemma dispatch_ends sv fd events an : server_inv sv [] -> ends (dispatch sv fd events an).
Proof.
  intros Hi. unfold dispatch. destruct (negb _); [done|]. destruct (fd =? listen_fd sv); [done|].
  destruct (fd =? wake_fd sv).
  - apply ends_obind; [apply complete_tasks_ends|done].
  - unfold HandleConnectionEvent. destruct (negb _); [done|]. destruct (has_event _ (Z.lor _ _)); [done|].
    apply ends_obind; [destruct (has_event events EPOLLIN); [by eapply HandleRead_ends|done]|intros sv1 _].
    destruct (has_event events EPOLLOUT); [apply HandleWrite_ends|done].
Qed.

(** ** Requests are distinct *)

Lemma requests_numbers lg g k command : (g, k, command) ∈ requests lg -> k ∈ numbers g lg.
Proof.
  intros Hin%elem_of_requests. unfold numbers. apply list_elem_of_omap. eexists. split; [exact Hin|]. cbn. by rewrite decide_True.
Qed.

Lemma requests_NoDup lg : (forall g, NoDup (numbers g lg)) -> NoDup (requests lg).
Proof.
  induction lg as [|e lg IH] using rev_ind; intros Hn; [constructor|].
  assert (Hn' : forall g, NoDup (numbers g lg)).
  { intros g. specialize (Hn g). rewrite numbers_snoc in Hn. by apply NoDup_app in Hn as [? _]. }
  rewrite requests_snoc. destruct e as [| |g k command|g k| | | |]; rewrite ?app_nil_r; try by apply IH.
  apply NoDup_app. split; [by apply IH|]. split; [|apply NoDup_singleton].
  intros [[g' k'] command'] Hin%requests_numbers [= -> -> ->]%list_elem_of_singleton. specialize (Hn g).
  rewrite numbers_snoc, decide_True in Hn by done. apply NoDup_app in Hn as (_ & Hd & _).
  apply (Hd k Hin). by apply list_elem_of_singleton.
Qed.

(** ** The pool of the server is a pool *)

Lemma sstep_pool sv sv' : sstep sv sv' -> pool_ok (thread_pool sv) -> pool_ok (thread_pool sv').
Proof.
  intros Hs Hp. destruct Hs as [sv fd events an sv' _ _ _ HD|sv a p e HS _|sv i flips sv' HT|sv db _|sv ctl|sv|sv _ _].
  - by apply (dispatch_advances _ _ _ _ _ HD).
  - by eapply pool_ok_step.
  - destruct (run_task_spec _ _ _ _ HT) as (t & pool & db & nb & threw & nb' & r & _ & HS & _ & _ & _ & ->).
    unfold WakeEventLoop. case_match; by eapply pool_ok_step.
  - done.
  - by apply (Stop_advances sv ctl).
  - unfold Cleanup_begin. destruct (close_listen_same sv) as (_ & _ & Ep & _). rewrite Ep.
    destruct (pool_step (thread_pool sv) act_stop) as [[p e]|] eqn:HS; [by eapply pool_ok_step|by rewrite Ep].
  - unfold Cleanup_end. rewrite close_fds_kernel. by destruct (0 <=? _), (0 <=? _).
Qed.

Lemma sreach_pool db sv : sreach db sv -> pool_ok (thread_pool sv).
Proof.
  induction 1 as [sa sv Hf HS|sv sv' Hr IH Hs]; [|by eapply sstep_pool]. revert HS.
  unfold Start, InitListenSocket, InitEpoll, InitWakeFd. repeat case_match; intros [= <-]; simplify_eq;
    split; cbn; (apply pool_inv_new || done).
Qed.

End steps.

(** ** Scripted runs *)

#[export] Instance accept_fresh_dec opened answers : Decision (accept_fresh opened answers).
Proof.
  revert opened. induction answers as [|[fd nonblocking added| |] answers IH]; intros opened; cbn [accept_fresh]; apply _.
Defined.

Inductive action : Type :=
| do_event (fd events : Z) (an : answers)
| do_pool (a : pool_action WorkerTask)
| do_task (i : nat)
| do_stop.

Definition is_scheduling (a : pool_action WorkerTask) (e : pool_event WorkerTask) : bool :=
  match e, a with pe_start _, _ => true | pe_quiet, act_stop => false | pe_quiet, _ => true | _, _ => false end.

Definition run_action {D} `{Executor D} (sv : TcpServer D) (a : action) : option (TcpServer D) :=
  match a with
  | do_event fd events an =>
      if negb (stop (thread_pool sv)) && (0 <=? fd) && bool_decide (accept_fresh (open_fds (kernel sv)) (an_accept an))
      then match dispatch sv fd events an with Ret sv => Some sv | _ => None end
      else None
  | do_pool a =>
      match pool_step (thread_pool sv) a with
      | Some (p, e) => if is_scheduling a e then Some (with_pool sv p) else None
      | None => None
      end
  | do_task i => match run_task sv i (fun _ => true) with Ret o => o | _ => None end
  | do_stop => Some (Stop sv (fun _ => true))
  end.

Fixpoint run_script {D} `{Executor D} (sv : TcpServer D) (acts : list action) : option (TcpServer D) :=
  match acts with
  | [] => Some sv
  | a :: acts => match run_action sv a with Some sv => run_script sv acts | None => None end
  end.

Lemma run_script_reach {D} `{Executor D} db (sv sv' : TcpServer D) acts :
  sreach db sv -> run_script sv acts = Some sv' -> sreach db sv'.
Proof.
  revert sv. induction acts as [|a acts IH]; intros sv Hr; cbn [run_script]; [by intros [= <-]|].
  destruct (run_action sv a) as [sv1|] eqn:E; [|done]. apply IH. apply (sr_step _ sv); [done|].
  destruct a as [fd events an|a|i|]; cbn [run_action] in E.
  - destruct (_ && _) eqn:Eb; [|done]. apply andb_true_iff in Eb as [[E1%negb_true_iff E2%Z.leb_le]%andb_true_iff E3%bool_decide_eq_true].
    destruct (dispatch sv fd events an) as [sv2| |] eqn:Ed; [|done..]. injection E as <-. by eapply ss_event.
  - destruct (pool_step _ _) as [[p e]|] eqn:Ep; [|done]. destruct (is_scheduling a e) eqn:Es; [|done]. injection E as <-.
    eapply ss_pool; [exact Ep|]. destruct e as [| | |]; cbn in *; try done. intros ->. done.
  - destruct (run_task _ _ _) as [o| |] eqn:Et; [|done..]. subst o. by eapply ss_task.
  - injection E as <-. apply ss_stop.
Qed.

Definition sample_start : start_answers := mkStart 3 true true true true 4 true 5 true.

(** A server on the store of [DBImpl]'s examples ([b] is [2], [c] is [3]). *)
Definition sample_server : TcpServer cstate := (Start (TcpServer_new (start sample_db)) sample_start).1.

Lemma sample_server_reach : sreach (start sample_db) sample_server.
Proof. apply (sr_start _ sample_start); [repeat split; discriminate|reflexivity]. Qed.

Definition quiet_answers : answers := mkAnswers [] (readv_error EAGAIN) true [] true (fun _ => true).
Definition request_octets (commands : list (list bytes)) : bytes :=
  match encode_requests (NetworkBuffer_new 0) commands with
  | Ret nb => match Peek nb with Ret s => s | _ => [] end
  | _ => []
  end.
Definition do_accept (fd : Z) : action :=
  do_event 3 EPOLLIN (mkAnswers [acc_client fd true true] (readv_error EAGAIN) true [] true (fun _ => true)).
Definition do_receive (fd : Z) (octets : bytes) : action :=
  do_event fd EPOLLIN (mkAnswers [] (readv_data octets) true [] true (fun _ => true)).
Definition do_write (fd n : Z) : action :=
  do_event fd EPOLLOUT (mkAnswers [] (readv_error EAGAIN) true [wr_count n] true (fun _ => true)).
Definition do_completions : action := do_event 5 EPOLLIN quiet_answers.

(** A client sends two requests at once; both are answered, the second first. *)
Definition sample_script : list action :=
  [do_accept 6; do_receive 6 (request_octets [[str "get"; str "b"]; [str "get"; str "x"]]);
   do_pool (act_worker 0); do_pool (act_worker 1); do_task 1; do_completions; do_task 0; do_completions; do_write 6 9].

Definition sample_run (acts : list action) : TcpServer cstate := default sample_server (run_script sample_server acts).

Lemma sample_run_reach acts : run_script sample_server acts <> None -> sreach (start sample_db) (sample_run acts).
Proof.
  intros Hr. unfold sample_run. destruct (run_script sample_server acts) as [sv|] eqn:E; [|done].
  exact (run_script_reach _ sample_server sv acts sample_server_reach E).
Qed.

(** * Properties *)

Section properties.
Context {D : Type} `{Executor D}.

(** C2: replies come in the order of the requests.  Whatever the interleaving of
    events, workers, background work and shutdown, and whatever the kernel
    answers, the octets sent on any connection so far are a beginning of: the
    replies to the commands that the parser finds in the octets received, in
    their order, each the result of an execution of that very command under its
    number, then, if the octets received stop being a request, the protocol
    error.  (Numbers stay below 2^63, as the history is shorter.) *)
Theorem replies_in_order (db : D) (sv : TcpServer D) (g : Z) :
  sreach db sv -> zlen (log sv) < 2 ^ 63 ->
  exists cs p nb st rs,
    parse_commands RESPParser_new (nb_of (received g (log sv))) = Ret (cs, p, nb, st) /\
    sent g (log sv) `prefix_of` concat rs /\
    forall i r, rs !! i = Some r ->
      (exists c, cs !! i = Some c /\ lg_executed g (Z.of_nat i) c r ∈ log sv) \/
      (i = length cs /\ st = ERROR /\ r = protocol_error).
Proof.
  intros Hr Hb. pose proof (sreach_inv _ _ Hr Hb) as Hi.
  destruct (li_sent _ _ _ _ (ib_log _ _ _ Hi) g) as (rs & Hrs & Hsent).
  destruct (inv_streams _ _ g Hi) as (p & nb & st & Hp & He & I1 & I2).
  exists (commands g (log sv)), p, nb, st, rs. split; [done|]. split; [done|].
  intros i r Hir. destruct (Hrs i r Hir) as [(c & Hreq & Hex)|[Herr ->]]; [left|right].
  - exists c. split; [|done]. destruct (I1 _ _ Hreq) as [_ Hc]. by rewrite Nat2Z.id in Hc.
  - split; [apply I2 in Herr; unfold zlen in Herr; lia|]. split; [|done]. apply He. by eexists.
Qed.

(** C17: no request is lost or executed twice.  In every reachable state the
    requests read from the connections are all different, and each one is
    either waiting in the queue of the pool, with a worker, or executed, and
    only one of these, once. *)
Theorem requests_executed_once (db : D) (sv : TcpServer D) :
  sreach db sv -> zlen (log sv) < 2 ^ 63 ->
  NoDup (requests (log sv)) /\ map task_request (tasks_of sv) ++ executed (log sv) ≡ₚ requests (log sv).
Proof.
  intros Hr Hb. pose proof (sreach_inv _ _ Hr Hb) as Hi. split; [|apply (ib_log _ _ _ Hi)].
  apply requests_NoDup. intros g. rewrite (li_numbers _ _ _ _ (ib_log _ _ _ Hi)). apply NoDup_seqZ.
Qed.


(** C20: shutting down drains and ends.  Once [Stop] has been called nothing more
    is accepted or read, every connection is being closed, and the event loop
    goes on only as long as a connection is left. *)
Theorem shutdown_drains (db : D) (sv : TcpServer D) :
  sreach db sv -> zlen (log sv) < 2 ^ 63 -> stopping sv = true ->
  listen_fd sv < 0 /\
  (forall fd r ctl, HandleRead sv fd r ctl = Ret sv) /\
  (forall fd c, connections sv !! fd = Some c -> closing c = true) /\
  (is_running sv = true -> stop (thread_pool sv) = false -> connections sv <> ∅).
Proof.
  intros Hr Hb Hst. pose proof (sreach_inv _ _ Hr Hb) as Hi.
  assert (Hcl : forall fd c, connections sv !! fd = Some c -> closing c = true).
  { intros fd c E. destruct (inv_session _ _ _ _ Hi E) as (_ & _ & _ & Hcl & _). by apply Hcl. }
  split; [apply (ki_stopping _ (ib_kernel _ _ _ Hi)); by left|]. split; [|split; [done|]].
  - intros fd r ctl. unfold HandleRead. destruct (connections sv !! fd) as [c|] eqn:E; [|done]. by rewrite (Hcl fd c E).
  - intros H1 H2. by apply (ib_stopped _ _ _ Hi).
Qed.

(** C23: no descriptor leaks.  In every reachable state the open descriptors are
    exactly those of the connections and of the three fields, and these are all
    different, so that none is closed twice; after [Cleanup] none is open. *)
Theorem no_descriptor_leak (db : D) (sv : TcpServer D) :
  sreach db sv -> zlen (log sv) < 2 ^ 63 ->
  open_fds (kernel sv) =
    dom (connections sv) ∪ nonneg (listen_fd sv) ∪ nonneg (epoll_fd sv) ∪ nonneg (wake_fd sv) /\
  (forall fd, is_Some (connections sv !! fd) -> fd <> listen_fd sv /\ fd <> epoll_fd sv /\ fd <> wake_fd sv) /\
  (0 <= listen_fd sv -> listen_fd sv <> epoll_fd sv /\ listen_fd sv <> wake_fd sv) /\
  (0 <= wake_fd sv -> wake_fd sv <> epoll_fd sv) /\
  (stop (thread_pool sv) = true -> open_fds (kernel (Cleanup_end sv)) = ∅).
Proof.
  intros Hr Hb. pose proof (sreach_inv _ _ Hr Hb) as Hi. pose proof (ib_kernel _ _ _ Hi) as [Ho Hc Hl Hw _ Hd].
  split; [exact Ho|]. split; [intros fd E; by apply Hc|]. split; [intros Hx; by destruct (Hl Hx) as (? & ? & _)|].
  split; [by intros Hx; destruct (Hw Hx)|]. intros Hs. apply (Cleanup_end_spec sv Ho), Hd. by right.
Qed.

(** C18: the connections are well-formed.  In every reachable state the indices of
    both buffers of a connection lie inside their vectors, the parser is in one
    of its states with a length that fits, the counters are in order and do not
    wrap, the responses kept back are numbered behind the next one to be
    written, and no two connections have the same generation, nor has one that
    is to come. *)
Theorem connections_well_formed (db : D) (sv : TcpServer D) :
  sreach db sv -> zlen (log sv) < 2 ^ 63 ->
  (forall fd c, connections sv !! fd = Some c ->
    buffer_ok (input_buffer c) /\ buffer_ok (output_buffer c) /\ (closing c = false -> parser_ok (parser c)) /\
    0 <= next_write_seq c <= next_request_seq c /\ next_request_seq c < 2 ^ 63 /\
    (forall k, is_Some (pending_responses c !! k) -> next_write_seq c < k < next_request_seq c) /\
    generation c < next_generation sv) /\
  (forall fd fd' c c', connections sv !! fd = Some c -> connections sv !! fd' = Some c' ->
    generation c = generation c' -> fd = fd').
Proof.
  intros Hr Hb. pose proof (sreach_inv _ _ Hr Hb) as Hi. split; [|apply (ib_generations _ _ _ Hi)].
  intros fd c E. destruct (inv_session _ _ _ _ Hi E) as ((Hs & (s & Hin & Hp) & Hn) & _ & Hg & _).
  destruct (se_output _ _ _ Hs) as (rs & s' & Hw & _ & Hout & _).
  pose proof (zlen_nonneg rs). pose proof (se_order _ _ _ Hs). pose proof (se_numbers _ _ _ Hs) as Hnum.
  pose proof (numbers_length (generation c) (log sv)).
  split; [by eapply nb_holds_ok|]. split; [by eapply nb_holds_ok|]. split; [by intros Hc; apply Hp|].
  split; [lia|]. split; [lia|]. split; [|done]. intros k Hk.
  assert (k <> next_write_seq c) by (intros ->; rewrite Hn in Hk; by destruct Hk).
  assert (next_write_seq c <= k < next_request_seq c); [|lia].
  assert (Hin' : k ∈ seqZ (next_write_seq c) (next_request_seq c - next_write_seq c)).
  { rewrite <- (se_under_way _ _ _ Hs), elem_of_app, elem_of_fst. by right. }
  apply elem_of_seqZ in Hin'. lia.
Qed.

(** Every handler comes to an end: in a reachable state the event loop gets
    through any event, whatever is read and whatever the kernel answers (the
    answers end with the first that says so). *)
Theorem handlers_terminate (db : D) (sv : TcpServer D) (fd events : Z) (an : answers) :
  sreach db sv -> zlen (log sv) < 2 ^ 63 -> dispatch sv fd events an <> NoFuel.
Proof. intros Hr Hb. by apply dispatch_ends, (sreach_inv db). Qed.

(** What [Cleanup] leaves open, by computation; [Hneg] decides the tests. *)
Ltac cleaned_up Hneg :=
  unfold Cleanup_begin, close_listen; cbn; rewrite !Hneg by done;
  unfold Cleanup_end; cbn; rewrite ?Hneg by done; cbn; set_solver.

(** A failed start leaves no descriptor open, whichever call fails; when
    [Cleanup] is called, once the workers have left. *)
Theorem failed_start_leaks_nothing (db : D) (sa : start_answers) :
  start_fresh sa ->
  match Start (TcpServer_new db) sa with
  | (sv, start_failed) => open_fds (kernel sv) = ∅
  | (sv, start_cleanup) => open_fds (kernel (Cleanup_end sv)) = ∅
  | (sv, started_ok) => is_running sv = true /\ open_fds (kernel sv) = held sv
  end.
Proof.
  intros (F1 & F2 & F3). unfold Start, InitListenSocket.
  destruct (Z.ltb_spec (sa_socket sa) 0) as [|Hl]; [done|]. cbn [negb].
  destruct (_ && sa_listen sa); [|cbn; set_solver]. cbn [negb].
  assert (Hneg : forall z, 0 <= z -> (0 <=? z) = true) by (intros; by apply Z.leb_le).
  unfold InitEpoll. destruct (Z.ltb_spec (sa_epoll sa) 0) as [|He]; cbn [negb]; [cleaned_up Hneg|].
  destruct (sa_add_listen sa); cbn [negb]; [|cleaned_up Hneg].
  unfold InitWakeFd. destruct (Z.ltb_spec (sa_eventfd sa) 0) as [|Hw]; cbn [negb]; [cleaned_up Hneg|].
  destruct (sa_add_wake sa); cbn [negb]; [|cleaned_up Hneg].
  split; [done|]. unfold held, nonneg. cbn. rewrite !Hneg by done. set_solver.
Qed.

End properties.

(** ** The properties at concrete inputs *)

Lemma replies_in_order_witness :
  exists cs p nb st rs,
    parse_commands RESPParser_new (nb_of (received 1 (log (sample_run sample_script)))) = Ret (cs, p, nb, st) /\
    sent 1 (log (sample_run sample_script)) `prefix_of` concat rs /\
    forall i r, rs !! i = Some r ->
      (exists c, cs !! i = Some c /\ lg_executed 1 (Z.of_nat i) c r ∈ log (sample_run sample_script)) \/
      (i = length cs /\ st = ERROR /\ r = protocol_error).
Proof. apply (replies_in_order (start sample_db)); [apply sample_run_reach; by vm_compute|by vm_compute]. Defined.

(** Both requests read, one of them executed. *)
Definition sample_prefix : list action := take 5 sample_script.

Lemma requests_executed_once_witness :
  NoDup (requests (log (sample_run sample_prefix))) /\
  map task_request (tasks_of (sample_run sample_prefix)) ++ executed (log (sample_run sample_prefix)) ≡ₚ
    requests (log (sample_run sample_prefix)).
Proof. apply (requests_executed_once (start sample_db)); [apply sample_run_reach; by vm_compute|by vm_compute]. Defined.


Lemma shutdown_drains_witness :
  let sv := sample_run (sample_prefix ++ [do_stop]) in
  listen_fd sv < 0 /\
  (forall fd r ctl, HandleRead sv fd r ctl = Ret sv) /\
  (forall fd c, connections sv !! fd = Some c -> closing c = true) /\
  (is_running sv = true -> stop (thread_pool sv) = false -> connections sv <> ∅).
Proof. apply (shutdown_drains (start sample_db)); [apply sample_run_reach; by vm_compute|by vm_compute|by vm_compute]. Defined.

Lemma no_descriptor_leak_witness :
  let sv := sample_run sample_script in
  open_fds (kernel sv) =
    dom (connections sv) ∪ nonneg (listen_fd sv) ∪ nonneg (epoll_fd sv) ∪ nonneg (wake_fd sv) /\
  (forall fd, is_Some (connections sv !! fd) -> fd <> listen_fd sv /\ fd <> epoll_fd sv /\ fd <> wake_fd sv) /\
  (0 <= listen_fd sv -> listen_fd sv <> epoll_fd sv /\ listen_fd sv <> wake_fd sv) /\
  (0 <= wake_fd sv -> wake_fd sv <> epoll_fd sv) /\
  (stop (thread_pool sv) = true -> open_fds (kernel (Cleanup_end sv)) = ∅).
Proof. apply (no_descriptor_leak (start sample_db)); [apply sample_run_reach; by vm_compute|by vm_compute]. Defined.

Lemma connections_well_formed_witness :
  let sv := sample_run sample_prefix in
  (forall fd c, connections sv !! fd = Some c ->
    buffer_ok (input_buffer c) /\ buffer_ok (output_buffer c) /\ (closing c = false -> parser_ok (parser c)) /\
    0 <= next_write_seq c <= next_request_seq c /\ next_request_seq c < 2 ^ 63 /\
    (forall k, is_Some (pending_responses c !! k) -> next_write_seq c < k < next_request_seq c) /\
    generation c < next_generation sv) /\
  (forall fd fd' c c', connections sv !! fd = Some c -> connections sv !! fd' = Some c' ->
    generation c = generation c' -> fd = fd').
Proof. apply (connections_well_formed (start sample_db)); [apply sample_run_reach; by vm_compute|by vm_compute]. Defined.

Lemma handlers_terminate_witness :
  dispatch (sample_run sample_prefix) 6 (Z.lor EPOLLIN EPOLLOUT)
    (mkAnswers [] (readv_data (str "*1")) true [wr_count 1] true (fun _ => true)) <> NoFuel.
Proof. apply (handlers_terminate (start sample_db)); [apply sample_run_reach; by vm_compute|by vm_compute]. Defined.

Lemma failed_start_leaks_nothing_witness :
  match Start (TcpServer_new (start sample_db)) (mkStart 3 true true true true 4 true (-1) true) with
  | (sv, start_failed) => open_fds (kernel sv) = ∅
  | (sv, start_cleanup) => open_fds (kernel (Cleanup_end sv)) = ∅
  | (sv, started_ok) => is_running sv = true /\ open_fds (kernel sv) = held sv
  end.
Proof. apply failed_start_leaks_nothing. repeat split; discriminate. Defined.
