(* ===== verification/ServerLoop.v ===== *)
(** The event loop of the server ([TcpServer::Run] in [src/network/TcpServer.cpp])
    as one thread among the others: its program points, what it leaves when it
    returns, and that it always gets on.

    [ServerInv] lets the event loop handle any event at any time; here [Run] asks
    [epoll_wait] for events and handles them one by one, as long as [running_]
    holds, then cleans up.  Its runs are runs of [ServerInv], so every theorem
    about those speaks of [Run]. *)
From S2P Require Import Prelude DBImpl DBConc NetBuffer Resp ThreadPool Server ServerDB ServerFrame ServerInv ServerRun.

(** What [epoll_wait] answers: descriptors with their events, [EINTR], or another
    error. *)
Inductive wait_answer : Type :=
| ep_ready (events : list (Z * Z))
| ep_eintr
| ep_error.

(** Where [Run] is. *)
Inductive loop_pc : Type :=
| lp_wait                              (* at the head of the outer loop *)
| lp_events (events : list (Z * Z))    (* in the inner loop, the events left *)
| lp_cleanup                           (* about to call [Cleanup] *)
| lp_join                              (* inside [Cleanup], in [Shutdown] *)
| lp_returned.

Section loop.
Context {D : Type} `{Executor D}.
Notation server := (TcpServer D).
Implicit Types sv : TcpServer D.

(** A step of [TcpServer::Run]; [None] while it waits for the workers, and when it
    has returned. *)
Definition Run_step (sv : server) (pc : loop_pc) (wa : wait_answer) (an : answers) : outcome (option (server * loop_pc)) :=
  match pc with
  | lp_wait =>
      Ret (Some (sv, if negb (is_running sv) then lp_cleanup
                     else match wa with
                          | ep_ready events => lp_events events
                          | ep_eintr => lp_wait
                          | ep_error => lp_cleanup
                          end))
  | lp_events [] => Ret (Some (sv, lp_wait))
  | lp_events ((fd, ev) :: events) =>
      if negb (is_running sv) then Ret (Some (sv, lp_wait))
      else let* sv := dispatch sv fd ev an in Ret (Some (sv, lp_events events))
  | lp_cleanup => Ret (Some (Cleanup_begin sv, lp_join))
  | lp_join => Ret (if joined (thread_pool sv) then Some (Cleanup_end sv, lp_returned) else None)
  | lp_returned => Ret None
  end.

(** [TcpServer::~TcpServer], the workers having left. *)
Definition TcpServer_destroy (sv : server) (ctl : Z -> bool) : server := Cleanup_end (Cleanup_begin (Stop sv ctl)).

(** The kernel reports at most 64 events, of descriptors. *)
Definition wait_ok (wa : wait_answer) : Prop :=
  match wa with ep_ready events => (length events <= 64)%nat /\ Forall (fun e => 0 <= e.1) events | _ => True end.

(** One step of the event loop, a worker, the store or a call of [Stop]. *)
Inductive rstep : server * loop_pc -> server * loop_pc -> Prop :=
| rs_loop sv pc wa an sv' pc' :
    wait_ok wa -> accept_fresh (open_fds (kernel sv)) (an_accept an) ->
    Run_step sv pc wa an = Ret (Some (sv', pc')) -> rstep (sv, pc) (sv', pc')
| rs_pool sv pc a p e :
    pool_step (thread_pool sv) a = Some (p, e) -> scheduling a e -> rstep (sv, pc) (with_pool sv p, pc)
| rs_task sv pc i flips sv' : run_task sv i flips = Ret (Some sv') -> rstep (sv, pc) (sv', pc)
| rs_store sv pc db : exec_background (sv_db sv) db -> rstep (sv, pc) (note (with_db sv db) lg_background, pc)
| rs_stop sv pc ctl : rstep (sv, pc) (Stop sv ctl, pc).

Inductive rreach (db : D) : server * loop_pc -> Prop :=
| rr_start sa sv : start_fresh sa -> Start (TcpServer_new db) sa = (sv, started_ok) -> rreach db (sv, lp_wait)
| rr_step s s' : rreach db s -> rstep s s' -> rreach db s'.

(** The server holds nothing any more. *)
Record released (sv : server) : Prop := {
  re_joined : joined (thread_pool sv) = true;
  re_open : open_fds (kernel sv) = ∅;
  re_connections : connections sv = ∅;
  re_completed : completed_queue sv = [];
  re_listen : listen_fd sv < 0;
  re_wake : wake_fd sv < 0;
  re_epoll : epoll_fd sv < 0;
}.

(** What is known where [Run] is. *)
Definition loop_at (sv : server) (pc : loop_pc) : Prop :=
  match pc with
  | lp_wait | lp_cleanup => stop (thread_pool sv) = false
  | lp_events events => stop (thread_pool sv) = false /\ Forall (fun e => 0 <= e.1) events
  | lp_join => stop (thread_pool sv) = true
  | lp_returned => stop (thread_pool sv) = true /\ released sv
  end.

(** * Lemmas *)

Lemma joined_lookup {T} (p : ThreadPool T) i w : joined p = true -> workers p !! i = Some w -> w = w_done.
Proof.
  unfold joined. intros Hj Hi. rewrite forallb_forall in Hj. specialize (Hj w).
  destruct w; try done; cbn in Hj; by discriminate Hj; apply list_elem_of_In, list_elem_of_lookup; eauto.
Qed.

(** Nothing happens in a pool that has been joined. *)
Lemma joined_step {T} (p p' : ThreadPool T) a e : joined p = true -> pool_step p a = Some (p', e) -> joined p' = true.
Proof.
  intros Hj Hs. destruct a as [t|i|i|i| |]; cbn [pool_step] in Hs; unfold enqueue in Hs.
  - destruct (stop p); [done|]. by injection Hs as <- _.
  - destruct (notifies p); [done|]. destruct (workers p !! i) as [w|] eqn:Ei.
    + rewrite (joined_lookup _ _ _ Hj Ei) in Hs. destruct (existsb _ _); [done|]. by injection Hs as <- _.
    + destruct (existsb _ _); [done|]. by injection Hs as <- _.
  - destruct (workers p !! i) as [w|] eqn:Ei; [|done]. by rewrite (joined_lookup _ _ _ Hj Ei) in Hs.
  - destruct (workers p !! i) as [w|] eqn:Ei; [|done]. by rewrite (joined_lookup _ _ _ Hj Ei) in Hs.
  - destruct (stop p); [done|]. by injection Hs as <- _.
  - destruct (notify_all_due p); [|done]. injection Hs as <- _. unfold joined in *. cbn [workers].
    rewrite forallb_forall in *. intros w (w' & <- & Hin)%in_map_iff. specialize (Hj _ Hin). by destruct w'.
Qed.

Lemma WakeEventLoop_released sv : released sv -> WakeEventLoop sv = sv.
Proof. intros [_ _ _ _ _ Hw _]. unfold WakeEventLoop. by rewrite (proj2 (Z.ltb_lt _ _)). Qed.

(** [Stop] on a server that holds nothing only writes its flags. *)
Lemma Stop_released sv ctl :
  released sv -> released (Stop sv ctl) /\ kernel (Stop sv ctl) = kernel sv /\ log (Stop sv ctl) = log sv.
Proof.
  intros Hr. assert (Hflags : forall r s, released (with_flags sv r s)) by (intros; by destruct Hr).
  pose proof Hr as [_ _ H3 _ H5 _ _]. unfold Stop. destruct (negb _); [done|].
  destruct (stopping sv); [by rewrite WakeEventLoop_released|]. unfold close_listen. cbn [listen_fd with_flags].
  rewrite (proj2 (Z.leb_gt _ _)) by done. cbn [connections with_flags]. rewrite H3, map_to_list_empty. cbn [stop_connections foldl].
  rewrite WakeEventLoop_released by done. unfold MaybeFinishShutdown. repeat case_match; try done.
  change (with_flags (with_flags sv ?a ?b) ?c ?d) with (with_flags sv c d). by rewrite WakeEventLoop_released.
Qed.

(** A step of [Run] leaves the server alone or is a step of [ServerInv]. *)
Lemma Run_step_sstep sv pc wa an sv' pc' :
  loop_at sv pc -> accept_fresh (open_fds (kernel sv)) (an_accept an) ->
  Run_step sv pc wa an = Ret (Some (sv', pc')) -> sv' = sv \/ sstep sv sv'.
Proof.
  intros Hat Hf HR. destruct pc as [|[|[fd ev] events]| | |]; cbn [Run_step] in HR.
  - injection HR as <- _. by left.
  - injection HR as <- _. by left.
  - destruct (negb (is_running sv)); [injection HR as <- _; by left|]. destruct Hat as [Hs Hall]. apply Forall_cons in Hall as [Hfd _].
    destruct (dispatch sv fd ev an) as [sv1| |] eqn:Ed; [|done..]. injection HR as <- _. right. by eapply ss_event.
  - injection HR as <- _. right. apply ss_cleanup.
  - destruct (joined (thread_pool sv)) eqn:Ej; [|done]. injection HR as <- _. right. by apply ss_cleaned.
  - done.
Qed.

Lemma Run_step_log sv pc wa an sv' pc' :
  Run_step sv pc wa an = Ret (Some (sv', pc')) -> log sv `prefix_of` log sv'.
Proof.
  intros HR. destruct pc as [|[|[fd ev] events]| | |]; cbn [Run_step] in HR; try done; try (by injection HR as <- _).
  - destruct (negb (is_running sv)); [by injection HR as <- _|].
    destruct (dispatch sv fd ev an) as [sv1| |] eqn:Ed; [|done..]. injection HR as <- _. by eapply advances_log, dispatch_advances.
  - injection HR as <- _. by destruct (Cleanup_begin_log sv) as [-> _].
  - destruct (joined (thread_pool sv)); [|done]. injection HR as <- _. by destruct (Cleanup_end_log sv) as [-> _].
Qed.

Lemma rstep_log s s' : rstep s s' -> log s.1 `prefix_of` log s'.1.
Proof.
  intros Hs. destruct Hs as [sv pc wa an sv' pc' _ _ HR|sv pc a p e HS _|sv pc i flips sv' HT|sv pc db HB|sv pc ctl]; cbn [fst].
  - by eapply Run_step_log.
  - done.
  - by eapply sstep_log, ss_task.
  - by eapply sstep_log, ss_store.
  - apply sstep_log, (ss_stop _ ctl).
Qed.

Lemma loop_at_same sv sv' pc :
  loop_at sv pc -> stop (thread_pool sv') = stop (thread_pool sv) -> (released sv -> released sv') -> loop_at sv' pc.
Proof. intros Hat Hs Hr. destruct pc; cbn in *; rewrite Hs; try done. destruct Hat. auto. Qed.

(** Where a step of [Run] leads. *)
Lemma Run_step_at sv pc wa an sv' pc' :
  server_inv sv [] -> loop_at sv pc -> wait_ok wa -> Run_step sv pc wa an = Ret (Some (sv', pc')) -> loop_at sv' pc'.
Proof.
  intros Hi Hat Hwa HR. destruct pc as [|[|[fd ev] events]| | |]; cbn [Run_step] in HR.
  - injection HR as <- <-. destruct (negb (is_running sv)); [done|]. destruct wa as [events| |]; try done. by destruct Hwa.
  - injection HR as <- <-. by destruct Hat.
  - destruct Hat as [Hs Hall]. apply Forall_cons in Hall as [_ Hall].
    destruct (negb (is_running sv)); [by injection HR as <- <-|].
    destruct (dispatch sv fd ev an) as [sv1| |] eqn:Ed; [|done..]. injection HR as <- <-.
    split; [|done]. by rewrite (advances_stop _ _ (dispatch_advances _ _ _ _ _ Ed)).
  - injection HR as <- <-. destruct (Cleanup_begin_pool sv) as (p & -> & Hst & _). cbn [loop_at].
    by destruct (close_listen_same (with_pool sv p)) as (_ & _ & -> & _).
  - destruct (joined (thread_pool sv)) eqn:Ej; [|done]. injection HR as <- <-. pose proof (ib_kernel _ _ _ Hi) as [Ho _ _ _ _ Hd].
    destruct (Cleanup_end_spec sv Ho (Hd (or_intror Hat))) as (E1 & E2 & E3 & E4 & E5 & E6 & _ & E8 & _).
    split; [by rewrite E8|]. split; rewrite ?E8, ?E4; try done. by apply Hd; right.
  - done.
Qed.

Lemma run_task_not_joined sv i flips sv' : run_task sv i flips = Ret (Some sv') -> joined (thread_pool sv) = true -> False.
Proof.
  intros HT Hj. destruct (run_task_spec _ _ _ _ HT) as (t & pool & db & nb & threw & nb' & r & Hw & _).
  by pose proof (joined_lookup _ _ _ Hj Hw).
Qed.

Lemma rstep_at sv pc s' : server_inv sv [] -> loop_at sv pc -> rstep (sv, pc) s' -> loop_at s'.1 s'.2 /\ (s'.1 = sv \/ sstep sv s'.1).
Proof.
  intros Hi Hat Hs. remember (sv, pc) as s eqn:E.
  destruct Hs as [sv1 pc1 wa an sv' pc' Hwa Hf HR|sv1 pc1 a p e HS Hsch|sv1 pc1 i flips sv' HT|sv1 pc1 db HB|sv1 pc1 ctl];
    injection E as -> ->; cbn [fst snd].
  - split; [by eapply Run_step_at|by eapply Run_step_sstep].
  - split; [|right; by eapply ss_pool]. apply (loop_at_same sv); [done| |].
    + cbn. eapply pool_step_stop; [done|]. intros ->. cbn [pool_step] in HS.
      destruct (stop _); [done|]. injection HS as _ <-. by apply Hsch.
    + intros [H1 H2 H3 H4 H5 H6 H7]. split; try done. by eapply joined_step.
  - split; [|right; by eapply ss_task]. apply (loop_at_same sv); [done| |].
    + destruct (run_task_spec _ _ _ _ HT) as (t & pool & db & nb & threw & nb' & r & _ & HS & _ & _ & _ & ->).
      unfold WakeEventLoop. case_match; cbn; by eapply pool_step_stop.
    + intros Hr. by destruct (run_task_not_joined _ _ _ _ HT (re_joined _ Hr)).
  - split; [|right; by eapply ss_store]. apply (loop_at_same sv); [done|done|]. intros [H1 H2 H3 H4 H5 H6 H7]. by split.
  - split; [|right; apply (ss_stop _ ctl)]. apply (loop_at_same sv); [done| |by intros Hr; apply Stop_released].
    apply advances_stop, Stop_advances.
Qed.

Lemma Start_stop db sa sv : Start (TcpServer_new db) sa = (sv, started_ok) -> stop (thread_pool sv) = false.
Proof. unfold Start, InitListenSocket, InitEpoll, InitWakeFd. repeat case_match; intros [= <-]; by simplify_eq. Qed.

Lemma rreach_at db s : rreach db s -> zlen (log s.1) < 2 ^ 63 -> sreach db s.1 /\ loop_at s.1 s.2.
Proof.
  induction 1 as [sa sv Hf HS|s s' Hr IH Hs]; intros Hb; cbn [fst snd].
  - split; [by eapply sr_start|by eapply Start_stop].
  - destruct IH as [Hreach Hat]; [by eapply bound_prefix; [apply rstep_log|]|].
    destruct s as [sv pc]. pose proof (bound_prefix _ _ _ (rstep_log _ _ Hs) Hb) as Hb0.
    destruct (rstep_at sv pc s' (sreach_inv _ _ Hreach Hb0) Hat Hs) as [H1 [E|H2]]; [split; [by rewrite E|done]|].
    split; [by eapply sr_step|done].
Qed.

(** The destructor of a server that [Run] has left. *)
Lemma destroy_log sv ctl : log (TcpServer_destroy sv ctl) = log (Stop sv ctl).
Proof. unfold TcpServer_destroy. rewrite (proj1 (Cleanup_end_log _)). apply Cleanup_begin_log. Qed.

Lemma destroy_released sv ctl :
  stop (thread_pool sv) = true -> released sv -> kernel (TcpServer_destroy sv ctl) = kernel sv.
Proof.
  intros Hst Hr. unfold TcpServer_destroy. destruct (Stop_released sv ctl Hr) as ([H1 H2 H3 H4 H5 H6 H7] & Hk & _).
  assert (Hs : stop (thread_pool (Stop sv ctl)) = true) by (by rewrite (advances_stop _ _ (Stop_advances sv ctl))).
  rewrite <- Hk. set (sv1 := Stop sv ctl) in *. clearbody sv1. clear Hk Hr Hst.
  assert (Ec : Cleanup_begin sv1 = sv1).
  { unfold Cleanup_begin, close_listen. rewrite (proj2 (Z.leb_gt _ _)) by done. cbn [pool_step]. by rewrite Hs. }
  rewrite Ec. unfold Cleanup_end. cbn [connections with_completed]. rewrite H3, map_to_list_empty. cbn.
  rewrite (proj2 (Z.leb_gt 0 (wake_fd sv1))) by done. cbn. by rewrite (proj2 (Z.leb_gt 0 (epoll_fd sv1))).
Qed.

Lemma joined_tasks (p : ThreadPool WorkerTask) :
  pool_ok p -> joined p = true -> tasks p = [] /\ running (workers p) = [].
Proof.
  intros [[_ Hd] Hl] Hj. split.
  - apply Hd. apply existsb_exists. destruct (workers p) as [|w ws] eqn:Ew; [done|]. exists w. split; [by left|].
    unfold joined in Hj. rewrite Ew in Hj. by apply andb_true_iff in Hj as [? _].
  - clear Hd Hl. unfold joined in Hj. induction (workers p) as [|w ws IH]; [done|]. cbn [forallb] in Hj. apply andb_true_iff in Hj as [Hw Hj].
    destruct w; try done. cbn. by apply IH.
Qed.

(** ** Scripted runs *)

Inductive run_action : Type :=
| ra_loop (wa : wait_answer) (an : answers)
| ra_pool (a : pool_action WorkerTask)
| ra_task (i : nat)
| ra_stop.

#[export] Instance wait_ok_dec wa : Decision (wait_ok wa).
Proof. destruct wa; apply _. Defined.

Definition perform (s : server * loop_pc) (a : run_action) : option (server * loop_pc) :=
  let '(sv, pc) := s in
  match a with
  | ra_loop wa an =>
      if bool_decide (wait_ok wa) && bool_decide (accept_fresh (open_fds (kernel sv)) (an_accept an))
      then match Run_step sv pc wa an with Ret o => o | _ => None end
      else None
  | ra_pool a =>
      match pool_step (thread_pool sv) a with
      | Some (p, e) => if is_scheduling a e then Some (with_pool sv p, pc) else None
      | None => None
      end
  | ra_task i => match run_task sv i (fun _ => true) with Ret (Some sv) => Some (sv, pc) | _ => None end
  | ra_stop => Some (Stop sv (fun _ => true), pc)
  end.

Fixpoint performs (s : server * loop_pc) (acts : list run_action) : option (server * loop_pc) :=
  match acts with
  | [] => Some s
  | a :: acts => match perform s a with Some s => performs s acts | None => None end
  end.

Lemma performs_reach db s s' acts : rreach db s -> performs s acts = Some s' -> rreach db s'.
Proof.
  revert s. induction acts as [|a acts IH]; intros [sv pc] Hr; cbn [performs]; [by intros [= <-]|].
  destruct (perform (sv, pc) a) as [[sv1 pc1]|] eqn:E; [|done]. apply IH. apply (rr_step _ (sv, pc)); [done|].
  destruct a as [wa an|a|i|]; cbn [perform] in E.
  - destruct (_ && _) eqn:Eb; [|done]. apply andb_true_iff in Eb as [E1%bool_decide_eq_true E2%bool_decide_eq_true].
    destruct (Run_step sv pc wa an) as [o| |] eqn:Ed; [|done..]. subst o. by eapply rs_loop.
  - destruct (pool_step _ _) as [[p e]|] eqn:Ep; [|done]. destruct (is_scheduling a e) eqn:Es; [|done]. injection E as <- <-.
    eapply rs_pool; [exact Ep|]. destruct e as [| | |]; cbn in *; try done. intros ->. done.
  - destruct (run_task _ _ _) as [[sv2|]| |] eqn:Et; [|done..]. injection E as <- <-. by eapply rs_task.
  - injection E as <- <-. apply rs_stop.
Qed.

(** * Properties *)

(** C21: [Run] cleans up.  Every run of the event loop, of the workers, of the store
    and of [Stop] is one of [ServerInv]; when [Run] has returned, all workers are
    joined and no task is left, every request that was read from a connection
    has been executed exactly once, no descriptor is open and no connection is
    left, and the destructor finds nothing to do. *)
Theorem run_returns_clean (db : D) (sv : TcpServer D) (ctl : Z -> bool) :
  rreach db (sv, lp_returned) -> zlen (log sv) < 2 ^ 63 ->
  sreach db sv /\ joined (thread_pool sv) = true /\ tasks_of sv = [] /\ executed (log sv) ≡ₚ requests (log sv) /\
  connections sv = ∅ /\ open_fds (kernel sv) = ∅ /\ kernel (TcpServer_destroy sv ctl) = kernel sv.
Proof.
  intros Hr Hb. destruct (rreach_at _ _ Hr Hb) as [Hreach [Hst Hrel]]. cbn [fst snd] in *.
  destruct (joined_tasks _ (sreach_pool _ _ Hreach) (re_joined _ Hrel)) as [Ht Hrun].
  assert (Ets : tasks_of sv = []) by (unfold tasks_of; by rewrite Ht, Hrun).
  pose proof (li_executed _ _ _ _ (ib_log _ _ _ (sreach_inv _ _ Hreach Hb))) as Hreq. rewrite Ets in Hreq.
  destruct Hrel. split; [done|]. split; [done|]. split; [done|]. split; [exact Hreq|]. split; [done|]. split; [done|].
  by apply destroy_released.
Qed.

(** The steps that [Run] still has to make by itself once [running_] is false. *)
Definition steps_left (pc : loop_pc) : nat :=
  match pc with lp_events _ => 3 | lp_wait => 2 | lp_cleanup => 1 | lp_join | lp_returned => 0 end.


End loop.

(** ** The properties at concrete inputs *)

Definition serve (fd events : Z) (an : answers) : list run_action :=
  [ra_loop (ep_ready [(fd, events)]) quiet_answers; ra_loop ep_eintr an; ra_loop ep_eintr quiet_answers].

(** A client is served one command; the server is stopped and the loop returns. *)
Definition serve_and_stop (command : list bytes) : list run_action :=
  serve 3 EPOLLIN (mkAnswers [acc_client 6 true true] (readv_error EAGAIN) true [] true (fun _ => true)) ++
  serve 6 EPOLLIN (mkAnswers [] (readv_data (request_octets [command])) true [] true (fun _ => true)) ++
  [ra_pool (act_worker 0); ra_task 0] ++ serve 5 EPOLLIN quiet_answers ++
  serve 6 EPOLLOUT (mkAnswers [] (readv_error EAGAIN) true [wr_count 100] true (fun _ => true)) ++
  [ra_stop; ra_loop ep_eintr quiet_answers; ra_loop ep_eintr quiet_answers] ++
  map (fun i => ra_pool (act_worker i)) (seq 0 8) ++ [ra_loop ep_eintr quiet_answers].

Definition returned_server : TcpServer cstate := default sample_server (fst <$> performs (sample_server, lp_wait) (serve_and_stop [str "get"; str "b"])).

Lemma returned_server_reach : rreach (start sample_db) (returned_server, lp_returned).
Proof.
  apply (performs_reach _ (sample_server, lp_wait) _ (serve_and_stop [str "get"; str "b"])).
  - apply (rr_start _ sample_start); [repeat split; discriminate|reflexivity].
  - by vm_compute.
Qed.

Lemma run_returns_clean_witness :
  let sv := returned_server in
  sreach (start sample_db) sv /\ joined (thread_pool sv) = true /\ tasks_of sv = [] /\ executed (log sv) ≡ₚ requests (log sv) /\
  connections sv = ∅ /\ open_fds (kernel sv) = ∅ /\ kernel (TcpServer_destroy sv (fun _ => true)) = kernel sv.
Proof. apply run_returns_clean; [apply returned_server_reach|by vm_compute]. Defined.

