(* ===== verification/ServerErrors.v ===== *)
(** Two behaviours of the server ([src/network/TcpServer.cpp]) at its edges: a
    client that shuts down its sending side, and a server that is started again
    after a start that failed. *)
From S2P Require Import Prelude DBImpl DBConc NetBuffer Resp ThreadPool Server ServerDB ServerFrame ServerInv ServerRun.

Section errors.
Context {D : Type} `{Executor D}.
Implicit Types (sv : TcpServer D) (c : Connection).

(** ** End of file *)

Lemma CloseConnection_pool sv fd : thread_pool (CloseConnection sv fd) = thread_pool sv.
Proof.
  unfold CloseConnection. destruct (connections sv !! fd); [|done].
  unfold MaybeFinishShutdown, WakeEventLoop. by repeat case_match.
Qed.

(** A [read] that returns end of file closes the connection and sends nothing,
    whatever requests of it are still being executed and whatever replies are
    waiting: a client that only shut down its sending side never gets them. *)
Theorem end_of_file_drops_replies (db : D) sv fd c (ctl : bool) :
  sreach db sv -> zlen (log sv) < 2 ^ 63 ->
  connections sv !! fd = Some c -> closing c = false ->
  exists sv', HandleRead sv fd (readv_data []) ctl = Ret sv' /\
    connections sv' !! fd = None /\ tasks_of sv' = tasks_of sv /\
    (forall g, sent g (log sv') = sent g (log sv)).
Proof.
  intros Hr Hb E Hc.
  destruct (inv_session _ _ _ _ (sreach_inv db sv Hr Hb) E) as ((_ & (s & Hin & _) & _) & _).
  destruct (ReadFromFd_data (input_buffer c) s [] 0 Hin) as (nb & ER & _).
  { pose proof (nb_holds_read _ _ Hin) as [_ Hw]. unfold zlen, kExtraBuffer. cbn. lia. }
  unfold HandleRead. rewrite E, Hc, ER. cbn [obind]. change (zlen (@nil byte) =? 0) with true. cbn iota.
  set (sv1 := note _ _). destruct (CloseConnection_events sv1 fd) as (es & El & Hq).
  eexists. split; [reflexivity|]. rewrite CloseConnection_connections.
  split; [apply lookup_delete_eq|]. split; [unfold tasks_of; by rewrite CloseConnection_pool|].
  intros g. rewrite El, (proj2 (proj2 (proj2 (quiet_histories g _ es (Hq g))))). unfold sv1, sent. cbn.
  rewrite omap_app. cbn. by rewrite app_nil_r.
Qed.

(** ** Starting again *)

Lemma Cleanup_end_pool sv : thread_pool (Cleanup_end sv) = thread_pool sv.
Proof. unfold Cleanup_end. rewrite close_fds_kernel. by destruct (0 <=? _), (0 <=? _). Qed.

Lemma Start_pool sv sa sv' : Start sv sa = (sv', started_ok) -> thread_pool sv' = thread_pool sv.
Proof. unfold Start, InitListenSocket, InitEpoll, InitWakeFd. repeat case_match; intros [= <-]; by simplify_eq. Qed.

Lemma Start_cleanup sv sa sv' :
  Start sv sa = (sv', start_cleanup) -> exists sv1, sv' = Cleanup_begin sv1.
Proof. unfold Start. repeat case_match; intros [= <-]; by eexists. Qed.

(** When a start has failed after its socket was made, its cleanup has stopped
    the thread pool, and nothing starts it again: a second [Start] reports
    success and accepts connections, but the first command of each closes it. *)
Theorem restarted_server_serves_nothing (db : D) (sa sa' : start_answers) sv sv' :
  Start (TcpServer_new db) sa = (sv, start_cleanup) ->
  Start (Cleanup_end sv) sa' = (sv', started_ok) ->
  is_running sv' = true /\ stop (thread_pool sv') = true /\
  forall sv2 fd c fuel p nb command ctl,
    stop (thread_pool sv2) = stop (thread_pool sv') ->
    Parse (parser c) (input_buffer c) [] = Ret (p, nb, command, SUCCESS) ->
    exists sv3, read_loop (S fuel) sv2 c fd ctl = Ret sv3 /\ connections sv3 !! fd = None /\
      tasks_of sv3 = tasks_of sv2.
Proof.
  intros H1 H2. destruct (Start_cleanup _ _ _ H1) as (sv1 & ->).
  assert (Hst : stop (thread_pool sv') = true).
  { rewrite (Start_pool _ _ _ H2), Cleanup_end_pool.
    destruct (Cleanup_begin_pool sv1) as (q & -> & Hq & _). unfold close_listen. by case_match. }
  split; [|split; [done|]].
  { clear Hst. revert H2. unfold Start. repeat case_match; intros [= <-]; by simplify_eq. }
  intros sv2 fd c fuel p nb command ctl Es HP. cbn [read_loop]. rewrite HP. cbn [obind].
  unfold enqueue. cbn [put_connection with_connections thread_pool]. rewrite Es, Hst.
  eexists. split; [reflexivity|]. rewrite CloseConnection_connections.
  split; [apply lookup_delete_eq|]. unfold tasks_of. by rewrite CloseConnection_pool.
Qed.

End errors.

(** ** The properties at concrete inputs *)

(** One SET received, and end of file before a worker has taken it. *)
Definition half_closed : TcpServer cstate :=
  sample_run [do_accept 6; do_receive 6 (request_octets [[str "SET"; str "k"; str "v"]])].

Lemma half_closed_connection :
  exists c, connections half_closed !! 6 = Some c /\ closing c = false.
Proof. eexists. split; [vm_compute; reflexivity|reflexivity]. Qed.

Lemma end_of_file_drops_replies_witness :
  length (tasks_of half_closed) = 1%nat /\
  exists sv', HandleRead half_closed 6 (readv_data []) true = Ret sv' /\
    connections sv' !! 6 = None /\ tasks_of sv' = tasks_of half_closed /\
    (forall g, sent g (log sv') = sent g (log half_closed)).
Proof.
  split; [vm_compute; reflexivity|].
  destruct half_closed_connection as (c & E & Hc).
  apply (end_of_file_drops_replies (start sample_db) half_closed 6 c true); [|by vm_compute|exact E|exact Hc].
  apply sample_run_reach. by vm_compute.
Defined.

(** The listening socket cannot be registered; then all goes well. *)
Lemma restarted_server_serves_nothing_witness :
  let sv := (Start (TcpServer_new (start sample_db)) (mkStart 3 true true true true 4 false 5 true)).1 in
  let sv' := (Start (Cleanup_end sv) (mkStart 3 true true true true 4 true 5 true)).1 in
  is_running sv' = true /\ stop (thread_pool sv') = true /\
  forall (sv2 : TcpServer cstate) fd c fuel p nb command ctl,
    stop (thread_pool sv2) = stop (thread_pool sv') ->
    Parse (parser c) (input_buffer c) [] = Ret (p, nb, command, SUCCESS) ->
    exists sv3, read_loop (S fuel) sv2 c fd ctl = Ret sv3 /\ connections sv3 !! fd = None /\
      tasks_of sv3 = tasks_of sv2.
Proof.
  generalize (start sample_db) as db. intros db sv sv'.
  apply (restarted_server_serves_nothing db (mkStart 3 true true true true 4 false 5 true)
    (mkStart 3 true true true true 4 true 5 true) sv sv'); vm_compute; reflexivity.
Defined.
