(* ===== verification/ServerStore.v ===== *)
(** The server on the real store: the replies of all connections together are
    those of a finite map, and two runs that a client may not expect. *)
From S2P Require Import Prelude OMap Storage SSTableBuilder Files Wal Table MemTable Compaction Recovery DBImpl DBConc DiskSteps Durability NetBuffer Resp Command ThreadPool Server ServerDB ServerFrame ServerInv ServerRun.

(** The commands executed and their replies, in the order of execution. *)
Definition executions (lg : list log_event) : list (list bytes * bytes) :=
  omap (fun e => match e with lg_executed _ _ c r => Some (c, r) | _ => None end) lg.

(** The map after a list of commands. *)
Definition map_after (m : gmap bytes bytes) (cs : list (list bytes)) : gmap bytes bytes :=
  fold_left (fun m c => (spec_command m c).1) cs m.

Definition commands_bytes (cs : list (list bytes)) : Z := fold_right (fun c n => request_bytes c + n) 0 cs.

(** The replies are those that a map gives to the commands, one after the other. *)
Definition replies_of_map (m : gmap bytes bytes) (es : list (list bytes * bytes)) : Prop :=
  forall i c r, es !! i = Some (c, r) -> r = reply_octets (spec_command (map_after m (take i es.*1)) c).2.

Lemma executions_snoc lg e :
  executions (lg ++ [e]) = executions lg ++ match e with lg_executed _ _ c r => [(c, r)] | _ => [] end.
Proof. unfold executions. rewrite omap_app. by destruct e. Qed.

Lemma executions_front lg es : Forall front_event es -> executions (lg ++ es) = executions lg.
Proof.
  intros Hf. revert lg. induction Hf as [|e es He _ IH]; intros lg; [by rewrite app_nil_r|].
  replace (lg ++ e :: es) with ((lg ++ [e]) ++ es) by (by rewrite <- app_assoc).
  rewrite IH, executions_snoc. destruct e; try done; by rewrite app_nil_r.
Qed.

Lemma map_after_snoc m cs c : map_after m (cs ++ [c]) = (spec_command (map_after m cs) c).1.
Proof. unfold map_after. by rewrite fold_left_app. Qed.

Lemma commands_bytes_cons c cs : commands_bytes (c :: cs) = request_bytes c + commands_bytes cs.
Proof. done. Qed.

Lemma commands_bytes_app a b : commands_bytes (a ++ b) = commands_bytes a + commands_bytes b.
Proof. unfold commands_bytes. induction a as [|c a IH]; cbn [app fold_right]; lia. Qed.

Lemma commands_bytes_nonneg cs : 0 <= commands_bytes cs.
Proof. unfold commands_bytes. induction cs as [|c cs IH]; cbn [fold_right]; [lia|]. pose proof (request_bytes_pos c). lia. Qed.

Lemma replies_of_map_snoc m es c r :
  replies_of_map m es -> r = reply_octets (spec_command (map_after m es.*1) c).2 -> replies_of_map m (es ++ [(c, r)]).
Proof.
  intros Hes Hr i c' r' Hi. rewrite fmap_app. apply lookup_app_Some in Hi as [Hi|[Hle Hi]].
  - pose proof (lookup_lt_Some _ _ _ Hi). rewrite take_app_le by (rewrite length_fmap; lia). by apply Hes.
  - apply list_lookup_singleton_Some in Hi as [Hi [= <- <-]].
    rewrite take_app_ge by (rewrite length_fmap; lia). rewrite length_fmap, Hi. cbn. by rewrite app_nil_r.
Qed.

(** ** A command on the store *)

(** A result that leaves the store alone or completes one [Put]. *)
Definition one_write (flips : nat -> bool) (db : DBImpl) (res : outcome exec_result) : Prop :=
  forall db' nb', res = Ret (ExecDone db' nb') ->
    db' = db \/ exists k v, row_ok (k, v) /\ record_typed v /\ DBImpl_Put db k v flips = Ret (PutDone db').

Lemma one_write_ret flips db nb : one_write flips db (Ret (ExecDone db nb)).
Proof. intros db' nb' [= <- _]. by left. Qed.

Lemma one_write_obind {A} flips db (m : outcome A) k :
  (forall a, m = Ret a -> one_write flips db (k a)) -> one_write flips db (obind m k).
Proof. intros Hk db' nb'. destruct m as [a| |]; [|done..]. by apply Hk. Qed.

Lemma one_write_put flips db k v nb :
  row_ok (k, v) -> record_typed v ->
  one_write flips db
    (let* r := DBImpl_Put db k v flips in
     match r with
     | PutWaits => Ret ExecWaits
     | PutDone db => let* nb := EncodeSimpleString nb (str "OK") in Ret (ExecDone db nb)
     end).
Proof.
  intros Hrow Hty db' nb'. destruct (DBImpl_Put _ _ _ _) as [[db1|]| |] eqn:Ep; [|done..]. cbn [obind].
  destruct (EncodeSimpleString _ _); [|done..]. intros [= <- _]. right. by exists k, v.
Qed.

Lemma one_write_args flips db name args n nb k :
  (forall nb, zlen (name :: args) = n -> one_write flips db (k nb)) ->
  one_write flips db
    (let* (nb, ok) := ExpectArgCount (name :: args) n nb in if negb ok then Ret (ExecDone db nb) else k nb).
Proof.
  intros Hk. unfold ExpectArgCount. destruct (Z.eqb_spec (zlen (name :: args)) n) as [Hn|_]; [by apply Hk|].
  destruct (EncodeError _ _); [|done..]. apply one_write_ret.
Qed.

Lemma Execute_writes flips db command nb : request_ok command -> one_write flips db (Execute flips (Some db) command nb).
Proof.
  intros Hok. destruct command as [|name args]; cbn [Execute Execute_db].
  { apply one_write_obind. intros; apply one_write_ret. }
  unfold request_ok in Hok.
  repeat case_decide; [| | | |apply one_write_obind; intros; apply one_write_ret];
    unfold HandleSet, HandleGet, HandleDel, HandleRScan; apply one_write_args; intros nb1 Hn.
  - destruct args as [|k [|v [|x l]]]; try (exfalso; zlen_lia). rewrite !Forall_cons in Hok. destruct Hok as (_ & ? & ? & _).
    apply (one_write_put flips db k (mkRecord kValue v)); [by split|by left].
  - apply one_write_obind; intros k _. apply one_write_obind; intros [record found] _.
    destruct found; (apply one_write_obind; intros; apply one_write_ret).
  - destruct args as [|k [|x l]]; try (exfalso; zlen_lia). rewrite !Forall_cons in Hok. destruct Hok as (_ & ? & _).
    apply (one_write_put flips db k (mkRecord kDeletion [])); [by split|by right].
  - do 4 (apply one_write_obind; intros ? _). apply one_write_ret.
Qed.

(** ** The store between the commands *)

Lemma conc_inv_represents c m n s : conc_inv c m n s -> represents (c_db c) m n.
Proof. intros (M & I & R0 & R1 & H1 & H2 & H3 & H4 & _). by exists M, I, R0, R1. Qed.

(** What the invariant says of the map follows from what the store shows. *)
Lemma conc_inv_view c m n s m' n' : conc_inv c m n s -> represents (c_db c) m' n' -> conc_inv c m' n' s.
Proof.
  intros (M & I & R0 & R1 & Hinv & H2 & _ & _ & Hrest) (M' & I' & R0' & R1' & Hinv' & _ & H3 & H4).
  destruct (db_inv_unique _ _ _ _ _ _ _ _ _ Hinv Hinv') as (E0 & E1 & E2 & E3). subst.
  by eexists _, _, _, _.
Qed.

Lemma conc_inv_writer db bg wr wr' m n s : conc_inv (mkC db bg wr) m n s -> wr_ready wr' -> conc_inv (mkC db bg wr') m n s.
Proof. intros (M & I & R0 & R1 & H1 & H2 & H3 & H4 & H5 & H6 & _) Hw. by exists M, I, R0, R1. Qed.

Lemma conc_inv_later c m n s s' : conc_inv c m n s -> s <= s' -> conc_inv c m n s'.
Proof. intros (M & I & R0 & R1 & H1 & H2 & H3 & H4 & H5 & Hrest) Hle. exists M, I, R0, R1. do 4 (split; [done|]). split; [lia|done]. Qed.

(** A [Put] that ends is a writer's two critical sections. *)
Lemma put_two_steps db k v flips db' :
  DBImpl_Put db k v flips = Ret (PutDone db') ->
  exists db1, wr_step db (wr_enter k v flips) = Ret (Some (db1, wr_write k v flips, None)) /\
    wr_step db1 (wr_write k v flips) = Ret (Some (db', wr_idle, Some (k, v))).
Proof.
  unfold DBImpl_Put. cbn [wr_step]. destruct (db_mem db) as [mt|]; [|done].
  destruct (kMemTableThreshold <=? MemTable_Count mt); [destruct (db_imm db); [done|]|];
    intros E; eexists; (split; [reflexivity|]);
    match type of E with (obind ?x _ = _) => destruct x; [|done..] end; cbn [obind] in E |- *; by injection E as ->.
Qed.

(** The switch of the tables does not depend on what is written. *)
Lemma enter_any db k v flips db' k' v' flips' :
  wr_step db (wr_enter k v flips) = Ret (Some (db', wr_write k v flips, None)) ->
  wr_step db (wr_enter k' v' flips') = Ret (Some (db', wr_write k' v' flips', None)).
Proof. cbn [wr_step]. repeat case_match; intros [= <-]; done. Qed.

Section live.
(** A further property of the store that the steps of [DBConc] keep for the first
    [limit] of them. *)
Context (P : cstate -> Prop) (limit : Z).
Hypothesis Hlimit : limit <= 2 ^ 64 - 2.
Hypothesis Hstep : forall c m n s w c',
  conc_inv c m n s -> P c -> n < 2 ^ 60 -> s < limit -> cstep c w c' -> P c'.
Hypothesis Hwriter : forall db bg wr wr', P (mkC db bg wr) -> P (mkC db bg wr').

Definition live (c : cstate) (m : gmap bytes bytes) (n s : Z) : Prop :=
  (conc_inv c m n s /\ P c) /\ c_wr c = wr_idle.

Lemma cstep_live c m n s w c' :
  conc_inv c m n s /\ P c -> n < 2 ^ 60 -> s < limit -> cstep c w c' ->
  conc_inv c' (after_write m w) (n + write_bytes w) (s + 1) /\ P c'.
Proof. intros [H1 H2] Hn Hs Hc. split; [apply (cstep_holds c); (done || lia)|by eapply (Hstep c)]. Qed.

Lemma request_live db bg k v flips m n s :
  live (mkC db bg wr_idle) m n s -> n < 2 ^ 60 -> s < limit -> row_ok (k, v) -> record_typed v ->
  conc_inv (mkC db bg (wr_enter k v flips)) m n (s + 1) /\ P (mkC db bg (wr_enter k v flips)).
Proof.
  intros [H _] Hn Hs Hrow Hty. pose proof (cstep_live _ _ _ _ _ _ H Hn Hs (cs_request db bg k v flips Hrow Hty)) as Hc.
  change (write_bytes None) with 0 in Hc. by rewrite Z.add_0_r in Hc.
Qed.

Lemma put_live db bg k v flips db' m n s m' n' :
  live (mkC db bg wr_idle) m n s -> n < 2 ^ 60 -> s + 2 < limit -> row_ok (k, v) -> record_typed v ->
  DBImpl_Put db k v flips = Ret (PutDone db') -> represents db' m' n' ->
  live (mkC db' bg wr_idle) m' n' (s + 3).
Proof.
  intros H Hn Hs Hrow Hty HP Hrep. destruct (put_two_steps _ _ _ _ _ HP) as (db1 & E1 & E2).
  pose proof (request_live _ _ k v flips _ _ _ H Hn ltac:(lia) Hrow Hty) as H1.
  pose proof (cstep_live _ _ _ _ _ _ H1 Hn ltac:(lia) (cs_writer _ bg _ _ _ _ E1)) as H2.
  change (write_bytes None) with 0 in H2. rewrite Z.add_0_r in H2.
  destruct (cstep_live _ _ _ _ _ _ H2 Hn ltac:(lia) (cs_writer _ bg _ _ _ _ E2)) as [H3 H4].
  split; [|done]. split; [|done]. replace (s + 3) with (s + 1 + 1 + 1) by lia. by eapply conc_inv_view.
Qed.

(** A command that a worker executes. *)
Lemma exec_live flips c command nb buf c' nb' threw m n s :
  live c m n s -> nb_holds nb buf -> request_ok command -> n + request_bytes command < 2 ^ 60 -> s + 2 < limit ->
  live_exec flips c command nb = Ret (Some (c', nb', threw)) ->
  threw = false /\ live c' (spec_command m command).1 (n + request_bytes command) (s + 3) /\
  nb_holds nb' (buf ++ reply_octets (spec_command m command).2).
Proof.
  intros H Hnb Hok Hn Hs HE. pose proof (request_bytes_pos command) as Hpos. destruct c as [db bg wr].
  pose proof H as [[Hc HPc] Hwr]. cbn [c_wr] in Hwr. subst wr. pose proof (conc_inv_represents _ _ _ _ Hc) as Hrep.
  assert (Hnext : next_number db + 1 < 2 ^ 64) by (destruct Hc as (? & ? & ? & ? & _ & _ & _ & _ & Hx & _); cbn in Hx; lia).
  unfold live_exec, exec_command in HE. cbn [c_db c_bg c_wr] in HE.
  destruct (execute_holds db m n buf command nb flips Hrep Hnb Hok Hn Hnext)
    as [(db1 & nb1 & Ee & Hrep1 & _ & Hnb1)|[Ee _]]; rewrite Ee in HE; cbn [obind] in HE; [|done].
  injection HE as <- <- <-. split; [done|]. split; [|done].
  destruct (Execute_writes _ _ _ _ Hok _ _ Ee) as [->|(k & v & Hrow & Hty & HP)].
  - split; [|done]. split; [|done]. eapply conc_inv_later; [by eapply conc_inv_view|lia].
  - eapply put_live; [exact H|lia|done..].
Qed.

(** What happens between the commands. *)
Lemma store_step_live c c' m n s :
  live c m n s -> n < 2 ^ 60 -> s + 2 < limit -> store_step c c' -> live c' m n (s + 3).
Proof.
  intros H Hn Hs Hst.
  assert (Hbg : forall c1, cstep c None c1 -> c_wr c1 = c_wr c -> live c1 m n (s + 3)).
  { intros c1 Hc Hw. destruct H as [H Hwr]. destruct (cstep_live _ _ _ _ _ _ H Hn ltac:(lia) Hc) as [H1 H2].
    change (write_bytes None) with 0 in H1. rewrite Z.add_0_r in H1. split; [|congruence]. split; [|done].
    eapply conc_inv_later; [done|lia]. }
  destruct Hst as [db bg wr db' bg' E|db bg wr db' E|db bg wr k v flips db' E].
  - by apply Hbg; [apply cs_background|].
  - by apply Hbg; [apply cs_fault|].
  - pose proof (proj2 H) as Hwr. cbn [c_wr] in Hwr. subst wr.
    pose proof (enter_any _ _ _ _ _ [] (mkRecord kDeletion []) flips E) as E'.
    pose proof (request_live _ _ [] (mkRecord kDeletion []) flips _ _ _ H Hn ltac:(lia)) as H1.
    specialize (H1 ltac:(by split) ltac:(by right)).
    destruct (cstep_live _ _ _ _ _ _ H1 Hn ltac:(lia) (cs_writer _ bg _ _ _ _ E')) as [H2 H3].
    change (write_bytes None) with 0 in H2. rewrite Z.add_0_r in H2. split; [|done].
    split; [|by eapply Hwriter]. eapply conc_inv_writer; [|done]. eapply conc_inv_later; [done|lia].
Qed.

(** ** The store behind the server *)

Context (c0 : cstate) (m0 : gmap bytes bytes) (n0 s0 : Z).

(** The store is what the executed commands made of it. *)
Definition store_follows (sv : TcpServer cstate) : Prop :=
  replies_of_map m0 (executions (log sv)) /\
  live (sv_db sv) (map_after m0 (executions (log sv)).*1) (n0 + commands_bytes (executions (log sv)).*1)
    (s0 + 3 * zlen (log sv)).

Definition within_bounds (lg : list log_event) : Prop :=
  Forall request_ok (executions lg).*1 /\ n0 + commands_bytes (executions lg).*1 < 2 ^ 60 /\ s0 + 3 * zlen lg <= limit.

Lemma within_bounds_prefix lg lg' : lg `prefix_of` lg' -> within_bounds lg' -> within_bounds lg.
Proof.
  intros [es ->] (H1 & H2 & H3). unfold within_bounds, executions in *. rewrite omap_app, fmap_app in H1, H2.
  apply Forall_app in H1 as [H1 _]. split; [done|]. rewrite zlen_app in H3. pose proof (zlen_nonneg es). split; [|lia].
  rewrite commands_bytes_app in H2.
  match goal with H : context [commands_bytes ?a + commands_bytes ?b] |- _ => pose proof (commands_bytes_nonneg b) end. lia.
Qed.

Lemma live_later c m n s s' : live c m n s -> s <= s' -> live c m n s'.
Proof. intros [[H1 H2] H3] Hs. split; [|done]. split; [by eapply conc_inv_later|done]. Qed.

Lemma store_follows_front sv sv' : store_follows sv -> advances sv sv' -> store_follows sv'.
Proof.
  intros (H1 & H2) ((es & El & Hf) & _ & Ed). unfold store_follows. rewrite El, Ed, executions_front, zlen_app by done.
  pose proof (zlen_nonneg es). split; [done|]. eapply live_later; [done|lia].
Qed.

(** A worker's step. *)
Lemma store_follows_task sv i flips sv' :
  store_follows sv -> within_bounds (log sv') -> run_task sv i flips = Ret (Some sv') -> store_follows sv'.
Proof.
  intros (H1 & H2) Hb HT.
  destruct (run_task_spec _ _ _ _ HT) as (t & pool & c & nb & threw & nb' & r & _ & _ & Hex & Hthrew & Hnb & ->).
  unfold store_follows, within_bounds in *. rewrite WakeEventLoop_log in *.
  match type of Hb with context [log ?s] => assert (El : log s = log sv ++ [lg_executed (wt_generation t) (wt_seq t) (wt_command t) r]) by done end.
  rewrite El in *. rewrite executions_snoc, fmap_app in *. cbn [fmap list_fmap fst] in *. destruct Hb as (Hok & Hbytes & Hnum).
  apply Forall_app in Hok as [_ Hok]. apply Forall_cons in Hok as [Hok _].
  rewrite commands_bytes_app, (commands_bytes_cons _ []) in *. rewrite zlen_app in *. change (zlen [_]) with 1 in *.
  change (commands_bytes []) with 0 in *.
  destruct (exec_live flips _ _ _ [] _ _ _ _ _ _ H2 (nb_holds_new 1024) Hok ltac:(lia) ltac:(lia) Hex) as (-> & Hl & Hnb1).
  injection Hthrew as <-. rewrite map_after_snoc. pose proof (nb_holds_unique _ _ _ Hnb Hnb1) as ->. cbn [app].
  assert (Ed : forall s : TcpServer cstate, sv_db (WakeEventLoop s) = sv_db s) by (intros s; unfold WakeEventLoop; by case_match).
  rewrite Ed. cbn [sv_db note with_completed with_db]. split; [by apply replies_of_map_snoc|].
  replace (n0 + (commands_bytes (executions (log sv)).*1 + (request_bytes (wt_command t) + 0)))
    with (n0 + commands_bytes (executions (log sv)).*1 + request_bytes (wt_command t)) by lia.
  eapply live_later; [done|lia].
Qed.

(** A step of the store. *)
Lemma store_follows_background sv c :
  store_follows sv -> within_bounds (log sv ++ [lg_background]) -> store_step (sv_db sv) c ->
  store_follows (note (with_db sv c) lg_background).
Proof.
  intros (H1 & H2) (_ & Hbytes & Hnum) HT. unfold store_follows. cbn [log note with_db sv_db].
  rewrite executions_snoc, app_nil_r, zlen_app in *. change (zlen [_]) with 1 in *. split; [done|].
  eapply live_later; [eapply store_step_live; [exact H2|lia|lia|exact HT]|lia].
Qed.

Lemma store_follows_reach sv :
  live c0 m0 n0 s0 -> sreach c0 sv -> within_bounds (log sv) -> store_follows sv.
Proof.
  intros Hrep Hr. induction Hr as [sa sv Hf HS|sv sv' Hr IH Hs]; intros Hb.
  - assert (E : log sv = [] /\ sv_db sv = c0).
    { revert HS. unfold Start, InitListenSocket, InitEpoll, InitWakeFd. repeat case_match; intros [= <-]; simplify_eq; done. }
    destruct E as [El Ed]. unfold store_follows. rewrite El, Ed. split; [intros i c r Hi; by destruct i|].
    cbn. change (zlen []) with 0. by rewrite !Z.add_0_r.
  - pose proof (IH (within_bounds_prefix _ _ (sstep_log _ _ Hs) Hb)) as Hsf. clear IH Hr.
    destruct Hs as [sv fd events an sv' _ _ _ HD|sv a p e HS _|sv i flips sv' HT|sv c HB|sv ctl|sv|sv _ _].
    + eapply store_follows_front; [done|]. by eapply dispatch_advances.
    + done.
    + by eapply store_follows_task.
    + by apply store_follows_background.
    + eapply store_follows_front; [done|apply Stop_advances].
    + unfold store_follows. by destruct (Cleanup_begin_log sv) as [-> ->].
    + unfold store_follows. by destruct (Cleanup_end_log sv) as [-> ->].
Qed.

End live.

Lemma start_represents db m n : represents db m n -> conc_inv (start db) m n (next_number db).
Proof. intros (M & I & R0 & R1 & H1 & H2 & H3 & H4). exists M, I, R0, R1. cbn [start c_db c_bg c_wr]. do 4 (split; [done|]). split; [lia|done]. Qed.

(** The store of a server that was started on an empty directory. *)
Lemma run_durable junk_t junk_k junk_v flips db sv :
  DBImpl_open junk_t junk_k junk_v flips no_directory = Ret (Some db) -> sreach (start db) sv ->
  Forall request_ok (executions (log sv)).*1 -> commands_bytes (executions (log sv)).*1 < 2 ^ 60 -> zlen (log sv) < 2 ^ 29 ->
  (conc_inv (sv_db sv) (map_after ∅ (executions (log sv)).*1) (0 + commands_bytes (executions (log sv)).*1)
    (0 + 3 * zlen (log sv)) /\ durable (sv_db sv)) /\ c_wr (sv_db sv) = wr_idle.
Proof.
  intros Hopen Hr Hok Hbytes Hnum. destruct (open_fresh junk_t junk_k junk_v flips) as (db0 & E & Hrep & Hnn).
  rewrite Hopen in E. injection E as <-. destruct (open_fresh_durable junk_t junk_k junk_v flips) as (db0 & E & Hd).
  rewrite Hopen in E. injection E as <-. pose proof (start_holds db Hrep Hnn) as H0.
  assert (Hl : live durable (start db) ∅ 0 0) by exact (conj (conj H0 Hd) eq_refl).
  assert (Hw : within_bounds (2 ^ 31 - 2) 0 0 (log sv)) by (split; [exact Hok|split; lia]).
  exact (proj2 (store_follows_reach durable (2 ^ 31 - 2) ltac:(lia) cstep_durable (fun _ _ _ _ H => H)
    (start db) ∅ 0 0 sv Hl Hr Hw)).
Qed.

(** * Properties *)

(** C1: the server is linearizable.  Started on a store that shows the map [m],
    in every reachable state the replies to all commands executed so far, on
    all connections and by all workers, are those that the map gives when the
    commands are executed one after the other in the order of the log, which
    lies between the reading of each request and the sending of its reply; and
    the store shows the map after these commands. *)
Theorem server_linearizable (db : DBImpl) (m : gmap bytes bytes) (n : Z) (sv : TcpServer cstate) :
  represents db m n -> sreach (start db) sv ->
  Forall request_ok (executions (log sv)).*1 -> n + commands_bytes (executions (log sv)).*1 < 2 ^ 60 ->
  next_number db + 3 * zlen (log sv) < 2 ^ 63 ->
  replies_of_map m (executions (log sv)) /\ shows (c_db (sv_db sv)) (map_after m (executions (log sv)).*1).
Proof.
  intros Hrep Hr Hok Hbytes Hnum.
  destruct (store_follows_reach (fun _ => True) (2 ^ 64 - 2) ltac:(lia) ltac:(done) ltac:(done)
    (start db) m n (next_number db) sv) as (H1 & [[H2 _] _]); [|done|split; [done|]; lia|].
  { split; [|done]. split; [|done]. by apply start_represents. }
  split; [done|]. by eapply conc_inv_shows.
Qed.

(** An executed command is not lost in a crash.  When the server, started on
    the store of an empty directory in which no file operation fails but the
    writing of SSTables, dies at
    any moment between two steps, with a flush or a compaction half done, tasks
    queued and replies not yet sent, the next start succeeds and its store shows
    the map after all commands that were executed, among them every command that
    was answered. *)
Theorem server_crash_loses_nothing (junk_t junk_t' : nat -> byte) (junk_k junk_v junk_k' junk_v' : nat -> bytes)
    (flips flips' : Z -> nat -> nat -> bool) (db : DBImpl) (sv : TcpServer cstate) :
  junk_ok junk_k' junk_v' ->
  DBImpl_open junk_t junk_k junk_v flips no_directory = Ret (Some db) -> sreach (start db) sv ->
  Forall request_ok (executions (log sv)).*1 -> commands_bytes (executions (log sv)).*1 < 2 ^ 60 ->
  zlen (log sv) < 2 ^ 29 ->
  exists db', DBImpl_open junk_t' junk_k' junk_v' flips' (st_fs (db_store (c_db (sv_db sv)))) = Ret (Some db') /\
    shows db' (map_after ∅ (executions (log sv)).*1).
Proof.
  intros Hjunk Hopen Hr Hok Hbytes Hnum. destruct (run_durable _ _ _ _ _ _ Hopen Hr Hok Hbytes Hnum) as [[H1 H2] _].
  destruct (restart_durable junk_t' junk_k' junk_v' flips' _ _ _ _ Hjunk H1 H2 ltac:(lia) ltac:(lia)) as (db' & E & Hs & _).
  exists db'. exact (conj E Hs).
Qed.

Definition sample_map : gmap bytes bytes := {[str "b" := str "2"; str "c" := str "3"]}.

(** A [SET] and a [GET] of the same key in one segment, on two workers of which the
    second is faster. *)
Definition pipelined_script : list action :=
  [do_accept 6; do_receive 6 (request_octets [[str "SET"; str "k"; str "v"]; [str "GET"; str "k"]]);
   do_pool (act_worker 0); do_pool (act_worker 1); do_task 1; do_task 0; do_completions; do_write 6 100].

Lemma server_linearizable_witness :
  let sv := sample_run pipelined_script in
  replies_of_map sample_map (executions (log sv)) /\ shows (c_db (sv_db sv)) (map_after sample_map (executions (log sv)).*1).
Proof.
  apply (server_linearizable sample_db sample_map 1000).
  - apply sample_db_represents.
  - apply sample_run_reach. by vm_compute.
  - assert (E : (executions (log (sample_run pipelined_script))).*1 =
      [[str "GET"; str "k"]; [str "SET"; str "k"; str "v"]]) by (vm_compute; reflexivity).
    rewrite E. repeat constructor.
  - apply Z.ltb_lt. vm_compute. reflexivity.
  - apply Z.ltb_lt. vm_compute. reflexivity.
Defined.

(** The same script on the store of an empty directory. *)
Definition opened_server : TcpServer cstate := (Start (TcpServer_new (start opened)) sample_start).1.
Definition opened_run : TcpServer cstate := default opened_server (run_script opened_server pipelined_script).

Lemma server_crash_loses_nothing_witness :
  exists db', open_plain (st_fs (db_store (c_db (sv_db opened_run)))) = Ret (Some db') /\
    shows db' (map_after ∅ (executions (log opened_run)).*1).
Proof.
  assert (E : (executions (log opened_run)).*1 = [[str "GET"; str "k"]; [str "SET"; str "k"; str "v"]]) by (vm_compute; reflexivity).
  apply (server_crash_loses_nothing (fun _ => x00) (fun _ => x00) zeros zeros zeros zeros (fun _ _ _ => false) (fun _ _ _ => false) opened).
  - by split.
  - vm_compute. reflexivity.
  - apply (run_script_reach _ opened_server opened_run pipelined_script).
    + apply (sr_start _ sample_start); [repeat split; discriminate|reflexivity].
    + vm_compute. reflexivity.
  - rewrite E. repeat constructor.
  - apply Z.ltb_lt. vm_compute. reflexivity.
  - apply Z.ltb_lt. vm_compute. reflexivity.
Defined.


(** A reply is ready when a further request and a line that is none arrive. *)
Definition muted_script : list action :=
  [do_accept 6; do_receive 6 (request_octets [[str "GET"; str "b"]]);
   do_pool (act_worker 0); do_task 0; do_completions;
   do_receive 6 (request_octets [[str "GET"; str "c"]] ++ str "!" ++ kCRLF)].

(** A protocol error holds back replies that are ready.  There is a run in
    which the output buffer of a connection holds the complete reply to its
    first request, none of it is sent, and the connection is registered for
    nothing but [EPOLLRDHUP]: [FailConnectionProtocol] replaces the registration
    for [EPOLLOUT] when the error itself has to wait for another request.  Only
    the completion of that request registers it again. *)
Theorem protocol_error_mutes_replies :
  let sv := sample_run muted_script in
  sreach (start sample_db) sv /\
  (exists c, connections sv !! 6 = Some c /\ Peek (output_buffer c) = Ret (reply_octets (re_bulk (str "2"))) /\
    next_write_seq c = 1 /\ next_request_seq c = 3) /\
  sent 1 (log sv) = [] /\ interest (kernel sv) !! 6 = Some EPOLLRDHUP.
Proof.
  split; [apply sample_run_reach; by vm_compute|]. split; [|split; by vm_compute].
  destruct (connections (sample_run muted_script) !! 6) as [c|] eqn:E; [|by vm_compute in E].
  exists c. split; [done|]. vm_compute in E. injection E as <-. by vm_compute.
Qed.
