(* ===== verification/Process.v ===== *)
(** The process ([src/server_main.cpp]): the store is opened, the server runs on
    it until it is stopped, and both are destroyed again, the server first
    ([DBImpl::~DBImpl] in [src/DBImpl.cpp] ends the background thread before it
    flushes). *)
From S2P Require Import Prelude OMap Storage SSTableBuilder Files Wal Table MemTable Compaction Recovery DBImpl DBConc LongRuns Disk DiskSteps Durability Shutdown NetBuffer Resp Command ThreadPool Server ServerDB ServerFrame ServerInv ServerRun ServerLoop ServerStore.

(** [bg_stopped_ = true] *)
Definition stop_background (db : DBImpl) : DBImpl :=
  mkDB (db_store db) (db_mem db) (db_imm db) (active_wal_id db) (imm_wal_id db) (minor_compact_count db) true
    (bg_compaction_scheduled db).

Definition stop_store (c : cstate) : cstate := mkC (stop_background (c_db c)) (c_bg c) (c_wr c).

(** Where [main] is: in [Run]; with the server gone, in the destructor of the store,
    which waits for the background thread; or at its end, with the directory that
    is left ([None] when the constructor of the store has thrown).  The code is
    what [main] returns. *)
Inductive process : Type :=
| ps_run (sv : TcpServer cstate) (pc : loop_pc)
| ps_close (code : Z) (sv : TcpServer cstate)
| ps_exit (code : Z) (left : option FS).

(** [HandleStopSignal]: [g_server] is null once [Run] has returned. *)
Definition HandleStopSignal (p : process) (ctl : Z -> bool) : process :=
  match p with ps_run sv pc => ps_run (Stop sv ctl) pc | _ => p end.

(** The steps of [main], and signals between them. *)
Inductive main_step : process -> process -> Prop :=
| mn_run sv pc sv' pc' : rstep (sv, pc) (sv', pc') -> main_step (ps_run sv pc) (ps_run sv' pc')
| mn_signal p ctl : main_step p (HandleStopSignal p ctl)
| mn_return sv ctl :
    main_step (ps_run sv lp_returned) (ps_close 0 (with_db (TcpServer_destroy sv ctl) (stop_store (sv_db sv))))
| mn_background code sv db' bg' :
    bg_step (c_db (sv_db sv)) (c_bg (sv_db sv)) = Ret (Some (db', bg')) ->
    main_step (ps_close code sv) (ps_close code (with_db sv (mkC db' bg' (c_wr (sv_db sv)))))
| mn_fault code sv db' :
    bg_fault (c_db (sv_db sv)) (c_bg (sv_db sv)) db' ->
    main_step (ps_close code sv) (ps_close code (with_db sv (mkC db' bg_reset (c_wr (sv_db sv)))))
| mn_exit code sv fs :
    c_bg (sv_db sv) = bg_wait -> DBImpl_close (c_db (sv_db sv)) = Ret fs ->
    main_step (ps_close code sv) (ps_exit code (Some fs)).

(** The process started on the directory [fs]. *)
Inductive preach (junk_t : nat -> byte) (junk_k junk_v : nat -> bytes) (flips : Z -> nat -> nat -> bool) (fs : FS) : process -> Prop :=
| pr_throw : DBImpl_open junk_t junk_k junk_v flips fs = Ret None -> preach junk_t junk_k junk_v flips fs (ps_exit 1 None)
| pr_listen db sa sv :
    DBImpl_open junk_t junk_k junk_v flips fs = Ret (Some db) -> start_fresh sa ->
    Start (TcpServer_new (start db)) sa = (sv, started_ok) -> preach junk_t junk_k junk_v flips fs (ps_run sv lp_wait)
| pr_failed db sa sv r ctl :
    DBImpl_open junk_t junk_k junk_v flips fs = Ret (Some db) -> start_fresh sa ->
    Start (TcpServer_new (start db)) sa = (sv, r) -> r <> started_ok ->
    preach junk_t junk_k junk_v flips fs (ps_close 1 (with_db (TcpServer_destroy sv ctl) (stop_store (start db))))
| pr_main p p' : preach junk_t junk_k junk_v flips fs p -> main_step p p' -> preach junk_t junk_k junk_v flips fs p'.

(** The steps that the background thread still makes once it is to stop. *)
Definition bg_rank (bg : bg_pc) : Z :=
  match bg with
  | bg_wait => 0 | bg_reset => 1 | bg_cinstall _ _ => 2 | bg_cbuild _ => 3 | bg_compact => 4
  | bg_install _ _ => 5 | bg_build _ => 6 | bg_prepare => 7
  end.

(** * Lemmas *)

Lemma bg_step_rank db bg db' bg' :
  bg_step db bg = Ret (Some (db', bg')) -> bg_stopped db = true -> bg_rank bg' < bg_rank bg /\ bg_stopped db' = true.
Proof.
  intros HB Hs. destruct bg as [| |ctx|ctx r| |ctx|ctx reader|]; cbn [bg_step] in HB.
  - by rewrite Hs in HB.
  - unfold minor_prepare in HB. destruct (db_imm db); [destruct (store_AllocateFileNumber _)|]; by injection HB as <- <-.
  - unfold minor_build in HB. destruct (BuildMinorSST _ _) as [[fs o]| |]; [|done..]. injection HB as <- <-. by destruct o.
  - injection HB as <- <-. by destruct (trigger_l0_to_l1 _).
  - destruct (PrepareL0ToL1 _) as [[[st ctx] ok]| |]; [|done..]. injection HB as <- <-.
    destruct ok; [|done]. cbn [negb]. by destruct (has_output ctx).
  - destruct (BuildL0ToL1SST _ _) as [[fs o]| |]; [|done..]. injection HB as <- <-. by destruct o.
  - destruct (InstallL0ToL1 _ _ _) as [st ok]. by injection HB as <- <-.
  - by injection HB as <- <-.
Qed.

Lemma bg_fault_rank db bg db' M I R0 R1 :
  db_inv db M I R0 R1 -> bg_ready db I R0 R1 bg -> bg_fault db bg db' ->
  bg_rank bg_reset < bg_rank bg /\ bg_stopped db' = bg_stopped db.
Proof.
  intros Hinv Hbg Hf. destruct (bg_fault_effect _ _ _ _ _ _ _ Hinv Hbg Hf) as (id & n & _ & _ & ->).
  destruct Hf as (Hb & _). split; [|done]. by destruct bg.
Qed.

Lemma stop_store_inv c m n s : conc_inv c m n s -> conc_inv (stop_store c) m n s.
Proof.
  intros (M & I & R0 & R1 & Hinv & H2 & H3 & H4 & H5 & Hbg & Hwr). exists M, I, R0, R1.
  split; [by destruct Hinv|]. do 4 (split; [done|]). split; [|done].
  apply (bg_ready_stable (c_db c)); [done|done|reflexivity].
Qed.

Lemma stop_store_durable c : durable c -> durable (stop_store c).
Proof.
  intros (M & I & R0 & R1 & Hinv & (ids0 & ids1 & Hd & Hm & Hbd) & Ho). exists M, I, R0, R1. split; [by destruct Hinv|].
  split; [|exact Ho]. exists ids0, ids1. split; [exact Hd|]. split; [|exact Hbd]. destruct Hm. by split.
Qed.

(** What [main] has done so far: the commands executed and the store behind them. *)
Definition process_store (sv : TcpServer cstate) (s : Z) : Prop :=
  conc_inv (sv_db sv) (map_after ∅ (executions (log sv)).*1) (commands_bytes (executions (log sv)).*1) s /\
  durable (sv_db sv).

Definition small_log (lg : list log_event) : Prop :=
  Forall request_ok (executions lg).*1 /\ commands_bytes (executions lg).*1 < 2 ^ 60 /\ zlen lg < 2 ^ 29.

Definition process_log (p : process) : list log_event :=
  match p with ps_run sv _ | ps_close _ sv => log sv | ps_exit _ _ => [] end.

(** The server of a process that has not ended. *)
Definition process_server (p : process) : option (TcpServer cstate) :=
  match p with ps_run sv _ | ps_close _ sv => Some sv | ps_exit _ _ => None end.

Section process.
Context (junk_t : nat -> byte) (junk_k junk_v : nat -> bytes) (flips : Z -> nat -> nat -> bool).

(** What is known in every state of the process. *)
Definition process_at (p : process) : Prop :=
  match p with
  | ps_run sv pc => exists db, DBImpl_open junk_t junk_k junk_v flips no_directory = Ret (Some db) /\ rreach (start db) (sv, pc)
  | ps_close _ sv =>
      bg_stopped (c_db (sv_db sv)) = true /\ c_wr (sv_db sv) = wr_idle /\ executed (log sv) ≡ₚ requests (log sv) /\
      exists s, process_store sv s /\ s + bg_rank (c_bg (sv_db sv)) <= 3 * zlen (log sv) + 7
  | ps_exit _ _ => True
  end.

Lemma close_step code sv db' bg' :
  process_at (ps_close code sv) -> small_log (log sv) ->
  cstep (sv_db sv) None (mkC db' bg' (c_wr (sv_db sv))) ->
  bg_rank bg' < bg_rank (c_bg (sv_db sv)) -> bg_stopped db' = true ->
  process_at (ps_close code (with_db sv (mkC db' bg' (c_wr (sv_db sv))))).
Proof.
  intros (_ & Hwr & Hreq & s & [Hc Hd] & Hs) (_ & Hbytes & Hlen) Hstep Hrank Hst'. assert (0 <= bg_rank bg') by (by destruct bg').
  cbn [process_at sv_db with_db c_db c_bg c_wr log]. split; [done|]. split; [done|]. split; [done|].
  exists (s + 1). split; [|lia]. unfold process_store. cbn [sv_db with_db log].
  split; [|eapply cstep_durable; [exact Hc|exact Hd|done|lia|exact Hstep]].
  pose proof (cstep_holds _ _ _ _ _ _ Hc ltac:(done) ltac:(lia) Hstep) as Hc'.
  change (write_bytes None) with 0 in Hc'. by rewrite Z.add_0_r in Hc'.
Qed.

Lemma close_background code sv db' bg' :
  process_at (ps_close code sv) -> small_log (log sv) ->
  bg_step (c_db (sv_db sv)) (c_bg (sv_db sv)) = Ret (Some (db', bg')) ->
  process_at (ps_close code (with_db sv (mkC db' bg' (c_wr (sv_db sv))))).
Proof.
  intros Hp Hsm HB. destruct (bg_step_rank _ _ _ _ HB (proj1 Hp)) as [Hrank Hst].
  apply close_step; try done. destruct (sv_db sv). by apply cs_background.
Qed.

Lemma close_fault code sv db' :
  process_at (ps_close code sv) -> small_log (log sv) -> bg_fault (c_db (sv_db sv)) (c_bg (sv_db sv)) db' ->
  process_at (ps_close code (with_db sv (mkC db' bg_reset (c_wr (sv_db sv))))).
Proof.
  intros Hp Hsm Hf. pose proof Hp as (Hst & _ & _ & s & [(M & I & R0 & R1 & Hinv & _ & _ & _ & _ & Hbg & _) _] & _).
  destruct (bg_fault_rank _ _ _ _ _ _ _ Hinv Hbg Hf) as [Hrank Hst'].
  apply close_step; try done; [|congruence]. destruct (sv_db sv). by apply cs_fault.
Qed.

(** The server is gone, the store is to be closed. *)
Lemma closed_at code sv c s :
  c_wr c = wr_idle -> executed (log sv) ≡ₚ requests (log sv) ->
  conc_inv c (map_after ∅ (executions (log sv)).*1) (commands_bytes (executions (log sv)).*1) s -> durable c ->
  s <= 3 * zlen (log sv) -> process_at (ps_close code (with_db sv (stop_store c))).
Proof.
  intros Hwr Hreq Hc Hd Hs. split; [done|]. split; [exact Hwr|]. split; [exact Hreq|]. exists s. split.
  - exact (conj (stop_store_inv _ _ _ _ Hc) (stop_store_durable _ Hd)).
  - cbn [sv_db with_db stop_store c_bg log]. destruct (c_bg c); cbn [bg_rank]; lia.
Qed.

Lemma main_return sv ctl :
  process_at (ps_run sv lp_returned) -> small_log (log sv) ->
  let sv' := with_db (TcpServer_destroy sv ctl) (stop_store (sv_db sv)) in process_at (ps_close 0 sv') /\ log sv' = log sv.
Proof.
  intros (db & Hopen & Hr) (Hok & Hbytes & Hlen). destruct (rreach_at _ _ Hr ltac:(cbn [fst]; lia)) as [Hreach [_ Hrel]]. cbn [fst snd] in *.
  destruct (run_durable _ _ _ _ _ _ Hopen Hreach Hok Hbytes Hlen) as [[Hc Hd] Hwr]. clear Hopen.
  pose proof (li_executed _ _ _ _ (ib_log _ _ _ (sreach_inv _ _ Hreach ltac:(lia)))) as Hreq.
  destruct (joined_tasks _ (sreach_pool _ _ Hreach) (re_joined _ Hrel)) as [Ht Hrun].
  unfold tasks_of in Hreq. rewrite Ht, Hrun in Hreq.
  assert (El : log (TcpServer_destroy sv ctl) = log sv) by (rewrite destroy_log; apply (Stop_released sv ctl Hrel)).
  split; [|exact El]. apply (closed_at _ _ _ (3 * zlen (log sv))); rewrite ?El; done.
Qed.

Lemma failed_start (db : cstate) sa sv r :
  Start (TcpServer_new db) sa = (sv, r) -> r <> started_ok -> log sv = [] /\ is_running sv = false.
Proof.
  assert (Hb : forall sv0 : TcpServer cstate, log sv0 = [] -> is_running sv0 = false ->
    log (Cleanup_begin sv0) = [] /\ is_running (Cleanup_begin sv0) = false).
  { intros sv0 H1 H2. destruct (Cleanup_begin_pool sv0) as (p & -> & _).
    destruct (close_listen_same (with_pool sv0 p)) as (_ & -> & _ & _ & _ & _ & -> & _). by split. }
  unfold Start, InitListenSocket, InitEpoll, InitWakeFd. intros E Hr. repeat (case_match; simplify_eq); try done; by apply Hb.
Qed.

Lemma failed_close db sa sv r ctl :
  DBImpl_open junk_t junk_k junk_v flips no_directory = Ret (Some db) ->
  Start (TcpServer_new (start db)) sa = (sv, r) -> r <> started_ok ->
  process_at (ps_close 1 (with_db (TcpServer_destroy sv ctl) (stop_store (start db)))).
Proof.
  intros Hopen HS Hr. destruct (failed_start _ _ _ _ HS Hr) as [El Erun].
  assert (El' : log (TcpServer_destroy sv ctl) = []) by (rewrite destroy_log; unfold Stop; by rewrite Erun).
  destruct (open_fresh junk_t junk_k junk_v flips) as (db0 & E & Hrep & Hnn). rewrite Hopen in E. injection E as <-.
  destruct (open_fresh_durable junk_t junk_k junk_v flips) as (db0 & E & Hd). rewrite Hopen in E. injection E as <-. clear Hopen.
  pose proof (start_holds db Hrep Hnn) as H0. apply (closed_at _ _ _ 0); rewrite ?El'; done.
Qed.

Lemma small_log_prefix lg lg' : lg `prefix_of` lg' -> small_log lg' -> small_log lg.
Proof.
  intros Hp (H1 & H2 & H3). pose proof (bound_prefix _ _ _ Hp H3) as H3'.
  destruct (within_bounds_prefix (3 * zlen lg') 0 0 lg lg' Hp) as (G1 & G2 & _); [split; [exact H1|split; lia]|]. split; [exact G1|]. split; [lia|done].
Qed.

Lemma preach_at p :
  preach junk_t junk_k junk_v flips no_directory p -> small_log (process_log p) -> process_at p.
Proof.
  induction 1 as [|db sa sv Hopen Hf HS|db sa sv r ctl Hopen Hf HS Hr|p p' Hp IH Hs]; intros Hsm.
  - exact Logic.I.
  - exists db. split; [exact Hopen|]. by eapply rr_start.
  - by eapply failed_close.
  - destruct Hs as [sv pc sv' pc' Hs|p ctl|sv ctl|code sv db' bg' HB|code sv db' HF|code sv fs _ _]; cbn [process_log] in *.
    + destruct IH as (db & Hopen & Hr); [eapply small_log_prefix; [|exact Hsm]; exact (rstep_log _ _ Hs)|].
      exists db. split; [exact Hopen|]. by eapply rr_step.
    + destruct p as [sv pc| |]; cbn [HandleStopSignal process_log] in *; [|by apply IH|exact Logic.I].
      destruct IH as (db & Hopen & Hr); [eapply small_log_prefix; [|exact Hsm]; eapply advances_log, Stop_advances|].
      exists db. split; [exact Hopen|]. eapply rr_step; [exact Hr|apply rs_stop].
    + apply main_return; [apply IH|]; (eapply small_log_prefix; [|exact Hsm]); cbn [log with_db]; rewrite destroy_log;
        eapply advances_log, Stop_advances.
    + apply close_background; [by apply IH|done|done].
    + apply close_fault; [by apply IH|done|done].
    + exact Logic.I.
Qed.

End process.

(** ** The end *)

Lemma bg_step_moves db bg o : bg_step db bg = Ret o -> bg <> bg_wait -> o <> None.
Proof.
  intros HB Hw. destruct bg as [| |ctx|ctx r| |ctx|ctx reader|]; cbn [bg_step] in HB.
  - done.
  - destruct (minor_prepare db) as [[? ?]|]; by injection HB as <-.
  - destruct (minor_build _ _) as [[? ?]| |]; [|done..]. by injection HB as <-.
  - by injection HB as <-.
  - destruct (PrepareL0ToL1 _) as [[[? ?] ?]| |]; [|done..]. by injection HB as <-.
  - destruct (BuildL0ToL1SST _ _) as [[? ?]| |]; [|done..]. by injection HB as <-.
  - destruct (InstallL0ToL1 _ _ _). by injection HB as <-.
  - by injection HB as <-.
Qed.

(** The destructor of the store ends, whether or not it has something to flush. *)
Lemma close_ends db M I R0 R1 :
  db_inv db M I R0 R1 -> db_bytes M I R0 R1 < 2 ^ 60 -> next_number db + 2 < 2 ^ 64 ->
  exists fs, DBImpl_close db = Ret fs.
Proof.
  intros [Hm Hi Hst Ht Hr Hne] Hb Hn. unfold DBImpl_close. destruct Hm as [mt rows Hmt|]; [|by eexists].
  destruct (Z.ltb_spec 0 (MemTable_Count mt)) as [Hc|]; [|by eexists]. set (db0 := mkDB _ _ _ _ _ _ _ _).
  assert (H0 : db_inv db0 None (Some rows) R0 R1).
  { cbn [opt_list app] in Ht, Hr. apply Forall_cons in Ht as [Ht1 _]. apply Forall_cons in Hr as [Hr1 _].
    pose proof (count_nonempty _ _ Hmt Hc).
    split; cbn [db0 db_mem db_imm db_store opt_list app]; [constructor|by constructor|done|by constructor|by constructor|by intros [= ->]]. }
  destruct (MinorCompaction_holds db0 None (Some rows) R0 R1 H0) as (db' & ? & ? & ? & -> & _); [|done|by eexists].
  revert Hb. unfold db_bytes. rewrite !stack_bytes_app. pose proof (stack_bytes_nonneg (opt_list I)).
  cbn [opt_list]. change (stack_bytes []) with 0. lia.
Qed.

Section closing.
Context (junk_t : nat -> byte) (junk_k junk_v : nat -> bytes) (flips : Z -> nat -> nat -> bool).
Notation process_at := (process_at junk_t junk_k junk_v flips).

Lemma closing_ends k code sv :
  process_at (ps_close code sv) -> small_log (log sv) -> bg_rank (c_bg (sv_db sv)) <= Z.of_nat k ->
  exists fs, rtc main_step (ps_close code sv) (ps_exit code (Some fs)).
Proof.
  revert sv. induction k as [|k IH]; intros sv Hat Hsm Hk; pose proof Hat as (Hst & _ & _ & s & [Hc _] & Hs);
    pose proof Hsm as (_ & Hbytes & Hlen).
  all: assert (H0 : 0 <= bg_rank (c_bg (sv_db sv))) by (by destruct (c_bg (sv_db sv))).
  all: destruct (decide (bg_rank (c_bg (sv_db sv)) = 0)) as [Hw|Hw].
  2: lia.
  1, 2: (assert (Hbg : c_bg (sv_db sv) = bg_wait) by (by destruct (c_bg (sv_db sv)));
    destruct Hc as (M & I & R0 & R1 & Hinv & _ & _ & Hb & Hn & _);
    destruct (close_ends _ _ _ _ _ Hinv ltac:(lia) ltac:(lia)) as [fs E];
    exists fs; apply rtc_once; by apply mn_exit).
  destruct (bg_step_holds _ _ _ _ Hc Hbytes ltac:(lia)) as (o & E & _).
  assert (Hne : c_bg (sv_db sv) <> bg_wait) by (intros Ew; by rewrite Ew in Hw).
  destruct o as [[db' bg']|]; [|by destruct (bg_step_moves _ _ _ E Hne)].
  destruct (bg_step_rank _ _ _ _ E Hst) as [Hrank _].
  pose proof (close_background _ _ _ _ _ _ _ _ Hat Hsm E) as Hat'.
  destruct (IH _ Hat' Hsm) as [fs Hr]; [cbn [sv_db with_db c_bg]; lia|].
  exists fs. eapply rtc_l; [by apply mn_background|exact Hr].
Qed.

End closing.

Lemma rreach_preach junk_t junk_k junk_v flips fs db sv pc :
  DBImpl_open junk_t junk_k junk_v flips fs = Ret (Some db) -> rreach (start db) (sv, pc) ->
  preach junk_t junk_k junk_v flips fs (ps_run sv pc).
Proof.
  intros Hopen Hr. remember (sv, pc) as p eqn:E. revert sv pc E.
  induction Hr as [sa sv Hf HS|[sv pc] [sv' pc'] Hr IH Hs]; intros sv1 pc1 [= <- <-]; [by eapply pr_listen|].
  eapply pr_main; [by apply IH|by apply mn_run].
Qed.

(** ** A concrete run *)

(** A client sets a key and the server is stopped. *)
Definition set_server : TcpServer cstate :=
  default opened_server (fst <$> performs (opened_server, lp_wait) (serve_and_stop [str "set"; str "k"; str "v"])).
Definition set_closed : TcpServer cstate := with_db (TcpServer_destroy set_server (fun _ => true)) (stop_store (sv_db set_server)).

Lemma set_server_reach :
  preach (fun _ => x00) zeros zeros (fun _ _ _ => false) no_directory (ps_run set_server lp_returned).
Proof.
  apply (rreach_preach _ _ _ _ _ opened); [vm_compute; reflexivity|].
  apply (performs_reach _ (opened_server, lp_wait) _ (serve_and_stop [str "set"; str "k"; str "v"])).
  - apply (rr_start _ sample_start); [repeat split; discriminate|reflexivity].
  - vm_compute. reflexivity.
Qed.

(** * Properties *)

(** C5: an executed command is not lost in a crash.  The process is started in an
    empty directory, where no file operation
    fails but the writing of SSTables.  When it dies at any moment
    between two steps, serving or closing, with a flush or a compaction half
    done, tasks queued and replies not yet sent, the next start succeeds and its
    store shows the map after all commands that were executed, among them every
    command that was answered. *)
Theorem process_crash_loses_nothing (junk_t junk_t' : nat -> byte) (junk_k junk_v junk_k' junk_v' : nat -> bytes)
    (flips flips' : Z -> nat -> nat -> bool) (p : process) (sv : TcpServer cstate) :
  junk_ok junk_k' junk_v' ->
  preach junk_t junk_k junk_v flips no_directory p -> small_log (process_log p) -> process_server p = Some sv ->
  exists db', DBImpl_open junk_t' junk_k' junk_v' flips' (st_fs (db_store (c_db (sv_db sv)))) = Ret (Some db') /\
    shows db' (map_after ∅ (executions (log sv)).*1).
Proof.
  intros Hjunk Hp Hsm Hsv. pose proof (preach_at junk_t junk_k junk_v flips _ Hp Hsm) as Hat.
  assert (Hst : exists s, process_store sv s /\ s <= 3 * zlen (log sv) + 7).
  { destruct p as [sv1 pc|code sv1|]; cbn [process_server] in Hsv; [| |discriminate Hsv]; injection Hsv as ->; cbn [process_log] in Hsm.
    - destruct Hat as (db & Hopen & Hr), Hsm as (Hok & Hbytes & Hlen).
      destruct (rreach_at _ _ Hr ltac:(cbn [fst]; lia)) as [Hreach _]. cbn [fst] in Hreach.
      destruct (run_durable _ _ _ _ _ _ Hopen Hreach Hok Hbytes Hlen) as [[Hc Hd] _]. clear Hopen.
      exists (3 * zlen (log sv)). split; [exact (conj Hc Hd)|lia].
    - destruct Hat as (_ & _ & _ & s & Hst & Hs). exists s. split; [exact Hst|]. destruct (c_bg (sv_db sv)); cbn [bg_rank] in Hs; lia. }
  destruct Hst as (s & [Hc Hd] & Hs). assert (Hsm' : small_log (log sv)) by (destruct p; cbn in Hsv; [..|discriminate Hsv]; by injection Hsv as <-).
  destruct Hsm' as (_ & Hbytes & Hlen).
  destruct (restart_durable junk_t' junk_k' junk_v' flips' _ _ _ _ Hjunk Hc Hd Hbytes ltac:(lia)) as (db' & E & Hshows & _).
  exists db'. exact (conj E Hshows).
Qed.

Lemma process_crash_loses_nothing_witness :
  exists db', open_plain (st_fs (db_store (c_db (sv_db set_server)))) = Ret (Some db') /\
    shows db' (map_after ∅ (executions (log set_server)).*1).
Proof.
  assert (E : (executions (log set_server)).*1 = [[str "set"; str "k"; str "v"]]) by (vm_compute; reflexivity).
  apply (process_crash_loses_nothing (fun _ => x00) (fun _ => x00) zeros zeros zeros zeros (fun _ _ _ => false) (fun _ _ _ => false)
    (ps_run set_server lp_returned)).
  - by split.
  - apply set_server_reach.
  - unfold small_log. cbn [process_log]. rewrite E. split; [repeat constructor|]. split; apply Z.ltb_lt; vm_compute; reflexivity.
  - reflexivity.
Defined.

(** C6: a process that ends by itself loses nothing, if no flush is pending.  Once
    [main] has left [Run] (or has failed to start the server) and the background
    thread has ended, with no immutable table left, every request that was read
    has been executed exactly once, the destructor of the store ends, and the
    next start on the directory that it leaves shows the map after all commands
    in the order of their execution. *)
Theorem clean_exit_loses_nothing (junk_t junk_t' : nat -> byte) (junk_k junk_v junk_k' junk_v' : nat -> bytes)
    (flips flips' : Z -> nat -> nat -> bool) (code : Z) (sv : TcpServer cstate) :
  junk_ok junk_k' junk_v' ->
  preach junk_t junk_k junk_v flips no_directory (ps_close code sv) -> small_log (log sv) ->
  c_bg (sv_db sv) = bg_wait -> db_imm (c_db (sv_db sv)) = None ->
  executed (log sv) ≡ₚ requests (log sv) /\
  exists fs db', main_step (ps_close code sv) (ps_exit code (Some fs)) /\
    DBImpl_open junk_t' junk_k' junk_v' flips' fs = Ret (Some db') /\ shows db' (map_after ∅ (executions (log sv)).*1).
Proof.
  intros Hjunk Hp Hsm Hbg Himm. pose proof (preach_at junk_t junk_k junk_v flips _ Hp Hsm) as (_ & _ & Hreq & s & [Hc Hd] & Hs).
  split; [exact Hreq|]. destruct Hsm as (_ & Hbytes & Hlen).
  assert (Hrank : 0 <= bg_rank (c_bg (sv_db sv))) by (by destruct (c_bg (sv_db sv))).
  destruct Hc as (M & I & R0 & R1 & Hinv & Hne & Hv & Hb & Hn & _). destruct Hd as (M' & I' & R0' & R1' & Hinv' & Hod & Hord).
  destruct (db_inv_unique _ _ _ _ _ _ _ _ _ Hinv' Hinv) as (E1 & E2 & E3 & E4). subst M' I' R0' R1'.
  rewrite Hbg in Hod. apply (inv_imm _ _ _ _ _ Hinv) in Himm. subst I.
  destruct M as [rows|]; [|by destruct Hne].
  destruct (close_clean junk_t' junk_k' junk_v' flips' Hjunk _ _ _ _ _ _ _ Hinv Hod Hord Hb Hn Hbytes ltac:(lia) _ eq_refl Hv)
    as (fs & db' & E1 & E2 & Hrep).
  exists fs, db'. split; [by apply mn_exit|]. split; [exact E2|]. by eapply represents_shows.
Qed.

Lemma clean_exit_loses_nothing_witness :
  executed (log set_closed) ≡ₚ requests (log set_closed) /\
  exists fs db', main_step (ps_close 0 set_closed) (ps_exit 0 (Some fs)) /\
    open_plain fs = Ret (Some db') /\ shows db' (map_after ∅ (executions (log set_closed)).*1).
Proof.
  assert (E : (executions (log set_closed)).*1 = [[str "set"; str "k"; str "v"]]) by (vm_compute; reflexivity).
  apply (clean_exit_loses_nothing (fun _ => x00) (fun _ => x00) zeros zeros zeros zeros (fun _ _ _ => false) (fun _ _ _ => false)).
  - by split.
  - apply (pr_main _ _ _ _ _ (ps_run set_server lp_returned)); [apply set_server_reach|apply mn_return].
  - unfold small_log. rewrite E. split; [repeat constructor|]. split; apply Z.ltb_lt; vm_compute; reflexivity.
  - vm_compute. reflexivity.
  - vm_compute. reflexivity.
Defined.

(** C22: once [main] has left [Run] it ends: it can go on to its end, every step except
    a signal brings the background thread closer to its end or is the last, and
    a signal changes nothing; so at most seven steps are left. *)
Theorem main_ends (junk_t : nat -> byte) (junk_k junk_v : nat -> bytes) (flips : Z -> nat -> nat -> bool)
    (code : Z) (sv : TcpServer cstate) :
  preach junk_t junk_k junk_v flips no_directory (ps_close code sv) -> small_log (log sv) ->
  (exists fs, rtc main_step (ps_close code sv) (ps_exit code (Some fs))) /\ bg_rank (c_bg (sv_db sv)) <= 7 /\
  (forall p, main_step (ps_close code sv) p ->
    p = ps_close code sv \/
    (exists sv', p = ps_close code sv' /\ 0 <= bg_rank (c_bg (sv_db sv')) < bg_rank (c_bg (sv_db sv))) \/
    (exists fs, p = ps_exit code (Some fs))).
Proof.
  intros Hp Hsm. pose proof (preach_at junk_t junk_k junk_v flips _ Hp Hsm) as Hat.
  assert (Hr7 : forall bg, 0 <= bg_rank bg <= 7) by (by intros []). split.
  { apply (closing_ends junk_t junk_k junk_v flips 7); [exact Hat|exact Hsm|]. apply Hr7. }
  split; [apply Hr7|].
  intros p Hs. pose proof Hat as (Hst & _ & _ & s & [(M & I & R0 & R1 & Hinv & _ & _ & _ & _ & Hbg & _) _] & _). clear Hp Hat.
  inversion Hs as [|? ctl| |? ? db' bg' HB|? ? db' HF|? ? fs]; subst; [by left| | |right; right; by eexists];
    right; left; eexists; (split; [reflexivity|]); cbn [sv_db with_db c_bg].
  - destruct (bg_step_rank _ _ _ _ HB Hst) as [Hrank _]. pose proof (Hr7 bg'). pose proof (Hr7 (c_bg (sv_db sv))). lia.
  - destruct (bg_fault_rank _ _ _ _ _ _ _ Hinv Hbg HF) as [Hrank _]. pose proof (Hr7 (c_bg (sv_db sv))). pose proof (Hr7 bg_reset). lia.
Qed.

Lemma main_ends_witness :
  (exists fs, rtc main_step (ps_close 0 set_closed) (ps_exit 0 (Some fs))) /\ bg_rank (c_bg (sv_db set_closed)) <= 7 /\
  (forall p, main_step (ps_close 0 set_closed) p ->
    p = ps_close 0 set_closed \/
    (exists sv', p = ps_close 0 sv' /\ 0 <= bg_rank (c_bg (sv_db sv')) < bg_rank (c_bg (sv_db set_closed))) \/
    (exists fs, p = ps_exit 0 (Some fs))).
Proof.
  assert (E : (executions (log set_closed)).*1 = [[str "set"; str "k"; str "v"]]) by (vm_compute; reflexivity).
  apply (main_ends (fun _ => x00) zeros zeros (fun _ _ _ => false)).
  - apply (pr_main _ _ _ _ _ (ps_run set_server lp_returned)); [apply set_server_reach|apply mn_return].
  - unfold small_log. rewrite E. split; [repeat constructor|]. split; apply Z.ltb_lt; vm_compute; reflexivity.
Defined.
