(* ===== verification/Logger.v ===== *)
(** The logger ([include/Logger.h], [src/Logger.cpp]): a threshold, an output
    file that replaces the console while it is open, and one line per message.

    The three globals are a record, passed along; [g_mu] makes every operation
    atomic.  The broken-down local time that [NowString] formats is an argument.
    A stream whose write failed stays bad until the file is opened again, so what
    is written to it until then is lost; what closing such a stream may still
    write is left out. *)
From S2P Require Import Prelude Files.

(** [enum class LogLevel] *)
Inductive LogLevel : Type :=
| Trace | Debug | Info | Warning | Error | Fatal | Off.

#[export] Instance LogLevel_eq_dec : EqDecision LogLevel.
Proof. solve_decision. Defined.

(** The underlying value of a level. *)
Definition LogLevel_value (l : LogLevel) : Z :=
  match l with
  | Trace => 0 | Debug => 1 | Info => 2 | Warning => 3 | Error => 4 | Fatal => 5 | Off => 6
  end.

(** [operator<] of the enumeration. *)
Definition LogLevel_ltb (a b : LogLevel) : bool := LogLevel_value a <? LogLevel_value b.

(** [ToString] *)
Definition ToString (level : LogLevel) : bytes :=
  match level with
  | Trace => str "TRACE"
  | Debug => str "DEBUG"
  | Info => str "INFO"
  | Warning => str "WARN"
  | Error => str "ERROR"
  | Fatal => str "FATAL"
  | Off => str "OFF"
  end.

(** The fields of [std::tm] that the format uses; the year in full. *)
Record tm := mkTm {
  tm_year : Z; tm_mon : Z; tm_mday : Z; tm_hour : Z; tm_min : Z; tm_sec : Z;
}.

Definition two_digits (z : Z) : bytes := [digit (z / 10 mod 10); digit (z mod 10)].

(** [NowString] : [std::put_time] with ["%Y-%m-%d %H:%M:%S"]. *)
Definition NowString (t : tm) : bytes :=
  to_string (tm_year t) ++ str "-" ++ two_digits (tm_mon t) ++ str "-" ++
  two_digits (tm_mday t) ++ str " " ++ two_digits (tm_hour t) ++ str ":" ++
  two_digits (tm_min t) ++ str ":" ++ two_digits (tm_sec t).

(** ** State *)

(** [g_file] while it is open: the file and the state of the stream. *)
Record LogFile := mkLogFile { lf_name : bytes; lf_good : bool }.

Record LoggerState := mkLogger {
  g_level : LogLevel;
  g_file : option LogFile;  (* [None]: not open *)
  log_fs : FS;              (* the files the process can reach *)
  log_cout : bytes;         (* written to [std::cout] so far *)
}.

(** The globals when the process starts. *)
Definition logger_init (fs : FS) : LoggerState := mkLogger Info None fs [].

(** ** Operations *)

(** [Logger::SetLevel] *)
Definition SetLevel (s : LoggerState) (level : LogLevel) : LoggerState :=
  mkLogger level (g_file s) (log_fs s) (log_cout s).

(** [Logger::SetOutputFile] : an empty path goes back to the console, and so does
    a file that cannot be opened. *)
Definition SetOutputFile (s : LoggerState) (path : bytes) : LoggerState :=
  match path with
  | [] => mkLogger (g_level s) None (log_fs s) (log_cout s)
  | _ =>
      let '(fs, ok) := fs_open_append (log_fs s) path in
      mkLogger (g_level s) (if ok then Some (mkLogFile path true) else None) fs (log_cout s)
  end.

(** The condition of the early return. *)
Definition log_skipped (threshold level : LogLevel) : bool :=
  bool_decide (threshold = Off) || LogLevel_ltb level threshold.

(** The text [oss] collects. *)
Definition log_text (t : tm) (level : LogLevel) (msg file : bytes) (line : Z) : bytes :=
  str "[" ++ NowString t ++ str "]" ++ str "[" ++ ToString level ++ str "]" ++
  str "[" ++ file ++ str ":" ++ to_string line ++ str "] " ++ msg.

(** [Logger::Log] *)
Definition Log (s : LoggerState) (t : tm) (level : LogLevel) (msg file : bytes) (line : Z)
    : LoggerState :=
  if log_skipped (g_level s) level then s
  else
    let out := log_text t level msg file line ++ [x0a] in
    match g_file s with
    | Some f =>
        if lf_good f then
          let '(fs, ok) := fs_append (log_fs s) (lf_name f) out in
          mkLogger (g_level s) (Some (mkLogFile (lf_name f) ok)) fs (log_cout s)
        else s
    | None => mkLogger (g_level s) None (log_fs s) (log_cout s ++ out)
    end.

(** The macros of the header. *)
Definition LOG_TRACE s t msg file line := Log s t Trace msg file line.
Definition LOG_DEBUG s t msg file line := Log s t Debug msg file line.
Definition LOG_INFO s t msg file line := Log s t Info msg file line.
Definition LOG_WARN s t msg file line := Log s t Warning msg file line.
Definition LOG_ERROR s t msg file line := Log s t Error msg file line.
Definition LOG_FATAL s t msg file line := Log s t Fatal msg file line.

(** ** Specification *)

Inductive log_call : Type :=
| call_level (level : LogLevel)
| call_output (path : bytes)
| call_log (t : tm) (level : LogLevel) (msg file : bytes) (line : Z).

Definition run_call (s : LoggerState) (c : log_call) : LoggerState :=
  match c with
  | call_level l => SetLevel s l
  | call_output p => SetOutputFile s p
  | call_log t l m f n => Log s t l m f n
  end.

Definition run_calls (s : LoggerState) (cs : list log_call) : LoggerState :=
  fold_left run_call cs s.

(** What a sequence of calls sends to the sink [dest] (a file, or the console
    for the empty name), when it starts with threshold [level] and sink [out]. *)
Fixpoint routed (dest : bytes) (level : LogLevel) (out : bytes) (cs : list log_call) : bytes :=
  match cs with
  | [] => []
  | call_level l :: cs => routed dest l out cs
  | call_output p :: cs => routed dest level p cs
  | call_log t l m f n :: cs =>
      (if decide (out = dest) then
         if log_skipped level l then [] else log_text t l m f n ++ [x0a]
       else []) ++ routed dest level out cs
  end.

(** The sink a state writes to. *)
Definition sink (s : LoggerState) : bytes :=
  match g_file s with Some f => lf_name f | None => [] end.

(** What a sink holds. *)
Definition sink_content (s : LoggerState) (dest : bytes) : bytes :=
  match dest with [] => log_cout s | _ => default [] (fs_read (log_fs s) dest) end.

(** A logger whose writes all succeed. *)
Record log_ok (s : LoggerState) : Prop := {
  lo_io : fs_io (log_fs s) = [];
  lo_file : forall f, g_file s = Some f -> lf_good f = true /\ lf_name f <> [];
}.

(** * Lemmas *)

Lemma sink_content_set s lv f fs c name content dest :
  name <> [] -> fs = fs_set (log_fs s) name content -> c = log_cout s ->
  sink_content (mkLogger lv f fs c) dest = if decide (name = dest) then content else sink_content s dest.
Proof.
  intros Hn -> ->. unfold sink_content, fs_read. destruct dest; [by rewrite decide_False|]. cbn.
  destruct (decide _) as [<-|Hne]; [by rewrite lookup_insert_eq|by rewrite lookup_insert_ne].
Qed.

Lemma Log_ok s t l m f n dest :
  log_ok s ->
  let s' := Log s t l m f n in
  log_ok s' /\ g_level s' = g_level s /\ sink s' = sink s /\
  sink_content s' dest = sink_content s dest ++
    (if decide (sink s = dest) then
       if log_skipped (g_level s) l then [] else log_text t l m f n ++ [x0a]
     else []).
Proof.
  intros Hok. cbn zeta. unfold Log. destruct (log_skipped (g_level s) l).
  { split; [done|]. split; [done|]. split; [done|]. by destruct (decide _); rewrite app_nil_r. }
  destruct s as [lv [g|] fs c]; cbn [g_level g_file log_fs log_cout sink].
  - destruct (lo_file _ Hok g eq_refl) as [-> Hn]. unfold fs_append.
    rewrite fs_write_healthy by apply (lo_io _ Hok).
    split; [split; [apply (lo_io _ Hok)|by intros ? [= <-]]|]. split; [done|]. split; [done|].
    erewrite (sink_content_set (mkLogger lv (Some g) fs c)) by done.
    destruct (decide _) as [<-|]; [|by rewrite app_nil_r].
    unfold sink_content. by destruct (lf_name g).
  - split; [split; [apply (lo_io _ Hok)|done]|]. split; [done|]. split; [done|].
    destruct (decide _) as [<-|Hd]; [done|]. rewrite app_nil_r. by destruct dest.
Qed.

Lemma SetOutputFile_ok s p dest :
  log_ok s ->
  let s' := SetOutputFile s p in
  log_ok s' /\ g_level s' = g_level s /\ sink s' = p /\ sink_content s' dest = sink_content s dest.
Proof.
  intros Hok. cbn zeta. unfold SetOutputFile. destruct p as [|b p]; [by split; [split; [apply Hok|]|]|].
  unfold fs_open_append, fs_next_io. rewrite (lo_io _ Hok).
  split; [split; [apply Hok|by intros ? [= <-]]|]. split; [done|]. split; [done|].
  rewrite (sink_content_set s _ _ _ _ (b :: p) (default [] (fs_read (log_fs s) (b :: p)))) by done.
  by destruct (decide _) as [<-|].
Qed.

Lemma run_calls_ok cs s dest :
  log_ok s ->
  sink_content (run_calls s cs) dest = sink_content s dest ++ routed dest (g_level s) (sink s) cs.
Proof.
  revert s. induction cs as [|c cs IH]; intros s Hok; [by rewrite app_nil_r|].
  change (run_calls s (c :: cs)) with (run_calls (run_call s c) cs).
  destruct c as [l|p|t l m f n]; cbn [run_call routed].
  - apply (IH (SetLevel s l)). by split; [apply Hok|apply (lo_file _ Hok)].
  - destruct (SetOutputFile_ok s p dest Hok) as (H1 & H2 & H3 & H4). by rewrite (IH _ H1), H2, H3, H4.
  - destruct (Log_ok s t l m f n dest Hok) as (H1 & H2 & H3 & H4).
    by rewrite (IH _ H1), H2, H3, H4, <- app_assoc.
Qed.

(** * Properties *)

(** Where nothing fails, every message at or above the threshold in force when it
    is logged is one line in the sink in force at that time, the file named last
    or the console, in the order of the calls; no other message is written, and
    nothing that a file held before is lost. *)
Theorem logger_routes_messages (fs : FS) (cs : list log_call) (dest : bytes) :
  fs_io fs = [] ->
  sink_content (run_calls (logger_init fs) cs) dest =
  sink_content (logger_init fs) dest ++ routed dest Info [] cs.
Proof. intros Hio. by apply (run_calls_ok cs (logger_init fs)). Qed.

Definition sample_calls : list log_call :=
  let noon := mkTm 2026 2 8 12 0 0 in
  [call_log noon Debug (str "quiet") (str "a.cpp") 1;
   call_log noon Info (str "shown") (str "a.cpp") 2;
   call_output (str "nova.log"); call_level Error;
   call_log noon Warning (str "quiet") (str "a.cpp") 3;
   call_log noon Fatal (str "filed") (str "a.cpp") 4].

Lemma logger_routes_messages_witness :
  let s := run_calls (logger_init (mkFS true ∅ [])) sample_calls in
  sink_content s [] = str "[2026-02-08 12:00:00][INFO][a.cpp:2] shown" ++ [x0a] /\
  sink_content s (str "nova.log") = str "[2026-02-08 12:00:00][FATAL][a.cpp:4] filed" ++ [x0a].
Proof.
  split.
  - rewrite (logger_routes_messages (mkFS true ∅ []) sample_calls []); reflexivity.
  - rewrite (logger_routes_messages (mkFS true ∅ []) sample_calls (str "nova.log"));
      [vm_compute|]; reflexivity.
Defined.

(** After one failed write the logger is mute: until the next [SetOutputFile]
    nothing more is written, neither to the file nor to the console, although the
    file may be writable again. *)
Theorem logger_mute_after_failure (s : LoggerState) (f : LogFile) (cs : list log_call) :
  g_file s = Some f -> lf_good f = false ->
  (forall p, call_output p ∉ cs) ->
  let s' := run_calls s cs in log_fs s' = log_fs s /\ log_cout s' = log_cout s.
Proof.
  intros Hf Hb. revert s Hf. induction cs as [|c cs IH]; intros s Hf Hn; [done|]. cbn zeta.
  change (run_calls s (c :: cs)) with (run_calls (run_call s c) cs).
  assert (g_file (run_call s c) = Some f /\ log_fs (run_call s c) = log_fs s /\
          log_cout (run_call s c) = log_cout s) as (H1 & <- & <-).
  { destruct c as [l|p|t l m fl n]; [done|by destruct (Hn p); left|]. cbn [run_call]. unfold Log.
    destruct (log_skipped _ _); [done|]. by rewrite Hf, Hb. }
  apply IH; [done|]. intros p Hp. apply (Hn p). by right.
Qed.

Lemma logger_mute_after_failure_witness :
  let noon := mkTm 2026 2 8 12 0 0 in
  let s := run_calls (logger_init (mkFS true ∅ [io_ok; io_short 3]))
             [call_output (str "nova.log"); call_log noon Info (str "torn") (str "a.cpp") 1] in
  let s' := run_calls s [call_log noon Fatal (str "lost") (str "a.cpp") 2] in
  fs_io (log_fs s) = [] /\ log_fs s' = log_fs s /\ log_cout s' = log_cout s.
Proof.
  split; [reflexivity|].
  refine (logger_mute_after_failure _ (mkLogFile (str "nova.log") false) _ _ _ _); [reflexivity..|].
  intros p Hp. apply list_elem_of_singleton in Hp. discriminate Hp.
Defined.
